(* ===== verification/_CoqProject ===== *)
-Q . S2P
Prelude.v
Wildcard.v
Json.v
Helpers.v
Pool.v
Backoff.v
Scripts.v
Request.v
Utils.v
Certificates.v
Proxy.v
TryCerts.v
HttpExecutor.v
WsExecutor.v
RepeaterServer.v
Launcher.v
Startup.v
CommandHub.v
Serving.v
Inflight.v
Deployment.v
System.v
Polling.v
Api.v
McpTools.v
McpStops.v
McpServer.v
Traceroute.v
Config.v
Options.v
RepeaterCommand.v
EndToEnd.v
Commands.v
Archive.v
Wizard.v
Container.v
