(* ===== verification/Prelude.v ===== *)
(** * Bright CLI: a verification of the repeater and of the clients around it

    The Bright CLI ([src/src]) is a command-line program with four jobs.  The _repeater_
    ([Repeater/], [RequestExecutor/], [Scripts/]) keeps a socket to the Bright cloud open,
    receives requests over it, sends them to targets inside a private network by HTTP or
    WebSocket and returns the responses.  The _REST clients_ ([Scan/], [Discovery/],
    [EntryPoint/], [Archive/]) start, poll and stop jobs of the cloud.  The _MCP server_ ([Mcp/])
    starts repeaters as child processes for an agent.  [Utils/] holds what they share, and
    [Commands/], [Config/], [Wizard/] and [container.ts] wire it all to the command line.

    ** How the parts interact

    [ServerRepeaterLauncher] subscribes its handlers to [DefaultRepeaterServer], which owns the
    socket, its reconnection timers and an event emitter.  A request event becomes a [Request] and goes
    through [DefaultRepeaterCommandHub] to the executor of its protocol.  The HTTP executor runs
    the virtual script of the host, resolves client certificates, configures libcurl, truncates
    the response and maps every failure to a response; the WebSocket executor does the same over a
    session of the ws package.  Scripts, proxy rules, Kerberos rules and certificates are all
    selected by a host wildcard.  The polling loops query the REST clients through [Backoff].

    ** Files

    - [Prelude]: results of fallible code, the nullish operators and [===] in [bright_scope],
      JavaScript strings (Latin-1 code units), insertion-ordered objects ([OMap], with its
      laws in the hint database [bright]), the record of a parsed URL and the interface
      [UrlApi] of the platform's URL parser, shared tactics and lemmas.
    - [Wildcard]: [Helpers.wildcardToRegExp] with the fragment of RegExp its text lies in, and
      the relation [glob] that it decides.
    - [Helpers]: the rest of [Utils/Helpers.ts] but for the pool: identifiers, cluster URLs,
      command lines and their escaping for cmd.exe, chunks, header lines, TLS error codes.
    - [Pool]: [Helpers.pool] as a step relation between the suspended loop and the promises.
    - [Backoff]: [Utils/Backoff.ts] and the retry predicates of the pollings.
    - [Scripts]: [VirtualScript], [DefaultVirtualScripts], [FSScriptLoader] and
      [DefaultRepeaterCommandHub.compileScripts].
    - [Request]: [RequestExecutor/Request.ts] and [Response.ts].
    - [Utils]: [ErrorMessageFactory], [NormalizeZlibDeflateTransformStream] and [Logger].
    - [Certificates]: the cache of working client certificates behind the interface
      [CertificatesCache] with [CertificatesCacheLaws], the resolver proved against the
      interface, and the loader of trusted roots.
    - [Proxy]: [DefaultProxyFactory], [PatchedHttpsProxyAgent].
    - [TryCerts]: [tryRequestWithCertificates] of both executors: concurrent tasks over one
      shared, mutable request, as a step relation.
    - [HttpExecutor], [WsExecutor]: the two request executors.
    - [RepeaterServer]: handler registration, event forwarding and reconnection delays of
      [DefaultRepeaterServer]; [Launcher]: launcher and server together as a state machine
      driven by socket events, timers, [run] in the foreground and [close].
    - [CommandHub]: acknowledgement of request events, network tests, runtime detection with a
      backtracking matcher for the expression that reads /etc/os-release.
    - [Serving]: the hub composed with both executors, as one request event is served;
      [Inflight]: all requests of a session at once, interleaved over the certificate cache, the
      scripts and the limits they share; [Deployment]: the deployment of the repeater after each
      connection, as races on top of the session of [Launcher]; [System]: session and requests as
      one system, over the objects they share.
    - [Polling]: severities and breakpoints, [BasePolling], [DiscoveryPolling] and
      [HostUpdateJobStatusPolling].
    - [Api]: requests and bodies of [RestScans], [RestDiscoveries], [RestEntryPoints].
    - [McpTools]: the registry of repeater processes and the redaction of secrets; [McpStops]: calls
      to stop a process, interleaved with everything else; [McpServer]:
      the tools that are listed, the dispatch of calls, the mcp command and its shutdown.
    - [Json]: JSON values with [JSON.stringify] and [JSON.parse], and their round trip.
    - [Startup]: [DefaultStartupManager] over the interface [OsService] of the service manager,
      and the daemon side of the launcher.
    - [Traceroute]: [Utils/Traceroute.ts]: the packets, and the trace as a step function over the
      callbacks of the event loop.
    - [Config]: [SystemConfigManager] (rotation of the cached configuration),
      [DefaultConfigReader], [CliInfo] and the middlewares of [CliBuilder].
    - [Options]: the option declarations of all commands as data, and what yargs enforces of
      them ([accepted]).
    - [RepeaterCommand]: coercions, checks and handler of [Commands/RunRepeater.ts]; [EndToEnd]: the
      handler and the running repeater of [System] together;
      [Commands]: the handlers of the scan, discovery, entry point and version commands.
    - [Archive]: parsers, validators and uploads of [Archive/], and [Commands/UploadArchive.ts].
    - [Wizard]: tokens, connectivity tests and dialogue of [Wizard/], and
      [Commands/Configure.ts].
    - [Container]: the registrations of [container.ts], constructor dependencies and the wiring of
      each command, as a graph.

    ** What the theorems show

    - Selection: the compiled wildcard matches what the wildcard means (C5); certificates,
      proxies and Kerberos are chosen by it ([executor_selection], C20), scripts too ([load_order_irrelevant]);
      encrypted targets get a tunnelling agent from the proxy factory
      ([createProxyForClient_sound]).
    - Concurrency: the pool respects its limit, keeps the order of results, never deadlocks
      and ends (C6 to C9); probing certificates pairs the response with the remembered
      certificate and settles (C10, [try_certs_settles]).
    - The session: open or closed as a whole in every reachable state (C11), closed by critical
      errors (C12); the repeater command leaves it open or closed, never between, and its signals
      close it (C18), a service closes it before it stops ([service_stop_closes]), and installing
      one registers the right command line (C38).
    - The repeater as a whole, from the accepted command line on: the handler opens a session with
      executors built from its arguments, each request event has one job through everything that can
      happen to the session ([repeater_serves]), with the scripts and limits sent last, and every
      request is answered in the end (C1).
    - The session at work: however many requests are in flight and whatever the cloud sends meanwhile,
      each is answered at most once and for its own event (C3), none is left behind (C2), and
      what the shared certificate cache serves was tried with success and stays (C4); a
      deployment is decided by its first event and reported accordingly (C13).
    - Executors: always answer (C14, C15), pass the request on (C16, [buildRawPath_verbatim]), bound
      what they return (C17); the request they work on keeps its invariant (C21,
      [setHeaders_override]); accepted arguments give a working executor (C19); and composed with the
      hub they answer every valid request event ([request_acknowledged], [request_answered]).
    - Traceroute: the event-driven trace refines a hop-by-hop reference and ends (C22), its
      counters are consistent under every interleaving (C23), probe numbers survive the
      network (C24), the number of hops is bounded ([options_bounds]).
    - Jobs: pollings end (C25, [view_polling_terminates]) and end for a reason ([poll_verdict]), which
      the exit code tells (C26); back-off is bounded in number of retries ([execute_retries]);
      pages are concatenated exactly (C35) and printed ([entrypoints_list_prints]); a scan that
      is accepted says what to scan (C27); bodies hold current names
      ([deprecated_locations_replaced]).
    - Uploads: HAR files are accepted for the stated reasons (C36) and what is sent is what was
      checked (C37).
    - The command line: no two options of a command collide and references resolve (C28);
      exclusions and domain lists mean what was written ([exclusion_roundtrip], [domains_coercion]);
      every log level that is accepted selects a level ([log_level_choices]); everything a
      command asks of the container can be built ([wiring_complete]).
    - State on disk: the configuration is rotated once per hour (C39) and read as written
      ([reader_load_json], [config_option_reads]); the wizard remembers exactly valid credentials
      (C40) and its ping report is independent of the order of completion ([ping_report]).
    - Secrets and processes: escaping loses nothing (C29), redaction hides (C30), one process per id
      (C31), a call to stop one keeps its promise whatever happens meanwhile (C32), none is left
      behind at shutdown (C33), the tools listed are those served ([listed_tools_served],
      [session_one_process]), remote and local scripts do not mix (C34),
      roots come from one file ([load_roots]).
    - Behaviour that surprises, stated as the code has it: [refused_connection_throws],
      [try_certs_leak], [transformScript_identity], [ws_secure_agent],
      [spawn_failure_blocks_id], [default_backoff_sleep], [load_order_race],
      [off_shared_handler], [reconnection_delay_constant], [rolling_release_fallback],
      [final_state_unchecked], [discovery_error_silent], [log_files_always_gzip],
      [refused_proxy_half_open], [udp_reads_checksum], [late_lookup_exceeds_hops],
      [failed_trace_keeps_probing], [no_probes_never_stops], [flag_with_value_survives],
      [fresh_install_never_rotates], [discovery_headers_by_index], [empty_exclusion_refused],
      [swagger_v1_message], [numeric_version_throws], [upload_undefined_project],
      [stale_tokens_verified], [deployed_never_emitted], [one_reply_two_starts], [stack_swallowed],
      [refused_target_proxy_escapes].

    ** Parameters, bounds and fuel

    Code outside [src] is a parameter: the URL parsers, iconv and content-type parsing
    ([Codecs]), the file system, TLS contexts, Node's vm, libcurl ([transport], a relation from
    option lists to outcomes), sessions of ws, child processes, raw sockets and DNS, the service
    manager ([OsService] with [OsServiceLaws]), dates ([DateLaws]), YAML and JSON schemas, yargs, the
    operating system, and the answers of the cloud.  What theorems need of them are hypotheses,
    each with a witness.  Promises settle in any order: interleavings are step relations or
    relations over orders of completion, never one chosen schedule.  Fuel is proved enough where
    it occurs: a polling with timeout [t] and interval [i] ends within [t / i + 2] turns, however
    long the answers take (C25, C26), pagination within one page per fifty entries and one more
    (C35), parsing JSON within the length of the text ([parse_stringify]); the depth of the
    dependency graph is below six ([check_deps_sound] turns the check into the unbounded
    statement of [wiring_complete]).  Numbers of JavaScript that may be infinite or NaN are the type
    [number];
    the others are integers below 2^53 in the code and [Z] or [nat] here; the bytes and 16-bit
    numbers of ICMP packets are [Z] with their masks and shifts written out.

    ** Not modelled

    The build and lint configuration, the type declarations that carry no behaviour, the texts of
    option descriptions, colours and spinners of the terminal, and the third-party code named
    above.  Of [Config/CliBuilder.ts] and the commands, the parsing done by yargs is not
    modelled: handlers take parsed arguments, and [accepted] states the conflicts and
    implications yargs enforces. *)
From stdpp Require Export base tactics option list numbers sets strings relations.
From Stdlib Require Export Ascii.
From Stdlib Require String.

(** ** Results of fallible code *)

(** A JavaScript computation that may throw: [Ok v] is normal completion, [Err e] a
    thrown exception [e]. *)
Inductive result (E A : Type) : Type :=
| Ok (a : A)
| Err (e : E).
Arguments Ok {E A} a.
Arguments Err {E A} e.

#[export] Instance result_ret {E} : MRet (result E) := fun A a => Ok a.
#[export] Instance result_bind {E} : MBind (result E) := fun A B k r =>
  match r with Ok a => k a | Err e => Err e end.
#[export] Instance result_fmap {E} : FMap (result E) := fun A B f r =>
  match r with Ok a => Ok (f a) | Err e => Err e end.

#[export] Instance result_eq_dec {E A} `{EqDecision E, EqDecision A} :
  EqDecision (result E A).
Proof. solve_decision. Defined.

Definition is_ok {E A} (r : result E A) : bool :=
  match r with Ok _ => true | Err _ => false end.

(** [Array.prototype.map] with a callback that may throw: left to right, the first
    exception wins. *)
Fixpoint mapR {E A B} (f : A -> result E B) (l : list A) : result E (list B) :=
  match l with
  | [] => Ok []
  | x :: l => y ← f x; ys ← mapR f l; Ok (y :: ys)
  end.

(** [Array.prototype.reduce] with a callback that may throw. *)
Fixpoint foldR {E A B} (f : B -> A -> result E B) (acc : B) (l : list A) : result E B :=
  match l with
  | [] => Ok acc
  | x :: l => acc' ← f acc x; foldR f acc' l
  end.

(** ** Notations *)

Declare Scope bright_scope.
Delimit Scope bright_scope with bright.

(** The nullish coalescing operator; [undefined] and [null] are [None]. *)
Definition nullish {A} (o : option A) (d : A) : A :=
  match o with Some a => a | None => d end.
Notation "o ?? d" := (nullish o d) (at level 60, right associativity) : bright_scope.

Definition nullish_opt {A} (o d : option A) : option A :=
  match o with Some a => Some a | None => d end.
Notation "o ??? d" := (nullish_opt o d) (at level 60, right associativity) : bright_scope.

(** Boolean (==) on a type with decidable equality. *)
Definition eqb {A} `{EqDecision A} (x y : A) : bool := bool_decide (x = y).
Notation "x === y" := (eqb x y) (at level 70, no associativity) : bright_scope.

Global Open Scope bright_scope.

(** ** Strings *)

(** A JavaScript string is a sequence of code units; the model covers the units below
    256 (Latin-1), each an [ascii]. *)

Definition code (c : ascii) : N := N_of_ascii c.
Definition chr (n : N) : ascii := ascii_of_N n.

(** The double quote, which has no literal of its own here. *)
Definition dquote : string := String (chr 34) "".
Definition newline : string := String (chr 10) "".

Definition truthy (s : string) : bool := negb (s === "").
Definition truthy_opt (o : option string) : bool :=
  match o with Some s => truthy s | None => false end.

Fixpoint str_map (f : ascii -> ascii) (s : string) : string :=
  match s with
  | "" => ""
  | String c s => String (f c) (str_map f s)
  end.

Fixpoint str_flat_map (f : ascii -> string) (s : string) : string :=
  match s with
  | "" => ""
  | String c s => f c +:+ str_flat_map f s
  end.

Fixpoint str_all (p : ascii -> bool) (s : string) : bool :=
  match s with
  | "" => true
  | String c s => p c && str_all p s
  end.

Fixpoint str_any (p : ascii -> bool) (s : string) : bool :=
  match s with
  | "" => false
  | String c s => p c || str_any p s
  end.

Definition str_has (c : ascii) (s : string) : bool := str_any (fun d => d === c) s.

(** [String.prototype.toLowerCase] on Latin-1: A-Z and the letters U+00C0..U+00DE
    except the multiplication sign U+00D7. *)
Definition lower_char (c : ascii) : ascii :=
  let n := code c in
  if ((65 <=? n) && (n <=? 90) || (192 <=? n) && (n <=? 222) && negb (n =? 215))%N
  then chr (n + 32) else c.
Definition toLowerCase (s : string) : string := str_map lower_char s.

(** [String.prototype.toUpperCase] on Latin-1. U+00DF becomes the two letters SS; the
    upper case of U+00B5 and U+00FF lies outside Latin-1 and they are left alone. *)
Definition upper_char (c : ascii) : string :=
  let n := code c in
  if (n =? 223)%N then "SS"
  else if ((97 <=? n) && (n <=? 122) || (224 <=? n) && (n <=? 254) && negb (n =? 247))%N
  then String (chr (n - 32)) "" else String c "".
Definition toUpperCase (s : string) : string := str_flat_map upper_char s.

(** White space and line terminators below 256 (tab, LF, VT, FF, CR, space, NBSP). *)
Definition is_ws (c : ascii) : bool :=
  let n := code c in
  ((9 <=? n) && (n <=? 13) || (n =? 32) || (n =? 160))%N.

Fixpoint trimStart (s : string) : string :=
  match s with
  | "" => ""
  | String c t => if is_ws c then trimStart t else s
  end.
Fixpoint trimEnd (s : string) : string :=
  match s with
  | "" => ""
  | String c t => let t' := trimEnd t in
      if is_ws c && (t' === "") then "" else String c t'
  end.
Definition trim (s : string) : string := trimEnd (trimStart s).

Fixpoint startsWith (p s : string) : bool :=
  match p, s with
  | "", _ => true
  | String a p, String b s => (a === b) && startsWith p s
  | _, _ => false
  end.

Fixpoint str_drop (n : nat) (s : string) : string :=
  match n, s with
  | S n, String _ s => str_drop n s
  | _, _ => s
  end.
Fixpoint str_take (n : nat) (s : string) : string :=
  match n, s with
  | S n, String c s => String c (str_take n s)
  | _, _ => ""
  end.

(** [s.indexOf(p)]; [None] is -1. *)
Fixpoint indexOf (p s : string) : option nat :=
  if startsWith p s then Some 0
  else match s with
       | "" => None
       | String _ s => S <$> indexOf p s
       end.
Definition includes (p s : string) : bool :=
  match indexOf p s with Some _ => true | None => false end.

Fixpoint endsWith (p s : string) : bool :=
  (p === s) || match s with "" => false | String _ s => endsWith p s end.

(** [parts.join(sep)]. *)
Fixpoint join (sep : string) (l : list string) : string :=
  match l with
  | [] => ""
  | [s] => s
  | s :: l => s +:+ sep +:+ join sep l
  end.

(** [s.split(c)] for a separator of one character. *)
Fixpoint split_char (c : ascii) (s : string) : list string :=
  match s with
  | "" => [""]
  | String d s =>
      if d === c then "" :: split_char c s
      else match split_char c s with
           | [] => [String d ""]
           | p :: ps => String d p :: ps
           end
  end.

(** [s.split(sep)] for a non-empty separator: scan left to right, and after a match skip
    the remaining characters of the separator. *)
Fixpoint split_go (sep : string) (skip : nat) (s : string) : list string :=
  match skip, s with
  | _, "" => [""]
  | S k, String _ t => split_go sep k t
  | 0, String c t =>
      if startsWith sep s then "" :: split_go sep (String.length sep - 1) t
      else match split_go sep 0 t with
           | [] => [String c ""]
           | p :: ps => String c p :: ps
           end
  end.
Definition split_str (sep s : string) : list string := split_go sep 0 s.

(** ** Insertion-ordered maps *)

(** A [Map] keyed by strings, or an object used as a map, as its entries in insertion
    order. (An object lists keys that are array indices first; no key of the modelled
    code is one.) *)
Module OMap.

Section omap.
Context {V : Type}.
Implicit Types (m : list (string * V)) (k : string) (v : V).

Fixpoint get k m : option V :=
  match m with
  | [] => None
  | (k', v) :: m => if k' === k then Some v else get k m
  end.

Definition has k m : bool := match get k m with Some _ => true | None => false end.

(** Setting an existing key keeps its position. *)
Fixpoint set k v m : list (string * V) :=
  match m with
  | [] => [(k, v)]
  | (k', v') :: m => if k' === k then (k', v) :: m else (k', v') :: set k v m
  end.

Definition del k m : list (string * V) := base.filter (fun e => e.1 <> k) m.

Definition keys m : list string := m.*1.
Definition values m : list V := m.*2.

(** Object spread: [{ ...m1, ...m2 }]. *)
Definition merge m1 m2 : list (string * V) :=
  foldl (fun m e => set e.1 e.2 m) m1 m2.

Definition wf m : Prop := NoDup (keys m).

End omap.
End OMap.
Abbreviation strmap V := (list (string * V)).

(** ** Automation *)

Create HintDb bright discriminated.
Create Rewrite HintDb bright_rw.

Lemma eqb_true_iff {A} `{EqDecision A} (x y : A) : (x === y) = true <-> x = y.
Proof. apply bool_decide_eq_true. Qed.

Lemma eqb_false_iff {A} `{EqDecision A} (x y : A) : (x === y) = false <-> x <> y.
Proof. apply bool_decide_eq_false. Qed.

Lemma eqb_refl {A} `{EqDecision A} (x : A) : (x === x) = true.
Proof. by apply eqb_true_iff. Qed.

Lemma eqb_neq {A} `{EqDecision A} (x y : A) : x <> y -> (x === y) = false.
Proof. by rewrite eqb_false_iff. Qed.

Lemma eqbP {A} `{EqDecision A} (x y : A) : reflect (x = y) (x === y).
Proof. apply bool_decide_reflect. Qed.

Lemma eqb_sym {A} `{EqDecision A} (x y : A) : (x === y) = (y === x).
Proof. unfold eqb. apply bool_decide_ext. naive_solver. Qed.

#[export] Hint Rewrite @eqb_refl : bright_rw.

(** Case analysis on the first [===] of the goal, substituting in the equal case. *)
Ltac case_eqb :=
  match goal with
  | |- context [?x === ?y] => destruct (eqbP x y) as [?|?]; simplify_eq/=
  | H : context [?x === ?y] |- _ => destruct (eqbP x y) as [?|?]; simplify_eq/=
  end.

(** Invert a monadic chain that returned normally. *)
Lemma bind_Ok {E A B} (r : result E A) (k : A -> result E B) b :
  (r ≫= k) = Ok b <-> exists a, r = Ok a /\ k a = Ok b.
Proof.
  destruct r as [a|e]; simpl; [|split; [done|intros (?&?&?); done]].
  split; [eauto|]. intros (? & [= <-] & ?). done.
Qed.

Lemma bind_Err {E A B} (r : result E A) (k : A -> result E B) e :
  (r ≫= k) = Err e <-> r = Err e \/ exists a, r = Ok a /\ k a = Err e.
Proof.
  destruct r as [a|e']; simpl; split; [eauto|intros [?|(? & [= <-] & ?)]; done| |].
  - intros [= ->]. eauto.
  - intros [[= ->]|(? & ? & ?)]; done.
Qed.

Lemma Ok_inj {E A} (a b : A) : @Ok E A a = Ok b -> a = b.
Proof. by intros [= ->]. Qed.

Ltac inv_bind H :=
  repeat match type of H with
  | (_ ≫= _) = Ok _ =>
      let a := fresh "a" in let Ha := fresh "Ha" in
      apply bind_Ok in H as (a & Ha & H)
  end.

(** One element of a weighted list changes. *)
Lemma sum_list_with_insert {A} (f : A -> nat) (l : list A) i x y :
  l !! i = Some x -> sum_list_with f (<[i := y]> l) + f x = sum_list_with f l + f y.
Proof.
  revert i. induction l as [|z l IH]; intros [|i] Hi; simplify_eq/=; [lia|]. apply IH in Hi. lia.
Qed.

Lemma mapR_pure {E A B} (f : A -> B) (g : A -> result E B) l :
  (forall x, x ∈ l -> g x = Ok (f x)) -> mapR g l = Ok (f <$> l).
Proof.
  induction l as [|x l IH]; intros Hg; [done|]. simpl.
  rewrite Hg by set_solver. simpl. rewrite IH by set_solver. done.
Qed.

Lemma mapR_length {E A B} (f : A -> result E B) l l' :
  mapR f l = Ok l' -> length l' = length l.
Proof.
  revert l'. induction l as [|x l IH]; intros l' H; simpl in *; [by simplify_eq|].
  inv_bind H. simplify_eq/=. f_equal. eauto.
Qed.

(** ** List lemmas *)

Lemma filter_ext_elem {A} (P Q : A -> Prop) `{!forall x, Decision (P x)} `{!forall x, Decision (Q x)} (l : list A) :
  (forall x, x ∈ l -> P x <-> Q x) -> base.filter P l = base.filter Q l.
Proof.
  induction l as [|x l IH]; intros Hl; [done|]. rewrite !filter_cons.
  rewrite IH by set_solver. rewrite (decide_ext (P x) (Q x)) by (apply Hl; set_solver). done.
Qed.

Lemma filter_all {A} (P : A -> Prop) `{!forall x, Decision (P x)} (l : list A) :
  (forall x, x ∈ l -> P x) -> base.filter P l = l.
Proof.
  induction l as [|x l IH]; intros Hl; [done|].
  rewrite filter_cons_True by (apply Hl; set_solver). f_equal. apply IH. set_solver.
Qed.

Lemma find_Some_elem {A} (p : A -> bool) l x :
  List.find p l = Some x -> x ∈ l /\ p x = true.
Proof. rewrite list_elem_of_In. apply List.find_some. Qed.

Lemma find_unique {A} (p : A -> bool) l x :
  x ∈ l -> p x = true -> (forall y, y ∈ l -> p y = true -> y = x) -> List.find p l = Some x.
Proof.
  intros Hx Hp Hu. destruct (List.find p l) as [y|] eqn:Hf.
  - apply find_Some_elem in Hf as [Hy Hpy]. f_equal. eauto.
  - eapply List.find_none in Hf; [|by apply list_elem_of_In]. congruence.
Qed.

Lemma find_None_elem {A} (p : A -> bool) l :
  (forall y, y ∈ l -> p y = false) -> List.find p l = None.
Proof.
  intros H. destruct (List.find p l) as [y|] eqn:Hf; [|done].
  apply find_Some_elem in Hf as [Hy Hpy]. rewrite H in Hpy; done.
Qed.

(** ** String lemmas *)

Lemma app_str_cons c s1 s2 : String c s1 +:+ s2 = String c (s1 +:+ s2).
Proof. done. Qed.

Lemma app_str_nil_r s : s +:+ "" = s.
Proof. induction s as [|c s IH]; [done|]. by rewrite app_str_cons, IH. Qed.

Lemma app_str_assoc s1 s2 s3 : s1 +:+ (s2 +:+ s3) = (s1 +:+ s2) +:+ s3.
Proof. induction s1 as [|c s IH]; [done|]. by rewrite !app_str_cons, IH. Qed.

Lemma app_str_nil_l s : "" +:+ s = s.
Proof. done. Qed.

Lemma length_app_str s1 s2 :
  String.length (s1 +:+ s2) = String.length s1 + String.length s2.
Proof. induction s1 as [|c s IH]; [done|]. rewrite app_str_cons. simpl. lia. Qed.

#[export] Hint Rewrite app_str_nil_r app_str_nil_l app_str_cons : bright_rw.

Lemma startsWith_spec p s : startsWith p s = true <-> exists t, s = p +:+ t.
Proof.
  revert s. induction p as [|a p IH]; intros s; simpl.
  { split; [eauto|done]. }
  destruct s as [|b s]; [split; [done|intros [? ?]; done]|].
  rewrite andb_true_iff, eqb_true_iff, IH. split.
  - intros [-> [t ->]]. by exists t.
  - intros [t Ht]. rewrite app_str_cons in Ht. naive_solver.
Qed.

Lemma startsWith_app p s : startsWith p (p +:+ s) = true.
Proof. apply startsWith_spec. eauto. Qed.

Lemma str_drop_app p s : str_drop (String.length p) (p +:+ s) = s.
Proof. by induction p. Qed.

Lemma str_all_app p s1 s2 : str_all p (s1 +:+ s2) = str_all p s1 && str_all p s2.
Proof.
  induction s1 as [|c s IH]; [done|]. rewrite app_str_cons. simpl.
  by rewrite IH, andb_assoc.
Qed.

Lemma str_any_app p s1 s2 : str_any p (s1 +:+ s2) = str_any p s1 || str_any p s2.
Proof.
  induction s1 as [|c s IH]; [done|]. rewrite app_str_cons. simpl.
  by rewrite IH, orb_assoc.
Qed.

Lemma join_cons sep s1 s2 l : join sep (s1 :: s2 :: l) = s1 +:+ sep +:+ join sep (s2 :: l).
Proof. done. Qed.

Lemma str_flat_map_app f s1 s2 :
  str_flat_map f (s1 +:+ s2) = str_flat_map f s1 +:+ str_flat_map f s2.
Proof.
  induction s1 as [|c s IH]; [done|]. rewrite app_str_cons. simpl. by rewrite IH, app_str_assoc.
Qed.

(** A property of every character, by evaluation on the 256 of them. *)
Lemma ascii_all (p : ascii -> bool) :
  List.forallb (fun n => p (chr (N.of_nat n))) (seq 0 256) = true -> forall c, p c = true.
Proof.
  intros Hp c. rewrite List.forallb_forall in Hp. specialize (Hp (N.to_nat (N_of_ascii c))).
  rewrite N2Nat.id in Hp. unfold chr in Hp. rewrite ascii_N_embedding in Hp. apply Hp.
  apply List.in_seq. pose proof (N_ascii_bounded c). lia.
Qed.

Lemma toUpperCase_idem s : toUpperCase (toUpperCase s) = toUpperCase s.
Proof.
  unfold toUpperCase. induction s as [|c s IH]; [done|]. simpl. rewrite str_flat_map_app, IH.
  f_equal. apply eqb_true_iff. revert c. apply ascii_all. vm_compute. reflexivity.
Qed.

Lemma trimStart_head s : trimStart s = "" \/ exists c t, trimStart s = String c t /\ is_ws c = false.
Proof.
  induction s as [|c s IH]; simpl; [auto|]. destruct (is_ws c) eqn:E; [done|]. right. eauto.
Qed.

Lemma trimEnd_idem s : trimEnd (trimEnd s) = trimEnd s.
Proof.
  induction s as [|c s IH]; [done|]. simpl.
  destruct (is_ws c && (trimEnd s === "")) eqn:E; [done|]. simpl. by rewrite IH, E.
Qed.

Lemma trim_idem s : trim (trim s) = trim s.
Proof.
  unfold trim. destruct (trimStart_head s) as [->|(c & t & -> & Hc)]; [done|].
  simpl. rewrite Hc. simpl. rewrite Hc. simpl. by rewrite trimEnd_idem, Hc.
Qed.

Lemma startsWith_app_long p s t :
  String.length p <= String.length s -> startsWith p (s +:+ t) = startsWith p s.
Proof.
  revert s. induction p as [|a p IH]; intros s Hl; [done|]. destruct s as [|b s]; [simpl in *; lia|].
  rewrite app_str_cons. simpl in *. rewrite IH by lia. done.
Qed.

Lemma split_go_skip sep s t : split_go sep (String.length s) (s +:+ t) = split_go sep 0 t.
Proof. by induction s. Qed.

(** [split] cuts at the first occurrence of the separator. *)
Lemma split_first sep s t :
  sep <> "" -> indexOf sep (s +:+ sep) = Some (String.length s) ->
  split_str sep (s +:+ sep +:+ t) = s :: split_str sep t.
Proof.
  intros Hsep. unfold split_str. induction s as [|c s IH]; intros Hi.
  - destruct sep as [|a sep]; [done|]. rewrite app_str_nil_l, app_str_cons. cbn [split_go].
    rewrite <- app_str_cons, startsWith_app. f_equal. simpl. rewrite Nat.sub_0_r.
    apply split_go_skip.
  - rewrite !app_str_cons in *. cbn [split_go]. simpl in Hi.
    rewrite <- app_str_cons, (app_str_assoc _ sep), startsWith_app_long
      by (rewrite length_app_str; lia).
    rewrite app_str_cons. destruct (startsWith sep (String c (s +:+ sep))) eqn:E; [done|].
    rewrite IH; [done|].
    destruct (indexOf sep (s +:+ sep)); simplify_eq/=; done.
Qed.

(** Sub-strings. *)
Definition substr (p s : string) : Prop := exists a b, s = a +:+ p +:+ b.

Lemma includes_spec p s : includes p s = true <-> substr p s.
Proof.
  unfold includes, substr. induction s as [|c s IH]; simpl.
  - destruct (startsWith p "") eqn:E.
    + apply startsWith_spec in E as [t E]. split; [|done]. exists "", t. done.
    + split; [done|]. intros (a & b & H). destruct a; [|done].
      rewrite app_str_nil_l in H. rewrite H in E. by rewrite startsWith_app in E.
  - destruct (startsWith p (String c s)) eqn:E.
    + apply startsWith_spec in E as [t ->]. split; [|done]. by exists "", t.
    + destruct (indexOf p s) as [i|] eqn:Ei; simpl.
      * split; [|done]. intros _. destruct (proj1 IH) as (a & b & ->); [done|].
        by exists (String c a), b.
      * split; [done|]. intros (a & b & H). destruct a as [|d a].
        { rewrite app_str_nil_l in H. rewrite H in E. by rewrite startsWith_app in E. }
        rewrite app_str_cons in H. simplify_eq. apply IH. eauto.
Qed.

(** ** Ordered-map lemmas *)

Section omap_lemmas.
Context {V : Type}.
Implicit Types (m : list (string * V)) (k : string) (v : V).

Lemma get_set_eq k v m : OMap.get k (OMap.set k v m) = Some v.
Proof. induction m as [|[k' v'] m IH]; simpl; repeat (case_eqb; try done). Qed.

Lemma get_set_ne k k' v m : k <> k' -> OMap.get k' (OMap.set k v m) = OMap.get k' m.
Proof. intros. induction m as [|[k1 v1] m IH]; simpl; repeat (case_eqb; try done). Qed.

Lemma get_del_eq k m : OMap.get k (OMap.del k m) = None.
Proof.
  unfold OMap.del. induction m as [|[k1 v1] m IH]; [done|].
  rewrite filter_cons. case_decide; simpl; [|done]. by rewrite eqb_neq.
Qed.

Lemma get_del_ne k k' m : k <> k' -> OMap.get k' (OMap.del k m) = OMap.get k' m.
Proof.
  intros. unfold OMap.del. induction m as [|[k1 v1] m IH]; [done|].
  rewrite filter_cons. case_decide; simpl in *; [by case_eqb|].
  destruct (decide (k1 = k)); [subst|done]. by rewrite eqb_neq.
Qed.

Lemma get_None k m : OMap.get k m = None <-> k ∉ OMap.keys m.
Proof.
  unfold OMap.keys. induction m as [|[k1 v1] m IH]; simpl; [set_solver|].
  case_eqb; set_solver.
Qed.

Lemma get_Some_elem k v m : OMap.get k m = Some v -> (k, v) ∈ m.
Proof. induction m as [|[k1 v1] m IH]; simpl; [done|]. case_eqb; set_solver. Qed.

Lemma get_elem_wf k v m : OMap.wf m -> (k, v) ∈ m -> OMap.get k m = Some v.
Proof.
  unfold OMap.wf, OMap.keys. induction m as [|[k1 v1] m IH]; simpl; [set_solver|].
  intros [Hn Hd]%NoDup_cons [?|Hin]%elem_of_cons; simplify_eq/=; [by rewrite eqb_refl|].
  rewrite eqb_neq; [by apply IH|]. intros ->. apply Hn. by apply (list_elem_of_fmap_2 fst) in Hin.
Qed.

Lemma keys_set k v m :
  OMap.keys (OMap.set k v m) = if OMap.has k m then OMap.keys m else OMap.keys m ++ [k].
Proof.
  unfold OMap.has, OMap.keys. induction m as [|[k1 v1] m IH]; simpl; [done|].
  case_eqb; [done|]. rewrite IH. by destruct (OMap.get k m).
Qed.

Lemma set_fresh k v m : k ∉ OMap.keys m -> OMap.set k v m = m ++ [(k, v)].
Proof.
  unfold OMap.keys. induction m as [|[k1 v1] m IH]; simpl; [done|]. intros Hk.
  rewrite eqb_neq by set_solver. by rewrite IH by set_solver.
Qed.

Lemma elem_of_set k v m e : e ∈ OMap.set k v m -> e = (k, v) \/ e ∈ m.
Proof.
  induction m as [|[k1 v1] m IH]; simpl; [set_solver|].
  case_eqb; rewrite !elem_of_cons; naive_solver.
Qed.

Lemma wf_nil : OMap.wf (V := V) [].
Proof. apply NoDup_nil_2. Qed.

Lemma wf_set k v m : OMap.wf m -> OMap.wf (OMap.set k v m).
Proof.
  unfold OMap.wf. rewrite keys_set. unfold OMap.has.
  destruct (OMap.get k m) eqn:E; [done|]. apply get_None in E.
  intros. apply NoDup_app. set_solver by eauto using NoDup_singleton.
Qed.

Lemma wf_del k m : OMap.wf m -> OMap.wf (OMap.del k m).
Proof.
  unfold OMap.wf, OMap.keys, OMap.del. induction m as [|[k1 v1] m IH]; [done|].
  simpl. intros [Hn Hd]%NoDup_cons. rewrite filter_cons. case_decide; [|eauto].
  simpl. apply NoDup_cons; split; [|eauto]. intros Hin. apply Hn.
  apply list_elem_of_fmap in Hin as ([k2 v2] & ? & [_ Hin']%list_elem_of_filter); simplify_eq/=.
  by apply (list_elem_of_fmap_2 fst) in Hin'.
Qed.

Lemma wf_merge m1 m2 : OMap.wf m1 -> OMap.wf (OMap.merge m1 m2).
Proof.
  unfold OMap.merge. revert m1. induction m2 as [|[k v] m2 IH]; intros; simpl; eauto using wf_set.
Qed.

Lemma get_merge_ne k m1 m2 : k ∉ OMap.keys m2 -> OMap.get k (OMap.merge m1 m2) = OMap.get k m1.
Proof.
  unfold OMap.merge, OMap.keys. revert m1. induction m2 as [|[k2 v2] m2 IH]; intros m1 Hk; [done|].
  simpl in *. rewrite IH by set_solver. apply get_set_ne. set_solver.
Qed.

(** The right operand of a spread wins. *)
Lemma get_merge k m1 m2 :
  OMap.wf m2 -> OMap.get k (OMap.merge m1 m2) = OMap.get k m2 ??? OMap.get k m1.
Proof.
  unfold OMap.wf. revert m1. induction m2 as [|[k2 v2] m2 IH]; intros m1 Hwf; [done|].
  simpl in *. apply NoDup_cons in Hwf as [Hn Hwf]. unfold OMap.merge in *. simpl.
  case_eqb.
  - rewrite (get_merge_ne _ (OMap.set k v2 m1) m2) by done. by rewrite get_set_eq.
  - rewrite IH by done. by rewrite get_set_ne.
Qed.

Lemma keys_merge_subset m1 m2 :
  (forall k, k ∈ OMap.keys m2 -> k ∈ OMap.keys m1) -> OMap.keys (OMap.merge m1 m2) = OMap.keys m1.
Proof.
  unfold OMap.merge. revert m1. induction m2 as [|[k v] m2 IH]; intros m1 Hk; [done|]. simpl.
  assert (OMap.keys (OMap.set k v m1) = OMap.keys m1) as Hset.
  { rewrite keys_set. unfold OMap.has. destruct (OMap.get k m1) eqn:E; [done|].
    apply get_None in E. exfalso. apply E, Hk. unfold OMap.keys. set_solver. }
  rewrite IH; [done|]. intros k' Hk'. rewrite Hset. apply Hk. unfold OMap.keys in *. set_solver.
Qed.

Lemma elem_of_keys_merge k m1 m2 :
  k ∈ OMap.keys (OMap.merge m1 m2) <-> k ∈ OMap.keys m1 \/ k ∈ OMap.keys m2.
Proof.
  unfold OMap.merge. revert m1. induction m2 as [|[k2 v2] m2 IH]; intros m1; simpl.
  - unfold OMap.keys. set_solver.
  - rewrite IH, keys_set. unfold OMap.has. destruct (OMap.get k2 m1) eqn:E.
    + assert (k2 ∈ OMap.keys m1) by (apply get_Some_elem in E; by apply (list_elem_of_fmap_2 fst) in E).
      unfold OMap.keys in *. set_solver.
    + unfold OMap.keys in *. set_solver.
Qed.

Lemma merge_nil_l m : OMap.wf m -> OMap.merge [] m = m.
Proof.
  intros Hwf. change m with ([] ++ m) at 2. unfold OMap.merge.
  assert (OMap.wf ([] ++ m)) as Hwf' by done. clear Hwf. revert Hwf'.
  generalize (@nil (string * V)). induction m as [|[k v] m IH]; intros m0 Hwf; simpl.
  { by rewrite app_nil_r. }
  rewrite set_fresh.
  - rewrite IH; rewrite <- (assoc_L (++)); done.
  - unfold OMap.wf, OMap.keys in *. rewrite fmap_app in Hwf. simpl in Hwf.
    apply NoDup_app in Hwf as (_ & Hd & _). intros Hk. apply (Hd _ Hk). set_solver.
Qed.

(** Maps without duplicates that list the same keys and agree on them are equal. *)
Lemma omap_ext m1 m2 :
  OMap.wf m1 -> OMap.keys m1 = OMap.keys m2 ->
  (forall k, OMap.get k m1 = OMap.get k m2) -> m1 = m2.
Proof.
  unfold OMap.wf, OMap.keys. revert m2.
  induction m1 as [|[k1 v1] m1 IH]; intros [|[k2 v2] m2] Hwf Hk Hg; try done; simpl in *.
  injection Hk as <- Hk.
  apply NoDup_cons in Hwf as [Hn Hwf]. f_equal.
  - specialize (Hg k1). rewrite !eqb_refl in Hg. congruence.
  - apply IH; [done..|]. intros k. specialize (Hg k). case_eqb; [|done].
    assert (k ∉ m2.*1) as Hn2 by (change (m1.*1 = m2.*1) in Hk; by rewrite <- Hk).
    apply get_None in Hn, Hn2. congruence.
Qed.

End omap_lemmas.

#[export] Hint Resolve wf_nil wf_set wf_del wf_merge : bright.

(** ** Thrown values and URLs *)

(** An [Error] object with the fields the code reads: [name], [message], [code],
    [syscall], [info], [status], [cause], the [error] field of API errors, and what
    [axios.isAxiosError] and [error.response?.data] give ([e_data] when it is a string). *)
#[warnings="-register-all"] Inductive js_error : Type := mk_error {
  e_name : string;
  e_message : string;
  e_code : option string;
  e_syscall : option string;
  e_info : option string;
  e_error : option string;
  e_axios : bool;
  e_status : option Z;
  e_data : option string;
  e_cause : option js_error
}.

(** [new Error(msg)], and an error of a named class. *)
Definition named_error (name msg : string) : js_error :=
  mk_error name msg None None None None false None None None.
Definition new_Error (msg : string) : js_error := named_error "Error" msg.
Definition TypeError (msg : string) : js_error := named_error "TypeError" msg.

(** [assert.ok] on a failing condition. *)
Definition AssertionError (msg : string) : js_error :=
  mk_error "AssertionError" msg (Some "ERR_ASSERTION") None None None false None None None.

Definition throw {A} (msg : string) : result js_error A := Err (new_Error msg).
Definition ok (b : bool) (msg : string) : result js_error unit :=
  if b then Ok tt else Err (AssertionError msg).

(** The fields of a WHATWG URL the code reads. *)
Record URL : Type := mk_URL {
  u_protocol : string;
  u_host : string;
  u_hostname : string;
  u_port : string
}.

(** The URL parser of the platform, [None] where the constructor throws.  Its
    specification is not part of this repository: theorems that need more than a function
    state it through [UrlLaws]. *)
Class UrlApi : Type := new_URL : string -> option URL.

(** Documented behaviour of the URL parser: a port is a run of digits, empty for the
    default port of the scheme. *)
Definition is_digit (c : ascii) : bool := ((48 <=? code c) && (code c <=? 57))%N.
Class UrlLaws `{UrlApi} : Prop :=
  url_port_digits : forall s u, new_URL s = Some u -> str_all is_digit (u_port u) = true.
