(* ===== verification/Wildcard.v ===== *)
(** * Host wildcards: [Helpers.wildcardToRegExp]

    The function builds the source text of a regular expression from a wildcard and hands it to
    the [RegExp] constructor; scripts, proxy rules, Kerberos rules and client certificates
    are all selected by testing a host against the result.  The file models the text the
    function builds, the fragment of the RegExp grammar that text is written in and its
    matching, and relates the whole pipeline to the meaning of a wildcard. *)
From S2P Require Import Prelude.

(** ** The code *)

(** The characters of the class [/[|\\{}()[\]^$+*?.]/]. *)
Definition re_special (c : ascii) : bool :=
  match c with
  | "|" | "\" | "{" | "}" | "(" | ")" | "[" | "]" | "^" | "$" | "+" | "*" | "?" | "." => true
  | _ => false
  end%char.

(** [s.replace(/[|\\{}()[\]^$+*?.]/g, '\\$&')]. *)
Definition regExpEscape (s : string) : string :=
  str_flat_map (fun c => if re_special c then String "\" (String c "") else String c "") s.

Definition is_star (c : ascii) : bool := c === "*"%char.

Definition heads_star (s : string) : bool :=
  match s with String c _ => is_star c | "" => false end.

(** Put a character in front of the first part of a split. *)
Definition push_head (c : ascii) (l : list string) : list string :=
  match l with [] => [String c ""] | p :: ps => String c p :: ps end.

(** [s.split(/\*+/)]: the separator is a maximal run of stars. *)
Fixpoint split_stars (s : string) : list string :=
  match s with
  | "" => [""]
  | String c t =>
      if is_star c then
        if heads_star t then split_stars t else "" :: split_stars t
      else push_head c (split_stars t)
  end.

(** The source text passed to [new RegExp]. *)
Definition wildcardSource (s : string) : string :=
  "^" +:+ join ".*" (regExpEscape <$> split_stars s) +:+ "$".

(** ** The fragment of RegExp *)

Inductive re_atom : Type :=
| RLit (c : ascii)
| RAny.

(** Sources of the shape [^ atoms $], an atom being a literal, an escaped syntax character
    or [.*]; anything else is outside the fragment ([None]). *)
Fixpoint parse_atoms (s : string) : option (list re_atom) :=
  match s with
  | String "$" EmptyString => Some []
  | String "." (String "*" t) => cons RAny <$> parse_atoms t
  | String "\" (String c t) =>
      if re_special c then cons (RLit c) <$> parse_atoms t else None
  | String c t => if re_special c then None else cons (RLit c) <$> parse_atoms t
  | EmptyString => None
  end%char.

Definition RegExp_parse (src : string) : option (list re_atom) :=
  match src with String "^" t => parse_atoms t | _ => None end%char.

(** The dot matches everything but a line terminator (LF and CR below 256). *)
Definition line_term (c : ascii) : bool := ((code c =? 10) || (code c =? 13))%N.

Fixpoint re_match (r : list re_atom) (s : string) : bool :=
  match r with
  | [] => s === ""
  | RLit c :: r => match s with String d s => (d === c) && re_match r s | "" => false end
  | RAny :: r =>
      (fix any s :=
         re_match r s ||
         match s with String d s => negb (line_term d) && any s | "" => false end) s
  end.

(** [new RegExp(src).test(s)] on that fragment. *)
Definition RegExp_test (r : option (list re_atom)) (s : string) : bool :=
  match r with Some r => re_match r s | None => false end.

Definition wildcardToRegExp (s : string) : option (list re_atom) :=
  RegExp_parse (wildcardSource s).

(** [Helpers.wildcardToRegExp(w).test(h)]. *)
Definition wildcard_test (w h : string) : bool := RegExp_test (wildcardToRegExp w) h.

(** ** The specification *)

(** A star stands for any run of characters without a line terminator, every other character
    for itself. *)
Inductive glob : string -> string -> Prop :=
| glob_nil : glob "" ""
| glob_char c w h : is_star c = false -> glob w h -> glob (String c w) (String c h)
| glob_skip w h : glob w h -> glob (String "*" w) h
| glob_take c w h :
    line_term c = false -> glob (String "*" w) h -> glob (String "*" w) (String c h).
#[export] Hint Constructors glob : bright.

(** ** The compiled form *)

Fixpoint atoms (w : string) : list re_atom :=
  match w with
  | "" => []
  | String c t =>
      if is_star c then if heads_star t then atoms t else RAny :: atoms t
      else RLit c :: atoms t
  end.

Lemma is_star_true c : is_star c = true -> c = "*"%char.
Proof. apply eqb_true_iff. Qed.

Lemma regExpEscape_cons c s :
  regExpEscape (String c s) =
  (if re_special c then String "\" (String c "") else String c "") +:+ regExpEscape s.
Proof. done. Qed.

Lemma split_stars_cons s : exists p ps, split_stars s = p :: ps.
Proof.
  induction s as [|c s (p & ps & IH)]; simpl; [eauto|].
  rewrite IH. destruct (is_star c), (heads_star s); simpl; eauto.
Qed.

Lemma parse_atoms_lit c t :
  parse_atoms (regExpEscape (String c "") +:+ t) = cons (RLit c) <$> parse_atoms t.
Proof.
  rewrite regExpEscape_cons. destruct (re_special c) eqn:Hc.
  - rewrite app_str_nil_r, !app_str_cons, app_str_nil_l. simpl. by rewrite Hc.
  - rewrite app_str_nil_r, app_str_cons, app_str_nil_l.
    by destruct c as [[] [] [] [] [] [] [] []].
Qed.

Lemma join_escaped c p ps :
  join ".*" (regExpEscape <$> (String c p :: ps)) =
  regExpEscape (String c "") +:+ join ".*" (regExpEscape <$> (p :: ps)).
Proof.
  rewrite !fmap_cons, !(regExpEscape_cons c). simpl (regExpEscape "").
  rewrite app_str_nil_r. destruct ps; simpl; by rewrite ?app_str_assoc.
Qed.

Lemma parse_join w :
  parse_atoms (join ".*" (regExpEscape <$> split_stars w) +:+ "$") = Some (atoms w).
Proof.
  induction w as [|c w IH]; [done|]. simpl.
  destruct (is_star c) eqn:Hc; [destruct (heads_star w); [done|]|].
  - destruct (split_stars_cons w) as (p & ps & Hp). rewrite Hp in IH |- *.
    rewrite 2!fmap_cons, join_cons, <- fmap_cons, <- !app_str_assoc.
    simpl (regExpEscape ""). rewrite app_str_nil_l, !app_str_cons, app_str_nil_l.
    change (cons RAny <$> parse_atoms (join ".*" (regExpEscape <$> p :: ps) +:+ "$") =
            Some (RAny :: atoms w)).
    by rewrite IH.
  - destruct (split_stars_cons w) as (p & ps & Hp). rewrite Hp in IH |- *.
    simpl push_head. rewrite join_escaped, <- app_str_assoc, parse_atoms_lit, IH. done.
Qed.

Lemma wildcardToRegExp_atoms w : wildcardToRegExp w = Some (atoms w).
Proof. unfold wildcardToRegExp, wildcardSource. rewrite app_str_cons. apply parse_join. Qed.

Lemma re_match_any r s :
  re_match (RAny :: r) s =
  re_match r s ||
  match s with String d s => negb (line_term d) && re_match (RAny :: r) s | "" => false end.
Proof. by destruct s. Qed.

Lemma glob_star_star w h : glob (String "*" (String "*" w)) h <-> glob (String "*" w) h.
Proof.
  split; [|eauto with bright].
  remember (String "*" (String "*" w)) as ww eqn:E. induction 1; simplify_eq/=; eauto with bright.
Qed.

Lemma glob_star_inv w h :
  glob (String "*" w) h <->
  glob w h \/ exists c h', h = String c h' /\ line_term c = false /\ glob (String "*" w) h'.
Proof.
  split; [inversion 1; simplify_eq/=; eauto 10|].
  intros [?|(? & ? & -> & ? & ?)]; eauto with bright.
Qed.

Lemma re_match_star w h :
  (forall h, re_match (atoms w) h = true <-> glob w h) ->
  re_match (RAny :: atoms w) h = true <-> glob (String "*" w) h.
Proof.
  intros IH. induction h as [|d h IHh]; rewrite re_match_any, glob_star_inv, orb_true_iff, IH.
  - naive_solver.
  - rewrite andb_true_iff, negb_true_iff, IHh. naive_solver.
Qed.

Lemma re_match_atoms w h : re_match (atoms w) h = true <-> glob w h.
Proof.
  revert h. induction w as [|c w IH]; intros h; simpl.
  - rewrite eqb_true_iff. split; [intros ->; constructor|by inversion 1].
  - destruct (is_star c) eqn:Hc.
    + apply is_star_true in Hc as ->. destruct (heads_star w) eqn:Hw.
      * destruct w as [|d w]; [done|]. apply is_star_true in Hw as ->.
        rewrite glob_star_star. apply IH.
      * by apply re_match_star.
    + simpl. destruct h as [|d h].
      { split; [done|]. inversion 1; simplify_eq/=. }
      rewrite andb_true_iff, eqb_true_iff, IH. split.
      * intros [-> ?]. by constructor.
      * inversion 1; simplify_eq/=; done.
Qed.

(** C5: testing a host against [wildcardToRegExp w] decides exactly the wildcard relation: the
    text built by the function always lies in the RegExp fragment, every regular expression
    metacharacter of the wildcard is matched literally, runs of stars collapse, and a star
    stands for any run of characters without a line terminator. *)
Theorem wildcard_test_glob (w h : string) : wildcard_test w h = true <-> glob w h.
Proof.
  unfold wildcard_test. rewrite wildcardToRegExp_atoms. apply re_match_atoms.
Qed.
