(* ===== verification/Json.v ===== *)
(** * JSON texts

    [JSON.stringify] (without indentation) and [JSON.parse], as far as the code uses them: the
    token file of the wizard, the system configuration file, the configuration files and the
    coercions of command-line options.  Strings are Latin-1 (Prelude); a number is kept as the
    literal it is written with; an object lists its entries in insertion order, a repeated
    key keeping its first position and its last value. *)
From S2P Require Import Prelude.

#[warnings="-register-all"] Inductive json : Type :=
| JNull
| JBool (b : bool)
| JNum (literal : string)
| JStr (s : string)
| JArr (l : list json)
| JObj (m : list (string * json)).

(** Induction that reaches the elements of arrays and objects. *)
Section json_ind.
Context (P : json -> Prop).
Context (Hnull : P JNull) (Hbool : forall b, P (JBool b)) (Hnum : forall n, P (JNum n)).
Context (Hstr : forall s, P (JStr s)) (Harr : forall l, Forall P l -> P (JArr l)).
Context (Hobj : forall m, Forall (fun e => P e.2) m -> P (JObj m)).

Fixpoint json_nested_ind (v : json) : P v :=
  match v with
  | JNull => Hnull
  | JBool b => Hbool b
  | JNum n => Hnum n
  | JStr s => Hstr s
  | JArr l => Harr l ((fix go l : Forall P l :=
      match l with [] => List.Forall_nil P | v :: l => List.Forall_cons _ v l (json_nested_ind v) (go l) end) l)
  | JObj m => Hobj m ((fix go (m : list (string * json)) : Forall (fun e => P e.2) m :=
      match m with
      | [] => List.Forall_nil _
      | e :: m => List.Forall_cons _ e m (json_nested_ind e.2) (go m)
      end) m)
  end.
End json_ind.

(** ** [JSON.stringify] *)

Definition hex_digit (n : N) : ascii := chr (if (n <? 10)%N then 48 + n else 87 + n).

Definition escape_char (c : ascii) : string :=
  let n := code c in
  if (n =? 34)%N then String "\" dquote
  else if (n =? 92)%N then "\\"
  else if (n =? 8)%N then "\b"
  else if (n =? 9)%N then "\t"
  else if (n =? 10)%N then "\n"
  else if (n =? 12)%N then "\f"
  else if (n =? 13)%N then "\r"
  else if (n <? 32)%N then "\u00" +:+ String (hex_digit (n / 16)) (String (hex_digit (n mod 16)) "")
  else String c "".

(** The rest of a string literal: the escaped characters and the closing quote. *)
Definition quoted (s : string) : string := str_flat_map escape_char s +:+ dquote.

Fixpoint stringify (v : json) : string :=
  match v with
  | JNull => "null"
  | JBool true => "true"
  | JBool false => "false"
  | JNum n => n
  | JStr s => dquote +:+ quoted s
  | JArr l => "[" +:+ join "," (map stringify l) +:+ "]"
  | JObj m => "{" +:+ join "," (map (fun e => dquote +:+ quoted e.1 +:+ ":" +:+ stringify e.2) m) +:+ "}"
  end.

(** ** [JSON.parse] *)

Definition is_json_ws (c : ascii) : bool :=
  let n := code c in ((n =? 9) || (n =? 10) || (n =? 13) || (n =? 32))%N.

Fixpoint skip_ws (s : string) : string :=
  match s with
  | String c t => if is_json_ws c then skip_ws t else s
  | "" => ""
  end.

Definition unhex (c : ascii) : option N :=
  let n := code c in
  if ((48 <=? n) && (n <=? 57))%N then Some (n - 48)%N
  else if ((97 <=? n) && (n <=? 102))%N then Some (n - 87)%N
  else if ((65 <=? n) && (n <=? 70))%N then Some (n - 55)%N
  else None.

Definition unescape (c : ascii) : option ascii :=
  OMap.get (String c "") [("\", "\"%char); ("/", "/"%char); (dquote, chr 34); ("b", chr 8);
    ("t", chr 9); ("n", chr 10); ("f", chr 12); ("r", chr 13)].

(** The head of a text is the given character, and what follows it. *)
Definition eat (c : ascii) (s : string) : option string :=
  match s with
  | String d t => if d === c then Some t else None
  | "" => None
  end.

(** A string literal after its opening quote. A code unit above 255 has no counterpart here
    and is refused. *)
Fixpoint parse_string (s : string) : option (string * string) :=
  match s with
  | "" => None
  | String c t =>
      if c === chr 34 then Some ("", t)
      else if (code c <? 32)%N then None
      else if negb (c === "\"%char) then
        '(r, rest) ← parse_string t;
        Some (String c r, rest)
      else
        match t with
        | "" => None
        | String e t =>
            if negb (e === "u"%char) then
              c ← unescape e;
              '(r, rest) ← parse_string t;
              Some (String c r, rest)
            else
              match t with
              | String a (String b (String c (String d t))) =>
                  a ← unhex a; b ← unhex b; c ← unhex c; d ← unhex d;
                  if ((a =? 0) && (b =? 0))%N then
                    '(r, rest) ← parse_string t;
                    Some (String (chr (16 * c + d)) r, rest)
                  else None
              | _ => None
              end
        end
  end.

(** The longest run of digits. *)
Fixpoint span_digits (s : string) : string * string :=
  match s with
  | String c t => if is_digit c then let '(d, r) := span_digits t in (String c d, r) else ("", s)
  | "" => ("", "")
  end.

Definition digits1 (s : string) : option (string * string) :=
  match span_digits s with ("", _) => None | r => Some r end.

(** The grammar of numbers: a sign, an integer without leading zeros, a fraction, an
    exponent, all but the integer optional. *)
Definition parse_sign (s : string) : string * string :=
  match eat "-" s with Some t => ("-", t) | None => ("", s) end.
Definition parse_int (s : string) : option (string * string) :=
  match eat "0" s with Some t => Some ("0", t) | None => digits1 s end.
Definition parse_frac (s : string) : option (string * string) :=
  match eat "." s with
  | Some t => '(d, r) ← digits1 t; Some (String "." d, r)
  | None => Some ("", s)
  end.
Definition parse_exp (s : string) : option (string * string) :=
  match s with
  | "" => Some ("", "")
  | String e t =>
      if (e === "e"%char) || (e === "E"%char) then
        let '(g, t) := match eat "+" t, eat "-" t with
                       | Some t, _ => ("+", t) | _, Some t => ("-", t) | _, _ => ("", t) end in
        '(d, r) ← digits1 t;
        Some (String e (g +:+ d), r)
      else Some ("", s)
  end.
Definition parse_number (s : string) : option (string * string) :=
  let '(sign, s) := parse_sign s in
  '(int, s) ← parse_int s;
  '(frac, s) ← parse_frac s;
  '(exp, s) ← parse_exp s;
  Some (sign +:+ int +:+ frac +:+ exp, s).

Definition strip (p s : string) : option string :=
  if startsWith p s then Some (str_drop (String.length p) s) else None.

(** Recursive descent; [fuel] bounds the number of nested calls. *)
Fixpoint parse_value (fuel : nat) (s : string) {struct fuel} : option (json * string) :=
  match fuel with
  | O => None
  | S fuel =>
      let s := skip_ws s in
      match s with
      | "" => None
      | String c t =>
          if c === chr 34 then '(x, r) ← parse_string t; Some (JStr x, r)
          else if c === "["%char then
            match eat "]" (skip_ws t) with
            | Some r => Some (JArr [], r)
            | None => '(l, r) ← parse_elements fuel t; Some (JArr l, r)
            end
          else if c === "{"%char then
            match eat "}" (skip_ws t) with
            | Some r => Some (JObj [], r)
            | None => '(m, r) ← parse_members fuel [] t; Some (JObj m, r)
            end
          else if c === "n"%char then r ← strip "null" s; Some (JNull, r)
          else if c === "t"%char then r ← strip "true" s; Some (JBool true, r)
          else if c === "f"%char then r ← strip "false" s; Some (JBool false, r)
          else '(n, r) ← parse_number s; Some (JNum n, r)
      end
  end
with parse_elements (fuel : nat) (s : string) {struct fuel} : option (list json * string) :=
  match fuel with
  | O => None
  | S fuel =>
      '(v, r) ← parse_value fuel s;
      let r := skip_ws r in
      match eat "," r with
      | Some t => '(l, r) ← parse_elements fuel t; Some (v :: l, r)
      | None => r ← eat "]" r; Some ([v], r)
      end
  end
with parse_members (fuel : nat) (acc : list (string * json)) (s : string) {struct fuel} :
    option (list (string * json) * string) :=
  match fuel with
  | O => None
  | S fuel =>
      t ← eat (chr 34) (skip_ws s);
      '(k, r) ← parse_string t;
      t ← eat ":" (skip_ws r);
      '(v, r) ← parse_value fuel t;
      let acc := OMap.set k v acc in
      let r := skip_ws r in
      match eat "," r with
      | Some t => parse_members fuel acc t
      | None => r ← eat "}" r; Some (acc, r)
      end
  end.

(** [JSON.parse]; every nested call consumes a character, so the length of the text is
    enough fuel. *)
Definition SyntaxError : js_error := named_error "SyntaxError" "Unexpected token in JSON".

Definition parse (s : string) : result js_error json :=
  match parse_value (S (String.length s)) s with
  | Some (v, r) => if skip_ws r === "" then Ok v else Err SyntaxError
  | None => Err SyntaxError
  end.

(** [v.field] on a parsed value: [undefined] for a missing field and for a value that is not
    an object, a TypeError on null. *)
Definition field (k : string) (v : json) : result js_error (option json) :=
  match v with
  | JNull => Err (TypeError ("Cannot read properties of null (reading '" +:+ k +:+ "')"))
  | JObj m => Ok (OMap.get k m)
  | _ => Ok None
  end.

Definition str_of (v : option json) : option string :=
  match v with Some (JStr s) => Some s | _ => None end.

(** ** Round trip *)

(** What [stringify] prints: number literals are literals, keys are distinct. *)
Definition number_literal (n : string) : bool := parse_number n === Some (n, "").

Fixpoint printable (v : json) : bool :=
  match v with
  | JNum n => number_literal n
  | JArr l => forallb printable l
  | JObj m => forallb (fun e => printable e.2) m && bool_decide (NoDup m.*1)
  | _ => true
  end.

(** What may follow a value inside a text. *)
Definition delimited (rest : string) : bool :=
  match rest with
  | "" => true
  | String c _ => bool_decide (c ∈ [","%char; "]"%char; "}"%char])
  end.

Lemma parse_string_escape c t :
  parse_string (escape_char c +:+ t) = '(r, rest) ← parse_string t; Some (String c r, rest).
Proof. destruct c as [[] [] [] [] [] [] [] []]; reflexivity. Qed.

Lemma parse_string_quoted s rest : parse_string (quoted s +:+ rest) = Some (s, rest).
Proof.
  unfold quoted. rewrite <- app_str_assoc.
  induction s as [|c s IH]; [done|]. cbn [str_flat_map].
  rewrite <- app_str_assoc, parse_string_escape, IH. done.
Qed.

(** A scanner that looks at nothing beyond a delimiter. *)
Definition extends (f : string -> option (string * string)) : Prop :=
  forall s rest, delimited rest = true -> f (s +:+ rest) = (fun '(a, r) => (a, r +:+ rest)) <$> f s.

Lemma not_delimiter (p : ascii -> bool) :
  p ","%char = false -> p "]"%char = false -> p "}"%char = false ->
  forall c rest, delimited (String c rest) = true -> p c = false.
Proof.
  intros H1 H2 H3 c rest Hd. simpl in Hd. apply bool_decide_eq_true in Hd.
  repeat (apply elem_of_cons in Hd as [->|Hd]; [done|]). set_solver.
Qed.

Lemma eat_extends c s rest :
  c ∉ [","%char; "]"%char; "}"%char] -> delimited rest = true ->
  eat c (s +:+ rest) = (fun r => r +:+ rest) <$> eat c s.
Proof.
  intros Hc Hd. destruct s as [|d s].
  - rewrite app_str_nil_l. destruct rest as [|e rest]; [done|]. simpl.
    rewrite (not_delimiter (fun e => e === c)) with (rest := rest); [done|..|done];
      apply eqb_neq; set_solver.
  - rewrite app_str_cons. simpl. by destruct (d === c).
Qed.

Lemma span_digits_extends s rest :
  delimited rest = true -> span_digits (s +:+ rest) = ((span_digits s).1, (span_digits s).2 +:+ rest).
Proof.
  intros Hd. induction s as [|c s IH].
  - rewrite app_str_nil_l. destruct rest as [|e rest]; [done|]. simpl.
    by rewrite (not_delimiter is_digit eq_refl eq_refl eq_refl e rest Hd).
  - rewrite app_str_cons. simpl. destruct (is_digit c); [|done].
    rewrite IH. by destruct (span_digits s).
Qed.

Lemma digits1_extends : extends digits1.
Proof.
  intros s rest Hd. unfold digits1. rewrite span_digits_extends by done.
  destruct (span_digits s) as [[|c d] r]; done.
Qed.

Lemma parse_int_extends : extends parse_int.
Proof.
  intros s rest Hd. unfold parse_int. rewrite eat_extends by (done || set_solver).
  destruct (eat "0" s); [done|]. by apply digits1_extends.
Qed.

Lemma parse_frac_extends : extends parse_frac.
Proof.
  intros s rest Hd. unfold parse_frac. rewrite eat_extends by (done || set_solver).
  destruct (eat "." s); simpl; [|done]. rewrite digits1_extends by done.
  by destruct (digits1 s0) as [[]|].
Qed.

Lemma parse_exp_extends : extends parse_exp.
Proof.
  intros s rest Hd. destruct s as [|e t].
  - rewrite app_str_nil_l. destruct rest as [|e rest]; [done|]. cbn [parse_exp].
    rewrite (not_delimiter (fun e => (e === "e"%char) || (e === "E"%char))) with (rest := rest);
      [done|vm_compute; reflexivity..|done].
  - rewrite app_str_cons. unfold parse_exp. destruct ((e === "e"%char) || (e === "E"%char)); [|done].
    rewrite !eat_extends by (done || set_solver).
    destruct (eat "+" t) as [t1|]; [|destruct (eat "-" t) as [t1|]]; simpl;
      rewrite digits1_extends by done; by destruct (digits1 _) as [[]|].
Qed.

Lemma parse_number_extends : extends parse_number.
Proof.
  intros s rest Hd. unfold parse_number, parse_sign.
  rewrite eat_extends by (done || set_solver).
  destruct (eat "-" s) as [t|]; simpl; [|set (t := s)];
    (rewrite parse_int_extends by done; destruct (parse_int t) as [[int s1]|]; simpl; [|done];
     rewrite parse_frac_extends by done; destruct (parse_frac s1) as [[frac s2]|]; simpl; [|done];
     rewrite parse_exp_extends by done; destruct (parse_exp s2) as [[exp s3]|]; done).
Qed.

(** The first character of a printed value is neither white space nor a delimiter; that of a
    number is a sign or a digit. *)
Lemma number_head n r : parse_number n = Some r -> exists c t, n = String c t /\ ((c === "-"%char) || is_digit c) = true.
Proof.
  destruct n as [|c t]; [done|]. intros Hn. exists c, t. split; [done|].
  destruct (eqbP c "-"%char) as [->|Hm]; [done|]. simpl.
  unfold parse_number, parse_sign, parse_int in Hn. simpl in Hn. rewrite eqb_neq in Hn by done.
  simpl in Hn. destruct (eqbP c "0"%char) as [->|H0]; [done|].
  unfold digits1 in Hn. simpl in Hn. by destruct (is_digit c).
Qed.

Definition value_head (c : ascii) : bool :=
  negb (is_json_ws c) && bool_decide (c ∉ [","%char; "]"%char; "}"%char]).

Lemma number_value_head c : ((c === "-"%char) || is_digit c) = true -> value_head c = true.
Proof.
  assert (negb ((c === "-"%char) || is_digit c) || value_head c = true) as H.
  { revert c. apply ascii_all. vm_compute. reflexivity. }
  intros Hc. by rewrite Hc in H.
Qed.

Lemma stringify_head v : printable v = true -> exists c t, stringify v = String c t /\ value_head c = true.
Proof.
  destruct v as [| [] |n|s|l|m]; simpl; intros Hp; try (eexists _, _; split; [reflexivity|reflexivity]).
  unfold number_literal in Hp. rewrite eqb_true_iff in Hp. apply number_head in Hp as (c & t & -> & Hc). exists c, t. split; [done|].
  by apply number_value_head.
Qed.

Lemma skip_ws_value v rest : printable v = true -> skip_ws (stringify v +:+ rest) = stringify v +:+ rest.
Proof.
  intros (c & t & -> & Hc)%stringify_head. rewrite app_str_cons. simpl. unfold value_head in Hc.
  by destruct (is_json_ws c).
Qed.

Lemma skip_ws_delimited rest : delimited rest = true -> skip_ws rest = rest.
Proof.
  destruct rest as [|c t]; [done|]. intros Hd. simpl.
  by rewrite (not_delimiter is_json_ws eq_refl eq_refl eq_refl c t Hd).
Qed.

(** The parser reads back a printed value in front of any delimiter. *)
Definition reads (v : json) : Prop := forall fuel rest,
  String.length (stringify v) <= fuel -> delimited rest = true ->
  parse_value fuel (stringify v +:+ rest) = Some (v, rest).

Lemma parse_elements_reads v l fuel rest :
  Forall reads (v :: l) ->
  String.length (join "," (map stringify (v :: l))) < fuel ->
  parse_elements fuel (join "," (map stringify (v :: l)) +:+ "]" +:+ rest) = Some (v :: l, rest).
Proof.
  revert v fuel. induction l as [|v' l IH]; intros v fuel [Hv Hl]%Forall_cons Hf.
  - destruct fuel as [|fuel]; [lia|]. cbn [map join] in *. cbn [parse_elements].
    rewrite Hv by (done || lia). done.
  - destruct fuel as [|fuel]; [lia|]. cbn [map] in *. rewrite join_cons in Hf |- *.
    rewrite !length_app_str in Hf. change (String.length ",") with 1 in Hf.
    cbn [parse_elements].
    rewrite <- !app_str_assoc, Hv by (done || lia). cbn [mbind option_bind].
    rewrite app_str_cons, app_str_nil_l, skip_ws_delimited by done. cbn [eat]. rewrite eqb_refl.
    cbn [map] in IH. rewrite IH by (done || lia). done.
Qed.

Definition member (e : string * json) : string := dquote +:+ quoted e.1 +:+ ":" +:+ stringify e.2.

Lemma parse_member fuel e acc rest :
  reads e.2 -> String.length (stringify e.2) <= fuel -> delimited rest = true ->
  parse_members (S fuel) acc (member e +:+ rest) =
  match eat "," rest with
  | Some t => parse_members fuel (OMap.set e.1 e.2 acc) t
  | None => r ← eat "}" rest; Some (OMap.set e.1 e.2 acc, r)
  end.
Proof.
  intros Hv Hf Hd. unfold member. cbn [parse_members]. rewrite <- !app_str_assoc.
  unfold dquote at 1. rewrite app_str_cons. change (skip_ws (String (chr 34) ?x)) with (String (chr 34) x).
  cbn [eat]. rewrite eqb_refl. cbn [mbind option_bind]. rewrite app_str_nil_l, parse_string_quoted.
  cbn [mbind option_bind]. rewrite app_str_cons, app_str_nil_l.
  change (skip_ws (String ":" ?x)) with (String ":"%char x). cbn [eat]. rewrite eqb_refl.
  cbn [mbind option_bind]. rewrite Hv by done. cbn [mbind option_bind].
  by rewrite skip_ws_delimited.
Qed.

Lemma parse_members_reads e m fuel acc rest :
  Forall (fun e => reads e.2) (e :: m) -> NoDup ((acc ++ e :: m).*1) ->
  String.length (join "," (map member (e :: m))) < fuel ->
  parse_members fuel acc (join "," (map member (e :: m)) +:+ "}" +:+ rest) = Some (acc ++ e :: m, rest).
Proof.
  revert e fuel acc. induction m as [|e' m IH]; intros e fuel acc [He Hm]%Forall_cons Hnd Hf;
    (destruct fuel as [|fuel]; [lia|]); cbn [map] in *.
  all: assert (OMap.set e.1 e.2 acc = acc ++ [e]) as Hset
    by (destruct e; apply set_fresh; rewrite fmap_app in Hnd;
        apply NoDup_app in Hnd as (_ & Hd & _); intros Hin; apply (Hd _ Hin); set_solver).
  - cbn [join] in *. unfold member in Hf. rewrite !length_app_str in Hf.
    rewrite parse_member by (done || lia). by rewrite Hset.
  - rewrite join_cons in Hf |- *. rewrite !length_app_str in Hf. unfold member in Hf at 1.
    rewrite !length_app_str in Hf. change (String.length ",") with 1 in Hf.
    rewrite <- !app_str_assoc, parse_member by (done || lia).
    rewrite app_str_cons, app_str_nil_l. cbn [eat]. rewrite eqb_refl, Hset.
    cbn [map] in IH. rewrite IH; [by rewrite <- (assoc_L (++))|done| |lia].
    by rewrite <- (assoc_L (++)).
Qed.

Lemma reads_array l : Forall reads l -> forallb printable l = true -> reads (JArr l).
Proof.
  intros Hl Hp fuel rest Hf Hd. destruct fuel as [|fuel]; [simpl in Hf; lia|].
  destruct l as [|v l]; [done|].
  assert (String.length (join "," (map stringify (v :: l))) < fuel) as Hf'.
  { cbn [stringify] in Hf. rewrite !length_app_str in Hf.
    change (String.length "[") with 1 in Hf. change (String.length "]") with 1 in Hf. lia. }
  cbn [forallb] in Hp. apply andb_true_iff in Hp as [Hpv _].
  cbn [stringify]. rewrite <- !app_str_assoc, app_str_cons, app_str_nil_l.
  pose proof (parse_elements_reads v l fuel rest Hl Hf') as He.
  set (text := join "," (map stringify (v :: l)) +:+ "]" +:+ rest) in *.
  assert (eat "]" (skip_ws text) = None) as Hne.
  { subst text. destruct (stringify_head v Hpv) as (c & t & Hs & Hc).
    assert (exists u, join "," (map stringify (v :: l)) = String c u) as [u ->].
    { destruct l; cbn [map]; [exists t; done|]. rewrite join_cons, Hs. eexists. done. }
    rewrite app_str_cons. simpl. unfold value_head in Hc.
    apply andb_true_iff in Hc as [Hws Hin%bool_decide_eq_true].
    destruct (is_json_ws c); [done|]. simpl. by rewrite eqb_neq by set_solver. }
  change (parse_value (S fuel) (String "[" text)) with
    (match eat "]" (skip_ws text) with
     | Some r => Some (JArr [], r)
     | None => '(l, r) ← parse_elements fuel text; Some (JArr l, r) end).
  by rewrite Hne, He.
Qed.

Lemma reads_object m : Forall (fun e => reads e.2) m -> NoDup m.*1 -> reads (JObj m).
Proof.
  intros Hm Hnd fuel rest Hf Hd. destruct fuel as [|fuel]; [simpl in Hf; lia|].
  destruct m as [|e m]; [done|].
  change (stringify (JObj (e :: m))) with ("{" +:+ join "," (map member (e :: m)) +:+ "}") in *.
  assert (String.length (join "," (map member (e :: m))) < fuel) as Hf'.
  { rewrite !length_app_str in Hf.
    change (String.length "{") with 1 in Hf. change (String.length "}") with 1 in Hf. lia. }
  rewrite <- !app_str_assoc, app_str_cons, app_str_nil_l.
  pose proof (parse_members_reads e m fuel [] rest Hm Hnd Hf') as He.
  set (text := join "," (map member (e :: m)) +:+ "}" +:+ rest) in *.
  assert (eat "}" (skip_ws text) = None) as Hne.
  { subst text. destruct m; cbn [map]; [|rewrite join_cons]; reflexivity. }
  change (parse_value (S fuel) (String "{" text)) with
    (match eat "}" (skip_ws text) with
     | Some r => Some (JObj [], r)
     | None => '(m, r) ← parse_members fuel [] text; Some (JObj m, r) end).
  by rewrite Hne, He.
Qed.

Lemma reads_number n : number_literal n = true -> reads (JNum n).
Proof.
  unfold number_literal. rewrite eqb_true_iff. intros Hn fuel rest Hf Hd.
  destruct (number_head _ _ Hn) as (c & t & -> & Hc).
  destruct fuel as [|fuel]; [simpl in Hf; lia|]. cbn [stringify].
  pose proof (number_value_head c Hc) as Hv.
  assert (is_json_ws c = false) as Hws by (unfold value_head in Hv; by destruct (is_json_ws c)).
  assert (bool_decide (c ∈ [chr 34; "["%char; "{"%char; "n"%char; "t"%char; "f"%char]) = false) as Hh.
  { assert (negb ((c === "-"%char) || is_digit c) ||
      negb (bool_decide (c ∈ [chr 34; "["%char; "{"%char; "n"%char; "t"%char; "f"%char])) = true) as H.
    { clear. revert c. apply ascii_all. vm_compute. reflexivity. }
    rewrite Hc in H. by destruct (bool_decide _). }
  apply bool_decide_eq_false in Hh.
  pose proof (parse_number_extends (String c t) rest Hd) as He. rewrite Hn in He. cbn in He.
  rewrite app_str_cons in He |- *. cbn [parse_value skip_ws]. rewrite Hws.
  rewrite !eqb_neq by set_solver. rewrite He. done.
Qed.

(** Reading back any printable value. *)
Lemma parse_value_stringify v : printable v = true -> reads v.
Proof.
  induction v as [|b|n|s|l IH|m IH] using json_nested_ind; intros Hp.
  - intros [|fuel] rest Hf Hd; [simpl in Hf; lia|done].
  - intros [|fuel] rest Hf Hd; destruct b; simpl in Hf; lia || done.
  - by apply reads_number.
  - intros [|fuel] rest Hf Hd; [simpl in Hf; lia|]. cbn [stringify].
    rewrite <- !app_str_assoc. unfold dquote. rewrite app_str_cons, app_str_nil_l.
    change (parse_value (S fuel) (String (chr 34) (quoted s +:+ rest)))
      with ('(x, r) ← parse_string (quoted s +:+ rest); Some (JStr x, r)).
    by rewrite parse_string_quoted.
  - cbn [printable] in Hp. apply reads_array; [|done].
    rewrite forallb_forall in Hp. rewrite Forall_forall in IH |- *.
    intros v Hv. apply IH; [done|]. apply Hp. by apply list_elem_of_In.
  - cbn [printable] in Hp. apply andb_true_iff in Hp as [Hp Hnd%bool_decide_eq_true].
    apply reads_object; [|done]. rewrite forallb_forall in Hp. rewrite Forall_forall in IH |- *.
    intros e He. apply IH; [done|]. apply Hp. by apply list_elem_of_In.
Qed.

(** Every value that can be printed is read back. *)
Lemma parse_stringify v : printable v = true -> parse (stringify v) = Ok v.
Proof.
  intros Hp. unfold parse. rewrite <- (app_str_nil_r (stringify v)) at 2.
  rewrite (parse_value_stringify v Hp) by (done || lia). done.
Qed.

(** An object of strings, as the program writes it. *)
Lemma printable_strings (m : strmap string) :
  NoDup m.*1 -> printable (JObj (prod_map id JStr <$> m)) = true.
Proof.
  intros Hm. cbn [printable]. apply andb_true_iff. split.
  - apply forallb_forall. intros e He%list_elem_of_In.
    apply list_elem_of_fmap in He as ([k v] & -> & _). done.
  - apply bool_decide_eq_true. rewrite <- list_fmap_compose.
    replace ((fst ∘ prod_map id JStr) <$> m) with m.*1; [done|].
    apply list_fmap_ext. intros i [k v] _. done.
Qed.
