(* ===== verification/Helpers.v ===== *)
(** * [Utils/Helpers.ts]: identifiers, cluster URLs, command lines, headers

    The wildcard compiler of the same class is in [Wildcard], the promise pool in [Pool]. *)
From S2P Require Import Prelude.

(** ** Identifier patterns *)

Definition hex_lower (c : ascii) : bool :=
  (is_digit c || (97 <=? code c) && (code c <=? 102))%N.
Definition lower_alpha (c : ascii) : bool := ((97 <=? code c) && (code c <=? 122))%N.

(** A character class under the [i] flag: the ASCII letters match in either case. *)
Definition ci (p : ascii -> bool) (c : ascii) : bool :=
  p c || ((65 <=? code c) && (code c <=? 90))%N && p (chr (code c + 32)).

(** An anchored pattern that is a sequence of one-character classes. *)
Fixpoint match_classes (ps : list (ascii -> bool)) (s : string) : bool :=
  match ps, s with
  | [], "" => true
  | p :: ps, String c s => p c && match_classes ps s
  | _, _ => false
  end.

Definition char_is (d c : ascii) : bool := c === d.

(** [/^[0-9a-f]{8}-[0-9a-f]{4}-[1-5][0-9a-f]{3}-[89ab][0-9a-f]{3}-[0-9a-f]{12}$/i]. *)
Definition UUID_PATTERN : list (ascii -> bool) :=
  replicate 8 (ci hex_lower) ++ [char_is "-"] ++ replicate 4 (ci hex_lower) ++ [char_is "-"] ++
  [fun c => (49 <=? code c) && (code c <=? 53)]%N ++ replicate 3 (ci hex_lower) ++
  [char_is "-"] ++
  [ci (fun c => (c === "8") || (c === "9") || (c === "a") || (c === "b"))%char] ++
  replicate 3 (ci hex_lower) ++ [char_is "-"] ++ replicate 12 (ci hex_lower).

(** [[1-9a-z]] under the [i] flag, the class of [/^[1-9a-z]{10,22}$/i]. *)
Definition short_class (c : ascii) : bool :=
  ci (fun c => (49 <=? code c) && (code c <=? 57) || lower_alpha c)%N c.

Definition SHORT_UUID_PATTERN (s : string) : bool :=
  (10 <=? String.length s) && (String.length s <=? 22) && str_all short_class s.

Definition isUUID (value : string) : result js_error bool :=
  _ ← ok (truthy value) "Value must be string"; Ok (match_classes UUID_PATTERN value).

Definition isShortUUID (value : string) : result js_error bool :=
  _ ← ok (truthy value) "Value must be string"; Ok (SHORT_UUID_PATTERN value).

(** ** Cluster URLs *)

Record ClusterArgs : Type := mk_ClusterArgs {
  cl_cluster : option string;
  cl_hostname : option string
}.
Record ClusterUrls : Type := mk_ClusterUrls { cu_api : string; cu_repeaterServer : string }.

Definition getClusterUrls `{UrlApi} (args : ClusterArgs) : ClusterUrls :=
  match cl_cluster args ??? cl_hostname args with
  | Some h =>
      if truthy h then
        let host := match new_URL h with Some u => u_host u | None => h end in
        if bool_decide (host ∈ ["localhost"; "127.0.0.1"]) then
          mk_ClusterUrls ("http://" +:+ host +:+ ":8000")
                         ("ws://" +:+ host +:+ ":8000/workstations")
        else
          mk_ClusterUrls ("https://" +:+ host) ("wss://" +:+ host +:+ "/workstations")
      else mk_ClusterUrls "https://app.brightsec.com" "wss://app.brightsec.com/workstations"
  | None => mk_ClusterUrls "https://app.brightsec.com" "wss://app.brightsec.com/workstations"
  end.

(** ** Command lines of child processes *)

(** The process object: the command line, the interpreter and, in a packaged binary, its
    entry point. *)
Record Process : Type := mk_Process {
  p_argv : list string;
  p_execArgv : list string;
  p_execPath : string;
  p_platform : string;
  p_pkg_entrypoint : option string
}.

Record ExecOptions : Type := mk_ExecOptions {
  o_exclude : option (list string);
  o_include : option (list string);
  o_excludeAll : option bool;
  o_escape : option bool;
  o_spawn : option bool
}.

Record CommandArgs : Type := mk_CommandArgs {
  ca_command : string;
  ca_args : list string;
  ca_shell : bool;
  ca_windowsVerbatimArguments : bool
}.

Definition win (p : Process) : bool := p_platform p === "win32".

Definition backslash : ascii := "\".
Definition quote : ascii := chr 34.

Fixpoint bslashes (n : nat) (s : string) : string :=
  match n with 0 => s | S n => String backslash (bslashes n s) end.

(** First replacement: a run of backslashes before a double quote is doubled and the
    quote gets a backslash of its own; [n] is the length of the run just read. *)
Fixpoint escape_quotes (n : nat) (s : string) : string :=
  match s with
  | "" => bslashes n ""
  | String c t =>
      if c === backslash then escape_quotes (S n) t
      else if c === quote then
        bslashes (n + n) (String backslash (String quote (escape_quotes 0 t)))
      else bslashes n (String c (escape_quotes 0 t))
  end.

(** Second replacement: the run of backslashes at the end is doubled. *)
Fixpoint double_trailing (n : nat) (s : string) : string :=
  match s with
  | "" => bslashes (n + n) ""
  | String c t =>
      if c === backslash then double_trailing (S n) t
      else bslashes n (String c (double_trailing 0 t))
  end.

(** The characters of [META_CHARS_REGEXP]. *)
Definition meta_char (c : ascii) : bool :=
  match c with
  | "(" | ")" | "]" | "[" | "%" | "!" | "^" | "`" | "<" | ">" | "&" | "|" | ";" | ","
  | " " | "*" | "?" => true
  | _ => c === quote
  end%char.

Definition escapeShellArgument (val : string) : string :=
  let val := escape_quotes 0 val in
  let val := double_trailing 0 val in
  let val := String quote (val +:+ String quote "") in
  str_flat_map (fun c => if meta_char c then String "^" (String c "") else String c "") val.

Section exec_args.
(** [path.normalize]. *)
Context (normalize : string -> string).

Definition getExecArgs (p : Process) (options : ExecOptions) : CommandArgs :=
  let escape := o_escape options ?? true in
  let excludeAll := o_excludeAll options ?? false in
  let spawn := o_spawn options ?? false in
  let args := drop 1 (p_argv p) in
  let args := if excludeAll then take 1 args else args in
  let args := match o_include options with Some l => args ++ l | None => args end in
  let args := match o_exclude options with
              | Some l => List.filter (fun x => bool_decide (x ∉ l)) args
              | None => args
              end in
  let args := List.filter (fun arg =>
                match p_pkg_entrypoint p with
                | Some e => if spawn then true else negb (startsWith e arg)
                | None => true
                end) (p_execArgv p ++ args) in
  let command := normalize (p_execPath p) in
  let shell := win p in
  let verbatim := shell && escape in
  if verbatim then
    mk_CommandArgs (dquote +:+ command +:+ dquote) (escapeShellArgument <$> args) shell verbatim
  else mk_CommandArgs command args shell verbatim.
End exec_args.

(** [Helpers.spawn]: the command line of a detached or attached child, and the flags
    handed to [child_process.spawn]. *)
Record SpawnCall : Type := mk_SpawnCall {
  sc_command : string;
  sc_args : list string;
  sc_shell : bool;
  sc_windowsVerbatimArguments : bool;
  sc_detached : bool;
  sc_windowsHide : bool
}.

Definition spawn (normalize : string -> string) (p : Process)
    (include exclude : option (list string)) (detached : bool) : SpawnCall :=
  let ca := getExecArgs normalize p
              (mk_ExecOptions exclude include (Some true) None (Some true)) in
  mk_SpawnCall (ca_command ca) (ca_args ca) (ca_shell ca) (ca_windowsVerbatimArguments ca)
    (negb (ca_shell ca) && detached) (ca_shell ca && detached).

(** ** Enumerations, objects and arrays *)

(** [Object.values(enumType).find(...)]: comparison ignores case and outer blanks. *)
Definition selectEnumValue (enumType : strmap string) (value : string) : option string :=
  List.find (fun x => trim (toLowerCase x) === trim (toLowerCase value))
    (OMap.values enumType).

(** [Helpers.omit]: the entries whose value is neither undefined nor null. *)
Definition omit {V} (data : strmap (option V)) : strmap V :=
  foldl (fun acc '(k, v) => match v with Some v => OMap.set k v acc | None => acc end) [] data.

(** [Helpers.split]: [Array(n)] throws a RangeError for a length that is not finite, which
    is what a chunk size of zero gives. *)
Definition split {A} (array : list A) (count : nat) : result js_error (list (list A)) :=
  match count with
  | 0 => Err (named_error "RangeError" "Invalid array length")
  | S _ =>
      let countItemInChunk := (length array + count - 1) / count in
      Ok ((fun i => take count (drop (i * count) array)) <$> seq 0 countItemInChunk)
  end.

Definition toArray {V} (enumeration : strmap V) : list V := OMap.values enumeration.

(** ** Headers *)

Section headers.
(** [decodeURIComponent], [None] where it throws a URIError. *)
Context (decodeURIComponent : string -> option string).

Definition decode_uri (s : string) : result js_error string :=
  match decodeURIComponent s with
  | Some s => Ok s
  | None => Err (named_error "URIError" "URI malformed")
  end.

(** [None] is [undefined], returned for an empty header. *)
Definition parseHeader (header : string) : result js_error (option (string * string)) :=
  if truthy header then
    match split_char ":" header with
    | key :: values =>
        key ← decode_uri (trim key);
        header ← decode_uri (trim (join ":" values));
        Ok (Some (key, header))
    | [] => Ok None
    end
  else Ok None.

(** Destructuring [undefined] throws. *)
Definition parseHeaders (headers : list string) : result js_error (strmap string) :=
  foldR (fun acc value =>
    kv ← parseHeader value;
    match kv with
    | Some (key, header) => Ok (OMap.set key header acc)
    | None => Err (TypeError "undefined is not iterable")
    end) [] headers.
End headers.

(** ** Ports and TLS errors *)

Definition portFromURL (url : URL) : string :=
  if truthy (u_port url) then u_port url
  else if u_protocol url === "http:" then "80"
  else if u_protocol url === "https:" then "443"
  else "".

Definition OPENSSL_CODES : list string :=
  ["CERT_HAS_EXPIRED"; "CERT_NOT_YET_VALID"; "DEPTH_ZERO_SELF_SIGNED_CERT";
   "SELF_SIGNED_CERT_IN_CHAIN"; "UNABLE_TO_VERIFY_LEAF_SIGNATURE";
   "UNABLE_TO_GET_ISSUER_CERT_LOCALLY"; "UNABLE_TO_GET_ISSUER_CERT";
   "HOSTNAME_MISMATCH"; "CERT_REJECTED"; "CERT_UNTRUSTED"].

Definition isTlsCertError (err : js_error) : bool :=
  match e_code err with
  | None => false
  | Some c =>
      if negb (truthy c) then false
      else if startsWith "ERR_TLS_" c || (c === "ECONNRESET") then true
      else bool_decide (c ∈ OPENSSL_CODES)
  end.

(** ** Splitting and joining *)

Lemma split_char_cons c s : exists p ps, split_char c s = p :: ps.
Proof.
  induction s as [|d s (p & ps & IH)]; simpl; [eauto|]. case_eqb; [eauto|].
  rewrite IH. eauto.
Qed.

Lemma join_split_char c s : join (String c "") (split_char c s) = s.
Proof.
  induction s as [|d s IH]; simpl; [done|].
  destruct (split_char_cons c s) as (p & ps & Hp). rewrite Hp in IH |- *.
  destruct (eqbP d c) as [->|_].
  - rewrite join_cons, app_str_nil_l, app_str_cons, app_str_nil_l. by f_equal.
  - destruct ps; [by rewrite <- IH|]. rewrite join_cons, app_str_cons in *. by f_equal.
Qed.

Lemma split_char_app c k v :
  str_has c k = false -> split_char c (k +:+ String c v) = k :: split_char c v.
Proof.
  unfold str_has. induction k as [|d k IH]; intros Hk.
  - rewrite app_str_nil_l. simpl. by rewrite eqb_refl.
  - rewrite app_str_cons. simpl in *. apply orb_false_iff in Hk as [Hd Hk].
    rewrite Hd. by rewrite IH.
Qed.

(** ** Decoding an escaped argument *)

(** The conventions the escaping targets: [cmd.exe] drops a caret and takes the next character
    literally; the C run time reads a quoted argument up to its closing quote, halving a run of
    backslashes that stands before a quote, an odd run making the quote literal. *)
Fixpoint caret_decode (s : string) : string :=
  match s with
  | String "^" (String c t) => String c (caret_decode t)
  | String c t => String c (caret_decode t)
  | EmptyString => EmptyString
  end%char.

Fixpoint quoted_decode (n : nat) (s : string) : option string :=
  match s with
  | "" => None
  | String c t =>
      if c === backslash then quoted_decode (S n) t
      else if c === quote then
        if Nat.even n then
          match t with "" => Some (bslashes (Nat.div2 n) "") | _ => None end
        else (fun r => bslashes (Nat.div2 n) (String quote r)) <$> quoted_decode 0 t
      else (fun r => bslashes n (String c r)) <$> quoted_decode 0 t
  end.

Definition argv_decode (s : string) : option string :=
  match s with
  | String c t => if c === quote then quoted_decode 0 t else None
  | "" => None
  end.

Definition caret_escape (s : string) : string :=
  str_flat_map (fun c => if meta_char c then String "^" (String c "") else String c "") s.

Lemma caret_roundtrip s : caret_decode (caret_escape s) = s.
Proof.
  unfold caret_escape. induction s as [|c s IH]; [done|].
  simpl. destruct (meta_char c) eqn:Hc; rewrite ?app_str_cons, app_str_nil_l.
  - simpl. by rewrite IH.
  - assert (c <> "^"%char) by by intros ->.
    transitivity (String c (caret_decode (caret_escape s))); [|by unfold caret_escape; f_equal].
    by destruct c as [[] [] [] [] [] [] [] []].
Qed.

Lemma bslashes_app n s t : bslashes n s +:+ t = bslashes n (s +:+ t).
Proof. induction n as [|n IH]; [done|]. simpl. by rewrite app_str_cons, IH. Qed.

Lemma quoted_decode_bslashes n m s :
  quoted_decode n (bslashes m s) = quoted_decode (n + m) s.
Proof.
  revert n. induction m as [|m IH]; intros n; simpl; [by rewrite Nat.add_0_r|].
  rewrite IH. by rewrite Nat.add_succ_r.
Qed.

Lemma double_trailing_bslashes n m s :
  double_trailing n (bslashes m s) = double_trailing (n + m) s.
Proof.
  revert n. induction m as [|m IH]; intros n; simpl; [by rewrite Nat.add_0_r|].
  rewrite IH. by rewrite Nat.add_succ_r.
Qed.

Lemma even_double n : Nat.even (n + n) = true.
Proof. rewrite Nat.even_add. by destruct (Nat.even n). Qed.

Lemma even_S_double n : Nat.even (S (n + n)) = false.
Proof. rewrite Nat.even_succ, <- Nat.negb_even, even_double. done. Qed.

Lemma div2_plus n : Nat.div2 (n + n) = n.
Proof. replace (n + n) with (2 * n) by lia. apply Nat.div2_double. Qed.

Lemma div2_S_plus n : Nat.div2 (S (n + n)) = n.
Proof. replace (n + n) with (2 * n) by lia. apply Nat.div2_succ_double. Qed.

(** One decoding step at a closing quote, a literal quote, another character. *)
Lemma quoted_decode_close n :
  quoted_decode (n + n) (String quote "") = Some (bslashes n "").
Proof. cbn [quoted_decode]. rewrite even_double, div2_plus. done. Qed.

Lemma quoted_decode_quote n s :
  quoted_decode (S (n + n)) (String quote s) =
  (fun r => bslashes n (String quote r)) <$> quoted_decode 0 s.
Proof. cbn [quoted_decode]. rewrite even_S_double, div2_S_plus. done. Qed.

Lemma quoted_decode_char n c s :
  c <> backslash -> c <> quote ->
  quoted_decode n (String c s) = (fun r => bslashes n (String c r)) <$> quoted_decode 0 s.
Proof. intros. cbn [quoted_decode]. by rewrite !eqb_neq. Qed.

Lemma bslashes_S n s : bslashes (S n) s = bslashes n (String backslash s).
Proof. induction n as [|n IH]; [done|]. simpl in *. by f_equal. Qed.

Lemma quoted_decode_escaped n s :
  quoted_decode 0 (double_trailing 0 (escape_quotes n s) +:+ String quote "") =
  Some (bslashes n s).
Proof.
  revert n. induction s as [|c s IH]; intros n; cbn [escape_quotes].
  - rewrite double_trailing_bslashes, Nat.add_0_l. cbn [double_trailing].
    rewrite bslashes_app, app_str_nil_l, quoted_decode_bslashes, Nat.add_0_l. apply quoted_decode_close.
  - destruct (eqbP c backslash) as [->|Hb]; [by rewrite IH, bslashes_S|].
    destruct (eqbP c quote) as [->|Hc]; rewrite double_trailing_bslashes, Nat.add_0_l;
      cbn [double_trailing].
    + change (backslash === backslash) with true. change (quote === backslash) with false.
      cbn iota. rewrite bslashes_app, app_str_cons, quoted_decode_bslashes, Nat.add_0_l.
      by rewrite quoted_decode_quote, IH.
    + rewrite eqb_neq by done. rewrite bslashes_app, app_str_cons, quoted_decode_bslashes, Nat.add_0_l.
      by rewrite quoted_decode_char, IH.
Qed.

(** C29: escaping a command-line argument for [cmd.exe] loses nothing: undoing the carets and
    then reading the quoted argument back gives the original argument, whatever quotes,
    backslashes and metacharacters it holds. *)
Theorem escapeShellArgument_roundtrip (val : string) :
  argv_decode (caret_decode (escapeShellArgument val)) = Some val.
Proof.
  unfold escapeShellArgument. fold (caret_escape (String quote
    (double_trailing 0 (escape_quotes 0 val) +:+ String quote ""))).
  rewrite caret_roundtrip. cbn [argv_decode]. rewrite eqb_refl. apply quoted_decode_escaped.
Qed.

(** ** Chunks *)

Lemma concat_chunks {A} (l : list A) c k n :
  concat ((fun i => take c (drop (i * c) l)) <$> seq k n) = take (n * c) (drop (k * c) l).
Proof.
  induction n as [|n IH]; [done|].
  rewrite seq_S, fmap_app, concat_app, IH. simpl. rewrite app_nil_r.
  rewrite Nat.mul_add_distr_r, <- drop_drop, take_take_drop. f_equal; lia.
Qed.

Lemma ceil_div_mul n c : 0 < c -> n <= (n + c - 1) / c * c.
Proof.
  intros Hc. pose proof (Nat.div_mod_eq (n + c - 1) c).
  pose proof (Nat.mod_upper_bound (n + c - 1) c). nia.
Qed.

Lemma ceil_div_lt n c i : 0 < c -> i < (n + c - 1) / c -> i * c < n.
Proof.
  intros Hc Hi. pose proof (Nat.div_mod_eq (n + c - 1) c).
  pose proof (Nat.mod_upper_bound (n + c - 1) c). nia.
Qed.

(** Splitting an array into chunks of [count > 0] items succeeds, loses and reorders
    nothing, and every chunk is non-empty and holds at most [count] items. *)
Theorem split_chunks {A} (array : list A) (count : nat) :
  0 < count ->
  exists chunks, split array count = Ok chunks /\ concat chunks = array /\
    Forall (fun c => 1 <= length c <= count) chunks.
Proof.
  intros Hc. destruct count as [|c]; [lia|]. unfold split.
  eexists. split; [done|]. split.
  - rewrite concat_chunks. simpl (0 * _). rewrite drop_0. apply take_ge, ceil_div_mul; lia.
  - apply Forall_fmap, Forall_forall. intros i Hi%elem_of_seq. simpl.
    rewrite length_take, length_drop.
    assert (i * S c < length array) by (apply ceil_div_lt; lia). lia.
Qed.

Lemma split_chunks_witness :
  exists chunks, split [1; 2; 3; 4; 5] 2 = Ok chunks /\ concat chunks = [1; 2; 3; 4; 5] /\
    Forall (fun c => 1 <= length c <= 2) chunks.
Proof. apply (split_chunks [1; 2; 3; 4; 5] 2). lia. Defined.

(** ** Headers *)

(** A header line is cut at its first colon: for a key without a colon and any value,
    colons included, [parseHeader] yields the trimmed and decoded key and value, and throws
    exactly when one of them cannot be decoded. *)
Theorem parseHeader_cut (decodeURIComponent : string -> option string) (key value : string) :
  str_has ":" key = false ->
  parseHeader decodeURIComponent (key +:+ String ":" value) =
  match decodeURIComponent (trim key), decodeURIComponent (trim value) with
  | Some k, Some v => Ok (Some (k, v))
  | _, _ => Err (named_error "URIError" "URI malformed")
  end.
Proof.
  intros Hk. unfold parseHeader. rewrite split_char_app, join_split_char by done.
  assert (truthy (key +:+ String ":" value) = true) as -> by by destruct key.
  unfold decode_uri. destruct (decodeURIComponent (trim key)); [|done]. simpl.
  by destruct (decodeURIComponent (trim value)).
Qed.

Lemma parseHeader_cut_witness :
  parseHeader Some ("Host " +:+ String ":" " a:80") = Ok (Some ("Host", "a:80")).
Proof. rewrite (parseHeader_cut Some "Host " " a:80"); reflexivity. Defined.

(** ** Identifiers and clusters *)

Lemma match_classes_length ps s : match_classes ps s = true -> String.length s = length ps.
Proof.
  revert s. induction ps as [|p ps IH]; intros [|c s]; simpl; try done.
  intros [_ ?]%andb_true_iff. f_equal. auto.
Qed.

Lemma isUUID_length v : isUUID v = Ok true -> String.length v = 36.
Proof.
  unfold isUUID, ok. destruct (truthy v); [|done].
  intros H%(f_equal (fun r => match r with Ok b => b | Err _ => false end)).
  apply (match_classes_length UUID_PATTERN v H).
Qed.

Lemma isShortUUID_length v : isShortUUID v = Ok true -> 10 <= String.length v <= 22.
Proof.
  unfold isShortUUID, ok. destruct (truthy v); [|done]. simpl. intros [= H].
  unfold SHORT_UUID_PATTERN in H.
  apply andb_true_iff in H as [[H1 H2]%andb_true_iff _].
  apply Nat.leb_le in H1, H2. lia.
Qed.

(** The API and the repeater endpoints of a cluster always name the same authority, and
    both are encrypted unless the host is the local machine. *)
Theorem getClusterUrls_coherent `{UrlApi} (args : ClusterArgs) :
  exists authority,
    getClusterUrls args = mk_ClusterUrls ("https://" +:+ authority)
                            ("wss://" +:+ authority +:+ "/workstations") \/
    ((authority = "localhost:8000" \/ authority = "127.0.0.1:8000") /\
     getClusterUrls args = mk_ClusterUrls ("http://" +:+ authority)
                             ("ws://" +:+ authority +:+ "/workstations")).
Proof.
  unfold getClusterUrls. destruct (cl_cluster args ??? cl_hostname args) as [h|].
  2:{ exists "app.brightsec.com". by left. }
  destruct (truthy h); [|exists "app.brightsec.com"; by left].
  set (host := match new_URL h with Some u => u_host u | None => h end).
  case_bool_decide as Hl; [|exists host; by left].
  exists (host +:+ ":8000"). right.
  apply elem_of_cons in Hl as [->|[->|[]%not_elem_of_nil]%elem_of_cons]; auto.
Qed.
