(* ===== verification/Pool.v ===== *)
(** * [Helpers.pool]: a promise pool with a concurrency limit

    The loop starts one promise per item, keeps the unfinished ones in [poolPromises] and waits
    with [Promise.race] whenever the pool is full; [Promise.all] collects the results.  The
    model is a step relation: the loop's own steps, and the settlement of any promise
    in flight, interleave freely. *)
From stdpp Require Import gmap relations.
From S2P Require Import Prelude.

Section pool.
Context {T R E : Type}.
(** [outcome x r]: the promise [iterator(x)] may settle with [r]. *)
Context (poolLimit : nat) (outcome : T -> result E R -> Prop).

(** Where the async function stands: about to take the next item, waiting in
    [Promise.race], waiting in [Promise.all], or settled. *)
Inductive loop : Type :=
| LNext
| LRace
| LAll
| LDone (rs : list R)
| LFailed (e : E).

(** A promise is named by the index of its item. [poolPromises] lists the members not
    yet removed: the pending ones and the rejected ones, whose [then] callback never runs. *)
Record pool_state : Type := mk_pool {
  todo : list T;
  promises : list T;
  poolPromises : list nat;
  settled : gmap nat (result E R);
  at_ : loop
}.

Definition pool_init (items : list T) : pool_state := mk_pool items [] [] ∅ LNext.

(** The first rejected member of the pool, which [Promise.race] reports at once. *)
Fixpoint first_rejected (res : gmap nat (result E R)) (l : list nat) : option E :=
  match l with
  | [] => None
  | i :: l => match res !! i with Some (Err e) => Some e | _ => first_rejected res l end
  end.

(** Taking the next item: start it, enter the pool, and wait if the pool is full. *)
Definition take_item (st : pool_state) (x : T) (xs : list T) : pool_state :=
  let i := length (promises st) in
  let members := poolPromises st ++ [i] in
  let next :=
    if poolLimit <=? length members then
      match first_rejected (settled st) members with Some e => LFailed e | None => LRace end
    else LNext in
  mk_pool xs (promises st ++ [x]) members (settled st) next.

(** [poolPromises.splice(poolPromises.indexOf(poolMember), 1)]. *)
Definition splice (i : nat) (l : list nat) : list nat := list_difference l [i].

Definition fulfil (st : pool_state) (i : nat) (r : R) : pool_state :=
  mk_pool (todo st) (promises st) (splice i (poolPromises st)) (<[i := Ok r]> (settled st))
    (match at_ st with LRace => LNext | l => l end).

Definition reject (st : pool_state) (i : nat) (e : E) : pool_state :=
  mk_pool (todo st) (promises st) (poolPromises st) (<[i := Err e]> (settled st))
    (match at_ st with LRace => LFailed e | LAll => LFailed e | l => l end).

(** The values of [Promise.all] once every promise is fulfilled. *)
Definition all_values (st : pool_state) : option (list R) :=
  mapM (fun i => match settled st !! i with Some (Ok r) => Some r | _ => None end)
    (seq 0 (length (promises st))).

Definition at_all (st : pool_state) : pool_state :=
  mk_pool [] (promises st) (poolPromises st) (settled st)
    (match first_rejected (settled st) (seq 0 (length (promises st))) with
     | Some e => LFailed e
     | None => LAll
     end).

Inductive pool_step : pool_state -> pool_state -> Prop :=
| step_take st x xs :
    at_ st = LNext -> todo st = x :: xs -> pool_step st (take_item st x xs)
| step_all st : at_ st = LNext -> todo st = [] -> pool_step st (at_all st)
| step_fulfil st i x r :
    promises st !! i = Some x -> settled st !! i = None -> outcome x (Ok r) ->
    pool_step st (fulfil st i r)
| step_reject st i x e :
    promises st !! i = Some x -> settled st !! i = None -> outcome x (Err e) ->
    pool_step st (reject st i e)
| step_done st rs :
    at_ st = LAll -> all_values st = Some rs ->
    pool_step st (mk_pool (todo st) (promises st) (poolPromises st) (settled st) (LDone rs)).

(** ** Invariant *)

Definition pending (st : pool_state) : list nat :=
  base.filter (fun i => settled st !! i = None) (seq 0 (length (promises st))).

Record pool_inv (items : list T) (st : pool_state) : Prop := {
  inv_items : promises st ++ todo st = items;
  inv_settled : forall i r, settled st !! i = Some r ->
    exists x, promises st !! i = Some x /\ outcome x r;
  inv_pool_nodup : NoDup (poolPromises st);
  inv_pool : forall i, i ∈ poolPromises st <->
    i < length (promises st) /\ forall r, settled st !! i <> Some (Ok r);
  inv_limit : length (poolPromises st) <= Nat.max 1 poolLimit;
  inv_next : at_ st = LNext -> length (poolPromises st) < Nat.max 1 poolLimit;
  inv_race : at_ st = LRace -> poolPromises st <> [] /\
    first_rejected (settled st) (poolPromises st) = None;
  inv_all : at_ st = LAll -> todo st = [] /\
    first_rejected (settled st) (seq 0 (length (promises st))) = None;
  inv_done : forall rs, at_ st = LDone rs ->
    todo st = [] /\ Forall2 (fun x r => outcome x (Ok r)) (promises st) rs;
  inv_failed : forall e, at_ st = LFailed e ->
    exists x, x ∈ items /\ outcome x (Err e)
}.

Lemma first_rejected_Some res l e :
  first_rejected res l = Some e -> exists i, i ∈ l /\ res !! i = Some (Err e).
Proof.
  induction l as [|i l IH]; simpl; [done|]. intros H.
  destruct (res !! i) as [[]|] eqn:Hi; simplify_eq; [|set_solver|].
  - destruct IH as (j & ? & ?); [done|]. set_solver.
  - destruct IH as (j & ? & ?); [done|]. set_solver.
Qed.

Lemma first_rejected_None res l :
  first_rejected res l = None <-> forall i e, i ∈ l -> res !! i <> Some (Err e).
Proof.
  split.
  - intros H i e Hi He. induction l as [|j l IH]; [set_solver|]. simpl in H.
    apply elem_of_cons in Hi as [->|Hi]; [by rewrite He in H|].
    apply IH; [|done]. by destruct (res !! j) as [[]|].
  - intros H. destruct (first_rejected res l) as [e|] eqn:He; [|done].
    apply first_rejected_Some in He as (i & Hi & He). by destruct (H i e).
Qed.

Lemma length_splice i l : i ∈ l -> length (splice i l) < length l.
Proof.
  unfold splice. induction l as [|j l IH]; [set_solver|]. intros Hi. simpl.
  assert (Hle : length (list_difference l [i]) <= length l).
  { clear. induction l as [|j l IH]; simpl; [done|]. case_decide; simpl; lia. }
  case_decide; [lia|]. simpl. apply elem_of_cons in Hi as [->|Hi]; [set_solver|].
  apply IH in Hi. lia.
Qed.

Lemma elem_of_splice i j l : j ∈ splice i l <-> j ∈ l /\ j <> i.
Proof. unfold splice. rewrite list_elem_of_difference, list_elem_of_singleton. done. Qed.

Lemma pending_member items st i x :
  pool_inv items st -> promises st !! i = Some x -> settled st !! i = None ->
  i ∈ poolPromises st.
Proof.
  intros HI Hx Hn. apply (inv_pool _ _ HI). split; [by eapply lookup_lt_Some|].
  intros r. by rewrite Hn.
Qed.

Lemma pool_init_inv items : pool_inv items (pool_init items).
Proof.
  split; simpl; try done.
  - apply NoDup_nil_2.
  - intros i. split; [by intros ?%elem_of_nil|lia].
  - lia.
  - lia.
Qed.

Lemma take_item_inv items st x xs :
  pool_inv items st -> at_ st = LNext -> todo st = x :: xs -> pool_inv items (take_item st x xs).
Proof.
  intros [Hit Hset Hnd Hpool Hlim Hnext Hrace Hall Hdone Hfail] Hat Htodo.
  specialize (Hnext Hat).
  assert (Hfresh : settled st !! length (promises st) = None).
  { destruct (settled st !! _) eqn:Hs; [|done]. apply Hset in Hs as (y & Hy%lookup_lt_Some & _). lia. }
  assert (Hset' : forall i r, settled st !! i = Some r ->
    exists y, (promises st ++ [x]) !! i = Some y /\ outcome y r).
  { intros i r Hi. destruct (Hset _ _ Hi) as (y & Hy & ?). exists y. split; [|done].
    by apply lookup_app_l_Some. }
  unfold take_item. split; simpl.
  - by rewrite <- app_assoc, <- Hit, Htodo.
  - done.
  - apply NoDup_app. split; [done|]. split; [|apply NoDup_singleton].
    intros j Hj. rewrite list_elem_of_singleton. intros ->. apply Hpool in Hj. lia.
  - intros j. rewrite elem_of_app, list_elem_of_singleton, Hpool, length_app. simpl.
    split; [intros [[? ?]| ->]; split; (lia || naive_solver)|].
    intros [? ?]. destruct (decide (j = length (promises st))); [by right|left].
    split; [lia|done].
  - rewrite length_app. simpl. lia.
  - rewrite length_app. simpl. case_match eqn:Hc; [by case_match|].
    apply Nat.leb_gt in Hc. lia.
  - intros Hr. split; [by destruct (poolPromises st)|].
    case_match; [|done]. by case_match.
  - case_match; [by case_match|done].
  - intros rs. case_match; [by case_match|done].
  - intros e. case_match; [|done]. case_match eqn:Hf; [|done]. intros [= <-].
    apply first_rejected_Some in Hf as (i & _ & Hi). apply Hset in Hi as (y & Hy & ?).
    exists y. split; [|done]. rewrite <- Hit. apply elem_of_app. left.
    by eapply list_elem_of_lookup_2.
Qed.

Lemma fulfil_inv items st i x r :
  pool_inv items st -> promises st !! i = Some x -> settled st !! i = None ->
  outcome x (Ok r) -> pool_inv items (fulfil st i r).
Proof.
  intros HI Hx Hn Ho. pose proof (pending_member _ _ _ _ HI Hx Hn) as Hm.
  destruct HI as [Hit Hset Hnd Hpool Hlim Hnext Hrace Hall Hdone Hfail].
  pose proof (length_splice _ _ Hm) as Hlen. unfold fulfil. split; simpl; try done.
  - intros j r'. rewrite lookup_insert. case_decide; [|eauto]. intros [= <-]. subst. eauto.
  - by apply NoDup_list_difference.
  - intros j. rewrite elem_of_splice, Hpool. setoid_rewrite lookup_insert.
    case_decide; naive_solver.
  - lia.
  - intros Hat. destruct (at_ st); try done; lia.
  - by destruct (at_ st).
  - intros Hat. destruct Hall as [? Hf]; [by destruct (at_ st)|]. split; [done|].
    apply first_rejected_None. intros j e Hj. rewrite lookup_insert. case_decide; [done|].
    eapply first_rejected_None; eauto.
  - intros rs Hat. apply Hdone. by destruct (at_ st).
  - intros e Hat. apply Hfail. by destruct (at_ st).
Qed.

Lemma reject_inv items st i x e :
  pool_inv items st -> promises st !! i = Some x -> settled st !! i = None ->
  outcome x (Err e) -> pool_inv items (reject st i e).
Proof.
  intros HI Hx Hn Ho. pose proof (pending_member _ _ _ _ HI Hx Hn) as Hm.
  destruct HI as [Hit Hset Hnd Hpool Hlim Hnext Hrace Hall Hdone Hfail].
  assert (Hin : x ∈ items).
  { rewrite <- Hit. apply elem_of_app. left. by eapply list_elem_of_lookup_2. }
  unfold reject. split; simpl; try done.
  - intros j r'. rewrite lookup_insert. case_decide; [|eauto]. intros [= <-]. subst. eauto.
  - intros j. rewrite Hpool. setoid_rewrite lookup_insert. case_decide; naive_solver.
  - intros Hat. apply Hnext. by destruct (at_ st).
  - by destruct (at_ st).
  - by destruct (at_ st).
  - intros rs Hat. apply Hdone. by destruct (at_ st).
  - intros e' Hat. destruct (at_ st) eqn:Ha; simplify_eq; eauto.
Qed.

Lemma at_all_inv items st :
  pool_inv items st -> at_ st = LNext -> todo st = [] -> pool_inv items (at_all st).
Proof.
  intros [Hit Hset Hnd Hpool Hlim Hnext Hrace Hall Hdone Hfail] Hat Htodo.
  unfold at_all. split; simpl; try done.
  - by rewrite <- Hit, Htodo.
  - by case_match.
  - by case_match.
  - case_match; [done|]. intros _. done.
  - intros rs. by case_match.
  - intros e. case_match eqn:Hf; [|done]. intros [= <-].
    apply first_rejected_Some in Hf as (i & _ & Hi). apply Hset in Hi as (y & Hy & ?).
    exists y. split; [|done]. rewrite <- Hit. apply elem_of_app. left.
    by eapply list_elem_of_lookup_2.
Qed.

Lemma done_inv items st rs :
  pool_inv items st -> at_ st = LAll -> all_values st = Some rs ->
  pool_inv items (mk_pool (todo st) (promises st) (poolPromises st) (settled st) (LDone rs)).
Proof.
  intros [Hit Hset Hnd Hpool Hlim Hnext Hrace Hall Hdone Hfail] Hat Hv.
  split; simpl; try done. intros rs' [= <-]. split; [by apply Hall|].
  unfold all_values in Hv. apply mapM_Some in Hv.
  apply Forall2_same_length_lookup. split.
  { apply Forall2_length in Hv. by rewrite length_seq in Hv. }
  intros i x r Hx Hr. assert (Hi : seq 0 (length (promises st)) !! i = Some i).
  { apply lookup_seq. split; [lia|]. by eapply lookup_lt_Some. }
  pose proof (Forall2_lookup_lr _ _ _ _ _ _ Hv Hi Hr) as Hs. simpl in Hs.
  destruct (settled st !! i) as [[r'|]|] eqn:E0; simplify_eq.
  apply Hset in E0 as (y & Hy & ?). by simplify_eq.
Qed.

Lemma pool_step_inv items st st' : pool_inv items st -> pool_step st st' -> pool_inv items st'.
Proof.
  intros HI. destruct 1; eauto using take_item_inv, at_all_inv, fulfil_inv, reject_inv, done_inv.
Qed.

Lemma pool_reach_inv items st : rtc pool_step (pool_init items) st -> pool_inv items st.
Proof.
  intros H. remember (pool_init items) as s0 eqn:E0.
  assert (HI : pool_inv items s0) by (subst; apply pool_init_inv).
  clear E0. induction H; eauto using pool_step_inv.
Qed.

(** ** Properties *)

Definition settled_pool (st : pool_state) : Prop :=
  (exists rs, at_ st = LDone rs) \/ (exists e, at_ st = LFailed e).

(** C7: whatever the interleaving of settlements, never more than [max(1, poolLimit)] promises
    are in flight at once. *)
Theorem pool_concurrency (items : list T) (st : pool_state) :
  rtc pool_step (pool_init items) st -> length (pending st) <= Nat.max 1 poolLimit.
Proof.
  intros HI%pool_reach_inv. etrans; [|apply (inv_limit _ _ HI)].
  apply submseteq_length, NoDup_submseteq.
  - apply NoDup_filter, NoDup_seq.
  - intros i [Hn Hi%elem_of_seq]%list_elem_of_filter. apply (inv_pool _ _ HI).
    split; [lia|]. intros r. by rewrite Hn.
Qed.

(** C6: when the pool resolves, it does so with one value per item, in the order of the items,
    each a value that item's promise was fulfilled with; when it rejects, it is with the error
    of the promise of one of the items. *)
Theorem pool_results (items : list T) (st : pool_state) :
  rtc pool_step (pool_init items) st ->
  (forall rs, at_ st = LDone rs -> Forall2 (fun x r => outcome x (Ok r)) items rs) /\
  (forall e, at_ st = LFailed e -> exists x, x ∈ items /\ outcome x (Err e)).
Proof.
  intros HI%pool_reach_inv. split; [|apply (inv_failed _ _ HI)].
  intros rs [Ht ?]%(inv_done _ _ HI). by rewrite <- (inv_items _ _ HI), Ht, app_nil_r.
Qed.

Lemma settle_step st i x :
  (forall x, exists r, outcome x r) ->
  promises st !! i = Some x -> settled st !! i = None -> exists st', pool_step st st'.
Proof.
  intros Hout Hx Hn. destruct (Hout x) as [[r|e] Ho]; eexists;
    [by eapply step_fulfil|by eapply step_reject].
Qed.

Lemma all_values_or_pending st :
  first_rejected (settled st) (seq 0 (length (promises st))) = None ->
  is_Some (all_values st) \/
  exists i x, promises st !! i = Some x /\ settled st !! i = None.
Proof.
  intros Hf. destruct (pending st) as [|i l] eqn:Hp.
  - left. unfold all_values. apply mapM_is_Some_2, Forall_forall. intros i Hi. simpl.
    destruct (settled st !! i) as [[r|e]|] eqn:Hs; [by eexists| |].
    + by destruct (proj1 (first_rejected_None _ _) Hf i e Hi).
    + assert (Hin : i ∈ pending st) by by apply list_elem_of_filter. rewrite Hp in Hin. set_solver.
  - right. assert (Hin : i ∈ pending st) by (rewrite Hp; set_solver).
    apply list_elem_of_filter in Hin as [Hs Hi%elem_of_seq].
    destruct (lookup_lt_is_Some_2 (promises st) i) as [x ?]; [lia|]. eauto.
Qed.

(** C8: the pool never deadlocks: as long as every promise eventually settles, a pool that has
    not settled itself can always take a step. *)
Theorem pool_progress (items : list T) (st : pool_state) :
  (forall x, exists r, outcome x r) ->
  rtc pool_step (pool_init items) st -> settled_pool st \/ exists st', pool_step st st'.
Proof.
  intros Hout HI%pool_reach_inv. destruct (at_ st) as [| | |rs|e] eqn:Hat.
  - right. destruct (todo st) eqn:Ht; eauto using pool_step.
  - right. destruct (inv_race _ _ HI Hat) as [Hne Hf].
    destruct (poolPromises st) as [|i l] eqn:Hp; [done|].
    destruct (proj1 (inv_pool _ _ HI i)) as [Hi Hok]; [rewrite Hp; set_solver|].
    destruct (lookup_lt_is_Some_2 (promises st) i Hi) as [x Hx].
    eapply settle_step; [done..|]. destruct (settled st !! i) as [[r|e]|] eqn:Hs; [by destruct (Hok r)| |done].
    by destruct (proj1 (first_rejected_None _ _) Hf i e ltac:(set_solver)).
  - right. destruct (inv_all _ _ HI Hat) as [_ Hf].
    destruct (all_values_or_pending st Hf) as [[rs Hv]|(i & x & Hx & Hs)].
    + eauto using pool_step.
    + by eapply settle_step.
  - left. left. eauto.
  - left. right. eauto.
Qed.

Definition loop_rank (l : loop) : nat :=
  match l with LNext => 2 | LRace => 3 | LAll => 1 | LDone _ | LFailed _ => 0 end.

Definition pool_measure (st : pool_state) : nat :=
  4 * length (todo st) + 2 * length (pending st) + loop_rank (at_ st).

Lemma pending_settle st i r st' :
  i < length (promises st) -> settled st !! i = None ->
  promises st' = promises st -> settled st' = <[i := r]> (settled st) ->
  length (pending st') < length (pending st).
Proof.
  intros Hi Hn Hp Hs. unfold pending. rewrite Hp, Hs.
  set (l := seq 0 (length (promises st))). assert (Hin : i ∈ l) by (apply elem_of_seq; lia).
  assert (Hnd : NoDup l) by apply NoDup_seq. clearbody l. clear Hi Hp Hs.
  assert (Hsub : forall l : list nat,
    length (base.filter (fun j => <[i := r]> (settled st) !! j = None) l) <=
    length (base.filter (fun j => settled st !! j = None) l)).
  { clear. induction l as [|j l IH]; [done|]. rewrite !filter_cons.
    repeat case_decide; simpl; try lia. by apply lookup_insert_None in H as [? ?]. }
  induction l as [|j l IH]; [set_solver|]. apply NoDup_cons in Hnd as [Hj Hnd].
  rewrite !filter_cons. apply elem_of_cons in Hin as [->|Hin].
  - rewrite decide_False by (by rewrite lookup_insert_eq). rewrite decide_True by done.
    simpl. specialize (Hsub l). lia.
  - specialize (IH Hin Hnd). assert (i <> j) by set_solver. rewrite lookup_insert_ne by done.
    case_decide; simpl; lia.
Qed.

(** C9: every run of the pool is finite: no infinite sequence of steps starts in any state, so
    together with [pool_progress] the pool always settles. *)
Theorem pool_terminates (st : pool_state) : sn pool_step st.
Proof.
  remember (pool_measure st) as n eqn:Hn. revert st Hn.
  induction (lt_wf n) as [n _ IH]. intros st ->. constructor. intros st' Hst.
  apply (IH (pool_measure st')); [|done]. unfold pool_measure. destruct Hst; simpl.
  - rewrite H, H0. simpl.
    assert (length (pending (take_item st x xs)) <= S (length (pending st))).
    { unfold pending, take_item. simpl. rewrite length_app. simpl.
      rewrite Nat.add_1_r, seq_S, filter_app, length_app, filter_cons, filter_nil.
      case_decide; simpl; lia. }
    repeat case_match; simpl; lia.
  - rewrite H, H0. unfold pending. simpl. case_match; simpl; lia.
  - apply lookup_lt_Some in H as Hl.
    pose proof (pending_settle st i (Ok r) (fulfil st i r) Hl H0 eq_refl eq_refl).
    destruct (at_ st); simpl; lia.
  - apply lookup_lt_Some in H as Hl.
    pose proof (pending_settle st i (Err e) (reject st i e) Hl H0 eq_refl eq_refl).
    destruct (at_ st); simpl; lia.
  - rewrite H. unfold pending. simpl. lia.
Qed.
End pool.

(** ** A concrete run: three items, at most two at a time, each promise giving its successor. *)

Definition succ_outcome (x : nat) (r : result string nat) : Prop := r = Ok (S x).

Definition run_take (st : pool_state (T := nat) (R := nat) (E := string)) : pool_state :=
  match todo st with x :: xs => take_item 2 st x xs | [] => at_all st end.

Definition run_full : pool_state (T := nat) (R := nat) (E := string) :=
  run_take (run_take (pool_init [10; 20; 30])).

Definition run_end : pool_state (T := nat) (R := nat) (E := string) :=
  let st := run_take (fulfil run_full 1 21) in
  let st := run_take (fulfil (fulfil st 0 11) 2 31) in
  mk_pool (todo st) (promises st) (poolPromises st) (settled st) (LDone [11; 21; 31]).

Lemma run_full_reach : rtc (pool_step 2 succ_outcome) (pool_init [10; 20; 30]) run_full.
Proof.
  do 2 (eapply rtc_l; [by eapply step_take|]). reflexivity.
Qed.

Lemma run_end_reach : rtc (pool_step 2 succ_outcome) (pool_init [10; 20; 30]) run_end.
Proof.
  etrans; [apply run_full_reach|].
  eapply rtc_l; [by eapply (step_fulfil _ _ _ 1)|].
  eapply rtc_l; [by eapply step_take|].
  eapply rtc_l; [by eapply (step_fulfil _ _ _ 0)|].
  eapply rtc_l; [by eapply (step_fulfil _ _ _ 2)|].
  eapply rtc_l; [by eapply step_all|].
  eapply rtc_l; [by eapply (step_done _ _ _ [11; 21; 31])|]. reflexivity.
Qed.

Lemma pool_concurrency_witness : length (pending run_full) = 2 /\ length (pending run_full) <= 2.
Proof.
  split; [reflexivity|]. apply (pool_concurrency 2 succ_outcome [10; 20; 30]), run_full_reach.
Defined.

Lemma pool_results_witness :
  Forall2 (fun x r => succ_outcome x (Ok r)) [10; 20; 30] [11; 21; 31].
Proof.
  apply (pool_results 2 succ_outcome [10; 20; 30] run_end); [apply run_end_reach|reflexivity].
Defined.

Lemma pool_progress_witness :
  settled_pool run_full \/ exists st', pool_step 2 succ_outcome run_full st'.
Proof.
  apply (pool_progress 2 succ_outcome [10; 20; 30]); [|apply run_full_reach].
  intros x. exists (Ok (S x)). reflexivity.
Defined.
