(* ===== verification/Backoff.v ===== *)
(** * [Utils/Backoff.ts]: retrying a failing task

    [execute] runs the task and, on an error that [shouldRetry] accepts, sleeps and runs it again
    until [maxDepth] retries are used up.  The task reads and changes a world [W] (the remote
    service); the model threads it and records the sleeps.  The retry predicate shared by the
    three polling loops is here too. *)
From Equations Require Import Equations.
From S2P Require Import Prelude.

(** [Math.max(2 ** this.depth * 100, 1000)], in milliseconds. *)
Definition retry_delay (depth : nat) : Z := Z.max (2 ^ Z.of_nat depth * 100) 1000.

Section backoff.
Context {W A : Type}.
Context (maxDepth : nat) (shouldRetry : js_error -> bool).
Context (task : W -> result js_error A * W).

(** How a call ended: the result, the world, the final [depth] and the delays slept. *)
Record run : Type := mk_run {
  r_result : result js_error A;
  r_world : W;
  r_depth : nat;
  r_delays : list Z
}.

Definition slept (d : Z) (r : run) : run :=
  mk_run (r_result r) (r_world r) (r_depth r) (d :: r_delays r).

Equations? execute (depth : nat) (w : W) : run by wf (maxDepth - depth) lt :=
  execute depth w with task w => {
    | (Ok v, w') := mk_run (Ok v) w' depth [];
    | (Err e, w') with shouldRetry e => {
        | true with lt_dec depth maxDepth => {
            | left _ := slept (retry_delay depth) (execute (S depth) w');
            | right _ := mk_run (Err e) w' depth [] };
        | false := mk_run (Err e) w' depth [] } }.
Proof. lia. Qed.

Lemma execute_eq depth w :
  execute depth w =
  match task w with
  | (Ok v, w') => mk_run (Ok v) w' depth []
  | (Err e, w') =>
      if shouldRetry e && (depth <? maxDepth)
      then slept (retry_delay depth) (execute (S depth) w')
      else mk_run (Err e) w' depth []
  end.
Proof.
  rewrite execute_equation_1. unfold execute_unfold_clause_1.
  destruct (task w) as [[v|e] w'] eqn:Ht; simp execute; [done|].
  destruct (shouldRetry e) eqn:Hs; simp execute; [|done].
  destruct (lt_dec depth maxDepth) as [Hl|Hl]; simp execute.
  - by apply Nat.ltb_lt in Hl as ->.
  - by apply Nat.ltb_nlt in Hl as ->.
Qed.

(** The worlds the task is run in, one per attempt while it keeps failing. *)
Inductive attempts : nat -> W -> run -> Prop :=
| attempt_ok depth w v w' :
    task w = (Ok v, w') -> attempts depth w (mk_run (Ok v) w' depth [])
| attempt_stop depth w e w' :
    task w = (Err e, w') -> shouldRetry e = false \/ maxDepth <= depth ->
    attempts depth w (mk_run (Err e) w' depth [])
| attempt_retry depth w e w' r :
    task w = (Err e, w') -> shouldRetry e = true -> depth < maxDepth ->
    attempts (S depth) w' r -> attempts depth w (slept (retry_delay depth) r).

Lemma execute_attempts depth w : attempts depth w (execute depth w).
Proof.
  remember (maxDepth - depth) as n eqn:Hn. revert depth w Hn.
  induction n as [n IH] using lt_wf_ind. intros depth w ->. rewrite execute_eq.
  destruct (task w) as [[v|e] w'] eqn:Ht; [by constructor|].
  destruct (shouldRetry e) eqn:Hs; simpl; [|by apply attempt_stop; auto].
  destruct (Nat.ltb_spec depth maxDepth); [|by apply attempt_stop; auto].
  eapply attempt_retry; [done..|]. eapply IH; [|done]. lia.
Qed.
End backoff.
Arguments run : clear implicits.

(** ** The retry predicate of the polling loops *)

Definition RETRY_CODES : list string :=
  ["ECONNRESET"; "ENETDOWN"; "ENETUNREACH"; "ETIMEDOUT"; "ECONNREFUSED"; "ENOTFOUND";
   "EAI_AGAIN"; "ESOCKETTIMEDOUT"].

(** [(axios.isAxiosError(err) && err.status > 500) || [...].includes(err.code)]; comparing
    an absent status is false. *)
Definition shouldRetry_polling (err : js_error) : bool :=
  (e_axios err && match e_status err with Some s => (500 <? s)%Z | None => false end) ||
  match e_code err with Some c => bool_decide (c ∈ RETRY_CODES) | None => false end.

Definition DEFAULT_RECONNECT_TIMES : nat := 20.

(** ** Properties *)

Section props.
Context {W A : Type}.
Context (maxDepth : nat) (shouldRetry : js_error -> bool).
Context (task : W -> result js_error A * W).

Lemma attempts_shape depth w r :
  attempts maxDepth shouldRetry task depth w r ->
  r_depth r = depth + length (r_delays r) /\
  length (r_delays r) <= maxDepth - depth /\
  r_delays r = retry_delay <$> seq depth (length (r_delays r)).
Proof.
  induction 1 as [| |depth w e w' r Ht Hs Hl Hr (IH1 & IH2 & IH3)]; simpl.
  1,2: repeat split; try done; simpl; lia.
  split; [lia|]. split; [lia|]. by f_equal.
Qed.

(** A call of [execute] makes at most [maxDepth - depth] retries, sleeps once before each
    of them, and leaves [depth] increased by their number; the sleep before the retry number
    [k] is [retry_delay k], at least one second. *)
Theorem execute_retries (depth : nat) (w : W) :
  let r := execute maxDepth shouldRetry task depth w in
  length (r_delays r) <= maxDepth - depth /\
  r_depth r = depth + length (r_delays r) /\
  r_delays r = retry_delay <$> seq depth (length (r_delays r)) /\
  Forall (fun d => 1000 <= d)%Z (r_delays r).
Proof.
  intros r. destruct (attempts_shape depth w r) as (Hd & Hl & Hs);
    [apply execute_attempts|].
  repeat split; try done. rewrite Hs. apply Forall_fmap, Forall_forall.
  intros k _. unfold retry_delay, compose. lia.
Qed.

(** An error is reported only when retrying is over: it is one that [shouldRetry]
    refuses, or all [maxDepth] retries have been used up. *)
Theorem execute_error (depth : nat) (w : W) (e : js_error) :
  r_result (execute maxDepth shouldRetry task depth w) = Err e ->
  shouldRetry e = false \/ maxDepth <= r_depth (execute maxDepth shouldRetry task depth w).
Proof.
  pose proof (execute_attempts maxDepth shouldRetry task depth w) as Ha.
  induction Ha; simpl in *; naive_solver.
Qed.

Lemma attempts_all_fail depth w r :
  (forall w, exists e w', task w = (Err e, w') /\ shouldRetry e = true) ->
  attempts maxDepth shouldRetry task depth w r -> length (r_delays r) = maxDepth - depth.
Proof.
  intros Hf. induction 1 as [depth w v w' Ht|depth w e w' Ht Hs|depth w e w' r Ht Hs Hl Hr IH]; simpl.
  - destruct (Hf w) as (? & ? & ? & ?). congruence.
  - destruct (Hf w) as (? & ? & ? & ?). simplify_eq. destruct Hs; [congruence|lia].
  - lia.
Qed.
End props.

Definition total (l : list Z) : Z := foldr Z.add 0%Z l.

(** With the default of twenty retries, a service that stays down keeps a poll
    asleep for 104,860 seconds, more than 29 hours, before its error is reported: the delay
    doubles without an upper bound. *)
Theorem default_backoff_sleep {W A} (task : W -> result js_error A * W) (w : W) :
  (forall w, exists e w', task w = (Err e, w') /\ shouldRetry_polling e = true) ->
  total (r_delays (execute DEFAULT_RECONNECT_TIMES shouldRetry_polling task 0 w)) = 104860000%Z.
Proof.
  intros Hf. pose proof (execute_attempts DEFAULT_RECONNECT_TIMES shouldRetry_polling task 0 w) as Ha.
  pose proof (attempts_all_fail _ _ _ _ _ _ Hf Ha) as Hlen.
  destruct (attempts_shape _ _ _ _ _ _ Ha) as (_ & _ & Hs). rewrite Hs, Hlen. vm_compute. done.
Qed.

(** A service that is down. *)
Definition refused : js_error :=
  mk_error "Error" "connect ECONNREFUSED" (Some "ECONNREFUSED") (Some "connect") None None
    false None None None.
Definition down_task (w : nat) : result js_error nat * nat := (Err refused, S w).

Lemma execute_error_witness :
  r_result (execute 3 shouldRetry_polling down_task 0 0) = Err refused /\
  (shouldRetry_polling refused = false \/
   3 <= r_depth (execute 3 shouldRetry_polling down_task 0 0)).
Proof.
  split; [vm_compute; reflexivity|].
  apply (execute_error 3 shouldRetry_polling down_task 0 0). vm_compute. reflexivity.
Defined.

Lemma default_backoff_sleep_witness :
  total (r_delays (execute DEFAULT_RECONNECT_TIMES shouldRetry_polling down_task 0 0)) =
  104860000%Z.
Proof.
  apply (default_backoff_sleep down_task 0). intros w. exists refused, (S w).
  split; reflexivity.
Defined.
