(* ===== verification/Scripts.v ===== *)
(** * [Scripts/]: virtual scripts, their store and their loaders

    User scripts are selected by a wildcard on the host and rewrite the requests and
    responses of the repeater.  They come from local files ([FSScriptLoader]) or from the cloud
    ([DefaultRepeaterCommandHub.compileScripts]).  The vm that compiles and runs script
    text is Node's and a parameter here. *)
From S2P Require Import Prelude Wildcard.

Inductive VirtualScriptType : Type := LOCAL | REMOTE.
#[export] Instance VirtualScriptType_eq_dec : EqDecision VirtualScriptType.
Proof. solve_decision. Defined.

Record VirtualScript : Type := mk_VirtualScript {
  vs_id : string;
  vs_type : VirtualScriptType;
  vs_script : string;
  vs_compiled : bool
}.
#[export] Instance VirtualScript_eq_dec : EqDecision VirtualScript.
Proof. solve_decision. Defined.

(** ** [VirtualScript] *)

Definition MODULE_EXEC_ARGS : list string :=
  ["module.exports"; "module.require"; "module"; "__filename"; "__dirname"].

(** [Module.wrap] of Node: the CommonJS function wrapper. *)
Definition Module_wrap (code : string) : string :=
  "(function (exports, require, module, __filename, __dirname) { " +:+ code +:+
  newline +:+ "});".

(** The zero-width characters the code removes first lie outside Latin-1. *)
Definition wrapScriptCode (code : string) : string :=
  let decoratedModule := Module_wrap code in
  str_take (String.length decoratedModule - 1) decoratedModule +:+ "(" +:+
  join "," MODULE_EXEC_ARGS +:+ ")".

Section scripts.
(** [new vm.Script(source)]: [Some e] when the source does not compile. *)
Context (syntax_error : string -> option js_error).

Definition new_VirtualScript (id : string) (type : VirtualScriptType) (code : string) :
    result js_error VirtualScript :=
  if negb (truthy id) then throw "ID must be declared explicitly."
  else if negb (truthy code) then throw "Code must be declared explicitly."
  else match syntax_error (wrapScriptCode code) with
       | Some e => Err e
       | None => Ok (mk_VirtualScript id type (wrapScriptCode code) false)
       end.

Definition compile (s : VirtualScript) : VirtualScript :=
  mk_VirtualScript (vs_id s) (vs_type s) (vs_script s) true.

(** Running a script gives the functions its module exports, or throws. *)
Section exec.
Context {Fn : Type} (runInContext : string -> result js_error (strmap Fn)).

Definition vs_has (s : VirtualScript) (functionName : string) : result js_error bool :=
  exports ← runInContext (vs_script s); Ok (OMap.has functionName exports).

(** The function [exec] goes on to call with its arguments. *)
Definition vs_exec (s : VirtualScript) (functionName : string) : result js_error Fn :=
  exports ← runInContext (vs_script s);
  match OMap.get functionName exports with
  | Some func => Ok func
  | None => throw ("Error Loading Script: Script " +:+ vs_id s +:+
                   " does not match expected format, missing function " +:+ functionName +:+ ".")
  end.
End exec.

(** ** [DefaultVirtualScripts] *)

Definition size (store : strmap VirtualScript) : nat := length store.

Definition delete (key : string) (store : strmap VirtualScript) : strmap VirtualScript :=
  OMap.del key store.

(** Deleting from a [Map] while [forEach] runs is safe: visited entries stay visited, the others
    are still visited. *)
Definition clear (type : option VirtualScriptType) (store : strmap VirtualScript) :
    strmap VirtualScript :=
  match type with
  | None => []
  | Some ty =>
      foldl (fun st x => if vs_type x === ty then delete (vs_id x) st else st)
        store (OMap.values store)
  end.

Definition find (host : string) (store : strmap VirtualScript) : option VirtualScript :=
  List.find (fun script => wildcard_test (vs_id script) host) (OMap.values store).

Definition set (wildcard : string) (type : VirtualScriptType) (code : string)
    (store : strmap VirtualScript) : result js_error (strmap VirtualScript) :=
  script ← new_VirtualScript wildcard type code;
  Ok (OMap.set (vs_id script) (compile script) store).

Definition count (type : VirtualScriptType) (store : strmap VirtualScript) : nat :=
  foldl (fun n x => if vs_type x === type then S n else n) 0 (OMap.values store).

(** Several [set] calls in a row: the store keeps what was set before a throw. *)
Fixpoint set_all (type : VirtualScriptType) (l : list (string * string))
    (store : strmap VirtualScript) : result js_error unit * strmap VirtualScript :=
  match l with
  | [] => (Ok tt, store)
  | (wildcard, code) :: l =>
      match set wildcard type code store with
      | Ok store => set_all type l store
      | Err e => (Err e, store)
      end
  end.

(** ** [DefaultRepeaterCommandHub.compileScripts] *)

(** The payload of a scripts-updated event: one script or a record of scripts. *)
Inductive ScriptPayload : Type :=
| OneScript (code : string)
| ScriptRecord (l : strmap string).

Definition payload_entries (script : ScriptPayload) : strmap string :=
  match script with OneScript code => [("*", code)] | ScriptRecord l => l end.

(** The warning logged when the payload is refused is the [bool] of the result. *)
Definition compileScripts (script : ScriptPayload) (store : strmap VirtualScript) :
    (result js_error unit * bool) * strmap VirtualScript :=
  let store := clear (Some REMOTE) store in
  if (size store =? 0)%nat then
    let '(r, store) := set_all REMOTE (payload_entries script) store in ((r, false), store)
  else ((Ok tt, true), store).

(** ** [FSScriptLoader.load] *)

(** The files are read concurrently, so the scripts are set in the order in which the reads
    happen to finish: [done] lists the (wildcard, path) pairs in that order.  [Promise.all]
    rejects with the first failure; the reads still under way go on and set their scripts. *)
Section loader.
Context (readFile : string -> result js_error string).

Definition loadScript (wildcard path : string) (store : strmap VirtualScript) :
    result js_error (strmap VirtualScript) :=
  match readFile path with
  | Err _ => throw ("Error Loading Script: Cannot load " +:+ path)
  | Ok code => set wildcard LOCAL code store
  end.

Fixpoint load_done (done : list (string * string)) (store : strmap VirtualScript) :
    result js_error unit * strmap VirtualScript :=
  match done with
  | [] => (Ok tt, store)
  | (wildcard, path) :: done =>
      match loadScript wildcard path store with
      | Ok store => load_done done store
      | Err e => let '(_, store) := load_done done store in (Err e, store)
      end
  end.

(** [load scripts] may end in [(r, store')] when some order of completion gives it. *)
Definition load (scripts : strmap string) (store : strmap VirtualScript)
    (out : result js_error unit * strmap VirtualScript) : Prop :=
  exists done, done ≡ₚ scripts /\ load_done done store = out.
End loader.

(** ** Invariant of the store *)

(** Every script is filed under its own id, and ids are unique. *)
Definition store_ok (store : strmap VirtualScript) : Prop :=
  OMap.wf store /\ Forall (fun e => e.1 = vs_id e.2) store.

Lemma new_VirtualScript_Ok id type code s :
  new_VirtualScript id type code = Ok s ->
  s = mk_VirtualScript id type (wrapScriptCode code) false.
Proof. unfold new_VirtualScript, throw. intros. by repeat case_match; simplify_eq. Qed.

Lemma set_Ok wildcard type code store store' :
  set wildcard type code store = Ok store' ->
  store' = OMap.set wildcard (mk_VirtualScript wildcard type (wrapScriptCode code) true) store.
Proof.
  unfold set. intros H. inv_bind H. apply new_VirtualScript_Ok in Ha as ->. by simplify_eq.
Qed.

Lemma set_store_ok wildcard type code store store' :
  set wildcard type code store = Ok store' -> store_ok store -> store_ok store'.
Proof.
  intros ->%set_Ok [Hwf Hid]. split; [by apply wf_set|].
  apply Forall_forall. intros e [->|He]%elem_of_set; [done|].
  apply (proj1 (Forall_forall _ _) Hid e He).
Qed.

Lemma store_ok_id store k s : store_ok store -> (k, s) ∈ store -> k = vs_id s.
Proof. intros [_ Hid] Hin. apply (proj1 (Forall_forall _ _) Hid (k, s) Hin). Qed.

Lemma clear_fold ty xs store :
  foldl (fun st x => if vs_type x === ty then delete (vs_id x) st else st) store xs =
  base.filter (fun e => Forall (fun x => vs_type x = ty -> vs_id x <> e.1) xs) store.
Proof.
  revert store. induction xs as [|x xs IH]; intros store; simpl.
  - symmetry. apply filter_all. intros; constructor.
  - rewrite IH. destruct (eqbP (vs_type x) ty) as [He|He]; unfold delete, OMap.del.
    + rewrite list_filter_filter. apply list_filter_iff. intros e.
      rewrite Forall_cons. naive_solver.
    + apply list_filter_iff. intros e. rewrite Forall_cons. naive_solver.
Qed.

Lemma clear_type ty store :
  store_ok store -> clear (Some ty) store = base.filter (fun e => vs_type e.2 <> ty) store.
Proof.
  intros Hok. pose proof Hok as [Hwf _]. unfold clear. rewrite clear_fold.
  apply filter_ext_elem. intros [k s] Hin. simpl.
  pose proof (store_ok_id _ _ _ Hok Hin) as ->.
  rewrite Forall_forall. unfold OMap.values. split.
  - intros Hx Hty. apply (Hx s); [|done|done]. by apply (list_elem_of_fmap_2 snd) in Hin.
  - intros Hty x Hx Hxt Hxs. apply list_elem_of_fmap in Hx as ([k' x'] & -> & Hx). simpl in *.
    pose proof (store_ok_id _ _ _ Hok Hx) as ->.
    rewrite Hxs in Hx. apply get_elem_wf in Hx, Hin; [|done..]. by simplify_eq.
Qed.

Lemma clear_store_ok ty store : store_ok store -> store_ok (clear (Some ty) store).
Proof.
  intros Hok. rewrite clear_type by done. destruct Hok as [Hwf Hid]. split.
  - unfold OMap.wf, OMap.keys in *. clear Hid. induction store as [|[k s] store IH]; [done|].
    simpl in Hwf. apply NoDup_cons in Hwf as [Hn Hwf]. rewrite filter_cons. case_decide; [|auto].
    simpl. apply NoDup_cons. split; [|auto]. intros Hin. apply Hn.
    apply list_elem_of_fmap in Hin as ([k' s'] & ? & [_ Hin]%list_elem_of_filter). simplify_eq/=.
    by apply (list_elem_of_fmap_2 fst) in Hin.
  - apply Forall_forall. intros e [_ He]%list_elem_of_filter.
    apply (proj1 (Forall_forall _ _) Hid e He).
Qed.

Lemma set_all_props type l store r store' :
  set_all type l store = (r, store') -> store_ok store ->
  store_ok store' /\
  (Forall (fun e => vs_type e.2 = type) store -> Forall (fun e => vs_type e.2 = type) store').
Proof.
  revert store. induction l as [|[w c] l IH]; intros store H Hok; simpl in H; [by simplify_eq|].
  destruct (set w type c store) as [st|e] eqn:Hs; [|by simplify_eq].
  destruct (IH _ H) as [Hok' Hty]; [by eapply set_store_ok|]. split; [done|].
  intros Hall. apply Hty. apply set_Ok in Hs as ->. apply Forall_forall.
  intros e [->|He]%elem_of_set; [done|]. apply (proj1 (Forall_forall _ _) Hall e He).
Qed.


(** ** Loading local scripts *)

Section loading.
Context (readFile : string -> result js_error string).

(** The script a (wildcard, path) pair contributes, if it loads. *)
Definition built (wildcard path : string) : option VirtualScript :=
  match readFile path with
  | Err _ => None
  | Ok code => match new_VirtualScript wildcard LOCAL code with
               | Ok s => Some (compile s)
               | Err _ => None
               end
  end.

Lemma loadScript_built w path store :
  match built w path with
  | Some s => loadScript readFile w path store = Ok (OMap.set w s store) /\ vs_id s = w
  | None => exists e, loadScript readFile w path store = Err e
  end.
Proof.
  unfold built, loadScript, set. destruct (readFile path) as [code|e]; [|by eexists].
  destruct (new_VirtualScript w LOCAL code) as [s|e] eqn:Hs; simpl; [|by eexists].
  by apply new_VirtualScript_Ok in Hs as ->.
Qed.

Lemma load_done_elem done store :
  NoDup (OMap.keys done) -> (forall k, k ∈ OMap.keys done -> k ∉ OMap.keys store) ->
  forall e, e ∈ (load_done readFile done store).2 <->
    e ∈ store \/ exists path, (e.1, path) ∈ done /\ built e.1 path = Some e.2.
Proof.
  revert store. induction done as [|[w path] done IH]; intros store Hnd Hdis e; simpl.
  { naive_solver by set_solver. }
  unfold OMap.keys in *. simpl in *. apply NoDup_cons in Hnd as [Hw Hnd].
  pose proof (loadScript_built w path store) as Hb.
  assert (Hpath : forall path', (w, path') ∈ done -> False).
  { intros path' Hin. apply Hw. by apply (list_elem_of_fmap_2 fst) in Hin. }
  destruct (built w path) as [s|] eqn:Hs.
  - destruct Hb as [-> Hid]. rewrite set_fresh by set_solver.
    rewrite IH; [|done|intros k Hk; rewrite fmap_app; set_solver].
    rewrite elem_of_app, list_elem_of_singleton. setoid_rewrite elem_of_cons.
    destruct e as [k s']; simpl. split.
    + intros [[?|?]|(p & ? & ?)]; simplify_eq; eauto 10.
    + intros [?|(p & [?|?] & ?)]; simplify_eq; eauto 10.
  - destruct Hb as [e' ->]. destruct (load_done readFile done store) as [r st] eqn:Hl. simpl.
    replace st with (load_done readFile done store).2 by (by rewrite Hl).
    rewrite IH; [|done|set_solver]. setoid_rewrite elem_of_cons.
    destruct e as [k s']; simpl. split; [naive_solver|].
    intros [?|(p & [?|?] & ?)]; simplify_eq; eauto 10.
Qed.

Lemma load_elem scripts out :
  OMap.wf scripts -> load readFile scripts [] out ->
  forall e, e ∈ out.2 <-> exists path, (e.1, path) ∈ scripts /\ built e.1 path = Some e.2.
Proof.
  intros Hwf (done & Hp & <-) e. rewrite load_done_elem.
  - setoid_rewrite Hp. set_solver.
  - unfold OMap.wf, OMap.keys in *. by rewrite Hp.
  - set_solver.
Qed.

(** When no two of the given wildcards match the host, the script selected for it does
    not depend on the order in which the script files happened to be read. *)
Theorem load_order_irrelevant (scripts : strmap string) (host : string)
    (out1 out2 : result js_error unit * strmap VirtualScript) :
  OMap.wf scripts ->
  (forall w1 w2, w1 ∈ OMap.keys scripts -> w2 ∈ OMap.keys scripts ->
     wildcard_test w1 host = true -> wildcard_test w2 host = true -> w1 = w2) ->
  load readFile scripts [] out1 -> load readFile scripts [] out2 ->
  find host out1.2 = find host out2.2.
Proof.
  intros Hwf Hone H1 H2.
  assert (Hsub : forall out s, load readFile scripts [] out ->
    s ∈ OMap.values out.2 <-> exists w path, (w, path) ∈ scripts /\ built w path = Some s).
  { intros out s Hl. unfold OMap.values. rewrite list_elem_of_fmap. split.
    - intros ([k s'] & -> & (p & ? & ?)%(load_elem _ _ Hwf Hl)). eauto.
    - intros (w & p & ? & ?). exists (w, s). split; [done|]. apply (load_elem _ _ Hwf Hl). eauto. }
  assert (Hid : forall w path s, built w path = Some s -> vs_id s = w).
  { intros w path s Hs. pose proof (loadScript_built w path []) as Hb. rewrite Hs in Hb. apply Hb. }
  unfold find. destruct (List.find _ (OMap.values out1.2)) as [s|] eqn:Hf; symmetry.
  - apply find_Some_elem in Hf as [(w & p & Hin & Hb)%(Hsub _ _ H1) Ht].
    apply find_unique; [apply (Hsub _ _ H2); eauto|done|].
    intros y (w' & p' & Hin' & Hb')%(Hsub _ _ H2) Hy.
    pose proof (Hid _ _ _ Hb). pose proof (Hid _ _ _ Hb'). simplify_eq.
    assert (vs_id y = vs_id s) as Heq.
    { apply Hone; try done; unfold OMap.keys;
        [by apply (list_elem_of_fmap_2 fst) in Hin'|by apply (list_elem_of_fmap_2 fst) in Hin]. }
    rewrite Heq in *. apply get_elem_wf in Hin, Hin'; [|done..]. by simplify_eq.
  - apply find_None_elem. intros y Hy. apply (Hsub _ _ H2), (Hsub _ _ H1) in Hy.
    by eapply List.find_none in Hf; [|by apply list_elem_of_In].
Qed.
End loading.
End scripts.

(** Two local scripts whose wildcards overlap. *)
Definition overlap_scripts : strmap string := [("*", "a.js"); ("*.test", "b.js")].
Definition overlap_files (path : string) : result js_error string := Ok path.
Definition any_syntax (source : string) : option js_error := None.

(** With overlapping wildcards the selected script does depend on that order: the same
    two scripts loaded from the same files may select either one for the same host. *)
Theorem load_order_race :
  exists out1 out2,
    load any_syntax overlap_files overlap_scripts [] out1 /\
    load any_syntax overlap_files overlap_scripts [] out2 /\
    vs_id <$> find "app.test" out1.2 = Some "*" /\
    vs_id <$> find "app.test" out2.2 = Some "*.test".
Proof.
  exists (load_done any_syntax overlap_files overlap_scripts []),
    (load_done any_syntax overlap_files [("*.test", "b.js"); ("*", "a.js")] []).
  split; [by exists overlap_scripts|]. split; [|split; vm_compute; reflexivity].
  exists [("*.test", "b.js"); ("*", "a.js")]. split; [|done]. constructor.
Qed.


Lemma load_order_irrelevant_witness :
  let done1 := load_done any_syntax overlap_files overlap_scripts [] in
  let done2 := load_done any_syntax overlap_files [("*.test", "b.js"); ("*", "a.js")] [] in
  find "prod" done1.2 = find "prod" done2.2.
Proof.
  apply (load_order_irrelevant any_syntax overlap_files overlap_scripts "prod").
  - apply (bool_decide_unpack _). vm_compute. exact I.
  - intros w1 w2 H1 H2 T1 T2.
    apply elem_of_cons in H1 as [->|H1], H2 as [->|H2]; try done;
      repeat match goal with
      | H : _ ∈ _ |- _ => apply elem_of_cons in H as [->|H]; [try done|]
      | H : _ ∈ _ |- _ => by apply not_elem_of_nil in H
      end.
  - by exists overlap_scripts.
  - exists [("*.test", "b.js"); ("*", "a.js")]. split; [constructor|reflexivity].
Defined.
