(* ===== verification/Request.v ===== *)
(** * [RequestExecutor/Request.ts] and [Response.ts]

    The request the repeater forwards to the target: built and validated from the options of a
    server event or of a script, its headers merged, client certificates loaded into it. *)
From S2P Require Import Prelude.

(** The enum [Protocol]; events may name any protocol, so it stays a string. *)
Definition HTTP : string := "http".
Definition WS : string := "ws".

(** A header value: a string or an array of strings. *)
Inductive HeaderValue : Type :=
| HStr (s : string)
| HArr (l : list string).
#[export] Instance HeaderValue_eq_dec : EqDecision HeaderValue.
Proof. solve_decision. Defined.

Abbreviation Headers := (strmap HeaderValue).

(** A Node [Buffer]. *)
Abbreviation Buffer := (list N).

(** A body as it arrives: a string, or a truthy value of another type. *)
Inductive BodyValue : Type :=
| BStr (s : string)
| BOther.
#[export] Instance BodyValue_eq_dec : EqDecision BodyValue.
Proof. solve_decision. Defined.

(** [Buffer | string]. *)
Inductive BlobValue : Type :=
| BlobBuf (b : Buffer)
| BlobStr (s : string).
#[export] Instance BlobValue_eq_dec : EqDecision BlobValue.
Proof. solve_decision. Defined.

Record RequestOptions : Type := mk_RequestOptions {
  ro_protocol : string;
  ro_url : string;
  ro_headers : option Headers;
  ro_method : option string;
  ro_pfx : option BlobValue;
  ro_ca : option BlobValue;
  ro_body : option BodyValue;
  ro_passphrase : option string;
  ro_correlationIdRegex : option string;
  ro_encoding : option string;
  ro_maxContentSize : option Z;
  ro_timeout : option Z;
  ro_decompress : option bool;
  ro_keepAlive : option bool
}.

Record Cert : Type := mk_Cert {
  c_path : string;
  c_hostname : string;
  c_passphrase : option string;
  c_port : option string
}.
#[export] Instance Cert_eq_dec : EqDecision Cert.
Proof. solve_decision. Defined.

(** A regular expression is represented by its source, always with the flag [i]. *)
Record Request : Type := mk_Request {
  rq_protocol : string;
  rq_url : string;
  rq_body : option BodyValue;
  rq_correlationIdRegex : option string;
  rq_encoding : option string;
  rq_maxContentSize : option Z;
  rq_decompress : bool;
  rq_timeout : option Z;
  rq_keepAlive : option bool;
  rq_method : string;
  rq_headers : Headers;
  rq_ca : option Buffer;
  rq_pfx : option Buffer;
  rq_passphrase : option string
}.
#[export] Instance Request_eq_dec : EqDecision Request.
Proof. solve_decision. Defined.

Definition SINGLE_VALUE_HEADERS : list string :=
  ["authorization"; "content-disposition"; "content-length"; "content-type"; "from"; "host";
   "if-modified-since"; "if-unmodified-since"; "location"; "max-forwards";
   "proxy-authorization"; "referer"; "user-agent"].

Definition single_value (field : string) : bool :=
  bool_decide (toLowerCase field ∈ SINGLE_VALUE_HEADERS).

Definition secureEndpoint (r : Request) : bool := startsWith "https" (rq_url r).

(** ** [setHeaders] *)

Definition normalize_header (e : string * HeaderValue) : string * HeaderValue :=
  match e with
  | (field, HArr l) => (field, if single_value field then HStr (join ", " l) else HArr l)
  | e => e
  end.

Definition merge_headers (old new : Headers) : Headers :=
  normalize_header <$> OMap.merge old new.

Definition setHeaders (r : Request) (headers : Headers) : Request :=
  mk_Request (rq_protocol r) (rq_url r) (rq_body r) (rq_correlationIdRegex r) (rq_encoding r)
    (rq_maxContentSize r) (rq_decompress r) (rq_timeout r) (rq_keepAlive r) (rq_method r)
    (merge_headers (rq_headers r) headers) (rq_ca r) (rq_pfx r) (rq_passphrase r).

(** ** The constructor *)

(** [Buffer.from] of a string is its UTF-8 encoding. *)
Definition utf8_char (c : ascii) : list N :=
  let n := code c in
  if (n <? 128)%N then [n] else [192 + n / 64; 128 + n mod 64]%N.
Fixpoint utf8_encode (s : string) : Buffer :=
  match s with "" => [] | String c s => utf8_char c ++ utf8_encode s end.

Definition Buffer_from (v : BlobValue) : Buffer :=
  match v with BlobBuf b => b | BlobStr s => utf8_encode s end.

(** [if (x) this._x = Buffer.from(x)]; only the empty string is falsy. *)
Definition blob (v : option BlobValue) : option Buffer :=
  match v with
  | Some (BlobStr s) => if truthy s then Some (utf8_encode s) else None
  | Some v => Some (Buffer_from v)
  | None => None
  end.

Section request.
Context `{UrlApi}.
(** Whether [new RegExp(source, 'i')] accepts the source. *)
Context (valid_regexp : string -> bool).

Definition validateUrl (url : string) : result js_error unit :=
  match new_URL url with Some _ => Ok tt | None => throw "Invalid URL." end.

Definition precheckBody (body : option BodyValue) : result js_error unit :=
  match body with Some BOther => throw "Body must be string." | _ => Ok tt end.

Definition normalizeCorrelationIdRegex (re : option string) : result js_error (option string) :=
  match re with
  | Some s =>
      if truthy s then
        if valid_regexp s then Ok (Some s)
        else throw "Correlation id must be regular expression."
      else Ok None
  | None => Ok None
  end.

Definition new_Request (o : RequestOptions) : result js_error Request :=
  let method := match ro_method o with Some m => toUpperCase m | None => "GET" end in
  _ ← validateUrl (ro_url o);
  let url := trim (ro_url o) in
  _ ← precheckBody (ro_body o);
  re ← normalizeCorrelationIdRegex (ro_correlationIdRegex o);
  let headers := merge_headers [] (ro_headers o ?? []) in
  Ok (mk_Request (ro_protocol o) url (ro_body o) re (ro_encoding o) (ro_maxContentSize o)
        (ro_decompress o ?? true) (ro_timeout o) (ro_keepAlive o) method headers
        (blob (ro_ca o)) (blob (ro_pfx o)) (ro_passphrase o)).
End request.

(** ** [loadCert] *)

Section cert.
(** [readFile] ([None] when it rejects), [extname], [basename], and whether
    [createSecureContext] accepts a certificate with a passphrase. *)
Context (readFile : string -> option Buffer) (extname basename : string -> string).
Context (secure_context : option string -> option Buffer -> bool).

(** The certificate ends up in the request even when it could not be read (as undefined) or
    the passphrase is wrong; only warnings report it. *)
Definition loadCert (r : Request) (cert : Cert) : Request * list string :=
  let buf := readFile (c_path cert) in
  let w1 := match buf with
            | Some _ => []
            | None => ["Warning: certificate " +:+ c_path cert +:+ " not found."]
            end in
  let ext := extname (c_path cert) in
  let name := basename (c_path cert) in
  if bool_decide (ext ∈ [".pem"; ".crt"; ".ca"]) then
    (mk_Request (rq_protocol r) (rq_url r) (rq_body r) (rq_correlationIdRegex r) (rq_encoding r)
       (rq_maxContentSize r) (rq_decompress r) (rq_timeout r) (rq_keepAlive r) (rq_method r)
       (rq_headers r) buf (rq_pfx r) (rq_passphrase r), w1)
  else if ext === ".pfx" then
    let w2 := if secure_context (c_passphrase cert) buf then []
              else ["Error Loading Certificate: Wrong passphrase for certificate " +:+ name +:+ "."] in
    (mk_Request (rq_protocol r) (rq_url r) (rq_body r) (rq_correlationIdRegex r) (rq_encoding r)
       (rq_maxContentSize r) (rq_decompress r) (rq_timeout r) (rq_keepAlive r) (rq_method r)
       (rq_headers r) (rq_ca r) buf (c_passphrase cert), w1 ++ w2)
  else (r, w1 ++ ["Warning: certificate of type " +:+ dquote +:+ ext +:+ dquote +:+
                  " does not support."]).
End cert.

(** ** [toJSON] *)

(** [utf8_decode] is [Buffer.toString('utf8')]. *)
Definition toJSON (utf8_decode : Buffer -> string) (r : Request) : RequestOptions :=
  mk_RequestOptions (rq_protocol r) (rq_url r) (Some (rq_headers r)) (Some (rq_method r))
    ((fun b => BlobStr (utf8_decode b)) <$> rq_pfx r) ((fun b => BlobStr (utf8_decode b)) <$> rq_ca r)
    (rq_body r) (rq_passphrase r) (rq_correlationIdRegex r)
    None None None None None.

(** ** [Response] *)

Record Response : Type := mk_Response {
  rs_protocol : string;
  rs_statusCode : option Z;
  rs_headers : option Headers;
  rs_body : option string;
  rs_encoding : option string;
  rs_message : option string;
  rs_errorCode : option string;
  rs_ttfb : option Z
}.

(** ** What later steps may do to a request *)

(** The two mutators a constructed request has: [setHeaders] and [loadCert]. *)
Inductive request_step (readFile : string -> option Buffer) (extname basename : string -> string)
    (secure_context : option string -> option Buffer -> bool) : Request -> Request -> Prop :=
| step_setHeaders r h :
    request_step readFile extname basename secure_context r (setHeaders r h)
| step_loadCert r c :
    request_step readFile extname basename secure_context r
      (loadCert readFile extname basename secure_context r c).1.

(** The header invariant: fields are distinct, and a field that admits one value holds a
    string. *)
Definition single_ok (e : string * HeaderValue) : Prop :=
  single_value e.1 = true -> exists s, e.2 = HStr s.
Definition headers_ok (h : Headers) : Prop := OMap.wf h /\ forall e, e ∈ h -> single_ok e.

(** What identifies the request on the wire besides headers and certificates. *)
Definition target (r : Request) :=
  (rq_protocol r, rq_method r, rq_url r, rq_body r, rq_encoding r, rq_timeout r).

(** ** Lemmas *)

Lemma normalize_header_fst e : (normalize_header e).1 = e.1.
Proof. by destruct e as [f [s|l]]. Qed.

Lemma normalize_header_ok e : single_ok (normalize_header e).
Proof.
  destruct e as [f [s|l]]; unfold single_ok; simpl; [eauto|].
  destruct (single_value f); [eauto|done].
Qed.

Lemma normalize_header_id e : single_ok e -> normalize_header e = e.
Proof.
  destruct e as [f [s|l]]; unfold single_ok; simpl; [done|].
  destruct (single_value f); [|done]. intros []; done.
Qed.

Lemma keys_normalize (h : Headers) : OMap.keys (normalize_header <$> h) = OMap.keys h.
Proof.
  unfold OMap.keys. rewrite <- list_fmap_compose. apply list_fmap_ext.
  intros i e _. apply normalize_header_fst.
Qed.

Lemma merge_headers_ok h h' : OMap.wf h -> headers_ok (merge_headers h h').
Proof.
  intros Hwf. split.
  - unfold OMap.wf, merge_headers. rewrite keys_normalize. by apply wf_merge.
  - intros e (e' & -> & _)%list_elem_of_fmap. apply normalize_header_ok.
Qed.

Lemma normalize_ok_id h : headers_ok h -> normalize_header <$> h = h.
Proof.
  intros [_ Hh]. induction h as [|e h IH]; [done|]. rewrite fmap_cons. f_equal.
  - apply normalize_header_id, Hh. set_solver.
  - apply IH. intros e' He'. apply Hh. set_solver.
Qed.

Lemma get_normalize k h :
  OMap.get k (normalize_header <$> h) = (fun v => (normalize_header (k, v)).2) <$> OMap.get k h.
Proof.
  induction h as [|[k' v] h IH]; [done|]. rewrite fmap_cons. simpl.
  destruct v; simpl; case_eqb; done.
Qed.

#[export] Hint Resolve merge_headers_ok : bright.

(** ** Theorems *)

Section invariant.
Context `{UrlApi} (valid_regexp : string -> bool).
Context (readFile : string -> option Buffer) (extname basename : string -> string).
Context (secure_context : option string -> option Buffer -> bool).
Let step := request_step readFile extname basename secure_context.

Lemma step_inv r r' : step r r' -> headers_ok (rq_headers r) ->
  headers_ok (rq_headers r') /\ target r' = target r.
Proof.
  destruct 1 as [r h|r c]; intros Hr.
  - split; [|done]. simpl. apply merge_headers_ok, Hr.
  - unfold loadCert. repeat case_match; simpl; done.
Qed.

Lemma steps_inv r r' : rtc step r r' -> headers_ok (rq_headers r) ->
  headers_ok (rq_headers r') /\ target r' = target r.
Proof.
  induction 1 as [|r r1 r2 Hs _ IH]; intros Hr; [done|].
  destruct (step_inv _ _ Hs Hr) as [Hr1 Ht1]. destruct (IH Hr1) as [? ?]. split; congruence.
Qed.

Lemma new_Request_inv o r : new_Request valid_regexp o = Ok r ->
  headers_ok (rq_headers r) /\ is_Some (new_URL (ro_url o)) /\ rq_url r = trim (ro_url o) /\
  ro_body o <> Some BOther.
Proof.
  unfold new_Request, validateUrl, precheckBody. intros Hn. inv_bind Hn. simplify_eq/=.
  repeat case_match; simplify_eq/=; eauto 8 with bright.
Qed.


End invariant.

Definition sample_url : UrlApi := fun s =>
  if startsWith "http" (trim s) then Some (mk_URL "https:" "a.com" "a.com" "") else None.
Definition sample_options : RequestOptions :=
  mk_RequestOptions "http" " https://a.com/x " (Some [("Host", HArr ["a"; "b"]); ("X", HArr ["1"])])
    (Some "post") None None (Some (BStr "q")) None (Some "id") (Some "base64") (Some 3%Z) (Some 5%Z)
    (Some false) (Some true).
Definition sample_request : Request :=
  mk_Request "http" "https://a.com/x" (Some (BStr "q")) (Some "id") (Some "base64") (Some 3%Z)
    false (Some 5%Z) (Some true) "POST" [("Host", HStr "a, b"); ("X", HArr ["1"])] None None None.


Lemma get_setHeaders r h k :
  headers_ok (rq_headers r) -> OMap.wf h ->
  OMap.get k (rq_headers (setHeaders r h)) =
    ((fun v => (normalize_header (k, v)).2) <$> OMap.get k h) ??? OMap.get k (rq_headers r).
Proof.
  intros Hr Hh. simpl. unfold merge_headers. rewrite get_normalize, get_merge by done.
  destruct (OMap.get k h) as [v|] eqn:E; [done|]. simpl.
  destruct (OMap.get k (rq_headers r)) as [v|] eqn:Er; [|done].
  apply get_Some_elem in Er. change (Some (normalize_header (k, v)).2 = Some v).
  rewrite normalize_header_id; [done|]. by apply Hr.
Qed.

Lemma keys_setHeaders r h :
  OMap.keys (rq_headers (setHeaders r h)) = OMap.keys (OMap.merge (rq_headers r) h).
Proof. apply keys_normalize. Qed.

Lemma setHeaders_headers r h :
  setHeaders (setHeaders r h) h = setHeaders r h <->
  rq_headers (setHeaders (setHeaders r h) h) = rq_headers (setHeaders r h).
Proof. split; [congruence|]. intros Hh. unfold setHeaders in *. simpl in *. by rewrite Hh. Qed.

(** [setHeaders] overrides: a field of the new headers gets its (joined) new value, every
    other field keeps its value, and setting the same headers a second time changes nothing. *)
Theorem setHeaders_override r h :
  headers_ok (rq_headers r) -> OMap.wf h ->
  (forall k, OMap.get k (rq_headers (setHeaders r h)) =
     ((fun v => (normalize_header (k, v)).2) <$> OMap.get k h) ??? OMap.get k (rq_headers r)) /\
  setHeaders (setHeaders r h) h = setHeaders r h.
Proof.
  intros Hr Hh. split; [by intros; apply get_setHeaders|].
  assert (headers_ok (rq_headers (setHeaders r h))) as Hr' by (apply merge_headers_ok, Hr).
  apply setHeaders_headers, omap_ext.
  - by apply merge_headers_ok, Hr'.
  - rewrite keys_setHeaders, keys_merge_subset; [done|].
    intros k Hk. rewrite keys_setHeaders. apply elem_of_keys_merge. auto.
  - intros k. rewrite !get_setHeaders by done. by destruct (OMap.get k h).
Qed.

Lemma setHeaders_override_witness :
  OMap.get "host" (rq_headers (setHeaders (setHeaders sample_request []) [("host", HArr ["x"; "y"])])) =
    Some (HStr "x, y").
Proof.
  pose proof (setHeaders_override (setHeaders sample_request []) [("host", HArr ["x"; "y"])]) as T.
  destruct T as [T _].
  - apply merge_headers_ok. vm_compute. repeat constructor; set_solver.
  - vm_compute. repeat constructor; set_solver.
  - rewrite T. vm_compute. reflexivity.
Defined.

(** The fields of a request that [toJSON] leaves out, at their defaults. *)
Definition forget_transport (r : Request) : Request :=
  mk_Request (rq_protocol r) (rq_url r) (rq_body r) (rq_correlationIdRegex r) None None true None
    None (rq_method r) (rq_headers r) (rq_ca r) (rq_pfx r) (rq_passphrase r).

(** A buffer that survives [toString('utf8')]. *)
Definition utf8_text (decode : Buffer -> string) (o : option Buffer) : Prop :=
  forall b, o = Some b -> decode b <> "" /\ utf8_encode (decode b) = b.

Lemma blob_utf8 decode o :
  utf8_text decode o -> blob ((fun b => BlobStr (decode b)) <$> o) = o.
Proof.
  intros Ht. destruct o as [b|]; [|done]. destruct (Ht b eq_refl) as [Hn He]. simpl.
  unfold truthy. by rewrite eqb_neq, He.
Qed.

Lemma normalize_regex_idem valid_regexp re re' :
  normalizeCorrelationIdRegex valid_regexp re = Ok re' ->
  normalizeCorrelationIdRegex valid_regexp re' = Ok re'.
Proof.
  unfold normalizeCorrelationIdRegex. destruct re as [s|]; [|by intros [= <-]].
  destruct (truthy s) eqn:Hs; [|by intros [= <-]].
  destruct (valid_regexp s) eqn:Hv; [|done]. intros [= <-]. by rewrite Hs, Hv.
Qed.

(** Rebuilding a request from its [toJSON] gives the same request except for the settings that
    [forget_transport] resets. *)
Lemma toJSON_new_Request `{UrlApi} valid_regexp decode o r :
  new_Request valid_regexp o = Ok r -> is_Some (new_URL (rq_url r)) ->
  utf8_text decode (rq_ca r) -> utf8_text decode (rq_pfx r) ->
  new_Request valid_regexp (toJSON decode r) = Ok (forget_transport r).
Proof.
  intros Hn [u Hu] Hca Hpfx. pose proof (new_Request_inv _ _ _ Hn) as (Hh & _ & Hurl & Hb).
  pose proof Hn as Hn'. unfold new_Request in Hn'. inv_bind Hn'. simplify_eq/=.
  unfold new_Request, validateUrl, toJSON. simpl. rewrite Hu. simpl.
  rewrite !blob_utf8 by done. rewrite trim_idem.
  unfold merge_headers at 1. rewrite merge_nil_l by apply Hh. rewrite normalize_ok_id by done.
  assert (precheckBody (ro_body o) = Ok tt) as -> by (by destruct (ro_body o) as [[]|]).
  rewrite (normalize_regex_idem _ _ _ Ha1).
  simpl. unfold forget_transport. simpl. repeat f_equal.
  destruct (ro_method o); [apply toUpperCase_idem|done].
Qed.
