(* ===== verification/Utils.v ===== *)
(** * [Utils/]: error messages, the zlib header stream and the logger

    [ErrorMessageFactory.ts], [NormalizeZlibDeflateTransformStream.ts] and [Logger.ts]. *)
From S2P Require Import Prelude Request.

(** ** [ErrorMessageFactory] *)

(** A thrown value: a string or an error object. *)
Inductive thrown : Type :=
| TString (s : string)
| TError (e : js_error).

Inductive CommandErrorParams : Type :=
| ForCommand (command : string) (error : thrown)
| WithMessage (message : string) (error : thrown).

Definition getTitle (params : CommandErrorParams) : string :=
  match params with
  | WithMessage message _ => message
  | ForCommand command _ => "Error during " +:+ dquote +:+ command +:+ dquote
  end.

Definition params_error (params : CommandErrorParams) : thrown :=
  match params with ForCommand _ e => e | WithMessage _ e => e end.

(** The body of an API response when it is a string, else the [error] field, else the message. *)
Definition extractErrorDetails (params : CommandErrorParams) : option string :=
  match params_error params with
  | TString s => Some s
  | TError e =>
      match (if e_axios e then e_data e else None) with
      | Some data => Some data
      | None => Some (if truthy_opt (e_error e) then e_error e ?? "" else e_message e)
      end
  end.

Definition formatFinalMessage (baseMessage : string) (errorDetails : option string) : string :=
  if truthy_opt errorDetails then baseMessage +:+ ": " +:+ (errorDetails ?? "") +:+ "."
  else baseMessage +:+ ".".

Definition genericCommandError (params : CommandErrorParams) : string :=
  formatFinalMessage (getTitle params) (extractErrorDetails params).

(** ** [NormalizeZlibDeflateTransformStream] *)

Definition ZLIB_HEADER : Buffer := [120; 156]%N.

(** One call of [_transform]: the new [hasCheckedHead] and the chunks pushed. *)
Definition zlib_transform (hasCheckedHead : bool) (chunk : Buffer) : bool * list Buffer :=
  match chunk with
  | [] => (hasCheckedHead, [chunk])
  | b :: _ =>
      if negb hasCheckedHead
      then (true, (if negb (b =? 120)%N then [ZLIB_HEADER] else []) ++ [chunk])
      else (hasCheckedHead, [chunk])
  end.

Fixpoint zlib_stream (hasCheckedHead : bool) (chunks : list Buffer) : Buffer :=
  match chunks with
  | [] => []
  | chunk :: chunks =>
      let '(hasCheckedHead, pushed) := zlib_transform hasCheckedHead chunk in
      concat pushed ++ zlib_stream hasCheckedHead chunks
  end.

(** What the stream should do to the bytes as a whole. *)
Definition with_zlib_header (bytes : Buffer) : Buffer :=
  match bytes with
  | [] => []
  | b :: _ => if (b =? 120)%N then bytes else ZLIB_HEADER ++ bytes
  end.

Lemma zlib_stream_checked chunks : zlib_stream true chunks = concat chunks.
Proof. induction chunks as [|[|b c] chunks IH]; simpl; by rewrite ?app_nil_r, ?IH. Qed.

(** The stream puts a zlib header before a raw deflate body and leaves a zlib body alone,
    however the bytes are cut into chunks, empty ones included. *)
Theorem zlib_stream_chunking (chunks : list Buffer) :
  zlib_stream false chunks = with_zlib_header (concat chunks).
Proof.
  induction chunks as [|[|b chunk] chunks IH]; simpl; [done|done|].
  destruct (b =? 120)%N; simpl; by rewrite zlib_stream_checked, ?app_nil_r.
Qed.

(** ** [Logger] *)

Inductive LogLevel : Type := SILENT | ERROR | WARN | NOTICE | VERBOSE | TRACE.
Definition level_value (l : LogLevel) : nat :=
  match l with SILENT => 0 | ERROR => 1 | WARN => 2 | NOTICE => 3 | VERBOSE => 4 | TRACE => 5 end.
Definition level_name (l : LogLevel) : string :=
  match l with
  | SILENT => "SILENT" | ERROR => "ERROR" | WARN => "WARN" | NOTICE => "NOTICE"
  | VERBOSE => "VERBOSE" | TRACE => "TRACE"
  end.

Record LogOptions : Type := mk_log_options {
  lo_maxSize : option string;
  lo_maxFiles : option Z;
  lo_interval : option string;
  lo_compress : option string
}.

Record Logger : Type := mk_logger {
  lg_level : LogLevel;
  lg_file : option string;
  lg_options : LogOptions
}.

Definition or_default (x : option string) (d : string) : string :=
  if truthy_opt x then x ?? "" else d.

Definition normalize_options (o : LogOptions) : LogOptions :=
  mk_log_options (Some (or_default (lo_maxSize o) "10MB")) (Some (lo_maxFiles o ?? 5%Z))
    (Some (or_default (lo_interval o) "1d")) (Some (lo_compress o ?? "gzip")).

(** [set logFile]: the current file, if any, is ended; gives the files ended. *)
Definition set_logFile (filePath : option string) (l : Logger) : Logger * list string :=
  (mk_logger (lg_level l) (if truthy_opt filePath then filePath else None) (lg_options l),
   match lg_file l with Some f => [f] | None => [] end).

Definition configure (logLevel : option LogLevel) (logFile : option string)
    (options : option LogOptions) (l : Logger) : Logger * list string :=
  let l := mk_logger (logLevel ?? NOTICE) (lg_file l)
             (normalize_options (options ?? mk_log_options None None None None)) in
  if truthy_opt logFile then set_logFile logFile l else (l, []).

Definition new_Logger (logLevel : option LogLevel) (logFile : option string)
    (options : option LogOptions) : Logger * list string :=
  configure logLevel logFile options
    (mk_logger NOTICE None (mk_log_options None None None None)).

(** Where a line goes. *)
Inductive sink : Type := Stdout | Stderr | File (path : string).
#[export] Instance sink_eq_dec : EqDecision sink.
Proof. solve_decision. Defined.

Fixpoint pad (n : nat) (s : string) : string :=
  match n, s with
  | 0, _ => s
  | S n, "" => String " " (pad n "")
  | S n, String c s => String c (pad n s)
  end.

(** The longest name of the enum has seven letters. *)
Definition MAX_FORMATTED_LEVEL_LENGTH : nat := 7.

Definition formatMessage (now : string) (level : LogLevel) (formattedMessage : string) : string :=
  now +:+ " [" +:+ pad MAX_FORMATTED_LEVEL_LENGTH (level_name level) +:+ "] " +:+ formattedMessage.

(** [error], [warn], [log], [debug] and [trace], with the message already formatted by
    [util.format]; the terminal colours are left out. *)
Definition write (now : string) (level : LogLevel) (message : string) (l : Logger) :
    list (sink * string) :=
  if (level_value (lg_level l) <? level_value level)%nat then []
  else
    let formatted := formatMessage now level message in
    match lg_file l with
    | None => [(match level with ERROR => Stderr | _ => Stdout end, formatted +:+ newline)]
    | Some path => [(File path, formatted +:+ newline)]
    end.

(** Asking for uncompressed log files has no effect: the option for it is undefined, which is
    replaced by gzip. *)
Theorem log_files_always_gzip logLevel logFile options l :
  lo_compress options = None ->
  lo_compress (lg_options (configure logLevel logFile (Some options) l).1) = Some "gzip".
Proof. intros Ho. unfold configure. case_match; simpl; by rewrite Ho. Qed.

(** [getInstance]: the one logger of the process, made when it is first asked for. *)
Definition getInstance (instance : option Logger) : Logger := instance ?? (new_Logger None None None).1.

Definition set_logLevel (value : LogLevel) (l : Logger) : Logger := mk_logger value (lg_file l) (lg_options l).

(** *** [util.format] *)

(** What is handed to the logger: strings, and other values, of which [util.format] decides how to
    print them. *)
Inductive larg : Type := LStr (s : string) | LValue (inspected : string).

Definition inspect (a : larg) : string := match a with LStr s => s | LValue s => s end.

Section format.
(** The conversions of the numeric and object placeholders. *)
Context (conversion : ascii -> larg -> string).

Definition placeholder (c : ascii) : bool :=
  bool_decide (c ∈ ["s"; "j"; "d"; "O"; "o"; "i"; "f"; "c"]%char).

Definition convert (c : ascii) (a : larg) : string :=
  if c === "c"%char then "" else
  match c, a with
  | "s"%char, LStr s => s
  | _, _ => conversion c a
  end.

(** The placeholders of the first argument take the others in order, while there are any; the result
    and the arguments left. *)
Fixpoint fill (s : string) (args : list larg) : string * list larg :=
  match s with
  | "" => ("", args)
  | String "%" (String c s as t) =>
      if c === "%"%char then let '(r, rest) := fill s args in (String "%" r, rest)
      else match args with
           | a :: args' =>
               if placeholder c then let '(r, rest) := fill s args' in (convert c a +:+ r, rest)
               else let '(r, rest) := fill s args in (String "%" (String c r), rest)
           | [] => let '(r, rest) := fill s args in (String "%" (String c r), rest)
           end
  | String x s => let '(r, rest) := fill s args in (String x r, rest)
  end.

(** A message alone is taken as it is. *)
Definition format (message : string) (args : list larg) : string :=
  match args with
  | [] => message
  | _ => let '(r, rest) := fill message args in
         foldl (fun acc a => acc +:+ " " +:+ inspect a) r rest
  end.

(** *** [error] *)

Inductive error_or_message : Type :=
| AnError (message : string) (stack : option string)
| AMessage (message : string).

Definition error_text (errorOrMessage : error_or_message) (messageOrArg : option larg) (args : list larg) : string :=
  match errorOrMessage with
  | AMessage message => format message (option_list messageOrArg ++ args)
  | AnError emessage stack =>
      let message := match messageOrArg with Some a => if truthy (inspect a) then inspect a else emessage
                                           | None => emessage end in
      format message (args ++ (if truthy_opt stack then [LStr (newline +:+ (stack ?? ""))] else []))
  end.

Definition log_error (now : string) (errorOrMessage : error_or_message) (messageOrArg : option larg)
    (args : list larg) (l : Logger) : list (sink * string) :=
  write now ERROR (error_text errorOrMessage messageOrArg args) l.

(** The text has no percent sign. *)
Definition no_percent (s : string) : Prop := forall c, c ∈ String.list_ascii_of_string s -> c <> "%"%char.

Lemma fill_plain s args : no_percent s -> fill s args = (s, args).
Proof.
  induction s as [|x s IH]; intros Hp; [done|].
  assert (x <> "%"%char) as Hx by (apply Hp; left).
  assert (no_percent s) as Hs by (intros c Hc; apply Hp; by right).
  specialize (IH Hs). assert (fill (String x s) args = let '(r, rest) := fill s args in (String x r, rest)) as ->.
  { destruct x as [[] [] [] [] [] [] [] []]; done. }
  by rewrite IH.
Qed.

(** An error is logged with its stack, as long as its message has no percent sign. *)
Theorem error_with_stack message stack :
  no_percent message -> stack <> "" ->
  error_text (AnError message (Some stack)) None [] = message +:+ " " +:+ newline +:+ stack.
Proof. intros Hp Hs. unfold error_text, format. destruct stack; [done|]. simpl. by rewrite fill_plain. Qed.

(** The message of an error is used as a format: one that quotes an escaped URL can swallow the
    stack, here because the first escape reads as the placeholder that prints nothing. *)
Theorem stack_swallowed stack :
  error_text (AnError "Not found: /caf%c3%a9" (Some stack)) None [] =
    (if truthy stack then "Not found: /caf3%a9" else "Not found: /caf%c3%a9").
Proof. unfold error_text. destruct stack; reflexivity. Qed.
End format.
