(* ===== verification/Certificates.v ===== *)
(** * [RequestExecutor/]: client certificates and system roots

    [DefaultCertificatesCache] remembers which client certificate worked for a host and port,
    [DefaultCertificatesResolver] chooses the candidates for a request, and
    [CertificatesLoader] reads the trusted roots.  The resolver and the executor see the cache
    through the interface [CertificatesCache]. *)
From S2P Require Import Prelude Wildcard Helpers Request.

(** ** The cache interface *)

(** Both operations parse the URL of the request, so they may throw. *)
Class CertificatesCache (C : Type) : Type := {
  cache_new : C;
  cache_add : Request -> Cert -> C -> result js_error C;
  cache_get : Request -> C -> result js_error (option Cert)
}.

(** Requests [r1] and [r2] go to the same host and port. *)
Definition same_endpoint `{UrlApi} (r1 r2 : Request) : Prop :=
  exists u1 u2, new_URL (rq_url r1) = Some u1 /\ new_URL (rq_url r2) = Some u2 /\
    u_hostname u1 = u_hostname u2 /\ portFromURL u1 = portFromURL u2.

#[export] Instance same_endpoint_dec `{UrlApi} r1 r2 : Decision (same_endpoint r1 r2).
Proof.
  unfold same_endpoint.
  destruct (new_URL (rq_url r1)) as [u1|], (new_URL (rq_url r2)) as [u2|]; try (right; naive_solver).
  destruct (decide (u_hostname u1 = u_hostname u2 /\ portFromURL u1 = portFromURL u2)) as [[Hh Hp]|Hn].
  - left. by exists u1, u2.
  - right. intros (? & ? & [= <-] & [= <-] & Hh & Hp). by apply Hn.
Defined.

(** What the clients rely on: a new cache is empty, an entry is served to exactly the requests
    to its endpoint, and the first certificate added for an endpoint stays. *)
Class CertificatesCacheLaws C `{UrlApi, CertificatesCache C} : Prop := {
  cache_get_new r : is_Some (new_URL (rq_url r)) -> cache_get r cache_new = Ok None;
  cache_add_ok r cert (c : C) : is_Some (new_URL (rq_url r)) ->
    exists c', cache_add r cert c = Ok c';
  cache_get_url r (c : C) o : cache_get r c = Ok o -> is_Some (new_URL (rq_url r));
  cache_get_endpoint r r' (c : C) : same_endpoint r r' -> cache_get r c = cache_get r' c;
  cache_get_add r cert (c c' : C) : cache_add r cert c = Ok c' ->
    exists old, cache_get r c = Ok old /\ cache_get r c' = Ok (Some (old ?? cert));
  cache_get_add_other r cert (c c' : C) : cache_add r cert c = Ok c' -> forall r',
    is_Some (new_URL (rq_url r')) -> ~ same_endpoint r r' -> cache_get r' c' = cache_get r' c
}.

(** ** [DefaultCertificatesCache] *)

Definition InvalidURL : js_error :=
  mk_error "TypeError" "Invalid URL" (Some "ERR_INVALID_URL") None None None false None None None.

Definition parse_URL `{UrlApi} (s : string) : result js_error URL :=
  match new_URL s with Some u => Ok u | None => Err InvalidURL end.

Definition certificateCacheKeyFromRequest `{UrlApi} (request : Request) : result js_error string :=
  requestUrl ← parse_URL (rq_url request);
  Ok (u_hostname requestUrl +:+ "_" +:+ portFromURL requestUrl).

Definition add `{UrlApi} (request : Request) (cert : Cert) (cache : strmap Cert) :
    result js_error (strmap Cert) :=
  key ← certificateCacheKeyFromRequest request;
  Ok (if OMap.has key cache then cache else OMap.set key cert cache).

Definition get `{UrlApi} (request : Request) (cache : strmap Cert) :
    result js_error (option Cert) :=
  key ← certificateCacheKeyFromRequest request; Ok (OMap.get key cache).

#[export] Instance DefaultCertificatesCache `{UrlApi} : CertificatesCache (strmap Cert) := {
  cache_new := []; cache_add := add; cache_get := get
}.

(** ** [DefaultCertificatesResolver] *)

Definition matchHostnameAndPort (hostname port : string) (cert : Cert) : bool :=
  let hostNameMatch := (c_hostname cert === hostname) || wildcard_test (c_hostname cert) hostname in
  if negb hostNameMatch then false
  else if negb (truthy_opt (c_port cert)) then true
  else c_port cert === Some port.

Definition resolve `{UrlApi} {C} `{CertificatesCache C} (request : Request)
    (registeredCerts : list Cert) (cache : C) : result js_error (list Cert) :=
  cachedCertificate ← cache_get request cache;
  match cachedCertificate with
  | Some cert => Ok [cert]
  | None =>
      requestUrl ← parse_URL (rq_url request);
      let port := portFromURL requestUrl in
      Ok (base.filter (fun cert => matchHostnameAndPort (u_hostname requestUrl) port cert = true)
            registeredCerts)
  end.

(** ** [CertificatesLoader] *)

Definition CERT_FILES : list string :=
  ["/etc/ssl/certs/ca-certificates.crt"; "/etc/pki/tls/certs/ca-bundle.crt";
   "/etc/ssl/ca-bundle.pem"; "/etc/pki/tls/cacert.pem";
   "/etc/pki/ca-trust/extracted/pem/tls-ca-bundle.pem"; "/etc/ssl/cert.pem"].

Definition END_CERT : string := "-----END CERTIFICATE-----".

(** The separator is [END_CERT] and at most one newline after it. *)
Definition strip_newline (s : string) : string :=
  match s with String c t => if code c =? 10 then t else s | "" => "" end%N.
Definition split_certs (ca : string) : list string :=
  match split_str END_CERT ca with [] => [] | p :: ps => p :: (strip_newline <$> ps) end.
Definition parse_bundle (ca : string) : list string :=
  (fun cert => cert +:+ END_CERT +:+ newline) <$>
    base.filter (fun cert => truthy cert = true) (split_certs ca).

Section loader.
Context (platform : string) (readFile : string -> option string).
(** Whether [loadWinCertificates] of win-ca returns. *)
Context (loadWinCertificates : bool).

(** The roots of the global agent, [None] until they are set, are the state. *)
Definition loadCertsFromFile (path : string) : option (list string) :=
  parse_bundle <$> readFile path.

Fixpoint discover (paths : list string) (ca : option (list string)) :
    option (list string) * list string :=
  match paths with
  | [] => (ca, ["Error Loading Certificate: Cannot load certificates from the system root. Please use --cacert option to specify the accurate path to the file. https://docs.brightsec.com/docs/cli-initializing-the-repeater#options"])
  | path :: paths =>
      match loadCertsFromFile path with
      | Some ca' => (Some ca', [])
      | None => discover paths ca
      end
  end.
Definition discoveryDefaultLocations := discover CERT_FILES.

(** The roots after [load] and the warnings it logs; it never throws. *)
Definition load (path : option string) (ca : option (list string)) :
    option (list string) * list string :=
  let win := platform === "win32" in
  let warning place := "Error Loading Certificate: Cannot load certificates from " +:+ place +:+ "." in
  if win then
    (ca, if loadWinCertificates then []
         else [warning "Trusted Root Certification Authorities Certificate Store"])
  else match path with
       | Some path =>
           match loadCertsFromFile path with
           | Some ca' => (Some ca', [])
           | None => (ca, [warning path])
           end
       | None => discoveryDefaultLocations ca
       end.
End loader.

(** ** Lemmas *)

Lemma portFromURL_digits `{UrlLaws} s u :
  new_URL s = Some u -> str_all is_digit (portFromURL u) = true.
Proof. intros Hu. unfold portFromURL. repeat case_match; try done. by eapply url_port_digits. Qed.

(** A key determines the host and the port, because a port has no underscore. *)
Lemma split_last_underscore h1 h2 p1 p2 :
  str_all is_digit p1 = true -> str_all is_digit p2 = true ->
  h1 +:+ "_" +:+ p1 = h2 +:+ "_" +:+ p2 -> h1 = h2 /\ p1 = p2.
Proof.
  assert (forall t, str_all is_digit (t +:+ String "_" p2) = true -> False) as Hno.
  { intros t. rewrite str_all_app. simpl. by rewrite andb_false_r. }
  assert (forall t, str_all is_digit (t +:+ String "_" p1) = true -> False) as Hno'.
  { intros t. rewrite str_all_app. simpl. by rewrite andb_false_r. }
  revert h2. induction h1 as [|a h1 IH]; intros [|b h2] H1 H2 Heq; simpl in *;
    rewrite ?app_str_cons, ?app_str_nil_l in Heq; simplify_eq/=.
  - done.
  - exfalso. by eapply Hno.
  - exfalso. by eapply Hno'.
  - match goal with E : _ +:+ _ = _ |- _ => destruct (IH _ H1 H2 E) as [-> ->] end. done.
Qed.

Section cache.
Context `{UrlLaws}.

Lemma key_Ok r u : new_URL (rq_url r) = Some u ->
  certificateCacheKeyFromRequest r = Ok (u_hostname u +:+ "_" +:+ portFromURL u).
Proof. intros Hu. unfold certificateCacheKeyFromRequest, parse_URL. by rewrite Hu. Qed.

Lemma key_inj r1 r2 k1 k2 :
  certificateCacheKeyFromRequest r1 = Ok k1 -> certificateCacheKeyFromRequest r2 = Ok k2 ->
  k1 = k2 <-> same_endpoint r1 r2.
Proof.
  unfold certificateCacheKeyFromRequest, parse_URL, same_endpoint.
  destruct (new_URL (rq_url r1)) as [u1|] eqn:E1, (new_URL (rq_url r2)) as [u2|] eqn:E2; simpl;
    try done. intros [= <-] [= <-]. split.
  - intros Hk. apply split_last_underscore in Hk as [? ?]; eauto 10 using portFromURL_digits.
  - intros (? & ? & ? & ? & Hh & Hp). simplify_eq. by rewrite Hh, Hp.
Qed.

#[export] Instance DefaultCertificatesCache_laws : CertificatesCacheLaws (strmap Cert).
Proof.
  split; simpl; unfold add, get.
  - intros r [u Hu]. by rewrite (key_Ok _ _ Hu).
  - intros r cert c [u Hu]. rewrite (key_Ok _ _ Hu). simpl. eauto.
  - intros r c o Hg. inv_bind Hg. unfold certificateCacheKeyFromRequest, parse_URL in Ha.
    by destruct (new_URL (rq_url r)).
  - intros r r' c Hs. pose proof Hs as (u & u' & Hu & Hu' & _).
    rewrite (key_Ok _ _ Hu), (key_Ok _ _ Hu'). simpl. do 2 f_equal.
    by eapply key_inj; eauto using key_Ok.
  - intros r cert c c' Ha. inv_bind Ha. rewrite Ha0. simplify_eq/=. eexists. split; [done|].
    unfold OMap.has. destruct (OMap.get a c) eqn:E; [by rewrite E|]. by rewrite get_set_eq.
  - intros r cert c c' Ha r' [u' Hu'] Hs. inv_bind Ha. simplify_eq/=.
    rewrite (key_Ok _ _ Hu'). simpl. case_match; [done|]. rewrite get_set_ne; [done|].
    intros Hk. apply Hs. eapply key_inj; eauto using key_Ok.
Qed.
End cache.

Lemma matchHostnameAndPort_spec hostname port cert :
  matchHostnameAndPort hostname port cert = true <->
  (c_hostname cert = hostname \/ glob (c_hostname cert) hostname) /\
  (c_port cert = None \/ c_port cert = Some "" \/ c_port cert = Some port).
Proof.
  unfold matchHostnameAndPort, wildcard_test, RegExp_test. rewrite wildcardToRegExp_atoms.
  destruct (_ || _) eqn:Hm; simpl; rewrite ?orb_true_iff, ?orb_false_iff, ?eqb_true_iff,
    ?eqb_false_iff, ?re_match_atoms in Hm.
  - unfold truthy_opt, truthy. destruct (c_port cert) as [p|]; simpl; [|naive_solver].
    destruct (eqbP p "") as [->|Hp]; simpl; [naive_solver|]. rewrite eqb_true_iff. naive_solver.
  - destruct Hm as [? Hm]. rewrite <- not_true_iff_false, re_match_atoms in Hm. naive_solver.
Qed.

(** ** Theorems *)

(** C20: the resolver, over any cache that keeps its promise: a request to an endpoint without
    a cached certificate gets exactly the registered certificates whose host pattern covers its
    host name (literally or as a wildcard) and whose port, if any, is the port of the URL; after
    a certificate was recorded for an endpoint, requests to that endpoint get that certificate
    alone, and requests to other endpoints resolve as before. *)
Theorem resolve_cached {C} `{CertificatesCacheLaws C} (certs : list Cert) (c : C) (r : Request)
    (u : URL) :
  new_URL (rq_url r) = Some u ->
  (cache_get r c = Ok None -> exists l, resolve r certs c = Ok l /\
     forall cert, cert ∈ l <-> cert ∈ certs /\
       (c_hostname cert = u_hostname u \/ glob (c_hostname cert) (u_hostname u)) /\
       (c_port cert = None \/ c_port cert = Some "" \/ c_port cert = Some (portFromURL u))) /\
  forall cert c', cache_get r c = Ok None -> cache_add r cert c = Ok c' ->
    (forall r', same_endpoint r r' -> resolve r' certs c' = Ok [cert]) /\
    (forall r', is_Some (new_URL (rq_url r')) -> ~ same_endpoint r r' ->
       resolve r' certs c' = resolve r' certs c).
Proof.
  intros Hu. split.
  - intros Hc. unfold resolve. rewrite Hc. simpl. unfold parse_URL. rewrite Hu. simpl.
    eexists. split; [done|]. intros cert.
    by rewrite list_elem_of_filter, matchHostnameAndPort_spec, (and_comm (_ ∈ _)).
  - intros cert c' Hc Ha. split; intros r' Hr'.
    + unfold resolve. rewrite <- (cache_get_endpoint r r') by done.
      destruct (cache_get_add _ _ _ _ Ha) as (old & Hold & ->). simplify_eq. by rewrite Hc in Hold; simplify_eq.
    + intros Hs. unfold resolve. by rewrite (cache_get_add_other _ _ _ _ Ha).
Qed.

Definition one_host : UrlApi := fun s =>
  if s === "https://x.dev" then Some (mk_URL "https:" "x.dev" "x.dev" "")
  else if s === "https://x.dev:8443" then Some (mk_URL "https:" "x.dev:8443" "x.dev" "8443")
  else None.
#[export] Instance one_host_laws : @UrlLaws one_host.
Proof. intros s u. unfold new_URL, one_host. intros. by repeat case_match; simplify_eq. Qed.
Definition plain_request (url : string) : Request :=
  mk_Request "http" url None None None None true None None "GET" [] None None None.

#[local] Existing Instance one_host.

Lemma resolve_cached_witness :
  let certA := mk_Cert "a.pfx" "*.dev" None None in
  let certB := mk_Cert "b.pfx" "x.dev" None (Some "8443") in
  resolve (plain_request "https://x.dev") [certA; certB] [("x.dev_443", certA)] = Ok [certA].
Proof.
  intros certA certB.
  destruct (resolve_cached (C := strmap Cert) [certA; certB] [] (plain_request "https://x.dev")
              (mk_URL "https:" "x.dev" "x.dev" "")) as [_ Hadd].
  - vm_compute. reflexivity.
  - destruct (Hadd certA [("x.dev_443", certA)]) as [Hsame _]; [vm_compute; reflexivity..|].
    apply Hsame. do 2 eexists. split_and!; vm_compute; reflexivity.
Defined.

(** ** The trusted roots *)

(** The text of a certificate before its END line; a bundle is such texts, each closed by the
    line. *)
Definition pem_body (b : string) : Prop :=
  b <> "" /\ indexOf END_CERT (b +:+ END_CERT) = Some (String.length b).
Definition pem (b : string) : string := b +:+ END_CERT +:+ newline.
Definition bundle (bodies : list string) : string := foldr (fun b s => pem b +:+ s) "" bodies.

(** The files [load] may read on a system other than Windows. *)
Definition candidates (path : option string) : list string :=
  match path with Some p => [p] | None => CERT_FILES end.

Lemma indexOf_cons_newline b : pem_body b ->
  indexOf END_CERT ((newline +:+ b) +:+ END_CERT) = Some (S (String.length b)).
Proof. intros [_ Hb]. unfold newline. rewrite !app_str_cons, app_str_nil_l. simpl. by rewrite Hb. Qed.

Lemma split_bundle bodies : Forall pem_body bodies ->
  split_str END_CERT (newline +:+ bundle bodies) = ((fun b => newline +:+ b) <$> bodies) ++ [newline].
Proof.
  induction 1 as [|b l Hb _ IH]; [done|]. simpl. unfold pem. rewrite <- !app_str_assoc, app_str_assoc.
  rewrite split_first; [by rewrite IH|done|]. by apply indexOf_cons_newline.
Qed.

Lemma parse_bundle_roundtrip bodies : Forall pem_body bodies ->
  parse_bundle (bundle bodies) = pem <$> bodies.
Proof.
  destruct 1 as [|b l [Hn Hb] Hl]; [done|]. unfold parse_bundle, split_certs. simpl. unfold pem at 1.
  rewrite <- !app_str_assoc, split_first by done. rewrite split_bundle by done.
  rewrite fmap_app, <- list_fmap_compose. simpl.
  rewrite filter_cons_True by (unfold truthy; by rewrite eqb_neq). rewrite filter_app. simpl.
  rewrite filter_all.
  - rewrite (list_fmap_ext (strip_newline ∘ _) id), list_fmap_id by done.
    rewrite app_nil_r. done.
  - intros x (b' & -> & Hb')%list_elem_of_fmap. simpl.
    destruct (proj1 (Forall_forall _ _) Hl b' Hb') as [Hn' _]. unfold truthy. by rewrite eqb_neq.
Qed.

Lemma discover_first readFile paths ca i p text :
  paths !! i = Some p -> (forall j q, j < i -> paths !! j = Some q -> readFile q = None) ->
  readFile p = Some text -> discover readFile paths ca = (Some (parse_bundle text), []).
Proof.
  revert i. induction paths as [|q paths IH]; intros i Hi Hj Hp; [done|]. simpl.
  unfold loadCertsFromFile. destruct i as [|i]; simpl in Hi.
  - simplify_eq. by rewrite Hp.
  - rewrite (Hj 0 q) by (done || lia). simpl. apply (IH i); [done| |done].
    intros j q' Hji. apply (Hj (S j)). lia.
Qed.

Lemma discover_none readFile paths ca :
  (forall q, q ∈ paths -> readFile q = None) -> exists w, discover readFile paths ca = (ca, [w]).
Proof.
  induction paths as [|q paths IH]; intros Hq; simpl; [eauto|]. unfold loadCertsFromFile.
  rewrite (Hq q) by set_solver. simpl. apply IH. set_solver.
Qed.

(** Away from Windows [load] trusts exactly the certificates of the first candidate file that
    can be read (the given path, or the known locations in order), each with its END line, for
    any bundle of certificates; when none can be read the roots stay as they were and one
    warning is logged. *)
Theorem load_roots platform readFile win path ca :
  platform <> "win32" ->
  (forall i p bodies, candidates path !! i = Some p ->
     (forall j q, j < i -> candidates path !! j = Some q -> readFile q = None) ->
     readFile p = Some (bundle bodies) -> Forall pem_body bodies ->
     load platform readFile win path ca = (Some (pem <$> bodies), [])) /\
  ((forall q, q ∈ candidates path -> readFile q = None) ->
     exists w, load platform readFile win path ca = (ca, [w])).
Proof.
  intros Hp. unfold load. rewrite eqb_neq by done. destruct path as [path|]; cbn [candidates].
  - split.
    + intros i p bodies Hi Hj Hr Hb. destruct i; [|done]. simplify_eq/=.
      unfold loadCertsFromFile. rewrite Hr. simpl. by rewrite parse_bundle_roundtrip.
    + intros Hq. unfold loadCertsFromFile. rewrite Hq by set_solver. simpl. eauto.
  - split.
    + intros i p bodies Hi Hj Hr Hb. rewrite <- parse_bundle_roundtrip by done.
      by eapply discover_first.
    + intros Hq. by apply discover_none.
Qed.

Lemma load_roots_witness :
  let readFile p := if p === "/etc/ssl/ca-bundle.pem"
    then Some (bundle ["-----BEGIN CERTIFICATE-----A"; "-----BEGIN CERTIFICATE-----B"]) else None in
  load "linux" readFile true None None =
    (Some [pem "-----BEGIN CERTIFICATE-----A"; pem "-----BEGIN CERTIFICATE-----B"], []).
Proof.
  intros readFile.
  destruct (load_roots "linux" readFile true None None) as [Hload _]; [discriminate|].
  apply (Hload 2 "/etc/ssl/ca-bundle.pem"
           ["-----BEGIN CERTIFICATE-----A"; "-----BEGIN CERTIFICATE-----B"]).
  - reflexivity.
  - intros [|[|j]] q Hj Hq; [..|lia]; injection Hq as <-; reflexivity.
  - reflexivity.
  - repeat constructor; discriminate.
Defined.
