(* ===== verification/Proxy.v ===== *)
(** * [Utils/DefaultProxyFactory.ts] and [Utils/PatchedHttpsProxyAgent.ts]

    Which proxy agent carries the traffic to a target.  The agents themselves come from the
    packages http-proxy-agent, https-proxy-agent and socks-proxy-agent; what the
    repository decides is which one is built, with which options, for which scheme. *)
From S2P Require Import Prelude Certificates.

Inductive Agent : Type :=
| HttpProxyAgent (proxyUrl : string) (rejectUnauthorized : bool)
| PatchedHttpsProxyAgent (proxyUrl : string) (rejectUnauthorized : bool)
| SocksProxyAgent (proxyUrl : string).
#[export] Instance Agent_eq_dec : EqDecision Agent.
Proof. solve_decision. Defined.

Record Proxies : Type := mk_Proxies { httpAgent : Agent; httpsAgent : Agent }.
#[export] Instance Proxies_eq_dec : EqDecision Proxies.
Proof. solve_decision. Defined.

(** The options of the TLS upgrade: those the agent was built with, overridden by those of the
    connection ([connect] of the patched agent). *)
Definition patched_connect_opts (tlsUpgradeOptions opts : strmap string) : strmap string :=
  OMap.merge (OMap.merge [] tlsUpgradeOptions) opts.

Definition createHttpProxy (proxyUrl : string) (rejectUnauthorized : bool) : Proxies :=
  mk_Proxies (HttpProxyAgent proxyUrl rejectUnauthorized)
    (PatchedHttpsProxyAgent proxyUrl rejectUnauthorized).

Definition createSocksProxy (proxyUrl : string) : Proxies :=
  let common := SocksProxyAgent proxyUrl in mk_Proxies common common.

(** [protocol.replace(':', '')]: the first colon only. *)
Fixpoint drop_first_colon (s : string) : string :=
  match s with
  | "" => ""
  | String c t => if c === ":"%char then t else String c (drop_first_colon t)
  end.

Definition quoted (s : string) : string := "'" +:+ s +:+ "'".

Section factory.
Context `{UrlApi}.

Definition createProxy (proxyUrl : string) (rejectUnauthorized : option bool) :
    result js_error Proxies :=
  match new_URL proxyUrl with
  | None => throw ("Invalid Proxy URL: " +:+ quoted proxyUrl +:+ ". Please provide a valid URL.")
  | Some u =>
      let protocol := u_protocol u in
      if bool_decide (protocol ∈ ["http:"; "https:"]) then
        Ok (createHttpProxy proxyUrl (rejectUnauthorized ?? false))
      else if bool_decide (protocol ∈ ["socks:"; "socks4:"; "socks4a:"; "socks5:"; "socks5h:"]) then
        Ok (createSocksProxy proxyUrl)
      else throw ("Unsupported proxy protocol: " +:+ quoted (drop_first_colon protocol) +:+
                  ". Please use a supported protocol (HTTP(S), SOCKS4, or SOCKS5).")
  end.

Definition createProxyForClient (targetUrl proxyUrl : string) (rejectUnauthorized : option bool) :
    result js_error Agent :=
  proxies ← createProxy proxyUrl rejectUnauthorized;
  match new_URL targetUrl with
  | None => throw ("Invalid Target URL: " +:+ quoted targetUrl +:+
                   ". Please contact support at support@brightsec.com")
  | Some u =>
      let protocol := u_protocol u in
      if bool_decide (protocol ∈ ["http:"; "ws:"]) then Ok (httpAgent proxies)
      else if bool_decide (protocol ∈ ["https:"; "wss:"]) then Ok (httpsAgent proxies)
      else throw ("Proxy not supported for protocol " +:+ quoted protocol +:+
                  ". Please contact support at support@brightsec.com")
  end.

(** An agent that reaches targets over TLS tunnels the TCP stream: the patched https agent
    with CONNECT, the SOCKS agent for any target. *)
Definition tunnels (a : Agent) : bool :=
  match a with HttpProxyAgent _ _ => false | _ => true end.

Lemma createProxy_Ok proxyUrl reject proxies :
  createProxy proxyUrl reject = Ok proxies ->
  proxies = createHttpProxy proxyUrl (reject ?? false) \/ proxies = createSocksProxy proxyUrl.
Proof. unfold createProxy, throw. intros. repeat case_match; simplify_eq; auto. Qed.

(** For every pair of URLs the factory either refuses with an error or returns an agent
    through exactly the given proxy, and the agent tunnels whenever the target scheme is
    encrypted (https or wss); a SOCKS proxy is used for both kinds of target alike. *)
Theorem createProxyForClient_sound targetUrl proxyUrl reject agent u :
  new_URL targetUrl = Some u -> createProxyForClient targetUrl proxyUrl reject = Ok agent ->
  (agent = HttpProxyAgent proxyUrl (reject ?? false) /\ u_protocol u ∈ ["http:"; "ws:"] \/
   agent = PatchedHttpsProxyAgent proxyUrl (reject ?? false) /\ u_protocol u ∈ ["https:"; "wss:"] \/
   agent = SocksProxyAgent proxyUrl /\ u_protocol u ∈ ["http:"; "ws:"; "https:"; "wss:"]) /\
  (u_protocol u ∈ ["https:"; "wss:"] -> tunnels agent = true).
Proof.
  intros Hu Hc. unfold createProxyForClient in Hc. inv_bind Hc. rewrite Hu in Hc.
  apply createProxy_Ok in Ha.
  destruct (bool_decide_reflect (u_protocol u ∈ ["http:"; "ws:"])) as [Hp|Hp].
  - assert (u_protocol u ∉ ["https:"; "wss:"]) as Hn.
    { intros Hq. apply elem_of_cons in Hp as [Hp|Hp%list_elem_of_singleton];
        rewrite Hp in Hq; apply (bool_decide_pack _) in Hq; by vm_compute in Hq. }
    destruct Ha as [-> | ->]; simplify_eq/=; split; try done; [by left|do 2 right].
    split; [done|]. by apply (elem_of_app ["http:"; "ws:"] ["https:"; "wss:"]); left.
  - destruct (bool_decide_reflect (u_protocol u ∈ ["https:"; "wss:"])) as [Hq|Hq]; [|done].
    destruct Ha as [-> | ->]; simplify_eq/=; split; try done; [by right; left|do 2 right].
    split; [done|]. by apply (elem_of_app ["http:"; "ws:"] ["https:"; "wss:"]); right.
Qed.
End factory.

Definition proxy_urls : UrlApi := fun s =>
  if s === "socks5://p" then Some (mk_URL "socks5:" "p" "p" "")
  else if s === "wss://t" then Some (mk_URL "wss:" "t" "t" "") else None.

Lemma createProxyForClient_sound_witness :
  let agent := SocksProxyAgent "socks5://p" in
  (agent = HttpProxyAgent "socks5://p" false /\ "wss:" ∈ ["http:"; "ws:"] \/
   agent = PatchedHttpsProxyAgent "socks5://p" false /\ "wss:" ∈ ["https:"; "wss:"] \/
   agent = SocksProxyAgent "socks5://p" /\ "wss:" ∈ ["http:"; "ws:"; "https:"; "wss:"]) /\
  ("wss:" ∈ ["https:"; "wss:"] -> tunnels agent = true).
Proof.
  intros agent.
  apply (createProxyForClient_sound (H := proxy_urls) "wss://t" "socks5://p" None agent
           (mk_URL "wss:" "t" "t" "")); vm_compute; reflexivity.
Defined.
