(* ===== verification/TryCerts.v ===== *)
(** * [tryRequestWithCertificates] of both request executors

    Every candidate certificate is tried at once, on the same request object: each task reads
    its file, stores the certificate in the shared request, sends the request as it then is,
    and on success records the certificate in the cache.  [Promise.any] returns the first
    success.  The tasks interleave freely, so the routine is a step relation. *)
From S2P Require Import Prelude Helpers Request Certificates.

Inductive phase : Type :=
| Reading
| InFlight (sent : Request)
| Settled (sent : Request) (out : result js_error Response).

Definition AggregateError : js_error := named_error "AggregateError" "All promises were rejected".

Section try_certs.
Context `{UrlApi} {C} `{CertificatesCache C}.
Context (readFile : string -> option Buffer) (extname basename : string -> string).
Context (secure_context : option string -> option Buffer -> bool).
(** [exec sent out]: [executeRequest], called while the shared request was [sent], may settle
    with [out]. *)
Context (exec : Request -> result js_error Response -> Prop).

Record try_state : Type := mk_try {
  ts_request : Request;
  ts_tasks : list (Cert * phase);
  ts_cache : C;
  ts_result : option (result js_error Response)
}.

Definition try_init (request : Request) (certs : list Cert) (cache : C) : try_state :=
  mk_try request ((fun cert => (cert, Reading)) <$> certs) cache None.

(** The file of task [i] was read: load the certificate and send. *)
Definition read_done (st : try_state) (i : nat) (cert : Cert) : try_state :=
  let request := (loadCert readFile extname basename secure_context (ts_request st) cert).1 in
  mk_try request (<[i := (cert, InFlight request)]> (ts_tasks st)) (ts_cache st) (ts_result st).

Definition rejected (t : Cert * phase) : bool :=
  match t.2 with Settled _ (Err _) => true | _ => false end.

(** [Promise.any]: the first fulfilment settles it, otherwise the last rejection. *)
Definition any_result (old : option (result js_error Response)) (out : result js_error Response)
    (tasks : list (Cert * phase)) : option (result js_error Response) :=
  match old, out with
  | Some r, _ => Some r
  | None, Ok resp => Some (Ok resp)
  | None, Err _ => if forallb rejected tasks then Some (Err AggregateError) else None
  end.

(** What the task of [cert] makes of the outcome of [executeRequest]: on success it records the
    certificate, and adding to the cache may throw in turn. *)
Definition conclude (st : try_state) (cert : Cert) (out : result js_error Response) :
    result js_error Response * C :=
  match out with
  | Ok resp =>
      match cache_add (ts_request st) cert (ts_cache st) with
      | Ok cache => (Ok resp, cache)
      | Err e => (Err e, ts_cache st)
      end
  | Err e => (Err e, ts_cache st)
  end.

Definition respond (st : try_state) (i : nat) (cert : Cert) (sent : Request)
    (out : result js_error Response) : try_state :=
  let '(out', cache) := conclude st cert out in
  let tasks := <[i := (cert, Settled sent out')]> (ts_tasks st) in
  mk_try (ts_request st) tasks cache (any_result (ts_result st) out' tasks).

Inductive try_step : try_state -> try_state -> Prop :=
| try_read st i cert :
    ts_tasks st !! i = Some (cert, Reading) -> try_step st (read_done st i cert)
| try_respond st i cert sent out :
    ts_tasks st !! i = Some (cert, InFlight sent) -> exec sent out ->
    try_step st (respond st i cert sent out).

(** ** Termination *)

Definition phase_weight (t : Cert * phase) : nat :=
  match t.2 with Reading => 2 | InFlight _ => 1 | Settled _ _ => 0 end.
Definition try_measure (st : try_state) : nat := sum_list_with phase_weight (ts_tasks st).

Lemma try_step_measure st st' : try_step st st' -> try_measure st = S (try_measure st').
Proof.
  unfold try_measure. destruct 1 as [st i cert Hi|st i cert sent out Hi _].
  - pose proof (sum_list_with_insert phase_weight _ _ _ (cert, InFlight
      (loadCert readFile extname basename secure_context (ts_request st) cert).1) Hi) as Hw.
    unfold phase_weight in Hw at 2 4. simpl in *. lia.
  - unfold respond. destruct (conclude st cert out) as [out' cache]. simpl.
    pose proof (sum_list_with_insert phase_weight _ _ _ (cert, Settled sent out') Hi) as Hw.
    unfold phase_weight in Hw at 2 4. simpl in *. lia.
Qed.

Lemma try_steps_measure n st st' : nsteps try_step n st st' -> n + try_measure st' = try_measure st.
Proof. induction 1 as [|n x y z Hs _ IH]; [done|]. apply try_step_measure in Hs. lia. Qed.

Lemma measure_init request certs cache : try_measure (try_init request certs cache) = 2 * length certs.
Proof.
  unfold try_measure, try_init. simpl. induction certs as [|c l IH]; [done|].
  rewrite fmap_cons. simpl. rewrite IH. unfold phase_weight. simpl. lia.
Qed.

(** ** What a step keeps *)

Lemma loadCert_target r cert :
  target (loadCert readFile extname basename secure_context r cert).1 = target r.
Proof. unfold loadCert. by repeat case_match. Qed.

Lemma fst_insert (tasks : list (Cert * phase)) i cert ph ph' :
  tasks !! i = Some (cert, ph) -> (<[i := (cert, ph')]> tasks).*1 = tasks.*1.
Proof.
  intros Hi. rewrite list_fmap_insert. simpl. apply list_insert_id.
  by rewrite list_lookup_fmap, Hi.
Qed.

Lemma try_step_frame st st' :
  try_step st st' ->
  target (ts_request st') = target (ts_request st) /\ (ts_tasks st').*1 = (ts_tasks st).*1 /\
  forall k cert sent out, ts_tasks st !! k = Some (cert, Settled sent out) ->
    ts_tasks st' !! k = Some (cert, Settled sent out).
Proof.
  destruct 1 as [st i cert Hi|st i cert sent out Hi Hx].
  - split_and!; simpl; [apply loadCert_target|by eapply fst_insert|].
    intros k cert' sent out Hk. rewrite list_lookup_insert_ne; [done|]. congruence.
  - unfold respond. destruct (conclude st cert out) as [out' cache']. split_and!; simpl; [done|by eapply fst_insert|].
    intros k cert' sent' out0 Hk. rewrite list_lookup_insert_ne; [done|]. congruence.
Qed.

(** The cache changes only when a task that got a response records its certificate. *)
Lemma try_step_cache st st' :
  try_step st st' -> ts_cache st' = ts_cache st \/
  exists i cert sent resp, ts_tasks st !! i = Some (cert, InFlight sent) /\
    ts_tasks st' !! i = Some (cert, Settled sent (Ok resp)) /\
    cache_add (ts_request st) cert (ts_cache st) = Ok (ts_cache st').
Proof.
  destruct 1 as [st i cert Hi|st i cert sent out Hi Hx]; [by left|].
  unfold respond, conclude. destruct out as [resp|e]; [|by left].
  destruct (cache_add (ts_request st) cert (ts_cache st)) as [c|e] eqn:Ha; [right|by left].
  exists i, cert, sent, resp. split_and!; [done| |done]. simpl.
  rewrite list_lookup_insert_eq by (by eapply lookup_lt_Some). done.
Qed.

(** ** Invariant *)

Definition fulfilled (t : Cert * phase) : Prop :=
  match t.2 with Settled _ (Ok _) => True | _ => False end.

(** Facts about each task: it belongs to its certificate, what it sent targets the request, and a
    success it reports is an outcome of what it sent. *)
Definition task_ok (request : Request) (t : Cert * phase) : Prop :=
  match t.2 with
  | Reading => True
  | InFlight sent => target sent = target request
  | Settled sent out => target sent = target request /\ forall resp, out = Ok resp -> exec sent out
  end.

(** What holds of the tasks and the result whatever happens to the cache meanwhile. *)
Record local_inv (request : Request) (certs : list Cert) (st : try_state) : Prop := {
  li_target : target (ts_request st) = target request;
  li_certs : (ts_tasks st).*1 = certs;
  li_tasks : forall i t, ts_tasks st !! i = Some t -> task_ok request t;
  li_pending : ts_result st = None ->
    (forall i t, ts_tasks st !! i = Some t -> ~ fulfilled t) /\ forallb rejected (ts_tasks st) = false;
  li_failed : forall e, ts_result st = Some (Err e) ->
    e = AggregateError /\ forallb rejected (ts_tasks st) = true;
  li_done : forall resp, ts_result st = Some (Ok resp) ->
    exists i cert sent, ts_tasks st !! i = Some (cert, Settled sent (Ok resp))
}.

(** What the cache holds for the endpoint when nobody else writes to it: the certificate of the
    winner unless one was known, and what was known as long as there is no winner. *)
Definition cache_inv (request : Request) (known : option Cert) (st : try_state) : Prop :=
  match ts_result st with
  | Some (Ok resp) => exists i cert sent, ts_tasks st !! i = Some (cert, Settled sent (Ok resp)) /\
      cache_get request (ts_cache st) = Ok (Some (known ?? cert))
  | _ => cache_get request (ts_cache st) = Ok known
  end.

Definition try_inv (request : Request) (certs : list Cert) (known : option Cert) (st : try_state) : Prop :=
  local_inv request certs st /\ cache_inv request known st.

Definition with_cache (c : C) (st : try_state) : try_state :=
  mk_try (ts_request st) (ts_tasks st) c (ts_result st).

Lemma local_inv_cache request certs c st : local_inv request certs st -> local_inv request certs (with_cache c st).
Proof. by intros []. Qed.

Context `{!CertificatesCacheLaws C}.

Lemma target_endpoint r1 r2 : target r1 = target r2 -> is_Some (new_URL (rq_url r1)) ->
  same_endpoint r1 r2.
Proof.
  unfold target, same_endpoint. intros Ht [u Hu]. injection Ht as _ _ Hurl _ _ _.
  exists u, u. by rewrite <- Hurl.
Qed.

Lemma local_inv_init request certs cache :
  certs <> [] -> local_inv request certs (try_init request certs cache).
Proof.
  intros Hne. split; try done.
  - unfold try_init. simpl. rewrite <- list_fmap_compose. apply list_fmap_id.
  - intros i t. simpl. rewrite list_lookup_fmap. destruct (certs !! i); naive_solver.
  - intros _. split; [|by destruct certs].
    intros i t. simpl. rewrite list_lookup_fmap. destruct (certs !! i); naive_solver.
Qed.

Lemma try_inv_init request certs known cache :
  certs <> [] -> cache_get request cache = Ok known ->
  try_inv request certs known (try_init request certs cache).
Proof. intros Hne Hc. split; [by apply local_inv_init|done]. Qed.

(** One task changes: every fact about the tasks holds of the new one and of the others. *)
Lemma insert_all (P : Cert * phase -> Prop) (tasks : list (Cert * phase)) i t' :
  (forall j t, tasks !! j = Some t -> P t) -> P t' ->
  forall j t, <[i := t']> tasks !! j = Some t -> P t.
Proof.
  intros HP Ht' j t Hj. apply list_lookup_insert_Some in Hj as [(? & ? & ?)|[? ?]]; naive_solver.
Qed.

Lemma insert_not_rejected (tasks : list (Cert * phase)) i t' :
  i < length tasks -> rejected t' = false -> forallb rejected (<[i := t']> tasks) = false.
Proof.
  intros Hi Ht. apply not_true_iff_false. rewrite List.forallb_forall. intros Hall.
  specialize (Hall t'). rewrite Hall in Ht; [done|]. apply list_elem_of_In.
  apply list_elem_of_lookup_2 with i. by apply list_lookup_insert_eq.
Qed.

Lemma not_all_rejected (tasks : list (Cert * phase)) i t :
  tasks !! i = Some t -> rejected t = false -> forallb rejected tasks = true -> False.
Proof.
  intros Hi Ht Hall. rewrite List.forallb_forall in Hall. specialize (Hall t).
  rewrite Hall in Ht; [done|]. apply list_elem_of_In. by eapply list_elem_of_lookup_2.
Qed.

Lemma local_inv_read request certs st i cert :
  ts_tasks st !! i = Some (cert, Reading) -> local_inv request certs st ->
  local_inv request certs (read_done st i cert).
Proof.
  intros Hi [Ht Hc Hk Hp Hf Hd]. pose proof (lookup_lt_Some _ _ _ Hi) as Hl.
  split; simpl.
  - by rewrite loadCert_target.
  - rewrite <- Hc. by eapply fst_insert.
  - apply insert_all; [done|]. simpl. unfold task_ok. simpl. by rewrite loadCert_target.
  - intros Hr. destruct (Hp Hr) as (Hn & ?). split; [|by apply insert_not_rejected].
    apply (insert_all (fun t => ~ fulfilled t)); [done|]. by intros [].
  - intros e Hr. destruct (Hf e Hr) as (_ & Hall). exfalso. by eapply not_all_rejected.
  - intros resp Hr. destruct (Hd resp Hr) as (j & cert' & sent & Hj).
    exists j, cert', sent. rewrite list_lookup_insert_ne; [done|]. congruence.
Qed.

Lemma try_inv_read request certs known st i cert :
  ts_tasks st !! i = Some (cert, Reading) -> try_inv request certs known st ->
  try_inv request certs known (read_done st i cert).
Proof.
  intros Hi [Hl Hc]. split; [by apply local_inv_read|]. unfold cache_inv in *. simpl.
  case_match; [|done]. case_match; [|done]. destruct Hc as (j & cert' & sent & Hj & ?).
  exists j, cert', sent. split; [|done]. rewrite list_lookup_insert_ne; [done|]. congruence.
Qed.

Lemma conclude_spec request st cert out out' cache' :
  target (ts_request st) = target request -> is_Some (new_URL (rq_url request)) ->
  conclude st cert out = (out', cache') ->
  (exists resp old, out = Ok resp /\ out' = Ok resp /\ cache_get request (ts_cache st) = Ok old /\
     cache_get request cache' = Ok (Some (old ?? cert))) \/
  (exists e, out' = Err e /\ cache' = ts_cache st).
Proof.
  intros Ht Hu Hc. unfold conclude in Hc.
  assert (same_endpoint request (ts_request st)) as Hs
    by (apply target_endpoint; [symmetry|]; done).
  clear Ht.
  destruct out as [resp|e]; [|simplify_eq; eauto].
  destruct (cache_add (ts_request st) cert (ts_cache st)) as [c|e] eqn:Ha; simplify_eq; [|eauto].
  left. apply cache_get_add in Ha as (old & Hold & Hnew). exists resp, old.
  by rewrite (cache_get_endpoint _ _ (ts_cache st) Hs), (cache_get_endpoint _ _ cache' Hs).
Qed.

(** A task fulfils only with what was received. *)
Lemma conclude_out st cert out : (conclude st cert out).1 = out \/ exists e, (conclude st cert out).1 = Err e.
Proof. unfold conclude. destruct out; [case_match|]; simpl; eauto. Qed.

Lemma local_inv_respond request certs st i cert sent out :
  ts_tasks st !! i = Some (cert, InFlight sent) -> exec sent out -> local_inv request certs st ->
  local_inv request certs (respond st i cert sent out).
Proof.
  intros Hi Hx [Ht Hc Hk Hp Hf Hd]. pose proof (lookup_lt_Some _ _ _ Hi) as Hl.
  pose proof (conclude_out st cert out) as Hspec.
  unfold respond. destruct (conclude st cert out) as [out' cache'] eqn:Hcon. simpl in Hspec.
  split; simpl; [done|rewrite <- Hc; by eapply fst_insert| | | |].
  - apply insert_all; [done|]. unfold task_ok. simpl. split; [apply (Hk i _ Hi)|].
    intros resp ->. destruct Hspec as [<-|[? ?]]; done.
  - intros Hr. unfold any_result in Hr. destruct (ts_result st) as [|] eqn:Hres; [done|].
    destruct out' as [|e]; [done|]. case_match eqn:Hall; [done|]. destruct (Hp eq_refl) as (? & _).
    split; [|done]. apply (insert_all (fun t => ~ fulfilled t)); [done|by intros []].
  - intros e Hr. unfold any_result in Hr. destruct (ts_result st) as [r|] eqn:Hres; simplify_eq.
    { destruct (Hf e eq_refl) as (_ & Hall). exfalso. by eapply not_all_rejected. }
    destruct out'; [done|]. case_match eqn:Hall; by simplify_eq.
  - intros resp Hr. unfold any_result in Hr. destruct (ts_result st) as [r|] eqn:Hres; simplify_eq.
    + destruct (Hd resp eq_refl) as (j & cert' & sent' & Hj). exists j, cert', sent'.
      rewrite list_lookup_insert_ne; congruence.
    + destruct out' as [resp'|]; [|by case_match]. simplify_eq. exists i, cert, sent.
      by apply list_lookup_insert_eq.
Qed.

Lemma try_inv_respond request certs known st i cert sent out :
  is_Some (new_URL (rq_url request)) ->
  ts_tasks st !! i = Some (cert, InFlight sent) -> exec sent out -> try_inv request certs known st ->
  try_inv request certs known (respond st i cert sent out).
Proof.
  intros Hu Hi Hx [Hl Hc]. split; [by apply local_inv_respond|].
  destruct Hl as [Ht _ _ _ Hf _]. pose proof (lookup_lt_Some _ _ _ Hi) as Hlt. unfold respond.
  destruct (conclude st cert out) as [out' cache'] eqn:Hcon.
  pose proof (conclude_spec _ _ _ _ _ _ Ht Hu Hcon) as Hspec.
  unfold cache_inv in *. simpl. destruct (ts_result st) as [[resp|e]|] eqn:Hres; simpl.
  - destruct Hc as (j & cert' & sent' & Hj & Hg). exists j, cert', sent'.
    split; [rewrite list_lookup_insert_ne; congruence|].
    destruct Hspec as [(? & old & _ & _ & Ho & ->)|(e' & _ & ->)]; [|done].
    rewrite Hg in Ho. by injection Ho as <-.
  - destruct (Hf e eq_refl) as (_ & Hall). exfalso. by eapply not_all_rejected.
  - destruct Hspec as [(resp & old & -> & -> & Ho & Hn)|(e' & -> & ->)];
      [|by destruct (forallb rejected (<[i := _]> _))].
    exists i, cert, sent. split; [by apply list_lookup_insert_eq|]. rewrite Hc in Ho. by injection Ho as <-.
Qed.

Lemma local_inv_step request certs st st' :
  try_step st st' -> local_inv request certs st -> local_inv request certs st'.
Proof. destruct 1; eauto using local_inv_read, local_inv_respond. Qed.

Lemma try_inv_reach request certs known cache st :
  is_Some (new_URL (rq_url request)) -> certs <> [] -> cache_get request cache = Ok known ->
  rtc try_step (try_init request certs cache) st -> try_inv request certs known st.
Proof.
  intros Hu Hne Hc Hr. remember (try_init request certs cache) as st0 eqn:Hst0.
  assert (try_inv request certs known st0) as Hinv by (subst; by apply try_inv_init). clear Hst0.
  induction Hr as [|st1 st2 st3 Hs _ IH]; [done|]. apply IH.
  destruct Hs; eauto using try_inv_read, try_inv_respond.
Qed.

(** While some task can still settle the result, there is a step. *)
Lemma pending_progress st :
  (forall sent, exists out, exec sent out) ->
  (forall i t, ts_tasks st !! i = Some t -> ~ fulfilled t) -> forallb rejected (ts_tasks st) = false ->
  exists st', try_step st st'.
Proof.
  intros Htot Hnf Hnr. destruct (decide (Exists (fun t => rejected t = false) (ts_tasks st))) as [He|He].
  - apply Exists_exists in He as ([cert ph] & Hin & Hrej).
    apply list_elem_of_lookup_1 in Hin as [i Hi]. destruct ph as [|sent|sent [resp|e]].
    + eexists. by eapply try_read.
    + destruct (Htot sent) as [out Hout]. eexists. by eapply try_respond.
    + by destruct (Hnf i _ Hi).
    + done.
  - exfalso. apply not_true_iff_false in Hnr. apply Hnr, List.forallb_forall. intros t Ht.
    destruct (rejected t) eqn:E; [done|]. destruct He. apply Exists_exists.
    exists t. by rewrite list_elem_of_In.
Qed.

Lemma local_inv_progress request certs st :
  (forall sent, exists out, exec sent out) -> local_inv request certs st ->
  is_Some (ts_result st) \/ exists st', try_step st st'.
Proof.
  intros Htot [_ _ _ Hp _ _]. destruct (ts_result st) as [r|] eqn:Hr; [by left; eexists|right].
  destruct (Hp eq_refl). by apply pending_progress.
Qed.

(** From every reachable state some continuation settles. *)
Lemma try_inv_settle request certs known st :
  is_Some (new_URL (rq_url request)) -> (forall sent, exists out, exec sent out) ->
  try_inv request certs known st ->
  exists st', rtc try_step st st' /\ is_Some (ts_result st').
Proof.
  intros Hu Htot. remember (try_measure st) as n eqn:Hn. revert st Hn.
  induction (lt_wf n) as [n _ IH]. intros st -> Hinv.
  destruct (local_inv_progress _ _ _ Htot (proj1 Hinv)) as [?|[st1 Hs]]; [by exists st|].
  pose proof (try_step_measure _ _ Hs) as Hm.
  destruct (IH (try_measure st1) ltac:(lia) st1 eq_refl) as (st' & Hr & ?).
  { destruct Hs; eauto using try_inv_read, try_inv_respond. }
  exists st'. split; [by eapply rtc_l|done].
Qed.


(** The routine always settles: a run has at most two steps per candidate, and as long as
    every request sent gets some outcome, a run that cannot go on has settled. *)
Theorem try_certs_settles request certs known cache n st :
  is_Some (new_URL (rq_url request)) -> certs <> [] -> cache_get request cache = Ok known ->
  (forall sent, exists out, exec sent out) ->
  nsteps try_step n (try_init request certs cache) st ->
  n <= 2 * length certs /\ (is_Some (ts_result st) \/ exists st', try_step st st').
Proof.
  intros Hu Hne Hc Htot Hn. split.
  { apply try_steps_measure in Hn. rewrite measure_init in Hn. lia. }
  apply (rtc_nsteps_2 n) in Hn. by eapply local_inv_progress, try_inv_reach.
Qed.
End try_certs.

(** ** A concrete race: a client key in a .pfx file against a certificate in a .crt file *)

#[local] Existing Instance one_host.

Definition race_files (path : string) : option Buffer :=
  if path === "a.pfx" then Some [1%N] else if path === "b.crt" then Some [2%N] else None.
Definition race_ext (path : string) : string := str_drop 1 path.
Definition race_certA : Cert := mk_Cert "a.pfx" "*" (Some "secret") None.
Definition race_certB : Cert := mk_Cert "b.crt" "x.dev" None None.
Definition race_response : Response :=
  mk_Response "http" (Some 200%Z) None (Some "ok") None None None None.
Definition race_exec (sent : Request) (out : result js_error Response) : Prop :=
  out = match rq_ca sent with Some _ => Ok race_response | None => Err (new_Error "handshake") end.
Definition race_request : Request := plain_request "https://x.dev".

(** Both files are read, A first; then A fails and B succeeds. *)
Definition race1 : try_state (C := strmap Cert) :=
  read_done race_files race_ext id (fun _ _ => true)
    (try_init race_request [race_certA; race_certB] []) 0 race_certA.
Definition race2 : try_state := read_done race_files race_ext id (fun _ _ => true) race1 1 race_certB.
Definition race3 : try_state :=
  respond race2 0 race_certA (ts_request race1) (Err (new_Error "handshake")).
Definition race4 : try_state := respond race3 1 race_certB (ts_request race2) (Ok race_response).

Lemma race_steps : nsteps (try_step race_files race_ext id (fun _ _ => true) race_exec) 4
  (try_init race_request [race_certA; race_certB] []) race4.
Proof.
  apply nsteps_l with race1; [by apply try_read|].
  apply nsteps_l with race2; [by apply try_read|].
  apply nsteps_l with race3; [by apply try_respond|].
  apply nsteps_l with race4; [by apply try_respond|]. constructor.
Qed.

(** The tasks share one request object, so the key and passphrase of one candidate leak into
    the request sent for another: with a .pfx and a .crt candidate, in some interleaving the
    request that tries the .crt carries the private key of the .pfx. *)
Theorem try_certs_leak :
  exists st sent,
    rtc (try_step race_files race_ext id (fun _ _ => true) race_exec)
      (try_init (C := strmap Cert) race_request [race_certA; race_certB] []) st /\
    ts_tasks st !! 1 = Some (race_certB, InFlight sent) /\
    rq_pfx race_request = None /\ rq_pfx sent = race_files "a.pfx" /\
    rq_passphrase sent = c_passphrase race_certA.
Proof.
  exists race2, (ts_request race2). split; [|by split_and!].
  apply rtc_l with race1; [by apply try_read|]. apply rtc_once. by apply try_read.
Qed.


Lemma try_certs_settles_witness :
  4 <= 2 * length [race_certA; race_certB] /\
  (is_Some (ts_result race4) \/
   exists st', try_step race_files race_ext id (fun _ _ => true) race_exec race4 st').
Proof.
  apply (try_certs_settles race_files race_ext id (fun _ _ => true) race_exec race_request
           [race_certA; race_certB] None [] 4 race4).
  - eexists. vm_compute. reflexivity.
  - discriminate.
  - vm_compute. reflexivity.
  - intros sent. eexists. reflexivity.
  - apply race_steps.
Defined.
