(* ===== verification/HttpExecutor.v ===== *)
(** * [RequestExecutor/HttpRequestExecutor.ts]

    The executor that forwards an HTTP request to the target through libcurl: request and
    response scripts, proxy and Kerberos selection, the curl options, truncation of the
    response, client certificates and the mapping of errors to responses.  libcurl, iconv-lite,
    the content-type parser and Node's URL parsers are parameters. *)
From stdpp Require Import pretty.
From S2P Require Import Prelude Wildcard Helpers Scripts Request Certificates TryCerts.

(** ** Options and state *)

(** A JavaScript number where the code computes with it: an integer, Infinity or NaN (which
    is also what arithmetic on undefined gives). *)
Inductive number : Type :=
| Fin (z : Z)
| Infinity
| NaN.

Definition number_mul (x : number) (k : Z) : number :=
  match x with Fin z => Fin (z * k) | x => x end.
(** [n > x] for a length [n]; comparisons with NaN are false. *)
Definition gt_number (n : nat) (x : number) : bool :=
  match x with Fin z => (z <? Z.of_nat n)%Z | Infinity => false | NaN => false end.
Definition undefined_NaN (x : option number) : number := x ?? NaN.

Record WhitelistMimeType : Type := mk_mime {
  m_type : string;
  m_allowTruncation : option bool
}.

Record KerberosOptions : Type := mk_kerberos {
  k_enabled : bool;
  k_domains : option (list string);
  k_credentials : option string;
  k_delegation : option bool
}.

Record RequestExecutorOptions : Type := mk_options {
  o_timeout : option Z;
  o_proxyUrl : option string;
  o_headers : option Headers;
  o_certs : option (list Cert);
  o_whitelistMimes : option (list WhitelistMimeType);
  o_maxBodySize : option number;
  o_maxContentLength : option number;
  o_reuseConnection : bool;
  o_proxyDomains : option (list string);
  o_proxyDomainsBypass : option (list string);
  o_kerberos : option KerberosOptions
}.

(** A compiled wildcard. *)
Abbreviation Regex := (option (list re_atom)).

Record HttpRequestExecutor : Type := mk_executor {
  x_options : RequestExecutorOptions;
  x_proxyDomains : option (list Regex);
  x_proxyDomainsBypass : option (list Regex);
  x_kerberosDomains : option (list Regex);
  x_sharedMulti_max : option Z
}.

Definition KEEP_ALIVE_IDLE_TIMEOUT : Z := 60.
Definition MAX_HOST_CONNECTIONS : Z := 100.
Definition DEFAULT_SCRIPT_ENTRYPOINT : string := "handle".
Definition RESPONSE_SCRIPT_ENTRYPOINT : string := "onResponse".

Definition kerberos_enabled (o : RequestExecutorOptions) : bool :=
  match o_kerberos o with Some k => k_enabled k | None => false end.
Definition nonempty_opt {A} (o : option (list A)) : bool :=
  match o with Some (_ :: _) => true | _ => false end.

Definition new_HttpRequestExecutor (o : RequestExecutorOptions) :
    result js_error HttpRequestExecutor :=
  if nonempty_opt (o_proxyDomains o) && nonempty_opt (o_proxyDomainsBypass o)
  then throw "cannot use both proxyDomains and proxyDomainsBypass at the same time"
  else
    Ok (mk_executor o
          (map wildcardToRegExp <$> o_proxyDomains o)
          (map wildcardToRegExp <$> o_proxyDomainsBypass o)
          (if kerberos_enabled o
           then map wildcardToRegExp <$> (o_kerberos o ≫= k_domains) else None)
          (if o_reuseConnection o || kerberos_enabled o
           then Some MAX_HOST_CONNECTIONS else None)).

(** ** External code *)

(** [url.parse] of Node: absent parts are null. *)
Record LegacyUrl : Type := mk_legacy {
  lu_protocol : option string;
  lu_host : option string;
  lu_hostname : option string;
  lu_auth : option string
}.
Class LegacyUrlApi : Type := parseUrl : string -> LegacyUrl.

(** What a template literal or [RegExp.test] makes of null. *)
Definition show_null (o : option string) : string := o ?? "null".

(** iconv-lite (encoding or decoding with an unknown encoding throws), the content-type
    parser of fast-content-type-parse, and [Buffer.toString()]. *)
Class Codecs : Type := {
  iconv_encode : string -> string -> result js_error Buffer;
  iconv_decode : Buffer -> string -> result js_error string;
  encodingExists : string -> bool;
  safeParse : HeaderValue -> string * option string;
  buffer_toString : Buffer -> string
}.

(** ** The curl handle *)

Inductive CurlValue : Type :=
| CStr (s : string)
| CNum (z : Z)
| CBool (b : bool)
| CBuf (b : Buffer)
| CList (l : list string).
#[export] Instance CurlValue_eq_dec : EqDecision CurlValue.
Proof. solve_decision. Defined.

(** The calls made on a curl handle, in order. *)
Inductive CurlOp : Type :=
| Enable (feature : string)
| SetOpt (name : string) (v : CurlValue)
| SetMulti.
#[export] Instance CurlOp_eq_dec : EqDecision CurlOp.
Proof. solve_decision. Defined.

Definition when (b : bool) (l : list CurlOp) : list CurlOp := if b then l else [].

(** [s.search(/[/?#]/)]. *)
Definition path_char (c : ascii) : bool :=
  bool_decide (c ∈ ["/"%char; "?"%char; "#"%char]).
Fixpoint search_path (s : string) : option nat :=
  match s with
  | "" => None
  | String c t => if path_char c then Some 0 else S <$> search_path t
  end.

Definition buildRawPath (url : string) : string :=
  let withoutProtocol :=
    match indexOf "://" url with None => url | Some i => str_drop (i + 3) url end in
  match search_path withoutProtocol with
  | None => "/"
  | Some pathStart =>
      let rest := str_drop pathStart withoutProtocol in
      if startsWith "/" rest then rest else "/" +:+ rest
  end.

Definition hasHeader (request : Request) (headerName : string) : bool :=
  existsb (fun k => toLowerCase k === toLowerCase headerName) (OMap.keys (rq_headers request)).

Definition header_values (value : HeaderValue) : list string :=
  match value with HArr l => l | HStr s => [s] end.

Definition buildCurlHeaders (request : Request) : list string :=
  concat ((fun '(key, value) =>
    if negb (truthy key) then []
    else (fun v => key +:+ ": " +:+ v) <$> header_values value) <$> rq_headers request).

(** The header block of the last response; libcurl keeps the status line under [result]. *)
Definition parseCurlHeaders (rawHeaders : list Headers) : Headers :=
  foldl (fun result '(key, val) =>
    if key === "result" then result else OMap.set (toLowerCase key) val result)
    [] (last rawHeaders ?? []).

Section executor.
Context {LU : LegacyUrlApi} {CO : Codecs}.
Implicit Types (x : HttpRequestExecutor) (request : Request).

Definition hostname_of (url : string) : string := show_null (lu_hostname (parseUrl url)).

Definition some_match (domains : list Regex) (hostname : string) : bool :=
  existsb (fun domain => RegExp_test domain hostname) domains.

Definition resolveProxy x request : option string :=
  let hostname := hostname_of (rq_url request) in
  if match x_proxyDomains x with
     | Some domains => negb (some_match domains hostname) | None => false end
  then None
  else if match x_proxyDomainsBypass x with
          | Some domains => some_match domains hostname | None => false end
  then None
  else o_proxyUrl (x_options x).

Definition shouldApplyKerberos x request : bool :=
  if negb (kerberos_enabled (x_options x)) then false
  else match x_kerberosDomains x with
       | None => true
       | Some domains => some_match domains (hostname_of (rq_url request))
       end.

Definition applyCurlBody request : result js_error (list CurlOp) :=
  match rq_body request with
  | None => Ok []
  | Some BOther => Err (TypeError "The first argument must be of type string")
  | Some (BStr body) =>
      if negb (truthy body) then Ok []
      else
        bodyBuffer ← (if truthy_opt (rq_encoding request)
                      then iconv_encode body (rq_encoding request ?? "")
                      else Ok (utf8_encode body));
        Ok [SetOpt "POSTFIELDS" (CStr (buffer_toString bodyBuffer));
            SetOpt "POSTFIELDSIZE" (CNum (Z.of_nat (length bodyBuffer)))]
  end.

Definition applyCurlTls request : list CurlOp :=
  match rq_ca request with Some ca => [SetOpt "CAINFO_BLOB" (CBuf ca)] | None => [] end ++
  match rq_pfx request with
  | Some pfx =>
      [SetOpt "SSLCERT_BLOB" (CBuf pfx); SetOpt "SSLCERTTYPE" (CStr "P12")] ++
      when (truthy_opt (rq_passphrase request))
        [SetOpt "KEYPASSWD" (CStr (rq_passphrase request ?? ""))]
  | None => []
  end.

Definition applyCurlTimeout x request : list CurlOp :=
  match rq_timeout request ??? o_timeout (x_options x) with
  | Some timeout => [SetOpt "TIMEOUT_MS" (CNum timeout)]
  | None => []
  end.

Definition applyCurlHeaders x request : list CurlOp :=
  let curlHeaders := buildCurlHeaders request in
  let curlHeaders :=
    if negb (o_reuseConnection (x_options x)) && negb (shouldApplyKerberos x request) &&
       negb (hasHeader request "connection")
    then curlHeaders ++ ["Connection: close"] else curlHeaders in
  let curlHeaders :=
    if negb (rq_decompress request) && negb (hasHeader request "accept-encoding")
    then curlHeaders ++ ["Accept-Encoding: identity"] else curlHeaders in
  [SetOpt "USERAGENT" (CStr "")] ++
  when (rq_decompress request) [SetOpt "ACCEPT_ENCODING" (CStr "")] ++
  when (negb (length curlHeaders =? 0)%nat) [SetOpt "HTTPHEADER" (CList curlHeaders)].

(** [credentials || ':'], and the numeric constants of libcurl by name. *)
Definition applyCurlKerberos x request : list CurlOp :=
  if negb (shouldApplyKerberos x request) then []
  else match o_kerberos (x_options x) with
       | None => []
       | Some k =>
           [SetOpt "HTTPAUTH" (CStr "CurlAuth.Negotiate");
            SetOpt "USERPWD" (CStr (if truthy_opt (k_credentials k)
                                    then k_credentials k ?? "" else ":"))] ++
           when (k_delegation k ?? false)
             [SetOpt "GSSAPI_DELEGATION" (CStr "CurlGssApi.DelegationFlag")]
       end.

Definition configureCurl x request : result js_error (list CurlOp) :=
  let '(mk_legacy protocol host _ auth) := parseUrl (rq_url request) in
  body ← applyCurlBody request;
  let proxyUrl := resolveProxy x request in
  Ok ([Enable "NoDataParsing";
       SetOpt "URL" (CStr (show_null protocol +:+ "//" +:+ show_null host))] ++
      when (truthy_opt auth) [SetOpt "USERPWD" (CStr (auth ?? ""))] ++
      [SetOpt "REQUEST_TARGET" (CStr (buildRawPath (rq_url request)));
       SetOpt "PATH_AS_IS" (CBool true);
       SetOpt "SSL_VERIFYPEER" (CBool false);
       SetOpt "SSL_VERIFYHOST" (CNum 0);
       SetOpt "FOLLOWLOCATION" (CBool false)] ++
      body ++ applyCurlTls request ++ applyCurlTimeout x request ++ applyCurlHeaders x request ++
      (if o_reuseConnection (x_options x) || shouldApplyKerberos x request
       then [SetOpt "TCP_KEEPALIVE" (CNum 1);
             SetOpt "TCP_KEEPIDLE" (CNum KEEP_ALIVE_IDLE_TIMEOUT); SetMulti]
       else [SetOpt "FRESH_CONNECT" (CNum 1); SetOpt "FORBID_REUSE" (CNum 1)]) ++
      applyCurlKerberos x request ++
      when (truthy_opt proxyUrl) [SetOpt "PROXY" (CStr (proxyUrl ?? ""))] ++
      [SetOpt "CUSTOMREQUEST" (CStr (rq_method request))]).

(** ** Responses *)

Inductive transform_kind : Type := truncated | omitted.

(** [buffer.subarray(0, end)]: a negative end counts from the end, NaN is 0. *)
Definition subarray (body : Buffer) (end_ : number) : Buffer :=
  match end_ with
  | Fin z => take (Z.to_nat (if (z <? 0)%Z then z + Z.of_nat (length body) else z)) body
  | Infinity => body
  | NaN => []
  end.

Definition truncateBody (body : Buffer) (maxSize : number) (allowTruncation : bool) :
    Buffer * transform_kind :=
  if allowTruncation then (subarray body maxSize, truncated) else ([], omitted).

Definition parseContentType (headers : Headers) : string * string :=
  let contentType :=
    match OMap.get "content-type" headers with
    | Some (HStr s) => HStr (if truthy s then s else "application/octet-stream")
    | Some (HArr l) => HArr l
    | None => HStr "application/octet-stream"
    end in
  let '(type, charset) := safeParse contentType in
  (type, match charset with
         | Some e => if negb (truthy e) || negb (encodingExists e) then "utf-8" else e
         | None => "utf-8"
         end).

(** The limit in bytes that applies to a response, and whether its type is whitelisted. *)
Definition whitelisted x (type : string) : option WhitelistMimeType :=
  match o_whitelistMimes (x_options x) with
  | Some mimes => List.find (fun mime => startsWith (m_type mime) type) mimes
  | None => None
  end.
Definition max_size x request (mime : option WhitelistMimeType) : number :=
  match mime with
  | Some _ => undefined_NaN (o_maxBodySize (x_options x))
  | None => number_mul
              (undefined_NaN ((Fin <$> rq_maxContentSize request) ???
                              o_maxContentLength (x_options x))) 1024
  end.

(** The body and headers of the response before the body is decoded, with the change made to the
    body and whether it is reported in the log. *)
Definition truncate_bytes x request (rawBody : Buffer) (responseHeaders : Headers) :
    Buffer * Headers * option transform_kind * bool :=
  let mime := whitelisted x (parseContentType responseHeaders).1 in
  let maxSize := max_size x request mime in
  let responseHeaders :=
    if rq_decompress request then OMap.del "content-encoding" responseHeaders
    else responseHeaders in
  let '(body, transform) :=
    if gt_number (length rawBody) maxSize then
      let '(body, transform) := truncateBody rawBody maxSize
        (match mime with Some m => m_allowTruncation m ?? false | None => true end) in
      (body, Some transform)
    else (rawBody, None) in
  (body, OMap.set "content-length" (HStr (pretty (length body))) responseHeaders, transform,
   match transform, mime with Some _, Some _ => true | _, _ => false end).

Definition truncateResponse x request (rawBody : Buffer) (responseHeaders : Headers) :
    result js_error (string * Headers) :=
  let '(body, headers, _, _) := truncate_bytes x request rawBody responseHeaders in
  decoded ← iconv_decode body (rq_encoding request ?? (parseContentType responseHeaders).2);
  Ok (decoded, headers).

Definition responseHasNoBody (method : string) (statusCode : Z) : bool :=
  (method === "HEAD") || ((100 <=? statusCode) && (statusCode <? 200))%Z ||
  (statusCode =? 204)%Z || (statusCode =? 304)%Z.

(** ** Scripts *)

(** The functions a script exports are values [Fn]; applying the request entry point gives new
    options, applying the response entry point gives what it returns (if anything) and the
    headers object it was handed as it leaves it, for the object is shared with the response. *)
Record ScriptResult : Type := mk_script_result {
  sr_statusCode : option Z;
  sr_headers : option Headers;
  sr_body : option string
}.

Section scripting.
Context {UA : UrlApi} (valid_regexp : string -> bool).
Context {Fn : Type} (runInContext : string -> result js_error (strmap Fn)).
Context (apply_handle : Fn -> RequestOptions -> result js_error RequestOptions).
Context (apply_onResponse : Fn -> Response -> result js_error (Headers * option ScriptResult)).

Definition with_body (o : RequestOptions) (body : option BodyValue) : RequestOptions :=
  mk_RequestOptions (ro_protocol o) (ro_url o) (ro_headers o) (ro_method o) (ro_pfx o) (ro_ca o)
    body (ro_passphrase o) (ro_correlationIdRegex o) (ro_encoding o) (ro_maxContentSize o)
    (ro_timeout o) (ro_decompress o) (ro_keepAlive o).

(** The body a script sees: [iconv.encode] takes an absent body as the empty string. *)
Definition script_body request : result js_error (option BodyValue) :=
  if truthy_opt (rq_encoding request) then
    match rq_body request with
    | Some BOther => Ok (Some BOther)
    | body =>
        let text := match body with Some (BStr s) => s | _ => "" end in
        bytes ← iconv_encode text (rq_encoding request ?? "");
        Ok (Some (BStr (buffer_toString bytes)))
    end
  else Ok (rq_body request).

Definition transformScript (store : strmap VirtualScript) request : result js_error Request :=
  url ← parse_URL (rq_url request);
  match find (u_hostname url) store with
  | None => Ok request
  | Some vm =>
      body ← script_body request;
      func ← vs_exec runInContext vm DEFAULT_SCRIPT_ENTRYPOINT;
      result ← apply_handle func (with_body (toJSON buffer_toString request) body);
      new_Request valid_regexp result
  end.

Definition with_headers (r : Response) (headers : option Headers) : Response :=
  mk_Response (rs_protocol r) (rs_statusCode r) headers (rs_body r) (rs_encoding r)
    (rs_message r) (rs_errorCode r) (rs_ttfb r).

(** The fields of the response that the script is handed. *)
Definition script_view (r : Response) : Response :=
  mk_Response (rs_protocol r) (rs_statusCode r) (rs_headers r) (rs_body r) None None None None.

Definition handleResponseScript (store : strmap VirtualScript) request (response : Response) :
    result js_error Response :=
  url ← parse_URL (rq_url request);
  match find (u_hostname url) store with
  | None => Ok response
  | Some vm =>
      exported ← vs_has runInContext vm RESPONSE_SCRIPT_ENTRYPOINT;
      if negb exported then Ok response
      else
        func ← vs_exec runInContext vm RESPONSE_SCRIPT_ENTRYPOINT;
        out ← apply_onResponse func (script_view response);
        let '(mutated, result) := out in
        let response := with_headers response (Some mutated) in
        match result with
        | None => Ok response
        | Some result =>
            Ok (mk_Response (rs_protocol response)
                  (sr_statusCode result ??? rs_statusCode response)
                  (sr_headers result ??? rs_headers response)
                  (sr_body result ??? rs_body response)
                  (rs_encoding response) None None (rs_ttfb response))
        end
  end.

(** ** One request *)

(** What libcurl reports in its [end] event. *)
Record RawResponse : Type := mk_raw {
  raw_statusCode : Z;
  raw_body : Buffer;
  raw_headers : list Headers;
  raw_starttransfer_us : Z
}.

(** [Math.round(us / 1000)]. *)
Definition round_ms (us : Z) : Z := (us + 500) / 1000.

Definition executeRequest x (store : strmap VirtualScript) request (raw : RawResponse) :
    result js_error Response :=
  let statusCode := raw_statusCode raw in
  let headers := parseCurlHeaders (raw_headers raw) in
  let ttfb := round_ms (raw_starttransfer_us raw) in
  if responseHasNoBody (rq_method request) statusCode then
    handleResponseScript store request
      (mk_Response HTTP (Some statusCode) (Some headers) (Some "") None None None (Some ttfb))
  else
    bh ← truncateResponse x request (raw_body raw) headers;
    let '(body, finalHeaders) := bh in
    handleResponseScript store request
      (mk_Response HTTP (Some statusCode) (Some finalHeaders) (Some body) (rq_encoding request)
         None None (Some ttfb)).

(** [transport ops out]: libcurl, configured by the calls [ops], may end with [out]. *)
Context (transport : list CurlOp -> result js_error RawResponse -> Prop).

(** The request is configured when it is sent and the response handled when it arrives. *)
Definition exec x (store : strmap VirtualScript) request (out : result js_error Response) : Prop :=
  match configureCurl x request with
  | Err e => out = Err e
  | Ok ops => exists raw, transport ops raw /\
      out = match raw with Ok raw => executeRequest x store request raw | Err e => Err e end
  end.

(** ** [execute] *)

Definition error_response (e : js_error) : Response :=
  let cause := e_cause e ?? e in
  mk_Response HTTP None None None None (Some (e_message cause))
    (e_code cause ??? e_syscall cause ??? Some (e_name cause)) None.

Definition response_of (out : result js_error Response) : Response :=
  match out with Ok response => response | Err e => error_response e end.

Context {C} {CC : CertificatesCache C}.
Context (readFile : string -> option Buffer) (extname basename : string -> string).
Context (secure_context : option string -> option Buffer -> bool).

(** Everything before the first attempt: the extra headers, the script, the certificates. *)
Definition prepare x (store : strmap VirtualScript) (cache : C) request :
    result js_error (Request * list Cert) :=
  let request := match o_headers (x_options x) with
                 | Some headers => setHeaders request headers | None => request end in
  request ← transformScript store request;
  targetCerts ← match o_certs (x_options x) with
                | Some certs => resolve request certs cache | None => Ok [] end;
  Ok (request, targetCerts).

(** [execute x store cache request response cache']: [execute(request)] may return [response]
    and leave the cache as [cache']. *)
Inductive execute x (store : strmap VirtualScript) (cache : C) request : Response -> C -> Prop :=
| execute_failed e :
    prepare x store cache request = Err e ->
    execute x store cache request (error_response e) cache
| execute_plain r out :
    prepare x store cache request = Ok (r, []) -> exec x store r out ->
    execute x store cache request (response_of out) cache
| execute_certs r certs st out :
    prepare x store cache request = Ok (r, certs) -> certs <> [] ->
    rtc (try_step readFile extname basename secure_context (exec x store))
      (try_init r certs cache) st ->
    ts_result st = Some out ->
    execute x store cache request (response_of out) (ts_cache st).
End scripting.
End executor.

(** ** The raw path *)

Lemma indexOf_scheme scheme rest :
  str_has ":"%char scheme = false -> indexOf "://" (scheme +:+ "://" +:+ rest) =
    Some (String.length scheme).
Proof.
  unfold str_has. induction scheme as [|c t IH]; intros Hc; [done|].
  rewrite app_str_cons. simpl in Hc. apply orb_false_iff in Hc as [Hc Ht].
  cbn [indexOf startsWith]. rewrite eqb_sym, Hc. simpl. by rewrite IH.
Qed.

Lemma search_path_authority authority rest :
  str_any path_char authority = false -> search_path (authority +:+ rest) =
    (fun n => String.length authority + n) <$> search_path rest.
Proof.
  induction authority as [|c t IH]; intros Hc; [rewrite app_str_nil_l; by destruct (search_path rest)|].
  rewrite app_str_cons. simpl in *. apply orb_false_iff in Hc as [-> Ht].
  rewrite IH by done. by destruct (search_path rest).
Qed.

Lemma str_drop_app_plus a n s : str_drop (String.length a + n) (a +:+ s) = str_drop n s.
Proof. by induction a. Qed.

(** The path sent on the wire is the path of the URL, character for character: everything
    after the authority, with a leading slash added when the URL goes straight to a query or a
    fragment, and a single slash when there is nothing. *)
Theorem buildRawPath_verbatim scheme authority rest :
  str_has ":"%char scheme = false -> str_any path_char authority = false ->
  rest = "" \/ (exists c t, rest = String c t /\ path_char c = true) ->
  buildRawPath (scheme +:+ "://" +:+ authority +:+ rest) =
    if startsWith "/" rest then rest else "/" +:+ rest.
Proof.
  intros Hs Ha Hr. unfold buildRawPath. rewrite indexOf_scheme by done.
  rewrite str_drop_app_plus. cbn [str_drop]. rewrite !app_str_cons, app_str_nil_l. cbn [str_drop].
  rewrite search_path_authority by done. destruct Hr as [->|(c & t & -> & Hc)]; [done|].
  cbn [search_path]. rewrite Hc. simpl fmap. cbv beta iota zeta.
  by rewrite str_drop_app_plus.
Qed.

Lemma buildRawPath_verbatim_witness :
  buildRawPath "https://user@a.com:8080?q=%2e/../x#f" = "/?q=%2e/../x#f".
Proof.
  apply (buildRawPath_verbatim "https" "user@a.com:8080" "?q=%2e/../x#f").
  - reflexivity.
  - vm_compute. reflexivity.
  - right. do 2 eexists. split; [reflexivity|]. vm_compute. reflexivity.
Defined.

(** ** Truncation *)

Lemma subarray_length body z : (0 <= z)%Z -> (z < Z.of_nat (length body))%Z ->
  Z.of_nat (length (subarray body (Fin z))) = z.
Proof.
  intros Hz Hl. unfold subarray. rewrite (proj2 (Z.ltb_ge z 0)) by lia.
  rewrite length_take. lia.
Qed.

Lemma subarray_prefix body m : subarray body m `prefix_of` body.
Proof. destruct m; simpl; [apply prefix_take|done|apply prefix_nil]. Qed.

Section truncation.
Context {CO : Codecs} (x : HttpRequestExecutor) (request : Request) (raw : Buffer) (headers : Headers).
Let mime := whitelisted x (parseContentType headers).1.
Let limit := max_size x request mime.

Lemma truncate_bytes_body body headers' tr logged :
  truncate_bytes x request raw headers = (body, headers', tr, logged) ->
  body `prefix_of` raw /\
  (forall z, limit = Fin z -> (0 <= z)%Z -> (Z.of_nat (length body) <= z)%Z) /\
  (gt_number (length raw) limit = false <-> tr = None) /\ (tr = None -> body = raw) /\
  (mime = None -> tr <> Some omitted /\ logged = false).
Proof.
  unfold truncate_bytes. fold mime. fold limit. intros Heq. unfold truncateBody in Heq.
  destruct (gt_number (length raw) limit) eqn:Hgt.
  - destruct mime as [m|] eqn:Hm; [destruct (m_allowTruncation m ?? false)|]; simplify_eq/=;
      split_and!; try done; try apply subarray_prefix; try apply prefix_nil;
      intros z Hz Hz0; rewrite Hz in *; simpl in Hgt; try lia;
      rewrite subarray_length by lia; lia.
  - simplify_eq/=. split_and!; try done.
    intros z Hz _. rewrite Hz in Hgt. simpl in Hgt. lia.
Qed.

Lemma truncate_bytes_headers body headers' tr logged :
  truncate_bytes x request raw headers = (body, headers', tr, logged) ->
  headers' = OMap.set "content-length" (HStr (pretty (length body)))
    (if rq_decompress request then OMap.del "content-encoding" headers else headers).
Proof. unfold truncate_bytes. intros Heq. repeat case_match; by simplify_eq/=. Qed.

End truncation.

(** Every encoding decodes to the empty string and every type is text; enough for a run. *)
Definition sample_codecs : Codecs :=
  {| iconv_encode _ _ := Ok []; iconv_decode _ _ := Ok ""; encodingExists _ := true;
     safeParse _ := ("text/html", None); buffer_toString _ := "" |}.
Definition sample_http_options : RequestExecutorOptions :=
  mk_options (Some 1000%Z) (Some "http://proxy") None None (Some [mk_mime "image/" None])
    (Some Infinity) (Some (Fin 100)) false (Some ["*.dev"]) None None.
Definition sample_executor : HttpRequestExecutor :=
  mk_executor sample_http_options (Some (map wildcardToRegExp ["*.dev"])) None None None.


(** ** Proxy and Kerberos selection *)

Lemma some_match_glob domains hostname :
  some_match (map wildcardToRegExp domains) hostname = true <->
  exists d, d ∈ domains /\ glob d hostname.
Proof.
  unfold some_match. rewrite List.existsb_exists. split.
  - intros (r & (d & <- & Hd)%List.in_map_iff & Ht). exists d. rewrite list_elem_of_In.
    rewrite wildcardToRegExp_atoms in Ht. by apply re_match_atoms in Ht.
  - intros (d & Hd & Hg). exists (wildcardToRegExp d). split.
    + apply List.in_map. by apply list_elem_of_In.
    + rewrite wildcardToRegExp_atoms. by apply re_match_atoms.
Qed.

Lemma some_match_false domains hostname :
  some_match (map wildcardToRegExp domains) hostname = false <->
  ~ exists d, d ∈ domains /\ glob d hostname.
Proof. by rewrite <- some_match_glob, not_true_iff_false. Qed.

Lemma new_executor_inv o x : new_HttpRequestExecutor o = Ok x ->
  x_options x = o /\
  x_proxyDomains x = map wildcardToRegExp <$> o_proxyDomains o /\
  x_proxyDomainsBypass x = map wildcardToRegExp <$> o_proxyDomainsBypass o /\
  x_kerberosDomains x = (if kerberos_enabled o
    then map wildcardToRegExp <$> (o_kerberos o ≫= k_domains) else None).
Proof. unfold new_HttpRequestExecutor. case_match; intros; by simplify_eq/=. Qed.

Lemma outside_spec (o : option (list string)) hostname :
  match map wildcardToRegExp <$> o with
  | Some domains => negb (some_match domains hostname) | None => false end = true <->
  exists l, o = Some l /\ ~ exists d, d ∈ l /\ glob d hostname.
Proof.
  destruct o as [l|]; simpl; [|naive_solver]. rewrite negb_true_iff, some_match_false. naive_solver.
Qed.

Lemma bypass_spec (o : option (list string)) hostname :
  match map wildcardToRegExp <$> o with
  | Some domains => some_match domains hostname | None => false end = true <->
  exists l, o = Some l /\ exists d, d ∈ l /\ glob d hostname.
Proof. destruct o as [l|]; simpl; [|naive_solver]. rewrite some_match_glob. naive_solver. Qed.

(** An executor that could be built sends a request through the configured proxy exactly
    when its host name matches one of the proxy domains (if any are given) and none of the
    bypass domains, and applies Kerberos exactly when it is enabled and, if domains are given,
    one of them matches; matching is the wildcard relation. *)
Theorem executor_selection {LU : LegacyUrlApi} o x request :
  new_HttpRequestExecutor o = Ok x ->
  let hostname := hostname_of (rq_url request) in
  let matches l := exists d, d ∈ l /\ glob d hostname in
  (forall url, resolveProxy x request = Some url <->
     o_proxyUrl o = Some url /\ (forall l, o_proxyDomains o = Some l -> matches l) /\
     (forall l, o_proxyDomainsBypass o = Some l -> ~ matches l)) /\
  (shouldApplyKerberos x request = true <->
     exists k, o_kerberos o = Some k /\ k_enabled k = true /\
       forall l, k_domains k = Some l -> matches l).
Proof.
  intros (Ho & Hp & Hb & Hk)%new_executor_inv hostname matches. split.
  - intros url. unfold resolveProxy. rewrite Ho, Hp, Hb. fold hostname.
    pose proof (outside_spec (o_proxyDomains o) hostname) as Hout.
    pose proof (bypass_spec (o_proxyDomainsBypass o) hostname) as Hin.
    destruct (match map wildcardToRegExp <$> o_proxyDomains o with Some _ => _ | None => _ end).
    { destruct Hout as [(l & Hl & Hn) _]; [done|]. split; [done|].
      intros (_ & Hm & _). destruct Hn. by apply Hm. }
    destruct (match map wildcardToRegExp <$> o_proxyDomainsBypass o with Some _ => _ | None => _ end).
    { destruct Hin as [(l & Hl & Hn) _]; [done|]. split; [done|].
      intros (_ & _ & Hm). by destruct (Hm l). }
    split; [|by intros []]. intros Hurl. split_and!; [done| |].
    + intros l Hl. destruct (some_match (map wildcardToRegExp l) hostname) eqn:Hm.
      * by apply some_match_glob in Hm.
      * apply some_match_false in Hm. destruct Hout as [_ Hout]. discriminate Hout. eauto.
    + intros l Hl Hm. destruct Hin as [_ Hin]. discriminate Hin. eauto.
  - unfold shouldApplyKerberos. rewrite Ho, Hk. unfold kerberos_enabled. fold hostname.
    destruct (o_kerberos o) as [k|]; simpl; [|split; [done|by intros (? & ? & _)]].
    destruct (k_enabled k) eqn:He; simpl; [|split; [done|intros (? & ? & ? & _); congruence]].
    destruct (k_domains k) as [l|] eqn:Hd; simpl; rewrite ?some_match_glob.
    + split; [intros Hm; exists k; split_and!; [done..|]; intros l' Hl'; by simplify_eq|].
      intros (k' & ? & _ & Hm). simplify_eq. by apply Hm.
    + split; [intros _; exists k; split_and!; [done..|]; intros l' Hl'; congruence|done].
Qed.

Definition sample_legacy : LegacyUrlApi := fun s =>
  mk_legacy (Some "https:") (Some "a.dev") (Some "a.dev") (Some "u:p").

Lemma executor_selection_witness :
  resolveProxy (LU := sample_legacy) sample_executor sample_request = Some "http://proxy" <->
  Some "http://proxy" = Some "http://proxy" /\
  (forall l, Some ["*.dev"] = Some l -> exists d, d ∈ l /\ glob d "a.dev") /\
  (forall l : list string, None = Some l -> ~ exists d, d ∈ l /\ glob d "a.dev").
Proof.
  destruct (executor_selection (LU := sample_legacy) sample_http_options sample_executor
              sample_request) as [Hp _]; [reflexivity|].
  exact (Hp "http://proxy").
Defined.

(** ** The configured handle *)

(** The value a curl option ends up with: the last one set. *)
Fixpoint curl_get (name : string) (ops : list CurlOp) : option CurlValue :=
  match ops with
  | [] => None
  | SetOpt n v :: ops => curl_get name ops ??? (if n === name then Some v else None)
  | _ :: ops => curl_get name ops
  end.

Definition op_names (ops : list CurlOp) : list string :=
  omap (fun op => match op with SetOpt n _ => Some n | _ => None end) ops.

Lemma curl_get_app name l1 l2 : curl_get name (l1 ++ l2) = curl_get name l2 ??? curl_get name l1.
Proof.
  induction l1 as [|[f|n v|] l1 IH]; simpl; [by destruct (curl_get name l2)|done| |done].
  rewrite IH. by destruct (curl_get name l2), (curl_get name l1).
Qed.

Lemma curl_get_notin name ops : name ∉ op_names ops -> curl_get name ops = None.
Proof.
  induction ops as [|[f|n v|] ops IH]; intros Hn; simpl in *; auto.
  rewrite IH by set_solver. simpl. rewrite eqb_neq; [done|set_solver].
Qed.

(** The options each part of the configuration may set. *)
Definition BODY_OPTS : list string := ["POSTFIELDS"; "POSTFIELDSIZE"].
Definition TLS_OPTS : list string := ["CAINFO_BLOB"; "SSLCERT_BLOB"; "SSLCERTTYPE"; "KEYPASSWD"].
Definition HEADER_OPTS : list string := ["USERAGENT"; "ACCEPT_ENCODING"; "HTTPHEADER"].
Definition KERBEROS_OPTS : list string := ["HTTPAUTH"; "USERPWD"; "GSSAPI_DELEGATION"].

Section configured.
Context {LU : LegacyUrlApi} {CO : Codecs}.
Implicit Types (x : HttpRequestExecutor) (request : Request).

Lemma get_body name request ops :
  applyCurlBody request = Ok ops -> name ∉ BODY_OPTS -> curl_get name ops = None.
Proof.
  intros Hb Hn. apply curl_get_notin. unfold applyCurlBody in Hb.
  destruct (rq_body request) as [[body|]|]; simplify_eq/=; [|set_solver].
  destruct (truthy body); simpl in Hb; [inv_bind Hb|]; simplify_eq/=; set_solver.
Qed.

Lemma get_tls name request : name ∉ TLS_OPTS -> curl_get name (applyCurlTls request) = None.
Proof.
  intros Hn. apply curl_get_notin. unfold applyCurlTls, when, TLS_OPTS in *.
  repeat case_match; simpl; set_solver.
Qed.

Lemma get_timeout name x request :
  name <> "TIMEOUT_MS" -> curl_get name (applyCurlTimeout x request) = None.
Proof.
  intros Hn. unfold applyCurlTimeout. case_match; [simpl; by rewrite eqb_neq by done|done].
Qed.

Lemma get_headers name x request :
  name ∉ HEADER_OPTS -> curl_get name (applyCurlHeaders x request) = None.
Proof.
  intros Hn. apply curl_get_notin. unfold applyCurlHeaders, when, HEADER_OPTS in *.
  destruct (negb (length _ =? 0)), (rq_decompress request); simpl; set_solver.
Qed.

Lemma get_kerberos name x request :
  name ∉ KERBEROS_OPTS -> curl_get name (applyCurlKerberos x request) = None.
Proof.
  intros Hn. apply curl_get_notin. unfold applyCurlKerberos, when, KERBEROS_OPTS in *.
  repeat case_match; simpl; set_solver.
Qed.

Definition http_lines (ops : list CurlOp) : list string :=
  match curl_get "HTTPHEADER" ops with Some (CList l) => l | _ => [] end.

Lemma http_lines_built x request line :
  line ∈ http_lines (applyCurlHeaders x request) <->
  line ∈ buildCurlHeaders request \/
  (line = "Connection: close" /\ o_reuseConnection (x_options x) = false /\
     shouldApplyKerberos x request = false /\ hasHeader request "connection" = false) \/
  (line = "Accept-Encoding: identity" /\ rq_decompress request = false /\
     hasHeader request "accept-encoding" = false).
Proof.
  unfold http_lines, applyCurlHeaders. cbv zeta.
  set (lines := if negb (rq_decompress request) && _ then _ else _).
  assert (Hget : curl_get "HTTPHEADER" ([SetOpt "USERAGENT" (CStr "")] ++
    when (rq_decompress request) [SetOpt "ACCEPT_ENCODING" (CStr "")] ++
    when (negb (length lines =? 0)) [SetOpt "HTTPHEADER" (CList lines)]) =
    if (length lines =? 0) then None else Some (CList lines)).
  { unfold when. by destruct (length lines =? 0), (rq_decompress request). }
  rewrite Hget. assert (forall l : list string, (line ∈ match (if length l =? 0 then None
    else Some (CList l)) with Some (CList l) => l | _ => [] end) <-> line ∈ l) as ->.
  { intros l. destruct l as [|y l]; simpl; [set_solver|done]. }
  unfold lines. clear.
  destruct (o_reuseConnection (x_options x)), (shouldApplyKerberos x request),
    (hasHeader request "connection"), (rq_decompress request),
    (hasHeader request "accept-encoding"); simpl;
    rewrite ?elem_of_app, ?list_elem_of_singleton; naive_solver.
Qed.

(** The calls [configureCurl] makes itself: before, between and after the apply methods. *)
Definition base_ops (u : LegacyUrl) request : list CurlOp :=
  [Enable "NoDataParsing";
   SetOpt "URL" (CStr (show_null (lu_protocol u) +:+ "//" +:+ show_null (lu_host u)))] ++
  when (truthy_opt (lu_auth u)) [SetOpt "USERPWD" (CStr (lu_auth u ?? ""))] ++
  [SetOpt "REQUEST_TARGET" (CStr (buildRawPath (rq_url request)));
   SetOpt "PATH_AS_IS" (CBool true); SetOpt "SSL_VERIFYPEER" (CBool false);
   SetOpt "SSL_VERIFYHOST" (CNum 0); SetOpt "FOLLOWLOCATION" (CBool false)].
Definition connection_ops (keep : bool) : list CurlOp :=
  if keep
  then [SetOpt "TCP_KEEPALIVE" (CNum 1);
        SetOpt "TCP_KEEPIDLE" (CNum KEEP_ALIVE_IDLE_TIMEOUT); SetMulti]
  else [SetOpt "FRESH_CONNECT" (CNum 1); SetOpt "FORBID_REUSE" (CNum 1)].
Definition final_ops (proxyUrl : option string) (method : string) : list CurlOp :=
  when (truthy_opt proxyUrl) [SetOpt "PROXY" (CStr (proxyUrl ?? ""))] ++
  [SetOpt "CUSTOMREQUEST" (CStr method)].

Lemma configureCurl_parts x request ops : configureCurl x request = Ok ops ->
  exists body, applyCurlBody request = Ok body /\
    ops = base_ops (parseUrl (rq_url request)) request ++ body ++ applyCurlTls request ++
      applyCurlTimeout x request ++ applyCurlHeaders x request ++
      connection_ops (o_reuseConnection (x_options x) || shouldApplyKerberos x request) ++
      applyCurlKerberos x request ++ final_ops (resolveProxy x request) (rq_method request).
Proof.
  unfold configureCurl, base_ops, final_ops.
  destruct (parseUrl (rq_url request)) as [protocol host hn auth].
  intros (a & Ha & Hc)%bind_Ok. exists a. split; [done|]. apply Ok_inj in Hc. subst ops.
  by rewrite <- !(assoc_L (++)).
Qed.

(** No option is set twice, except that Kerberos overrides the credentials of the URL. *)
Lemma configureCurl_get x request ops name : configureCurl x request = Ok ops ->
  name ∉ BODY_OPTS -> name ∉ TLS_OPTS ->
  curl_get name ops =
    (curl_get name (final_ops (resolveProxy x request) (rq_method request)) ???
    (curl_get name (applyCurlKerberos x request) ???
    (curl_get name (connection_ops (o_reuseConnection (x_options x) || shouldApplyKerberos x request)) ???
    (curl_get name (applyCurlHeaders x request) ???
    (curl_get name (applyCurlTimeout x request) ???
     curl_get name (base_ops (parseUrl (rq_url request)) request)))))).
Proof.
  intros (body & Hb & ->)%configureCurl_parts Hn1 Hn2. rewrite !curl_get_app.
  rewrite (get_body _ _ _ Hb Hn1), (get_tls _ _ Hn2).
  repeat (destruct (curl_get name _); try done).
Qed.

Lemma get_base name u request :
  name ∉ ["URL"; "USERPWD"; "REQUEST_TARGET"; "PATH_AS_IS"; "SSL_VERIFYPEER"; "SSL_VERIFYHOST";
          "FOLLOWLOCATION"] -> curl_get name (base_ops u request) = None.
Proof.
  intros Hn. apply curl_get_notin. unfold base_ops, when. case_match; simpl; set_solver.
Qed.

Lemma get_connection name keep :
  name ∉ ["TCP_KEEPALIVE"; "TCP_KEEPIDLE"; "FRESH_CONNECT"; "FORBID_REUSE"] ->
  curl_get name (connection_ops keep) = None.
Proof. intros Hn. apply curl_get_notin. destruct keep; simpl; set_solver. Qed.

Lemma get_final name proxyUrl method :
  name ∉ ["PROXY"; "CUSTOMREQUEST"] -> curl_get name (final_ops proxyUrl method) = None.
Proof.
  intros Hn. apply curl_get_notin. unfold final_ops, when. case_match; simpl; set_solver.
Qed.

Lemma buildCurlHeaders_elem request k v :
  (k, HStr v) ∈ rq_headers request -> k <> "" -> (k +:+ ": " +:+ v) ∈ buildCurlHeaders request.
Proof.
  intros Hin Hk. unfold buildCurlHeaders. apply list_elem_of_In, List.in_concat.
  exists [k +:+ ": " +:+ v]. split; [|by left].
  apply list_elem_of_In, list_elem_of_fmap. exists (k, HStr v). split; [|done].
  simpl. unfold truthy. by rewrite eqb_neq.
Qed.

Ltac notin := apply (bool_decide_unpack _); vm_compute; exact I.
(** Drops the parts that do not set the option at hand. *)
Ltac parts :=
  repeat first
    [ rewrite get_final by notin | rewrite get_kerberos by notin
    | rewrite get_connection by notin | rewrite get_headers by notin
    | rewrite get_timeout by discriminate | rewrite get_base by notin ];
  cbv [nullish_opt].

End configured.


(** ** Scripts and the request *)

Section scripts.
Context {UA : UrlApi} {LU : LegacyUrlApi} {CO : Codecs} (valid_regexp : string -> bool).
Context {Fn : Type} (runInContext : string -> result js_error (strmap Fn)).
Context (apply_handle : Fn -> RequestOptions -> result js_error RequestOptions).

(** A request script that returns its argument unchanged is not neutral: the request that
    is sent has lost its encoding, timeout, size limit, decompression and keep-alive settings,
    so the executor's own timeout and size limit apply instead. *)
Theorem transformScript_identity x store o request vm f u :
  new_Request valid_regexp o = Ok request -> new_URL (rq_url request) = Some u ->
  utf8_text buffer_toString (rq_ca request) -> utf8_text buffer_toString (rq_pfx request) ->
  truthy_opt (rq_encoding request) = false ->
  find (u_hostname u) store = Some vm ->
  vs_exec runInContext vm DEFAULT_SCRIPT_ENTRYPOINT = Ok f ->
  (forall options, apply_handle f options = Ok options) ->
  exists sent,
    transformScript valid_regexp runInContext apply_handle store request = Ok sent /\
    sent = forget_transport request /\
    curl_get "TIMEOUT_MS" (applyCurlTimeout x sent) = CNum <$> o_timeout (x_options x) /\
    max_size x sent None = number_mul (undefined_NaN (o_maxContentLength (x_options x))) 1024.
Proof.
  intros Hn Hu Hca Hpfx Henc Hf Hx Hid. exists (forget_transport request). split_and!; try done.
  - unfold transformScript, parse_URL. rewrite Hu. simpl. rewrite Hf.
    unfold script_body. rewrite Henc. simpl. rewrite Hx. simpl. rewrite Hid. simpl.
    rewrite <- (toJSON_new_Request valid_regexp buffer_toString o) by (done || by eexists). done.
  - unfold applyCurlTimeout. simpl. by destruct (o_timeout (x_options x)).
Qed.
End scripts.

Definition slow_options : RequestOptions :=
  mk_RequestOptions "http" "https://a.com" None None None None None None None None
    (Some 1%Z) (Some 60000%Z) None None.
Definition slow_request : Request :=
  mk_Request "http" "https://a.com" None None None (Some 1%Z) true (Some 60000%Z) None "GET" []
    None None None.

Lemma transformScript_identity_witness :
  exists sent,
    transformScript (UA := sample_url) (CO := sample_codecs) (fun _ => true)
      (fun _ => Ok [("handle", tt)]) (fun _ o => Ok o)
      [("*", mk_VirtualScript "*" LOCAL "" true)] slow_request = Ok sent /\
    curl_get "TIMEOUT_MS" (applyCurlTimeout sample_executor sent) = Some (CNum 1000).
Proof.
  destruct (transformScript_identity (UA := sample_url) (CO := sample_codecs) (fun _ => true)
    (fun _ => Ok [("handle", tt)]) (fun _ o => Ok o) sample_executor
    [("*", mk_VirtualScript "*" LOCAL "" true)] slow_options slow_request
    (mk_VirtualScript "*" LOCAL "" true) tt (mk_URL "https:" "a.com" "a.com" ""))
    as (sent & Hs & _ & Ht & _).
  - vm_compute. reflexivity.
  - vm_compute. reflexivity.
  - discriminate.
  - discriminate.
  - reflexivity.
  - vm_compute. reflexivity.
  - vm_compute. reflexivity.
  - reflexivity.
  - exists sent. split; [exact Hs|exact Ht].
Defined.

(** ** [execute] as a whole *)

Section total.
Context {UA : UrlApi} {LU : LegacyUrlApi} {CO : Codecs} (valid_regexp : string -> bool).
Context {Fn : Type} (runInContext : string -> result js_error (strmap Fn)).
Context (apply_handle : Fn -> RequestOptions -> result js_error RequestOptions).
Context (apply_onResponse : Fn -> Response -> result js_error (Headers * option ScriptResult)).
Context (transport : list CurlOp -> result js_error RawResponse -> Prop).
Context {C} {CC : CertificatesCache C} {CL : CertificatesCacheLaws C}.
Context (readFile : string -> option Buffer) (extname basename : string -> string).
Context (secure_context : option string -> option Buffer -> bool).

Let exec_ := exec runInContext apply_onResponse transport.
Let execute_ := execute valid_regexp runInContext apply_handle apply_onResponse transport
  readFile extname basename secure_context.
Let prepare_ := prepare valid_regexp runInContext apply_handle (C := C).

(** A response of the target, as opposed to an error of the repeater. *)
Definition from_target (r : Response) : Prop := rs_protocol r = HTTP /\ is_Some (rs_statusCode r).

Lemma handleResponseScript_target store request r r' :
  handleResponseScript runInContext apply_onResponse store request r = Ok r' ->
  from_target r -> from_target r'.
Proof.
  unfold handleResponseScript, from_target. intros Hr [Hp Hs]. inv_bind Hr.
  destruct (find (u_hostname a) store) as [vm|]; [|by simplify_eq]. inv_bind Hr.
  destruct (negb a0); [by simplify_eq|]. inv_bind Hr. destruct a2 as [mutated [res|]];
    simplify_eq/=; [|done]. split; [done|]. by destruct (sr_statusCode res).
Qed.

Lemma error_response_code e : is_Some (rs_errorCode (error_response e)).
Proof.
  unfold error_response, nullish_opt. simpl. set (c := e_cause e ?? e).
  destruct (e_code c), (e_syscall c); by eexists.
Qed.

Lemma exec_target x store request r :
  exec_ x store request (Ok r) -> from_target r.
Proof.
  unfold exec_, exec. destruct (configureCurl x request) as [ops|e]; [|done].
  intros (raw & _ & Hr). destruct raw as [raw|e]; [|done]. unfold executeRequest in Hr.
  symmetry in Hr. case_match.
  - by eapply handleResponseScript_target in Hr.
  - inv_bind Hr. destruct a as [body h]. by eapply handleResponseScript_target in Hr.
Qed.

Lemma exec_total x store request :
  (forall ops, exists raw, transport ops raw) -> exists out, exec_ x store request out.
Proof.
  intros Ht. unfold exec_, exec. destruct (configureCurl x request) as [ops|e]; [|eauto].
  destruct (Ht ops) as [raw ?]. eauto.
Qed.

Lemma prepare_certs x store cache request r certs :
  prepare_ x store cache request = Ok (r, certs) -> certs <> [] ->
  exists known, cache_get r cache = Ok known /\ is_Some (new_URL (rq_url r)).
Proof.
  unfold prepare_, prepare. intros Hp Hne. inv_bind Hp. simplify_eq.
  destruct (o_certs (x_options x)) as [l|]; simplify_eq. unfold resolve in Ha0. inv_bind Ha0.
  eexists. split; [done|]. by eapply cache_get_url.
Qed.

(** What [execute] may return. *)
Definition execute_shape x store cache request (response : Response) : Prop :=
  from_target response \/
  rs_protocol response = HTTP /\ rs_statusCode response = None /\
  is_Some (rs_message response) /\ is_Some (rs_errorCode response) /\
  forall r certs, prepare_ x store cache request = Ok (r, certs) -> certs <> [] ->
    rs_errorCode response = Some "AggregateError".

Lemma execute_total x store cache request :
  (forall ops, exists raw, transport ops raw) ->
  exists response cache', execute_ x store cache request response cache'.
Proof.
  intros Htot. destruct (prepare_ x store cache request) as [[r certs]|e] eqn:Hp;
    [|do 2 eexists; by apply execute_failed].
  destruct (decide (certs = [])) as [->|Hne].
  { destruct (exec_total x store r Htot) as [out Hout]. do 2 eexists. by eapply execute_plain. }
  destruct (prepare_certs _ _ _ _ _ _ Hp Hne) as (known & Hk & Hu).
  destruct (try_inv_settle readFile extname basename secure_context (exec_ x store)
    r certs known (try_init r certs cache)) as (st & Hr & out & Hout); [done| | |].
  - intros sent. by apply exec_total.
  - by apply try_inv_init.
  - do 2 eexists. by eapply execute_certs.
Qed.

Lemma execute_shaped x store cache request response cache' :
  execute_ x store cache request response cache' -> execute_shape x store cache request response.
Proof.
  intros Hx. destruct Hx as [e Hp|r out Hp Ho|r certs st out Hp Hne Hr Hout].
  - right. split_and!; try done; [apply error_response_code|]. intros r certs Hp'.
    unfold prepare_ in Hp'. congruence.
  - destruct out as [resp|e]; [left; by eapply exec_target|right].
    split_and!; try done; [apply error_response_code|]. intros r' certs' Hp'.
    unfold prepare_ in Hp'. rewrite Hp in Hp'. by simplify_eq.
  - destruct (prepare_certs _ _ _ _ _ _ Hp Hne) as (known & Hk & Hu).
    destruct (try_inv_reach readFile extname basename secure_context (exec_ x store)
      _ _ _ _ _ Hu Hne Hk Hr) as [[_ _ Htasks _ Hf Hd] _].
    destruct out as [resp|e]; [left|right].
    + destruct (Hd resp Hout) as (i & cert & sent & Hi).
      destruct (Htasks i _ Hi) as [_ Hx]. eapply exec_target, (Hx resp). done.
    + destruct (Hf e Hout) as (-> & _). by split_and!.
Qed.

End total.

