(* ===== verification/WsExecutor.v ===== *)
(** * [RequestExecutor/WsRequestExecutor.ts]

    The executor for WebSocket targets: connect, send the body, wait for the first frame that
    matches the correlation pattern, the end of the connection, an error or the timeout. *)
From S2P Require Import Prelude Helpers Request Certificates Proxy TryCerts HttpExecutor.

Definition FORBIDDEN_HEADERS : list string := ["sec-websocket-version"; "sec-websocket-key"].
Definition MAX_HEADERS_SIZE : Z := 32768.

Record WsRequestExecutor : Type := mk_ws_executor {
  w_options : RequestExecutorOptions;
  w_httpProxyAgent : option Agent;
  w_httpsProxyAgent : option Agent
}.

Definition new_WsRequestExecutor `{UrlApi} (o : RequestExecutorOptions) :
    result js_error WsRequestExecutor :=
  if truthy_opt (o_proxyUrl o) then
    proxies ← createProxy (o_proxyUrl o ?? "") None;
    Ok (mk_ws_executor o (Some (httpAgent proxies)) (Some (httpsAgent proxies)))
  else Ok (mk_ws_executor o None None).

Definition forbidden (key : string) : bool :=
  bool_decide (toLowerCase (trim key) ∈ FORBIDDEN_HEADERS).

Definition normalizeHeaders (headers : Headers) : Headers :=
  foldl (fun result '(key, value) =>
    if forbidden key then result else OMap.set key value result) [] headers.

(** The options of the client. *)
Record WsClientOptions : Type := mk_ws_client {
  wc_url : string;
  wc_agent : option Agent;
  wc_rejectUnauthorized : bool;
  wc_handshakeTimeout : option Z;
  wc_headers : Headers;
  wc_ca : option Buffer;
  wc_pfx : option Buffer;
  wc_passphrase : option string;
  wc_maxHeaderSize : Z
}.

Definition client_options (w : WsRequestExecutor) (request : Request) : WsClientOptions :=
  mk_ws_client (rq_url request)
    (if secureEndpoint request then w_httpsProxyAgent w else w_httpProxyAgent w)
    false (o_timeout (w_options w)) (normalizeHeaders (rq_headers request))
    (rq_ca request) (rq_pfx request) (rq_passphrase request) MAX_HEADERS_SIZE.

(** ** Waiting for the answer *)

(** What the client emits after the body was sent; the timer of [setTimeout] emits an error.  The
    reason of a close event is a Buffer in version 8 of ws; the model has its text. *)
Inductive WsEvent : Type :=
| Message (data : string)
| Closed (code : Z) (reason : string)
| Errored (e : js_error)
| TimerFired.

Record WSMessage : Type := mk_message { msg_body : string; msg_code : option Z }.

Definition frame_timeout : js_error :=
  mk_error "Error" "Waiting frame has timed out" (Some "ETIMEDOUT") None None None false None None None.

Section waiting.
(** [new RegExp(source, 'i').test(data)]. *)
Context (regexp_test : string -> string -> bool).

Definition matches (matcher : option string) (data : string) : bool :=
  match matcher with Some re => regexp_test re data | None => true end.

(** [None] while none of the events so far settles the race. *)
Fixpoint consume (matcher : option string) (events : list WsEvent) :
    option (result js_error WSMessage) :=
  match events with
  | [] => None
  | Message data :: events =>
      if matches matcher data then Some (Ok (mk_message data None)) else consume matcher events
  | Closed code reason :: _ => Some (Ok (mk_message reason (Some code)))
  | Errored e :: _ => Some (Err e)
  | TimerFired :: _ => Some (Err frame_timeout)
  end.

(** One attempt: what the handshake, the send and the events gave, in that order. *)
Record Session : Type := mk_session {
  s_handshake : result js_error (Z * Headers);
  s_send : result js_error unit;
  s_events : list WsEvent
}.

Definition ws_executeRequest (request : Request) (s : Session) : option (result js_error Response) :=
  match s_handshake s, s_send s with
  | Err e, _ => Some (Err e)
  | Ok _, Err e => Some (Err e)
  | Ok (statusCode, headers), Ok _ =>
      match consume (rq_correlationIdRegex request) (s_events s) with
      | None => None
      | Some (Err e) => Some (Err e)
      | Some (Ok msg) =>
          Some (Ok (mk_Response WS (msg_code msg ??? Some statusCode) (Some headers)
                      (Some (msg_body msg)) None None None None))
      end
  end.

(** The calls of the [finally] block, in order: the timer was armed only if the handshake and the
    send succeeded, and only a client that is open is closed. *)
Inductive WsCleanup : Type :=
| ClearTimeout
| CloseClient (code : Z).

Definition ws_cleanup (s : Session) (readyState_open : bool) : list WsCleanup :=
  (if is_ok (s_handshake s) && is_ok (s_send s) then [ClearTimeout] else []) ++
  (if readyState_open then [CloseClient 1000] else []).

(** [sessions opts s]: a client with options [opts] may have the session [s]. *)
Context (sessions : WsClientOptions -> Session -> Prop).

Definition ws_exec (w : WsRequestExecutor) (request : Request) (out : result js_error Response) :
    Prop :=
  exists s, sessions (client_options w request) s /\ ws_executeRequest request s = Some out.
End waiting.

(** ** [execute] *)

Definition ws_error_response (err : js_error) : Response :=
  mk_Response WS None None None None (Some (e_info err ?? e_message err))
    (e_code err ??? e_syscall err) None.

Definition ws_response_of (out : result js_error Response) : Response :=
  match out with Ok response => response | Err e => ws_error_response e end.

Section execute.
Context {UA : UrlApi} {C} {CC : CertificatesCache C}.
Context (regexp_test : string -> string -> bool) (sessions : WsClientOptions -> Session -> Prop).
Context (readFile : string -> option Buffer) (extname basename : string -> string).
Context (secure_context : option string -> option Buffer -> bool).

Definition ws_certs (w : WsRequestExecutor) (cache : C) (request : Request) :
    result js_error (list Cert) :=
  match o_certs (w_options w) with Some certs => resolve request certs cache | None => Ok [] end.

Inductive ws_execute (w : WsRequestExecutor) (cache : C) (request : Request) :
    Response -> C -> Prop :=
| ws_failed e :
    ws_certs w cache request = Err e -> ws_execute w cache request (ws_error_response e) cache
| ws_plain out :
    ws_certs w cache request = Ok [] -> ws_exec regexp_test sessions w request out ->
    ws_execute w cache request (ws_response_of out) cache
| ws_with_certs certs st out :
    ws_certs w cache request = Ok certs -> certs <> [] ->
    rtc (try_step readFile extname basename secure_context (ws_exec regexp_test sessions w))
      (try_init request certs cache) st ->
    ts_result st = Some out ->
    ws_execute w cache request (ws_response_of out) (ts_cache st).
End execute.

(** ** Lemmas *)

Lemma normalizeHeaders_fold (acc headers : Headers) :
  OMap.wf (acc ++ headers) ->
  foldl (fun result '(key, value) =>
    if forbidden key then result else OMap.set key value result) acc headers =
  acc ++ base.filter (fun e => forbidden e.1 = false) headers.
Proof.
  revert acc. induction headers as [|[k v] headers IH]; intros acc Hwf; simpl.
  { by rewrite app_nil_r. }
  assert (Hrest : OMap.wf ((acc ++ [(k, v)]) ++ headers)) by (by rewrite <- (assoc_L (++))).
  destruct (forbidden k) eqn:Hk.
  - rewrite filter_cons_False by (simpl; congruence). apply IH. unfold OMap.wf, OMap.keys in *. rewrite !fmap_app in *. simpl in *.
    apply NoDup_app in Hwf as (? & Hd & [_ ?]%NoDup_cons).
    apply NoDup_app. split_and!; [done| |done]. intros y Hy Hy'. apply (Hd y Hy). set_solver.
  - rewrite filter_cons_True by done. rewrite set_fresh, IH by
      (done || (unfold OMap.wf, OMap.keys in *; rewrite fmap_app in Hwf; simpl in Hwf;
       apply NoDup_app in Hwf as (_ & Hd & _); intros Hin; apply (Hd k Hin); set_solver)).
    by rewrite <- (assoc_L (++)).
Qed.

Lemma consume_timer regexp_test m events :
  TimerFired ∈ events -> is_Some (consume regexp_test m events).
Proof.
  induction events as [|ev events IH]; [set_solver|]. intros [<-|Hin]%elem_of_cons; [by eexists|].
  destruct ev; simpl; [|by eexists..]. case_match; [by eexists|auto].
Qed.

Lemma ws_executeRequest_Ok regexp_test request s r :
  ws_executeRequest regexp_test request s = Some (Ok r) ->
  rs_protocol r = WS /\ is_Some (rs_statusCode r) /\ is_Some (rs_body r).
Proof.
  unfold ws_executeRequest. destruct (s_handshake s) as [[code h]|]; [|done].
  destruct (s_send s); [|done]. destruct (consume _ _ _) as [[msg|]|]; [|done..].
  intros [= <-]. simpl. by destruct (msg_code msg).
Qed.

Lemma ws_executeRequest_settles regexp_test request s :
  is_ok (s_handshake s) = false \/ is_ok (s_send s) = false \/ TimerFired ∈ s_events s ->
  is_Some (ws_executeRequest regexp_test request s).
Proof.
  unfold ws_executeRequest. intros Hend.
  destruct (s_handshake s) as [[code h]|e]; [|by eexists]. destruct (s_send s); [|by eexists].
  destruct Hend as [?|[?|Ht]]; [done..|].
  destruct (consume_timer regexp_test (rq_correlationIdRegex request) _ Ht) as [[msg|e] ->];
    by eexists.
Qed.

Lemma ws_certs_known {UA : UrlApi} {C} {CC : CertificatesCache C} {CL : CertificatesCacheLaws C}
    (w : WsRequestExecutor) (cache : C) request certs :
  ws_certs w cache request = Ok certs -> certs <> [] ->
  exists known, cache_get request cache = Ok known /\ is_Some (new_URL (rq_url request)).
Proof.
  unfold ws_certs. intros Hc Hne. destruct (o_certs (w_options w)) as [l|]; simplify_eq.
  unfold resolve in Hc. inv_bind Hc. eexists. split; [done|]. by eapply cache_get_url.
Qed.

(** ** Theorems *)

(** The headers a client sends are those of the request, in order, without the two
    that ws computes itself, in whatever case and with whatever white space they are spelled. *)
Theorem normalizeHeaders_filter headers :
  OMap.wf headers ->
  normalizeHeaders headers =
    base.filter (fun e => toLowerCase (trim e.1) ∉ FORBIDDEN_HEADERS) headers.
Proof.
  intros Hwf. unfold normalizeHeaders. rewrite normalizeHeaders_fold by done. simpl.
  apply filter_ext_elem. intros [k v] _. unfold forbidden. simpl. by rewrite bool_decide_eq_false.
Qed.

Lemma normalizeHeaders_filter_witness :
  normalizeHeaders [("Cookie", HStr "a"); (" Sec-WebSocket-KEY ", HStr "k"); ("X", HStr "1")] =
    [("Cookie", HStr "a"); ("X", HStr "1")].
Proof.
  rewrite normalizeHeaders_filter; [vm_compute; reflexivity|].
  apply (bool_decide_unpack _). vm_compute. exact I.
Defined.

(** The event that decides the race, and what it decides. *)
Definition decisive regexp_test (m : option string) (ev : WsEvent) : bool :=
  match ev with Message data => matches regexp_test m data | _ => true end.
Definition verdict (ev : WsEvent) : result js_error WSMessage :=
  match ev with
  | Message data => Ok (mk_message data None)
  | Closed code reason => Ok (mk_message reason (Some code))
  | Errored e => Err e
  | TimerFired => Err frame_timeout
  end.

Lemma consume_decides regexp_test m before ev after :
  Forall (fun ev => decisive regexp_test m ev = false) before ->
  decisive regexp_test m ev = true ->
  consume regexp_test m (before ++ ev :: after) = Some (verdict ev).
Proof.
  intros Hb Hev. induction Hb as [|ev' before Hev' _ IH]; simpl.
  - destruct ev; simpl in *; try done. by rewrite Hev.
  - destruct ev'; simpl in *; try done. by rewrite Hev'.
Qed.

Section ws_total.
Context {UA : UrlApi} {C} {CC : CertificatesCache C} {CL : CertificatesCacheLaws C}.
Context (regexp_test : string -> string -> bool) (sessions : WsClientOptions -> Session -> Prop).
Context (readFile : string -> option Buffer) (extname basename : string -> string).
Context (secure_context : option string -> option Buffer -> bool).
Context (w : WsRequestExecutor) (cache : C) (request : Request).

Let ws_execute_ := ws_execute regexp_test sessions readFile extname basename secure_context w cache request.

(** Each session fails early or runs into the timer. *)
Definition sessions_end : Prop :=
  forall opts, exists s, sessions opts s /\
    (is_ok (s_handshake s) = false \/ is_ok (s_send s) = false \/ TimerFired ∈ s_events s).

Definition ws_shape (response : Response) : Prop :=
  rs_protocol response = WS /\
  (is_Some (rs_statusCode response) /\ is_Some (rs_body response) \/
   rs_statusCode response = None /\ is_Some (rs_message response)).

Lemma ws_error_shape e : ws_shape (ws_error_response e).
Proof. split; [done|]. right. split; [done|by eexists]. Qed.

Lemma ws_exec_shape out r : ws_exec regexp_test sessions w r out -> ws_shape (ws_response_of out).
Proof.
  destruct out as [resp|e]; intros (s & _ & Hout); [|apply ws_error_shape].
  apply ws_executeRequest_Ok in Hout as (? & ? & ?). split; auto.
Qed.

Lemma ws_exec_total r : sessions_end -> exists out, ws_exec regexp_test sessions w r out.
Proof.
  intros Hs. destruct (Hs (client_options w r)) as (s & Hses & Hend).
  destruct (ws_executeRequest_settles regexp_test r s Hend) as [out Hout]. by exists out, s.
Qed.

Lemma ws_execute_total : sessions_end -> exists response cache', ws_execute_ response cache'.
Proof.
  intros Hs. destruct (ws_certs w cache request) as [certs|e] eqn:Hc; [|do 2 eexists; by apply ws_failed].
  destruct (decide (certs = [])) as [->|Hne].
  { destruct (ws_exec_total request Hs) as [out Hout]. do 2 eexists. by apply ws_plain. }
  destruct (ws_certs_known _ _ _ _ Hc Hne) as (known & Hk & Hu).
  destruct (try_inv_settle readFile extname basename secure_context
    (ws_exec regexp_test sessions w) request certs known (try_init request certs cache))
    as (st & Hr & out & Hout); [done|intros sent; by apply ws_exec_total|by apply try_inv_init|].
  do 2 eexists. by eapply ws_with_certs.
Qed.

Lemma ws_execute_shaped response cache' : ws_execute_ response cache' -> ws_shape response.
Proof.
  intros Hx. destruct Hx as [e Hc|out Hc Ho|certs st out Hc Hne Hr Hout].
  - apply ws_error_shape.
  - by eapply ws_exec_shape.
  - destruct (ws_certs_known _ _ _ _ Hc Hne) as (known & Hk & Hu).
    destruct (try_inv_reach readFile extname basename secure_context
      (ws_exec regexp_test sessions w) _ _ _ _ _ Hu Hne Hk Hr) as [[_ _ Htasks _ _ Hd] _].
    destruct out as [resp|e]; [|apply ws_error_shape].
    destruct (Hd resp Hout) as (i & cert & sent & Hi).
    destruct (Htasks i _ Hi) as [_ Hx]. by eapply ws_exec_shape, (Hx resp).
Qed.

End ws_total.

(** C15: the WebSocket executor always answers: if the timer it arms (or any earlier failure)
    ends each session, [execute] returns a response, and each response it can return speaks WS and
    has either a status with a body or an error message. *)
Theorem ws_execute_returns {UA : UrlApi} {C} {CC : CertificatesCache C}
    {CL : CertificatesCacheLaws C} regexp_test sessions readFile extname basename secure_context
    (w : WsRequestExecutor) (cache : C) (request : Request) :
  (forall opts, exists s, sessions opts s /\
     (is_ok (s_handshake s) = false \/ is_ok (s_send s) = false \/ TimerFired ∈ s_events s)) ->
  (exists response cache', ws_execute regexp_test sessions readFile extname basename secure_context
     w cache request response cache') /\
  (forall response cache', ws_execute regexp_test sessions readFile extname basename secure_context
     w cache request response cache' ->
     rs_protocol response = WS /\
     (is_Some (rs_statusCode response) /\ is_Some (rs_body response) \/
      rs_statusCode response = None /\ is_Some (rs_message response))).
Proof.
  intros Hs. split; [by apply ws_execute_total|]. intros response cache'. apply ws_execute_shaped.
Qed.

Lemma ws_execute_returns_witness :
  exists response cache',
    ws_execute (UA := one_host) (CC := DefaultCertificatesCache (H := one_host)) (fun _ _ => false)
      (fun _ s => s = mk_session (Ok (101%Z, [])) (Ok tt) [Message "x"; TimerFired])
      race_files race_ext id (fun _ _ => true)
      (mk_ws_executor sample_http_options None None) [] race_request response cache'.
Proof.
  apply (ws_execute_returns (UA := one_host) (CC := DefaultCertificatesCache (H := one_host))
    (CL := DefaultCertificatesCache_laws (H0 := one_host_laws))).
  intros opts. eexists. split; [reflexivity|]. right. right. simpl. right. left.
Defined.

(** The agent of a WebSocket request is chosen by looking for an https scheme, which a
    WebSocket URL never has: behind an HTTP proxy a wss target gets the agent for plain
    targets, although the proxy factory itself would choose the tunnelling one. *)
Theorem ws_secure_agent `{UrlApi} o w request proxyUrl u t :
  o_proxyUrl o = Some proxyUrl -> proxyUrl <> "" ->
  new_URL proxyUrl = Some u -> u_protocol u = "http:" ->
  new_WsRequestExecutor o = Ok w ->
  startsWith "wss:" (rq_url request) = true ->
  new_URL (rq_url request) = Some t -> u_protocol t = "wss:" ->
  exists used right_one,
    wc_agent (client_options w request) = Some used /\ tunnels used = false /\
    createProxyForClient (rq_url request) proxyUrl None = Ok right_one /\ tunnels right_one = true.
Proof.
  intros Ho Hne Hu Hp Hw [r Hs]%startsWith_spec Ht Hwss. unfold new_WsRequestExecutor in Hw.
  assert (createProxy proxyUrl None = Ok (createHttpProxy proxyUrl false)) as Hcp.
  { unfold createProxy. rewrite Hu, Hp. done. }
  unfold createProxyForClient. rewrite Hcp. rewrite Ho in Hw. simpl in Hw.
  unfold truthy in Hw. rewrite eqb_neq in Hw by done. simpl in Hw. rewrite Hcp in Hw.
  simplify_eq/=. rewrite Ht. simpl. rewrite Hwss. unfold secureEndpoint.
  assert (startsWith "https" (rq_url request) = false) as ->.
  { by rewrite Hs. }
  by do 2 eexists.
Qed.

Definition wss_urls : UrlApi := fun s =>
  if s === "http://p" then Some (mk_URL "http:" "p" "p" "")
  else if s === "wss://t" then Some (mk_URL "wss:" "t" "t" "") else None.
Definition wss_options : RequestExecutorOptions :=
  mk_options None (Some "http://p") None None None None None false None None None.

Lemma ws_secure_agent_witness :
  exists used right_one,
    wc_agent (client_options (mk_ws_executor wss_options (Some (HttpProxyAgent "http://p" false))
      (Some (PatchedHttpsProxyAgent "http://p" false))) (plain_request "wss://t")) = Some used /\
    tunnels used = false /\
    createProxyForClient (H := wss_urls) "wss://t" "http://p" None = Ok right_one /\
    tunnels right_one = true.
Proof.
  apply (ws_secure_agent (H := wss_urls) wss_options _ (plain_request "wss://t") "http://p"
    (mk_URL "http:" "p" "p" "") (mk_URL "wss:" "t" "t" "")); try (vm_compute; reflexivity).
  discriminate.
Defined.
