(* ===== verification/RepeaterServer.v ===== *)
(** * [Repeater/DefaultRepeaterServer.ts]

    The connection to the Bright cloud: subscription of handlers, forwarding of socket
    events, reconnection after errors.  Handlers run synchronously up to their first await, so
    emitting an event changes the state before the emitter's own code goes on; the launcher's
    handlers are parameters here and are supplied by [Launcher.v]. *)
From Stdlib Require Import QArith Qminmax.
From S2P Require Import Prelude Utils.
Local Open Scope nat_scope.

(** ** Subscriptions: [on], [off] and the event emitter *)

Section emitter.
Context {H : Type} `{EqDecision H}.

(** A listener is the wrapper made by [on] (named by a number) around a handler; [handlerMap]
    remembers the last wrapper of each handler. *)
Record listener : Type := mk_listener { l_event : string; l_wrapped : nat; l_handler : H }.
Record emitter : Type := mk_emitter {
  em_next : nat;
  em_listeners : list listener;
  em_handlerMap : list (H * nat)
}.

Definition map_get (h : H) (m : list (H * nat)) : option nat :=
  snd <$> List.find (fun e => e.1 === h) m.
Definition map_delete (h : H) (m : list (H * nat)) : list (H * nat) :=
  base.filter (fun e => e.1 <> h) m.
Definition map_set (h : H) (w : nat) (m : list (H * nat)) : list (H * nat) :=
  (h, w) :: map_delete h m.

Definition on (event : string) (handler : H) (em : emitter) : emitter :=
  let wrappedHandler := em_next em in
  mk_emitter (S wrappedHandler) (em_listeners em ++ [mk_listener event wrappedHandler handler])
    (map_set handler wrappedHandler (em_handlerMap em)).

(** [EventEmitter.off] removes the listener added last among the equal ones; a wrapper is
    added once, so there is at most one. *)
Definition off (event : string) (handler : H) (em : emitter) : emitter :=
  match map_get handler (em_handlerMap em) with
  | Some wrappedHandler =>
      mk_emitter (em_next em)
        (base.filter (fun l => ~ (l_event l = event /\ l_wrapped l = wrappedHandler)) (em_listeners em))
        (map_delete handler (em_handlerMap em))
  | None => em
  end.

Definition removeAllListeners (em : emitter) : emitter :=
  mk_emitter (em_next em) [] (em_handlerMap em).

(** The handlers an emitted event calls, in order; the list is fixed when the event is emitted. *)
Definition handlers_of (event : string) (em : emitter) : list H :=
  l_handler <$> base.filter (fun l => l_event l = event) (em_listeners em).

(** Wrappers are numbered below [em_next]. *)
Definition emitter_ok (em : emitter) : Prop :=
  (forall l, l ∈ em_listeners em -> l_wrapped l < em_next em) /\
  (forall h w, (h, w) ∈ em_handlerMap em -> w < em_next em).

Lemma map_get_set h w m : map_get h (map_set h w m) = Some w.
Proof. unfold map_get, map_set. simpl. by rewrite eqb_refl. Qed.

Lemma on_ok event h em : emitter_ok em -> emitter_ok (on event h em).
Proof.
  intros [Hl Hm]. split; simpl.
  - intros l [Hin|Hin%list_elem_of_singleton]%elem_of_app; [apply Hl in Hin; lia|].
    subst. simpl. lia.
  - intros h' w [?|[_ Hin]%list_elem_of_filter]%elem_of_cons; simplify_eq; [lia|].
    apply Hm in Hin. lia.
Qed.

(** A subscription can be taken back: [off] right after [on], for the same event and handler,
    leaves the listeners exactly as they were, whatever was subscribed before. *)
Theorem off_on event h em :
  emitter_ok em -> em_listeners (off event h (on event h em)) = em_listeners em.
Proof.
  intros [Hl _]. unfold off. simpl. rewrite map_get_set. simpl. rewrite filter_app.
  rewrite filter_all.
  - rewrite filter_cons_False, filter_nil by (simpl; naive_solver). apply app_nil_r.
  - intros l Hin [_ Hw]. apply Hl in Hin. lia.
Qed.

(** But a handler subscribed to two events can be taken off only the second: [off] for
    the first event does nothing to the listeners and forgets the handler, so that it stays
    subscribed to both for good. *)
Theorem off_shared_handler event1 event2 h em :
  event1 <> event2 ->
  let em1 := on event2 h (on event1 h em) in
  let em2 := off event1 h em1 in
  emitter_ok em ->
  h ∈ handlers_of event1 em2 /\ h ∈ handlers_of event2 em2 /\
  off event1 h em2 = em2 /\ off event2 h em2 = em2.
Proof.
  intros Hne em1 em2 [Hl _]. set (w := S (em_next em)).
  assert (Hmap : em_handlerMap em2 = map_delete h (em_handlerMap em1)).
  { unfold em2, off. unfold em1, on at 1. simpl. by rewrite map_get_set. }
  assert (Hlist : em_listeners em2 = em_listeners em1).
  { unfold em2, off. unfold em1, on at 1. simpl. rewrite map_get_set. simpl. apply filter_all.
    intros l Hin [He Hw]. rewrite !elem_of_app, !list_elem_of_singleton in Hin.
    destruct Hin as [[Hin| ->]| ->]; simpl in *; [apply Hl in Hin; lia|lia|done]. }
  assert (Hnone : map_get h (em_handlerMap em2) = None).
  { rewrite Hmap. unfold map_get, map_delete. rewrite find_None_elem; [done|].
    intros e [He _]%list_elem_of_filter. by apply eqb_neq. }
  split_and!.
  - apply list_elem_of_fmap. exists (mk_listener event1 (em_next em) h). split; [done|].
    apply list_elem_of_filter. rewrite Hlist. simpl. set_solver.
  - apply list_elem_of_fmap. exists (mk_listener event2 w h). split; [done|].
    apply list_elem_of_filter. rewrite Hlist. simpl. set_solver.
  - unfold off at 1. by rewrite Hnone.
  - unfold off at 1. by rewrite Hnone.
Qed.
End emitter.
Arguments listener : clear implicits.
Arguments emitter : clear implicits.
Arguments mk_emitter {H}.
Arguments mk_listener {H}.

Definition empty_emitter {H} : emitter H := mk_emitter 0 [] [].

Lemma off_on_witness :
  em_listeners (off "error" 7 (on "error" 7 (on "error" 7 empty_emitter))) =
    [mk_listener "error" 0 7].
Proof.
  rewrite off_on; [reflexivity|]. apply on_ok. split; [set_solver|set_solver].
Defined.

Lemma off_shared_handler_witness :
  7 ∈ handlers_of "limits" (off "limits" 7 (on "request" 7 (on "limits" 7 empty_emitter))).
Proof.
  apply (off_shared_handler "limits" "request" 7 empty_emitter); [discriminate|].
  split; [set_solver|set_solver].
Defined.

(** ** Events *)

Module SocketEvents.
Definition DEPLOYED : string := "deployed".
Definition DEPLOY : string := "deploy".
Definition UNDEPLOY : string := "undeploy".
Definition UNDEPLOYED : string := "undeployed".
Definition TEST_NETWORK : string := "test-network".
Definition ERROR : string := "error".
Definition UPDATE_AVAILABLE : string := "update-available".
Definition SCRIPT_UPDATED : string := "scripts-updated".
Definition REQUEST : string := "request".
Definition LIMITS : string := "limits".
End SocketEvents.

(** The enum [SocketEvents]. *)
Definition SocketEvents_values : list string :=
  [SocketEvents.DEPLOYED; SocketEvents.DEPLOY; SocketEvents.UNDEPLOY; SocketEvents.UNDEPLOYED;
   SocketEvents.TEST_NETWORK; SocketEvents.ERROR; SocketEvents.UPDATE_AVAILABLE; SocketEvents.SCRIPT_UPDATED;
   SocketEvents.REQUEST; SocketEvents.LIMITS].

Module RepeaterServerEvents.
Definition DEPLOYED : string := "deployed".
Definition DEPLOY : string := "deploy".
Definition CONNECTED : string := "connected".
Definition DISCONNECTED : string := "disconnected".
Definition REQUEST : string := "request".
Definition TEST_NETWORK : string := "test_network".
Definition UPDATE_AVAILABLE : string := "update_available".
Definition LIMITS : string := "limits".
Definition SCRIPTS_UPDATED : string := "scripts_updated".
Definition RECONNECTION_FAILED : string := "reconnection_failed".
Definition RECONNECT_ATTEMPT : string := "reconnect_attempt".
Definition RECONNECTION_SUCCEEDED : string := "reconnection_succeeded".
Definition ERROR : string := "error".
Definition PING : string := "ping".
End RepeaterServerEvents.

(** The enum [RepeaterServerEvents]. *)
Definition RepeaterServerEvents_values : list string :=
  [RepeaterServerEvents.DEPLOYED; RepeaterServerEvents.DEPLOY; RepeaterServerEvents.CONNECTED;
   RepeaterServerEvents.DISCONNECTED; RepeaterServerEvents.REQUEST; RepeaterServerEvents.TEST_NETWORK;
   RepeaterServerEvents.UPDATE_AVAILABLE; RepeaterServerEvents.LIMITS; RepeaterServerEvents.SCRIPTS_UPDATED;
   RepeaterServerEvents.RECONNECTION_FAILED; RepeaterServerEvents.RECONNECT_ATTEMPT;
   RepeaterServerEvents.RECONNECTION_SUCCEEDED; RepeaterServerEvents.ERROR; RepeaterServerEvents.PING].

Module RepeaterErrorCodes.
Definition REPEATER_NOT_PERMITTED : string := "repeater_not_permitted".
Definition REPEATER_ALREADY_STARTED : string := "repeater_already_started".
Definition REPEATER_DEACTIVATED : string := "repeater_deactivated".
Definition REPEATER_UNAUTHORIZED : string := "repeater_unauthorized".
Definition REPEATER_NO_LONGER_SUPPORTED : string := "repeater_no_longer_supported".
Definition UNKNOWN_ERROR : string := "unknown_error".
Definition UNEXPECTED_ERROR : string := "unexpected_error".
End RepeaterErrorCodes.

(** The subscriptions of [listenToApplicationEvents]: the event emitted for a socket event. *)
Definition listenToApplicationEvents : strmap string :=
  [(SocketEvents.DEPLOYED, RepeaterServerEvents.DEPLOY);
   (SocketEvents.REQUEST, RepeaterServerEvents.REQUEST);
   (SocketEvents.TEST_NETWORK, RepeaterServerEvents.TEST_NETWORK);
   (SocketEvents.ERROR, RepeaterServerEvents.ERROR);
   (SocketEvents.UPDATE_AVAILABLE, RepeaterServerEvents.UPDATE_AVAILABLE);
   (SocketEvents.SCRIPT_UPDATED, RepeaterServerEvents.SCRIPTS_UPDATED);
   (SocketEvents.LIMITS, RepeaterServerEvents.LIMITS)].

(** The events that leave the server: those of the socket under their new names, and its own. *)
Definition emitted_events : list string :=
  listenToApplicationEvents.*2 ++
  [RepeaterServerEvents.ERROR; RepeaterServerEvents.RECONNECT_ATTEMPT; RepeaterServerEvents.CONNECTED;
   RepeaterServerEvents.DISCONNECTED; RepeaterServerEvents.RECONNECTION_FAILED;
   RepeaterServerEvents.RECONNECTION_SUCCEEDED].

(** The reply to a deployment is announced under the name of the command: the event for it is never
    emitted (nor is the ping), while every other event is. *)
Theorem deployed_never_emitted :
  NoDup SocketEvents_values /\ NoDup RepeaterServerEvents_values /\
  (forall event, event ∈ OMap.keys listenToApplicationEvents -> event ∈ SocketEvents_values) /\
  forall event, event ∈ RepeaterServerEvents_values ->
    (event ∈ emitted_events <-> event <> RepeaterServerEvents.DEPLOYED /\ event <> RepeaterServerEvents.PING).
Proof.
  split; [apply (bool_decide_unpack _); vm_compute; exact I|].
  split; [apply (bool_decide_unpack _); vm_compute; exact I|].
  split; apply Forall_forall, (bool_decide_unpack _); vm_compute; exact I.
Qed.

(** Connection errors that are reported to the launcher. *)
Definition suppressConnectionError (code : string) : bool :=
  bool_decide (code ∈ [RepeaterErrorCodes.REPEATER_UNAUTHORIZED;
                       RepeaterErrorCodes.REPEATER_NOT_PERMITTED]).

(** ** Calling a handler *)

(** An argument of an event: data, or the acknowledgement callback of socket.io. *)
Inductive sarg (D : Type) : Type :=
| SData (d : D)
| SCallback
| SUndefined.
Arguments SData {D} d.
Arguments SCallback {D}.
Arguments SUndefined {D}.

(** [args.pop()] of an empty array is undefined, which is pushed back. *)
Definition extractLastArgument {D} (args : list (sarg D)) : list (sarg D) * bool :=
  match last args with
  | None => ([SUndefined], false)
  | Some SCallback => (removelast args, true)
  | Some _ => (args, false)
  end.

(** How a call ends: the callback gets the response, there is no callback, or the handler threw and
    the error is logged (and the callback is never called). *)
Inductive call_end (R : Type) : Type :=
| Acknowledged (response : R)
| NoCallback (response : R)
| Logged (e : js_error).
Arguments Acknowledged {R} response.
Arguments NoCallback {R} response.
Arguments Logged {R} e.

Definition wrapEventListener {D R} (handler : list (sarg D) -> result js_error R)
    (args : list (sarg D)) : call_end R :=
  let '(args, callback) := extractLastArgument args in
  match handler args with
  | Ok response => if callback then Acknowledged response else NoCallback response
  | Err err => Logged err
  end.

(** [handleEventError]: what is logged when a handler throws, besides the report to Sentry; [args] is
    the JSON of what the handler was given. *)
Definition handleEventError (conversion : ascii -> larg -> string) (now message : string) (stack : option string)
    (event args : string) (l : Logger) : list (sink * string) :=
  write now VERBOSE (format conversion
    "An error occurred while processing the %s event with the following payload: %j" [LStr event; LValue args]) l ++
  log_error conversion now (AnError message stack) None [] l.

(** ** Reconnection delay *)

Definition MIN_RECONNECTION_DELAY : Q := 5000.
Definition MAX_RECONNECTION_DELAY : Q := 1000.

(** The delay in milliseconds before attempt number [attempts + 1], for a value [random] of
    [Math.random()]. *)
Definition reconnection_delay (attempts : nat) (random : Q) : Q :=
  let delay := Qmax (MIN_RECONNECTION_DELAY * 2 ^ Z.of_nat attempts)%Q MIN_RECONNECTION_DELAY in
  let delay := (delay + delay * (3 # 10) * random)%Q in
  Qmin delay MAX_RECONNECTION_DELAY.

(** There is no back-off: the lower bound of the delay exceeds its upper bound, so
    whatever the number of attempts and the jitter every reconnection is tried after exactly
    one second. *)
Theorem reconnection_delay_constant (attempts : nat) (random : Q) :
  (0 <= random)%Q -> (reconnection_delay attempts random == 1000)%Q.
Proof.
  intros Hr. unfold reconnection_delay, MAX_RECONNECTION_DELAY. cbv zeta.
  set (d := Qmax _ _). assert (5000 <= d)%Q as Hd by apply Q.le_max_r.
  apply Q.min_r. apply Qle_trans with d.
  - apply Qle_trans with 5000%Q; [by compute|done].
  - rewrite <- (Qplus_0_r d) at 1. apply Qplus_le_r.
    apply Qmult_le_0_compat; [|done]. apply Qmult_le_0_compat; [|by compute].
    apply Qle_trans with 5000%Q; [by compute|done].
Qed.

Lemma reconnection_delay_constant_witness :
  (reconnection_delay 3 (1 # 2) == 1000)%Q.
Proof. apply reconnection_delay_constant. discriminate. Defined.
