(* ===== verification/Launcher.v ===== *)
(** * [Repeater/ServerRepeaterLauncher.ts] with [Repeater/DefaultRepeaterServer.ts]

    The repeater as a state machine: the launcher's handlers subscribed to the server, the
    events of the socket and of its manager, the reconnection timers, [run] and [close].  A
    handler runs synchronously inside the [emit] that calls it (up to its first await), so a
    critical error closes the connection while the server is still handling the event. *)
From S2P Require Import Prelude Scripts Proxy HttpExecutor RepeaterServer.

(** The launcher's handlers. *)
Inductive handler : Type :=
| deployRepeater
| handleError
| reconnectionFailed
| requestReceived
| limitsReceived
| testingNetwork
| scriptsUpdated
| updateAvailable
| reconnectAttempt
| reconnectionSucceeded.
#[export] Instance handler_eq_dec : EqDecision handler.
Proof. solve_decision. Defined.

(** What an event carries, where a handler's synchronous part reads it. *)
Inductive payload : Type :=
| PNone
| PError (code message : string) (remediation : option string)
| PLimits (maxBodySize : number)
| PScripts (script : ScriptPayload)
| PVersion (version : string)
| PAttempt (attempt : nat)
| PFailed (error : option js_error).

(** ** State *)

(** [sv_timers] are the timers armed and not yet fired or cleared; [sv_connectionTimer] is the one the
    server remembers. [sv_connects] counts the calls of [socket.connect()]. *)
Record server : Type := mk_server {
  sv_events : emitter handler;
  sv_socket : bool;
  sv_timers : list nat;
  sv_connectionTimer : option nat;
  sv_nextTimer : nat;
  sv_attempts : nat;
  sv_latestError : option js_error;
  sv_connects : nat
}.

(** [ln_deploys] counts the DEPLOY messages scheduled with [process.nextTick]. *)
Record launcher : Type := mk_launcher {
  ln_running : bool;
  ln_repeaterId : option string;
  ln_exitCode : option Z;
  ln_maxBodySize : number;
  ln_store : strmap VirtualScript;
  ln_deploys : nat;
  ln_log : list string
}.

Record world : Type := mk_world { w_server : server; w_launcher : launcher }.

Definition initial : world :=
  mk_world (mk_server empty_emitter false [] None 0 0 None 0)
    (mk_launcher false None None Infinity [] 0 []).

Definition on_server (f : server -> server) (w : world) : world :=
  mk_world (f (w_server w)) (w_launcher w).
Definition on_launcher (f : launcher -> launcher) (w : world) : world :=
  mk_world (w_server w) (f (w_launcher w)).
Definition log (s : string) : launcher -> launcher := fun l =>
  mk_launcher (ln_running l) (ln_repeaterId l) (ln_exitCode l) (ln_maxBodySize l) (ln_store l)
    (ln_deploys l) (ln_log l ++ [s]).
Definition set_exitCode (z : Z) : launcher -> launcher := fun l =>
  mk_launcher (ln_running l) (ln_repeaterId l) (Some z) (ln_maxBodySize l) (ln_store l)
    (ln_deploys l) (ln_log l).

(** ** Connection options *)

Record DefaultRepeaterServerOptions : Type := mk_server_options {
  so_uri : string;
  so_token : string;
  so_connectTimeout : option Z;
  so_proxyUrl : option string;
  so_insecure : option bool
}.

(** What [connect] hands to [io] besides the parser. *)
Record IoOptions : Type := mk_io_options {
  io_uri : string;
  io_path : string;
  io_transports : list string;
  io_reconnectionDelayMax : QArith_base.Q;
  io_reconnectionDelay : QArith_base.Q;
  io_timeout : option Z;
  io_rejectUnauthorized : bool;
  io_agent : option Agent;
  io_auth_token : string;
  io_auth_domain : string
}.

Section connection.
Context {UA : UrlApi}.

(** Building the agent is what may throw. *)
Definition connect_agent (o : DefaultRepeaterServerOptions) : result js_error (option Agent) :=
  if truthy_opt (so_proxyUrl o) then
    Some <$> createProxyForClient (so_uri o) (so_proxyUrl o ?? "")
               (Some (negb (so_insecure o ?? false)))
  else Ok None.

Definition io_options (o : DefaultRepeaterServerOptions) (hostname : string) :
    result js_error IoOptions :=
  agent ← connect_agent o;
  Ok (mk_io_options (so_uri o) "/api/ws/v1" ["websocket"] MAX_RECONNECTION_DELAY
        MIN_RECONNECTION_DELAY (so_connectTimeout o) (negb (so_insecure o ?? false)) agent
        (so_token o) hostname).

Lemma io_options_ok o hostname :
  is_ok (connect_agent o) = true -> exists io, io_options o hostname = Ok io.
Proof. unfold io_options. destruct (connect_agent o); [by eexists|done]. Qed.
End connection.

(** ** The server's own operations *)

Definition clearConnectionTimer : server -> server := fun s =>
  mk_server (sv_events s) (sv_socket s)
    (match sv_connectionTimer s with
     | Some t => base.filter (fun t' => t' <> t) (sv_timers s) | None => sv_timers s end)
    (sv_connectionTimer s) (sv_nextTimer s) (sv_attempts s) (sv_latestError s) (sv_connects s).

Definition disconnect : server -> server := fun s =>
  let s := mk_server (removeAllListeners (sv_events s)) (sv_socket s) (sv_timers s)
             (sv_connectionTimer s) (sv_nextTimer s) (sv_attempts s) (sv_latestError s)
             (sv_connects s) in
  let s := clearConnectionTimer s in
  mk_server (sv_events s) false (sv_timers s) (sv_connectionTimer s) (sv_nextTimer s)
    (sv_attempts s) (sv_latestError s) (sv_connects s).

Definition set_attempts (n : nat) : server -> server := fun s =>
  mk_server (sv_events s) (sv_socket s) (sv_timers s) (sv_connectionTimer s) (sv_nextTimer s)
    n (sv_latestError s) (sv_connects s).

(** [this.connectionTimer = setTimeout(...)]: the previous timer is not cleared. *)
Definition arm_timer : server -> server := fun s =>
  mk_server (sv_events s) (sv_socket s) (sv_timers s ++ [sv_nextTimer s]) (Some (sv_nextTimer s))
    (S (sv_nextTimer s)) (sv_attempts s) (sv_latestError s) (sv_connects s).

Definition set_latestError (e : option js_error) : server -> server := fun s =>
  mk_server (sv_events s) (sv_socket s) (sv_timers s) (sv_connectionTimer s) (sv_nextTimer s)
    (sv_attempts s) e (sv_connects s).

Definition subscribe (event : string) (h : handler) : server -> server := fun s =>
  mk_server (on event h (sv_events s)) (sv_socket s) (sv_timers s) (sv_connectionTimer s)
    (sv_nextTimer s) (sv_attempts s) (sv_latestError s) (sv_connects s).

(** The getter [socket], and the calls made on it. *)
Definition no_socket : js_error :=
  new_Error "Please make sure that repeater established a connection with host.".

Definition socket_connect (w : world) : result js_error world :=
  let s := w_server w in
  if sv_socket s then
    Ok (on_server (fun s => mk_server (sv_events s) (sv_socket s) (sv_timers s)
          (sv_connectionTimer s) (sv_nextTimer s) (sv_attempts s) (sv_latestError s)
          (S (sv_connects s))) w)
  else Err no_socket.

(** ** The launcher's operations *)

Definition close (w : world) : world :=
  let w := on_launcher (fun l => mk_launcher false (ln_repeaterId l) (ln_exitCode l)
             (ln_maxBodySize l) (ln_store l) (ln_deploys l) (ln_log l)) w in
  on_server disconnect w.

(** [message.replace(/\.$/, '')]. *)
Fixpoint normalizeMessage (message : string) : string :=
  match message with
  | "" => ""
  | String c "" => if c === "."%char then "" else message
  | String c t => String c (normalizeMessage t)
  end.

Definition isCriticalError (code : string) : bool :=
  bool_decide (code ∈ [RepeaterErrorCodes.REPEATER_DEACTIVATED;
                       RepeaterErrorCodes.REPEATER_NO_LONGER_SUPPORTED;
                       RepeaterErrorCodes.REPEATER_UNAUTHORIZED;
                       RepeaterErrorCodes.REPEATER_ALREADY_STARTED;
                       RepeaterErrorCodes.REPEATER_NOT_PERMITTED;
                       RepeaterErrorCodes.UNEXPECTED_ERROR]).

Definition handleCriticalError (message remediation : string) (w : world) : world :=
  let w := on_launcher (log ("(!) CRITICAL: " +:+ message +:+ ". " +:+ remediation)) w in
  on_launcher (set_exitCode 1) (close w).

Section launcher.
Context {UA : UrlApi} (options : DefaultRepeaterServerOptions).
Context (syntax_error : string -> option js_error).

(** The synchronous part of a handler.  Requests and network tests only start asynchronous
    work; an exception in [compileScripts] is caught and logged by the wrapper, and so is that of
    logging an error that is undefined. *)
Definition run_handler (h : handler) (p : payload) (w : world) : world :=
  match h, p with
  | deployRepeater, _ =>
      on_launcher (fun l => mk_launcher (ln_running l) (ln_repeaterId l) (ln_exitCode l)
        (ln_maxBodySize l) (ln_store l) (S (ln_deploys l)) (ln_log l)) w
  | handleError, PError code message remediation =>
      let message := normalizeMessage message in
      let remediation := normalizeMessage (remediation ?? "") in
      if isCriticalError code then handleCriticalError message remediation w
      else on_launcher (log message) w
  | reconnectionFailed, PFailed (Some error) =>
      let w := on_launcher (log (e_message error)) w in
      on_launcher (set_exitCode 1) (close w)
  | reconnectionFailed, PFailed None =>
      on_launcher (log "Cannot read properties of undefined (reading 'message')") w
  | limitsReceived, PLimits maxBodySize =>
      on_launcher (fun l => mk_launcher (ln_running l) (ln_repeaterId l) (ln_exitCode l)
        maxBodySize (ln_store l) (ln_deploys l) (ln_log l)) w
  | scriptsUpdated, PScripts script =>
      let '((r, refused), store) := compileScripts syntax_error script (ln_store (w_launcher w)) in
      on_launcher (fun l => mk_launcher (ln_running l) (ln_repeaterId l) (ln_exitCode l)
        (ln_maxBodySize l) store (ln_deploys l)
        (ln_log l ++ (if refused then ["Error Loading Script: Cannot accept scripts from the cloud when a local script is already loaded"] else []) ++
         match r with Err e => [e_message e] | Ok _ => [] end)) w
  | updateAvailable, PVersion version =>
      on_launcher (log ("A new Repeater version (" +:+ version +:+ ") is available")) w
  | reconnectAttempt, PAttempt attempt =>
      on_launcher (log "Failed to connect to Bright cloud") w
  | reconnectionSucceeded, _ => on_launcher (log "The Repeater connected") w
  | _, _ => w
  end.

Definition emit (event : string) (p : payload) (w : world) : world :=
  foldl (fun w h => run_handler h p w) w (handlers_of event (sv_events (w_server w))).

(** An event named error throws when nobody listens to it. *)
Definition unhandled_error : js_error :=
  mk_error "Error" "Unhandled error." (Some "ERR_UNHANDLED_ERROR") None None None false None None None.
Definition emit_checked (event : string) (p : payload) (w : world) : result js_error world :=
  match handlers_of event (sv_events (w_server w)) with
  | [] => if event === RepeaterServerEvents.ERROR then Err unhandled_error else Ok w
  | _ => Ok (emit event p w)
  end.

(** The subscriptions of [subscribeToEvents], in order. *)
Definition SUBSCRIPTIONS : list (string * handler) :=
  [(RepeaterServerEvents.CONNECTED, deployRepeater);
   (RepeaterServerEvents.ERROR, handleError);
   (RepeaterServerEvents.RECONNECTION_FAILED, reconnectionFailed);
   (RepeaterServerEvents.REQUEST, requestReceived);
   (RepeaterServerEvents.LIMITS, limitsReceived);
   (RepeaterServerEvents.TEST_NETWORK, testingNetwork);
   (RepeaterServerEvents.SCRIPTS_UPDATED, scriptsUpdated);
   (RepeaterServerEvents.UPDATE_AVAILABLE, updateAvailable);
   (RepeaterServerEvents.RECONNECT_ATTEMPT, reconnectAttempt);
   (RepeaterServerEvents.RECONNECTION_SUCCEEDED, reconnectionSucceeded)].

Definition subscribeToEvents (s : server) : server :=
  foldl (fun s e => subscribe e.1 e.2 s) s SUBSCRIPTIONS.

(** [connect] of the server up to its await: a socket with its listeners.  The options are computed
    before the socket is assigned. *)
Definition server_connect (hostname : string) (s : server) : result js_error server :=
  _ ← io_options options hostname;
  Ok (mk_server (sv_events s) true (sv_timers s) (sv_connectionTimer s) (sv_nextTimer s)
        (sv_attempts s) (sv_latestError s) (sv_connects s)).

(** [run] in the foreground ([asDaemon] is false), with what its promise is rejected with if the
    socket cannot be created. *)
Definition run (repeaterId : string) (w : world) : option js_error * world :=
  if ln_running (w_launcher w) then (None, w)
  else
    let w := on_launcher (fun l => mk_launcher true (Some repeaterId) (ln_exitCode l)
               (ln_maxBodySize l) (ln_store l) (ln_deploys l) (ln_log l ++ ["Starting the Repeater"])) w in
    let w := on_server subscribeToEvents w in
    match server_connect repeaterId (w_server w) with
    | Ok s => (None, mk_world s (w_launcher w))
    | Err e => (Some e, w)
    end.

(** ** Socket events *)

Definition scheduleReconnection (w : world) : world :=
  let w := on_server (fun s => set_attempts (S (sv_attempts s)) s) w in
  let w := emit RepeaterServerEvents.RECONNECT_ATTEMPT (PAttempt (sv_attempts (w_server w))) w in
  on_server arm_timer w.

(** The data of a connection error: a code and a remediation. *)
Definition handleConnectionError (message : string) (data : option (string * option string))
    (w : world) : result js_error world :=
  w ← match data with
      | Some (code, remediation) =>
          if suppressConnectionError code
          then emit_checked RepeaterServerEvents.ERROR (PError code message remediation) w
          else Ok w
      | None => Ok w
      end;
  Ok (scheduleReconnection w).

Definition handleConnect (w : world) : world :=
  let w := on_server (fun s => clearConnectionTimer (set_attempts 0 s)) w in
  emit RepeaterServerEvents.CONNECTED PNone w.

Definition handleDisconnect (reason : string) (w : world) : result js_error world :=
  let w := if negb (reason === "io client disconnect")
           then emit RepeaterServerEvents.DISCONNECTED PNone w else w in
  if reason === "io server disconnect" then socket_connect w else Ok w.

Definition timer_fires (t : nat) (w : world) : result js_error world :=
  socket_connect (on_server (fun s =>
    mk_server (sv_events s) (sv_socket s) (base.filter (fun t' => t' <> t) (sv_timers s))
      (sv_connectionTimer s) (sv_nextTimer s) (sv_attempts s) (sv_latestError s)
      (sv_connects s)) w).

(** What can happen next. Events of the socket come while there is one (its listeners are removed
    with it); the listeners on the manager stay, and it gives up only after an attempt that
    failed. *)
Inductive input : Type :=
| IRun (repeaterId : string)
| IClose
| ISocketConnect
| ISocketConnectError (message : string) (data : option (string * option string))
| ISocketDisconnect (reason : string)
| ISocketEvent (event : string) (p : payload)
| IReconnect
| IReconnectError (e : js_error)
| IReconnectFailed
| IReconnectAttempt (n : nat)
| ITimer (t : nat).

Definition enabled (i : input) (w : world) : bool :=
  match i with
  | ISocketConnect | ISocketConnectError _ _ | ISocketDisconnect _ | ISocketEvent _ _ =>
      sv_socket (w_server w)
  | ITimer t => bool_decide (t ∈ sv_timers (w_server w))
  | IReconnectFailed => bool_decide (is_Some (sv_latestError (w_server w)))
  | _ => true
  end.

Definition react (i : input) (w : world) : result js_error world :=
  match i with
  | IRun repeaterId => Ok (run repeaterId w).2
  | IClose => Ok (close w)
  | ISocketConnect => Ok (handleConnect w)
  | ISocketConnectError message data => handleConnectionError message data w
  | ISocketDisconnect reason => handleDisconnect reason w
  | ISocketEvent event p =>
      match OMap.get event listenToApplicationEvents with
      | Some event' => emit_checked event' p w
      | None => Ok w
      end
  | IReconnect =>
      Ok (emit RepeaterServerEvents.RECONNECTION_SUCCEEDED PNone (on_server (set_latestError None) w))
  | IReconnectError e => Ok (on_server (set_latestError (Some e)) w)
  | IReconnectFailed =>
      Ok (emit RepeaterServerEvents.RECONNECTION_FAILED (PFailed (sv_latestError (w_server w))) w)
  | IReconnectAttempt n => Ok (emit RepeaterServerEvents.RECONNECT_ATTEMPT (PAttempt n) w)
  | ITimer t => timer_fires t w
  end.

Inductive repeater_step : world -> world -> Prop :=
| rstep i w w' : enabled i w = true -> react i w = Ok w' -> repeater_step w w'.

(** ** The session invariant *)

(** The subscriptions in force, whether there is a socket, whether the repeater runs. *)
Definition core (w : world) : list (string * handler) * bool * bool :=
  ((fun l => (l_event l, l_handler l)) <$> em_listeners (sv_events (w_server w)),
   sv_socket (w_server w), ln_running (w_launcher w)).
Definition closed_core : list (string * handler) * bool * bool := ([], false, false).
Definition open_core : list (string * handler) * bool * bool := (SUBSCRIPTIONS, true, true).

Definition subscribed (s : server) : list (string * handler) :=
  (fun l => (l_event l, l_handler l)) <$> em_listeners (sv_events s).

Lemma core_world s l : core (mk_world s l) = (subscribed s, sv_socket s, ln_running l).
Proof. done. Qed.

Lemma subscribed_events s b ts t n a e c :
  subscribed (mk_server (sv_events s) b ts t n a e c) = subscribed s.
Proof. done. Qed.

Lemma subscribe_all subs s :
  let s' := foldl (fun s e => subscribe e.1 e.2 s) s subs in
  subscribed s' = subscribed s ++ subs /\ sv_socket s' = sv_socket s.
Proof.
  revert s. induction subs as [|[event h] subs IH]; intros s; simpl; [by rewrite app_nil_r|].
  destruct (IH (subscribe event h s)) as [-> ->]. split; [|done].
  unfold subscribed. simpl. rewrite fmap_app. simpl. by rewrite <- (assoc_L (++)).
Qed.

(** A proxy URL that is refused leaves the launcher half open: [run] is rejected, but the launcher counts
    as running and stays subscribed without a socket, so that running it again does nothing. *)
Theorem refused_proxy_half_open id id2 w e :
  connect_agent options = Err e -> core w = closed_core ->
  exists w', run id w = (Some e, w') /\ core w' = (SUBSCRIPTIONS, false, true) /\
    run id2 w' = (None, w').
Proof.
  intros He [= Hl Hs Hr]. apply fmap_nil_inv in Hl.
  assert (Hc : forall id s, server_connect id s = Err e).
  { intros id' s. unfold server_connect, io_options. by rewrite He. }
  eexists. unfold run at 1. rewrite Hr, Hc. split; [done|]. split; [|done].
  destruct (subscribe_all SUBSCRIPTIONS (w_server w)) as [Hsub Hsock].
  unfold on_server. rewrite core_world. cbn [w_server w_launcher on_launcher ln_running].
  unfold subscribeToEvents. rewrite Hsub, Hsock, Hs. unfold subscribed. by rewrite Hl.
Qed.

(** From here on the agent for the connection can be built (there is no proxy, or a valid one). *)
Hypothesis agent_ok : is_ok (connect_agent options) = true.

Lemma core_close w : core (close w) = closed_core.
Proof. done. Qed.

Lemma run_handler_core h p w :
  core (run_handler h p w) = core w \/ core (run_handler h p w) = closed_core.
Proof.
  destruct h, p; simpl; auto.
  - case_match; auto.
  - case_match; auto.
  - destruct (compileScripts _ _ _) as [[r refused] store]. by left.
Qed.

Lemma emit_core event p w : core (emit event p w) = core w \/ core (emit event p w) = closed_core.
Proof.
  unfold emit. generalize (handlers_of event (sv_events (w_server w))) as hs. intros hs. revert w.
  induction hs as [|h hs IH]; intros w; simpl; [auto|].
  destruct (IH (run_handler h p w)) as [-> | ->]; [apply run_handler_core|auto].
Qed.

Lemma emit_checked_core event p w w' :
  emit_checked event p w = Ok w' -> core w' = core w \/ core w' = closed_core.
Proof.
  unfold emit_checked. intros He. destruct (handlers_of _ _).
  - case_match; simplify_eq. auto.
  - simplify_eq. apply emit_core.
Qed.

Lemma core_arm w : core (on_server arm_timer w) = core w.
Proof. done. Qed.

Lemma scheduleReconnection_core w :
  core (scheduleReconnection w) = core w \/ core (scheduleReconnection w) = closed_core.
Proof.
  unfold scheduleReconnection. cbv zeta. rewrite core_arm.
  set (w1 := on_server _ w). change (core w) with (core w1). apply emit_core.
Qed.

Lemma socket_connect_core w w' : socket_connect w = Ok w' -> core w' = core w.
Proof. unfold socket_connect. intros Hc. case_match; by simplify_eq. Qed.

Lemma run_core id w : core w = closed_core -> core (run id w).2 = open_core.
Proof.
  destruct (io_options_ok options id agent_ok) as [io Hio]. intros [= Hl Hs Hr].
  apply fmap_nil_inv in Hl. destruct (subscribe_all SUBSCRIPTIONS (w_server w)) as [Hsub _].
  unfold run. rewrite Hr. unfold server_connect. rewrite Hio.
  cbn [mbind result_bind snd]. rewrite core_world.
  cbn [w_server w_launcher on_launcher on_server ln_running sv_socket]. rewrite subscribed_events.
  unfold subscribeToEvents. rewrite Hsub. unfold subscribed. by rewrite Hl.
Qed.

Lemma step_core w w' : repeater_step w w' -> core w = open_core \/ core w = closed_core ->
  core w' = open_core \/ core w' = closed_core.
Proof.
  destruct 1 as [i w w' He Hr]. intros Hw.
  assert (Hkeep : core w' = core w \/ core w' = closed_core -> core w' = open_core \/ core w' = closed_core)
    by (intros [-> | ->]; auto).
  destruct i as [id| | |msg data|reason|ev p| |e| |n|t]; simpl in Hr.
  - simplify_eq. destruct Hw as [Hw|Hw]; [|left; by apply run_core].
    left. rewrite <- Hw. unfold run. by injection Hw as _ _ ->.
  - simplify_eq. auto.
  - apply Ok_inj in Hr as <-. apply Hkeep. unfold handleConnect. cbv zeta.
    set (w1 := on_server _ w). change (core w) with (core w1). apply emit_core.
  - apply Hkeep. unfold handleConnectionError in Hr. inv_bind Hr. apply Ok_inj in Hr as <-.
    assert (core a = core w \/ core a = closed_core) as Ha'.
    { destruct data as [[code rem]|]; [|by simplify_eq; auto].
      case_match; [by eapply emit_checked_core|by simplify_eq; auto]. }
    destruct (scheduleReconnection_core a) as [-> | ->]; auto.
  - apply Hkeep. unfold handleDisconnect in Hr. destruct (negb _).
    + pose proof (emit_core RepeaterServerEvents.DISCONNECTED PNone w) as Hem.
      case_match; [apply socket_connect_core in Hr as ->|apply Ok_inj in Hr as <-]; done.
    + case_match; [apply socket_connect_core in Hr as ->|apply Ok_inj in Hr as <-]; auto.
  - apply Hkeep. case_match; [by eapply emit_checked_core|simplify_eq; auto].
  - apply Ok_inj in Hr as <-. apply Hkeep.
    set (w1 := on_server _ w). change (core w) with (core w1). apply emit_core.
  - apply Ok_inj in Hr as <-. apply Hkeep. by left.
  - apply Ok_inj in Hr as <-. apply Hkeep. apply emit_core.
  - apply Ok_inj in Hr as <-. apply Hkeep. apply emit_core.
  - apply Hkeep. unfold timer_fires in Hr. apply socket_connect_core in Hr as ->. by left.
Qed.

Lemma reachable_core w : rtc repeater_step initial w -> core w = open_core \/ core w = closed_core.
Proof.
  intros Hr. remember initial as w0 eqn:H0.
  assert (core w0 = open_core \/ core w0 = closed_core) as Hw0 by (subst; by right). clear H0.
  induction Hr as [|w1 w2 w3 Hs _ IH]; [done|]. eauto using step_core.
Qed.

Lemma handlers_of_core event w : handlers_of event (sv_events (w_server w)) =
  snd <$> base.filter (fun e => e.1 = event) (core w).1.1.
Proof.
  unfold handlers_of, core. simpl. induction (em_listeners (sv_events (w_server w))) as [|l ls IH];
    [done|]. rewrite fmap_cons. destruct (decide (l_event l = event)).
  - rewrite !filter_cons_True by done. rewrite !fmap_cons. simpl. f_equal. exact IH.
  - rewrite !filter_cons_False by done. exact IH.
Qed.

Lemma subscriptions_unique : Forall (fun e =>
  snd <$> base.filter (fun e' => e'.1 = e.1) SUBSCRIPTIONS = [e.2]) SUBSCRIPTIONS.
Proof. repeat constructor. Qed.

Lemma open_handlers w event h : core w = open_core -> (event, h) ∈ SUBSCRIPTIONS ->
  handlers_of event (sv_events (w_server w)) = [h].
Proof.
  intros Ho Hin. rewrite handlers_of_core, Ho.
  apply (proj1 (Forall_forall _ _) subscriptions_unique _ Hin).
Qed.

Lemma error_subscribed : (RepeaterServerEvents.ERROR, handleError) ∈ SUBSCRIPTIONS.
Proof. right. left. Qed.

(** ** Theorems *)

(** C11: in every state the repeater can reach, it is either fully open (running, with a socket,
    and each launcher handler subscribed exactly once) or fully closed (not running, no socket,
    no subscription), however often it was run in the foreground, closed, disconnected and
    reconnected; so no event is ever handled twice, and no event of the socket throws.  (The
    agent for the connection can be built.) *)
Theorem session_invariant w :
  rtc repeater_step initial w ->
  (core w = open_core \/ core w = closed_core) /\
  (sv_socket (w_server w) = true ->
     (forall event h, (event, h) ∈ SUBSCRIPTIONS ->
        handlers_of event (sv_events (w_server w)) = [h]) /\
     forall event p, is_ok (react (ISocketEvent event p) w) = true).
Proof.
  intros Hr. pose proof (reachable_core _ Hr) as Hc. split; [done|]. intros Hs.
  assert (core w = open_core) as Ho.
  { destruct Hc as [|Hc]; [done|]. injection Hc as _ Hc _. congruence. }
  split; [by intros; apply open_handlers|]. intros event p. unfold react.
  destruct (OMap.get event listenToApplicationEvents) as [event'|]; [|done].
  unfold emit_checked. destruct (handlers_of event' _) eqn:Hh; [|done].
  destruct (eqbP event' RepeaterServerEvents.ERROR) as [->|]; [|done].
  by rewrite (open_handlers w _ handleError Ho error_subscribed) in Hh.
Qed.

Lemma emit_error w code message remediation : core w = open_core ->
  emit RepeaterServerEvents.ERROR (PError code message remediation) w =
    run_handler handleError (PError code message remediation) w.
Proof. intros Ho. unfold emit. by rewrite (open_handlers w _ handleError Ho error_subscribed). Qed.

(** C12: a critical error always ends the session: whatever the state of a running repeater, when the
    cloud reports one of the critical codes the repeater stops running, drops the socket and
    every subscription, and the process will exit with code 1; other codes leave the session
    as it is. *)
Theorem critical_error_closes w code message remediation :
  rtc repeater_step initial w -> sv_socket (w_server w) = true ->
  exists w', react (ISocketEvent SocketEvents.ERROR (PError code message remediation)) w = Ok w' /\
    if isCriticalError code
    then core w' = closed_core /\ ln_exitCode (w_launcher w') = Some 1%Z
    else core w' = core w /\ ln_exitCode (w_launcher w') = ln_exitCode (w_launcher w).
Proof.
  intros Hr Hs. assert (core w = open_core) as Ho.
  { destruct (reachable_core _ Hr) as [|Hc]; [done|]. injection Hc as _ Hc _. congruence. }
  exists (run_handler handleError (PError code message remediation) w). split.
  - change (emit_checked RepeaterServerEvents.ERROR (PError code message remediation) w =
            Ok (run_handler handleError (PError code message remediation) w)).
    unfold emit_checked. rewrite emit_error by done.
    by rewrite (open_handlers w _ handleError Ho error_subscribed).
  - simpl. by destruct (isCriticalError code).
Qed.

(** A refused connection crashes the process: when the cloud answers a connection attempt with
    repeater_unauthorized or repeater_not_permitted, the launcher closes the session while
    the server handles the error, yet the server then schedules a reconnection; no socket is
    left, and when that timer fires (nothing can clear it but itself) it throws. *)
Theorem refused_connection_throws w code message remediation :
  rtc repeater_step initial w -> sv_socket (w_server w) = true ->
  suppressConnectionError code = true ->
  exists w', react (ISocketConnectError message (Some (code, remediation))) w = Ok w' /\
    core w' = closed_core /\
    exists t, enabled (ITimer t) w' = true /\ react (ITimer t) w' = Err no_socket.
Proof.
  intros Hr Hs Hcode. assert (core w = open_core) as Ho.
  { destruct (reachable_core _ Hr) as [|Hc]; [done|]. injection Hc as _ Hc _. congruence. }
  assert (isCriticalError code = true) as Hcrit.
  { unfold suppressConnectionError, isCriticalError in *. rewrite bool_decide_eq_true in *.
    rewrite !elem_of_cons in *. naive_solver. }
  set (w1 := run_handler handleError (PError code message remediation) w).
  assert (core w1 = closed_core) as Hw1 by (unfold w1; simpl; by rewrite Hcrit).
  exists (scheduleReconnection w1). split.
  - change (handleConnectionError message (Some (code, remediation)) w = Ok (scheduleReconnection w1)).
    unfold handleConnectionError. rewrite Hcode. unfold emit_checked.
    rewrite emit_error by done. by rewrite (open_handlers w _ handleError Ho error_subscribed).
  - assert (Hw' : core (scheduleReconnection w1) = closed_core).
    { destruct (scheduleReconnection_core w1) as [-> | ->]; done. }
    split; [done|]. set (w' := scheduleReconnection w1) in *.
    exists (sv_nextTimer (w_server (emit RepeaterServerEvents.RECONNECT_ATTEMPT
      (PAttempt (S (sv_attempts (w_server w1)))) (on_server (fun s => set_attempts (S (sv_attempts s)) s) w1)))).
    split; [simpl; apply bool_decide_eq_true; set_solver|].
    simpl. unfold timer_fires, socket_connect. injection Hw' as _ Hsock _. simpl in *. by rewrite Hsock.
Qed.
End launcher.

Definition no_syntax_error (source : string) : option js_error := None.
Definition no_urls : UrlApi := fun _ => None.
Definition direct : DefaultRepeaterServerOptions :=
  mk_server_options "wss://app.brightsec.com/workstations" "token" None None None.
Definition running_world : world := (run (UA := no_urls) direct "uL2zo7Vf" initial).2.

Lemma running_reachable : rtc (repeater_step (UA := no_urls) direct no_syntax_error) initial running_world.
Proof. apply rtc_once. by apply (rstep _ _ (IRun "uL2zo7Vf")). Qed.

Lemma session_invariant_witness :
  (core running_world = open_core \/ core running_world = closed_core) /\
  (sv_socket (w_server running_world) = true ->
     (forall event h, (event, h) ∈ SUBSCRIPTIONS ->
        handlers_of event (sv_events (w_server running_world)) = [h]) /\
     forall event p, is_ok (react (UA := no_urls) direct no_syntax_error (ISocketEvent event p) running_world) = true).
Proof. apply (session_invariant (UA := no_urls) direct no_syntax_error eq_refl), running_reachable. Defined.

Lemma critical_error_closes_witness :
  exists w', react (UA := no_urls) direct no_syntax_error (ISocketEvent "error" (PError "repeater_deactivated" "gone." None))
      running_world = Ok w' /\
    core w' = closed_core /\ ln_exitCode (w_launcher w') = Some 1%Z.
Proof.
  apply (critical_error_closes (UA := no_urls) direct no_syntax_error eq_refl running_world "repeater_deactivated" "gone." None).
  - apply running_reachable.
  - reflexivity.
Defined.

Lemma refused_connection_throws_witness :
  exists w', react (UA := no_urls) direct no_syntax_error
      (ISocketConnectError "no" (Some ("repeater_unauthorized", None))) running_world = Ok w' /\
    core w' = closed_core /\
    exists t, enabled (ITimer t) w' = true /\ react (UA := no_urls) direct no_syntax_error (ITimer t) w' = Err no_socket.
Proof.
  apply (refused_connection_throws (UA := no_urls) direct no_syntax_error eq_refl running_world "repeater_unauthorized" "no" None).
  - apply running_reachable.
  - reflexivity.
  - vm_compute. reflexivity.
Defined.
