(* ===== verification/Startup.v ===== *)
(** * Startup scripts: the repeater as a service of the operating system

    Models src/src/StartupScripts (DefaultStartupManager, StartupOptions) and the parts of
    src/src/Repeater/ServerRepeaterLauncher.ts that use it: [install], [uninstall] and [run]
    as a daemon.  The package os-service is third-party code: it is the class [OsService],
    whose documented behaviour is the class [OsServiceLaws]. *)
From S2P Require Import Prelude Helpers Launcher.

(** [StartupOptions] without the name, which is what os-service's [add] takes. *)
Record AddOptions : Type := mk_AddOptions {
  ao_displayName : option string;
  ao_command : string;
  ao_args : list string
}.

Record StartupOptions : Type := mk_StartupOptions {
  st_name : string;
  st_options : AddOptions
}.

(** The functions of os-service on the state [S] of the operating system: a callback with an
    error is [Some], and the system may have changed all the same. *)
Class OsService (S : Type) : Type := {
  os_add : string -> AddOptions -> S -> option js_error * S;
  os_enable : string -> S -> option js_error * S;
  os_disable : string -> S -> option js_error * S;
  os_remove : string -> S -> option js_error * S
}.

(** Documented behaviour: which services exist, with what, and whether they start with the
    system. Adding needs a free name, the others a known one. *)
Class OsServiceLaws (S : Type) {OS : OsService S} : Type := {
  os_lookup : string -> S -> option (AddOptions * bool);
  os_add_ok : forall name o s s', os_add name o s = (None, s') ->
    os_lookup name s' = Some (o, false) /\
    forall n, n <> name -> os_lookup n s' = os_lookup n s;
  os_enable_ok : forall name s s', os_enable name s = (None, s') ->
    os_lookup name s' = (fun '(o, _) => (o, true)) <$> os_lookup name s /\
    forall n, n <> name -> os_lookup n s' = os_lookup n s;
  os_disable_keeps : forall name s n, n <> name ->
    os_lookup n (os_disable name s).2 = os_lookup n s;
  os_remove_keeps : forall name s n, n <> name ->
    os_lookup n (os_remove name s).2 = os_lookup n s;
  os_disable_known : forall name s o b, os_lookup name s = Some (o, b) ->
    exists b', os_lookup name (os_disable name s).2 = Some (o, b');
  os_remove_ok : forall name s s', os_remove name s = (None, s') -> os_lookup name s' = None;
  os_remove_unknown : forall name s, os_lookup name s = None ->
    os_lookup name (os_remove name s).2 = None;
  os_disable_unknown : forall name s, os_lookup name s = None ->
    os_lookup name (os_disable name s).2 = None
}.

(** ** [DefaultStartupManager] *)

Section manager.
Context {S : Type} {OS : OsService S}.

(** [install]: an error of [add] skips [enable]. *)
Definition install (o : StartupOptions) (s : S) : result js_error unit * S :=
  let '(e, s) := os_add (st_name o) (st_options o) s in
  match e with
  | Some e => (Err e, s)
  | None =>
      let '(e, s) := os_enable (st_name o) s in
      (match e with Some e => Err e | None => Ok tt end, s)
  end.

(** [uninstall]: both errors are swallowed. *)
Definition uninstall (name : string) (s : S) : S :=
  let '(_, s) := os_disable name s in
  let '(_, s) := os_remove name s in
  s.

End manager.

(** The process under a service manager: the repeater, the number of callbacks registered
    with os-service's [run], and the code handed to its [stop]. *)
Record service : Type := mk_service {
  sp_world : world;
  sp_callbacks : nat;
  sp_stopped : option Z
}.

(** [run] of the manager: it registers a callback that calls [exit(0, dispose)]. *)
Definition startup_run (s : service) : service :=
  mk_service (sp_world s) (sp_callbacks s + 1) (sp_stopped s).

(** [exit]: the repeater is closed, then the service stopped. *)
Definition exit (code : Z) (s : service) : service :=
  mk_service (close (sp_world s)) (sp_callbacks s) (Some code).

(** The system stops the service: each registered callback runs. *)
Definition service_stop (s : service) : service :=
  Nat.iter (sp_callbacks s) (exit 0) s.

(** ** [ServerRepeaterLauncher] *)

Definition SERVICE_NAME : string := "bright-repeater".

Section launcher.
Context {S : Type} {OS : OsService S}.
Context (normalize : string -> string) (p : Process).

(** What [install] registers. *)
Definition service_options : StartupOptions :=
  let ca := getExecArgs normalize p
    (mk_ExecOptions (Some ["--daemon"; "-d"]) (Some ["--run"]) None (Some false) None) in
  mk_StartupOptions SERVICE_NAME
    (mk_AddOptions (Some "Bright Repeater") (ca_command ca) (ca_args ca)).

Definition launcher_install (s : S) : result js_error unit * S := install service_options s.

Definition launcher_uninstall (s : S) : S := uninstall SERVICE_NAME s.

End launcher.

(** [run(repeaterId, asDaemon)]. *)
Definition run_as {UA : UrlApi} (o : DefaultRepeaterServerOptions) (repeaterId : string)
    (asDaemon : bool) (s : service) : option js_error * service :=
  if ln_running (w_launcher (sp_world s)) then (None, s)
  else
    let s := if asDaemon then startup_run s else s in
    let '(e, w) := run o repeaterId (sp_world s) in
    (e, mk_service w (sp_callbacks s) (sp_stopped s)).

(** ** Properties *)

Section laws.
Context {S : Type} `{L : OsServiceLaws S}.
Context (normalize : string -> string) (p : Process).

Lemma install_ok o s s' :
  install o s = (Ok tt, s') ->
  os_lookup (st_name o) s' = Some (st_options o, true) /\
  forall n, n <> st_name o -> os_lookup n s' = os_lookup n s.
Proof.
  unfold install. intros Hi.
  destruct (os_add _ _ s) as [[e|] s1] eqn:Ha; [done|].
  destruct (os_enable _ s1) as [[e|] s2] eqn:He; simplify_eq.
  apply os_add_ok in Ha as [Ha1 Ha2]. apply os_enable_ok in He as [He1 He2].
  rewrite He1, Ha1. split; [done|]. intros n Hn. by rewrite He2, Ha2.
Qed.

Lemma uninstall_keeps name s n : n <> name -> os_lookup n (uninstall name s) = os_lookup n s.
Proof.
  intros Hn. unfold uninstall. destruct (os_disable name s) as [e1 s1] eqn:Hd.
  destruct (os_remove name s1) as [e2 s2] eqn:Hr.
  pose proof (os_remove_keeps name s1 n Hn) as H2. rewrite Hr in H2. simpl in H2.
  pose proof (os_disable_keeps name s n Hn) as H1. rewrite Hd in H1. simpl in H1. congruence.
Qed.

Lemma uninstall_unknown name s : os_lookup name s = None -> os_lookup name (uninstall name s) = None.
Proof.
  intros Hn. unfold uninstall. destruct (os_disable name s) as [e1 s1] eqn:Hd.
  destruct (os_remove name s1) as [e2 s2] eqn:Hr.
  pose proof (os_disable_unknown name s Hn) as H1. rewrite Hd in H1. simpl in H1.
  pose proof (os_remove_unknown name s1 H1) as H2. by rewrite Hr in H2.
Qed.

Lemma uninstall_removes name s :
  (os_remove name (os_disable name s).2).1 = None -> os_lookup name (uninstall name s) = None.
Proof.
  intros He. unfold uninstall. destruct (os_disable name s) as [e1 s1] eqn:Hd. simpl in He.
  destruct (os_remove name s1) as [e2 s2] eqn:Hr. simpl in He. subst e2.
  by apply os_remove_ok in Hr.
Qed.

End laws.

Lemma service_args_spec normalize p :
  let args := ao_args (st_options (service_options normalize p)) in
  forall x, x ∈ args <->
    (x ∈ p_execArgv p \/ (x ∈ drop 1 (p_argv p) /\ x ∉ ["--daemon"; "-d"]) \/ x = "--run") /\
    (forall e, p_pkg_entrypoint p = Some e -> startsWith e x = false).
Proof.
  intros args x. subst args. unfold service_options, getExecArgs. cbn [o_escape nullish].
  rewrite andb_false_r. simpl.
  rewrite !list_elem_of_In, List.filter_In, List.in_app_iff, List.filter_In, List.in_app_iff.
  rewrite <- !list_elem_of_In, bool_decide_eq_true.
  assert ((match p_pkg_entrypoint p with Some e => negb (startsWith e x) | None => true end) = true <->
    (forall e, p_pkg_entrypoint p = Some e -> startsWith e x = false)) as ->.
  { destruct (p_pkg_entrypoint p) as [e|]; [|naive_solver].
    rewrite negb_true_iff. naive_solver. }
  set_solver.
Qed.


(** A service registry: names with their options and the enabled flag. *)
Definition registry : Type := strmap (AddOptions * bool).
Definition unknown_service : option js_error := Some (new_Error "unknown service").

#[export] Instance registry_service : OsService registry := {
  os_add name o s := if OMap.has name s then (Some (new_Error "service exists"), s)
                     else (None, OMap.set name (o, false) s);
  os_enable name s := match OMap.get name s with
                      | Some (o, _) => (None, OMap.set name (o, true) s)
                      | None => (unknown_service, s) end;
  os_disable name s := match OMap.get name s with
                       | Some (o, _) => (None, OMap.set name (o, false) s)
                       | None => (unknown_service, s) end;
  os_remove name s := if OMap.has name s then (None, OMap.del name s) else (unknown_service, s)
}.

#[refine, export] Instance registry_laws : OsServiceLaws registry := { os_lookup := OMap.get }.
Proof.
  - intros name o s s'. simpl. unfold OMap.has. case_match; intros; simplify_eq.
    split; [apply get_set_eq|]. intros. by apply get_set_ne.
  - intros name s s'. simpl. destruct (OMap.get name s) as [[o b]|]; intros; simplify_eq/=.
    split; [apply get_set_eq|]. intros. by apply get_set_ne.
  - intros name s n Hn. simpl. destruct (OMap.get name s) as [[o b]|]; [|done]. by apply get_set_ne.
  - intros name s n Hn. simpl. unfold OMap.has. case_match; [|done]. by apply get_del_ne.
  - intros name s o b Hs. simpl. rewrite Hs. exists false. apply get_set_eq.
  - intros name s s'. simpl. unfold OMap.has. case_match; intros; simplify_eq/=. apply get_del_eq.
  - intros name s Hs. simpl. unfold OMap.has. by rewrite Hs.
  - intros name s Hs. simpl. by rewrite Hs.
Defined.

Definition sample_process : Process :=
  mk_Process ["node"; "bright-cli"; "repeater"; "--id"; "uL2zo7Vf"; "-d"] [] "/usr/bin/node" "linux" None.


(** Only the two bare spellings of the flag are removed.  The forms with a value, which the
    command line parser accepts as well, stay in the registered arguments together with the
    one that runs the repeater, and the handler looks at the installation flag first. *)
Lemma flag_with_value_survives :
  let p := mk_Process ["node"; "bright-cli"; "repeater"; "--daemon=true"] [] "/usr/bin/node" "linux" None in
  ao_args (st_options (service_options id p)) = ["bright-cli"; "repeater"; "--daemon=true"; "--run"].
Proof. reflexivity. Qed.

(** A repeater that runs as a service stops cleanly: started as a daemon from a closed
    state, when the system stops the service the repeater is closed first (no socket, no
    subscription) and then the service is stopped with code 0; in the foreground the system
    has no callback to run. *)
Theorem service_stop_closes {UA : UrlApi} o id asDaemon s s' :
  core (sp_world s) = closed_core -> sp_callbacks s = 0 -> sp_stopped s = None ->
  run_as o id asDaemon s = (None, s') ->
  core (sp_world s') = open_core /\
  if asDaemon
  then core (sp_world (service_stop s')) = closed_core /\ sp_stopped (service_stop s') = Some 0%Z
  else service_stop s' = s'.
Proof.
  intros Hc Hcb Hst Hr. unfold run_as in Hr.
  assert (ln_running (w_launcher (sp_world s)) = false) as Hrun by (by injection Hc).
  rewrite Hrun in Hr.
  destruct (run o id (sp_world (if asDaemon then startup_run s else s))) as [e w] eqn:Hw.
  injection Hr as -> <-. cbn [sp_world sp_callbacks sp_stopped].
  assert (sp_world (if asDaemon then startup_run s else s) = sp_world s) as Hsw by (by destruct asDaemon).
  rewrite Hsw in Hw. split.
  - assert (is_ok (connect_agent o) = true) as Ha.
    { destruct (connect_agent o) as [a|e] eqn:Hag; [done|].
      destruct (refused_proxy_half_open o id id (sp_world s) e Hag Hc) as (w' & Hw' & _). congruence. }
    pose proof (run_core o Ha id (sp_world s) Hc) as Ho. by rewrite Hw in Ho.
  - destruct asDaemon; unfold service_stop; simpl; by rewrite Hcb.
Qed.

Lemma service_stop_closes_witness :
  core (sp_world (service_stop (run_as (UA := no_urls) direct "uL2zo7Vf" true (mk_service initial 0 None)).2)) = closed_core.
Proof.
  apply (service_stop_closes (UA := no_urls) direct "uL2zo7Vf" true (mk_service initial 0 None)); reflexivity.
Defined.
