(* ===== verification/CommandHub.v ===== *)
(** * [Repeater/DefaultRepeaterCommandHub.ts], request and network-test events, and the runtime
    report

    Choosing the executor for a request event and acknowledging it, driving the child process of a
    network test, and what the repeater tells the cloud about its runtime.  ([compileScripts]
    is modelled in [Scripts.v].) *)
From S2P Require Import Prelude Helpers Scripts Request RepeaterServer.

(** ** Requests *)

Section requests.
Context `{UrlApi} (valid_regexp : string -> bool).
(** The executors by protocol; [ex r resp]: the executor may answer the request with [resp]. *)
Context (requestExecutors : list (string * (Request -> Response -> Prop))).

Definition sendRequest (request : Request) : result js_error (Request -> Response -> Prop) :=
  let protocol := rq_protocol request in
  match List.find (fun x => x.1 === protocol) requestExecutors with
  | None => throw ("Unsupported protocol " +:+ dquote +:+ protocol +:+ dquote)
  | Some requestExecutor => Ok requestExecutor.2
  end.

(** The reply built from a response: its eight fields, one by one. *)
Definition reply_of (r : Response) : Response :=
  mk_Response (rs_protocol r) (rs_statusCode r) (rs_headers r) (rs_body r) (rs_encoding r)
    (rs_message r) (rs_errorCode r) (rs_ttfb r).

(** The handler [requestReceived] may settle with [out]. *)
Definition requestReceived (event : RequestOptions) (out : result js_error Response) : Prop :=
  match new_Request valid_regexp event with
  | Err e => out = Err e
  | Ok request =>
      match sendRequest request with
      | Err e => out = Err e
      | Ok execute => exists response, execute request response /\ out = Ok (reply_of response)
      end
  end.

(** What the cloud sees of a request event sent with an acknowledgement callback. *)
Definition request_event (event : RequestOptions) (out : result js_error Response) :
    call_end Response :=
  wrapEventListener (fun _ => out) [SData event; SCallback].

(** With executors that always answer, a request event with valid options and a supported
    protocol is acknowledged with the executor's response; any other is only logged, and the
    cloud gets no acknowledgement at all. *)
Theorem request_acknowledged event :
  (forall p ex r, (p, ex) ∈ requestExecutors -> exists resp, ex r resp) ->
  (exists out, requestReceived event out) /\
  forall out, requestReceived event out ->
    match new_Request valid_regexp event with
    | Ok r =>
        if bool_decide (rq_protocol r ∈ requestExecutors.*1)
        then exists ex resp, (rq_protocol r, ex) ∈ requestExecutors /\ ex r resp /\
               request_event event out = Acknowledged resp
        else exists e, request_event event out = Logged e
    | Err e => request_event event out = Logged e
    end.
Proof.
  intros Htot. unfold requestReceived, request_event, wrapEventListener. simpl.
  destruct (new_Request valid_regexp event) as [r|e]; [|by split; [eauto|intros out ->]].
  unfold sendRequest. destruct (List.find _ _) as [[p ex]|] eqn:Hf.
  - apply find_Some_elem in Hf as [Hin Hp]. simpl in *. apply (proj1 (eqb_true_iff _ _)) in Hp. subst p.
    rewrite bool_decide_eq_true_2 by (by apply (list_elem_of_fmap_2 fst) in Hin). split.
    + destruct (Htot _ _ r Hin) as [resp ?]. eauto.
    + intros out (resp & Hex & ->). exists ex, resp. split_and!; try done. by destruct resp.
  - split; [by eexists|]. intros out ->. rewrite bool_decide_eq_false_2; [by eexists|].
    intros ([p ex] & Hp & Hin)%list_elem_of_fmap. simpl in Hp.
    eapply List.find_none in Hf; [|by apply list_elem_of_In]. simpl in Hf.
    by rewrite Hp, eqb_refl in Hf.
Qed.
End requests.

Lemma request_acknowledged_witness :
  exists out, requestReceived (H := sample_url) (fun _ => true)
    [("http", fun _ resp => resp = mk_Response "http" (Some 200%Z) None None None None None None)]
    sample_options out.
Proof.
  destruct (request_acknowledged (H := sample_url) (fun _ => true)
    [("http", fun _ resp => resp = mk_Response "http" (Some 200%Z) None None None None None None)]
    sample_options) as [Hex _]; [|exact Hex].
  intros p ex r Hin. apply list_elem_of_singleton in Hin. injection Hin as -> ->.
  eexists. reflexivity.
Defined.

(** ** Network tests *)

Definition URLS_QUESTION : string := "Please enter the target URLs to test (separated by commas)".
Definition HOST_OR_IP_QUESTION : string := "Please enter the target hostname or IP to test".
Definition COMPELED_MESSAGE : string := "Communication diagnostics done, close the terminal to exit.".

(** The control sequence that moves the cursor to the first column. *)
Definition CURSOR_HOME : string := String (chr 27) "[1G".

Fixpoint drop_retyped (input : list string) : list string :=
  match input with
  | [] => []
  | element :: rest =>
      if endsWith CURSOR_HOME element ||
         match rest with next :: _ => next === CURSOR_HOME | [] => false end
      then drop_retyped rest
      else element :: drop_retyped rest
  end.

Definition processOutput (input : list string) : string :=
  join newline (base.filter (fun x => startsWith URLS_QUESTION x = false) (drop_retyped input)).

(** Events of the child process; the exit code of one that a signal ended is null. *)
Inductive child_event : Type :=
| ChildData (chunk : string)
| ChildError (e : js_error)
| ChildClose (code : option Z).

(** Lines collected, texts written to stdin, whether stdin was ended, and how the promise
    settled (the first settlement counts). *)
Record network_test : Type := mk_test {
  nt_stdout : list string;
  nt_stdin : list string;
  nt_ended : bool;
  nt_result : option (result js_error string)
}.

Section network.
Context `{UrlApi} (EOL : string) (show_code : Z -> string) (input : list string).

(** [hostname] throws inside the listener when the first input is no URL. *)
Definition child_data (chunk : string) (t : network_test) : result js_error network_test :=
  let lines := base.filter (fun line => truthy line = true) (split_char (chr 10) chunk) in
  let t := mk_test (nt_stdout t ++ lines) (nt_stdin t) (nt_ended t) (nt_result t) in
  let t := if includes URLS_QUESTION chunk
           then mk_test (nt_stdout t) (nt_stdin t ++ [join "," input +:+ EOL]) (nt_ended t) (nt_result t)
           else t in
  t ← (if includes HOST_OR_IP_QUESTION chunk
       then match head input ≫= new_URL with
            | Some u => Ok (mk_test (nt_stdout t) (nt_stdin t ++ [u_hostname u +:+ EOL])
                              (nt_ended t) (nt_result t))
            | None => Err (TypeError "Invalid URL")
            end
       else Ok t);
  Ok (if includes COMPELED_MESSAGE chunk
      then mk_test (nt_stdout t) (nt_stdin t) true (nt_result t) else t).

Definition settle (r : result js_error string) (t : network_test) : network_test :=
  mk_test (nt_stdout t) (nt_stdin t) (nt_ended t) (nt_result t ??? Some r).

Definition child_step (t : network_test) (ev : child_event) : result js_error network_test :=
  match ev with
  | ChildData chunk => child_data chunk t
  | ChildError err => Ok (settle (Err err) t)
  | ChildClose code =>
      Ok (if negb (code === Some 0%Z) || (length (nt_stdout t) =? 0)%nat
          then settle (throw (dquote +:+ "Network Diagnostic" +:+ dquote +:+
                 " did not start successfully. Process exited with code " +:+
                 match code with Some code => show_code code | None => "null" end)) t
          else settle (Ok (processOutput (nt_stdout t))) t)
  end.

(** The child that is spawned, and what its events make of the test. *)
Definition testNetwork (normalize : string -> string) (p : Process) (type : string)
    (events : list child_event) : SpawnCall * result js_error network_test :=
  (spawn normalize p (Some ["configure"; "--" +:+ type]) (Some ["repeater"]) false,
   foldR child_step (mk_test [] [] false None) events).

(** The reply of [testingNetwork]: the output or the message of the error. *)
Definition testingNetwork (r : result js_error string) : result string string :=
  match r with Ok output => Ok output | Err e => Err (e_message e) end.
End network.

(** ** Reading /etc/os-release *)

(** Regular expressions with the constructs the detector uses, and their backtracking match: the
    alternatives are tried in order, a greedy loop goes on first and a lazy one stops first. The
    one group captures the text it consumed. *)
Inductive regex : Type :=
| RSet (p : ascii -> bool)
| RBegin
| RSeq (a b : regex)
| RAlt (a b : regex)
| ROpt (a : regex)
| RStar (a : regex)
| RLazy (a : regex)
| RGroup (a : regex).

Section backtracking.
Context {A : Type} (total : nat).

(** [k] is the rest of the match; an iteration of a loop that consumes nothing is refused, so
    that the length of the text bounds the iterations. *)
Fixpoint match_re (r : regex) (s : string) (group : option string)
    (k : string -> option string -> option A) : option A :=
  match r with
  | RSet p => match s with String c t => if p c then k t group else None | "" => None end
  | RBegin => if String.length s =? total then k s group else None
  | RSeq a b => match_re a s group (fun s group => match_re b s group k)
  | RAlt a b => match_re a s group k ??? match_re b s group k
  | ROpt a => match_re a s group k ??? k s group
  | RStar a =>
      (fix loop n s group :=
         match n with
         | 0 => k s group
         | S n => match_re a s group (fun s' group' =>
                    if String.length s' =? String.length s then None else loop n s' group')
                  ??? k s group
         end) (S (String.length s)) s group
  | RLazy a =>
      (fix loop n s group :=
         match n with
         | 0 => k s group
         | S n => k s group ???
                  match_re a s group (fun s' group' =>
                    if String.length s' =? String.length s then None else loop n s' group')
         end) (S (String.length s)) s group
  | RGroup a =>
      match_re a s group (fun s' _ =>
        k s' (Some (str_take (String.length s - String.length s') s)))
  end.
End backtracking.

(** [re.exec(s)?.[1]]: the leftmost match; [Some None] is a match whose group took no part. *)
Fixpoint exec_from (total : nat) (r : regex) (s : string) : option (option string) :=
  match_re total r s None (fun _ group => Some group) ???
  match s with "" => None | String _ t => exec_from total r t end.
Definition RegExp_exec (r : regex) (s : string) : option (option string) :=
  exec_from (String.length s) r s.

Definition RPlus (a : regex) : regex := RSeq a (RStar a).
Definition RChar (c : ascii) : regex := RSet (fun d => d === c).
Definition RNot (cs : list ascii) : regex := RSet (fun d => bool_decide (d ∉ cs)).
Definition RSpace : regex := RSet is_ws.
(** A literal under the flag [i]. *)
Fixpoint RText (s : string) (rest : regex) : regex :=
  match s with
  | "" => rest
  | String c t => RSeq (RSet (fun d => lower_char d === lower_char c)) (RText t rest)
  end.

Definition CR : ascii := chr 13.
Definition LF : ascii := chr 10.
(** White space, a quote [q], escaped quotes and other characters, and [q] again. *)
Definition quoted_value (q : ascii) : regex :=
  RSeq (RStar RSpace) (RSeq (RChar q)
    (RSeq (RStar (RAlt (RSeq (RChar backslash) (RChar q)) (RNot [q]))) (RChar q))).

(** The expression for a key: at the start of the text or after line breaks, the key, an equals sign
    or a colon, and in the group a quoted value or the rest of the line up to a comment. *)
Definition value_regex (key : string) : regex :=
  RSeq (RAlt RBegin (RPlus (RSet (fun c => bool_decide (c ∈ [CR; LF])))))
    (RText key
      (RSeq (RAlt (RSeq (RStar RSpace) (RSeq (RChar "=") (RLazy RSpace)))
                  (RSeq (RChar ":") (RSeq RSpace (RLazy RSpace))))
        (ROpt (RGroup (RAlt (quoted_value "'")
                        (RAlt (quoted_value quote)
                          (RAlt (quoted_value "`")
                            (RPlus (RNot ["#"%char; CR; LF]))))))))).

(** The final [replace]: a value that starts and ends with the same quote loses both. *)
Definition unquote (value : string) : string :=
  match value with
  | String q t =>
      if bool_decide (q ∈ ["'"%char; quote; "`"%char]) && endsWith (String q "") t
      then str_take (String.length t - 1) t else value
  | "" => value
  end.

(** [extractValue]: undefined when nothing matches; reading [replace] of a group that took no part
    throws. *)
Definition extractValue (osRelease key : string) : result js_error (option string) :=
  match RegExp_exec (value_regex key) osRelease with
  | None => Ok None
  | Some None => Err (TypeError "Cannot read properties of undefined (reading 'replace')")
  | Some (Some value) => Ok (Some (unquote value))
  end.

(** ** The runtime report: [DefaultRuntimeDetector] and [getRuntime] *)

Section runtime.
Context (platform release arch_os process_version : string).
(** [execSync] of a command; the packages arch and ci-info. *)
Context (execSync : string -> result js_error string) (arch_pkg : result js_error string).

Definition fallback : string := platform +:+ " (" +:+ release +:+ ")".

(** [try { ... } catch {}] around a computation that may or may not return. *)
Definition or_fallback (r : result js_error (option string)) : string :=
  match r with Ok (Some s) => s | _ => fallback end.

(** The trimmed output of a command. *)
Definition exec_trim (cmd : string) : result js_error string :=
  match execSync cmd with Ok out => Ok (trim out) | Err e => Err e end.

Definition detectMacosVersion : string :=
  or_fallback (
    name ← exec_trim "sw_vers -productName";
    version ← exec_trim "sw_vers -productVersion";
    build ← exec_trim "sw_vers -buildVersion";
    Ok (if truthy name && truthy version && truthy build
        then Some (name +:+ " " +:+ version +:+ " (" +:+ build +:+ ")") else None)).

(** [x.length] for an [x] that may be undefined; 0 is false. *)
Definition length_of (x : option string) : result js_error bool :=
  match x with
  | Some s => Ok (truthy s)
  | None => Err (TypeError "Cannot read properties of undefined (reading 'length')")
  end.
(** [extractValue(key1) || extractValue(key2)]. *)
Definition extract_or (osRelease key1 key2 : string) : result js_error (option string) :=
  x ← extractValue osRelease key1;
  if truthy_opt x then Ok x else extractValue osRelease key2.

Definition detectLinuxVersion : string :=
  or_fallback (
    osRelease ← exec_trim "cat /etc/os-release";
    name ← extract_or osRelease "NAME" "ID";
    version ← extract_or osRelease "VERSION" "VERSION_ID";
    prettyName ← extractValue osRelease "PRETTY_NAME";
    hasName ← length_of name;
    hasVersion ← (if (hasName : bool) then length_of version else Ok false);
    if andb hasName hasVersion then Ok (Some ((name ?? "") +:+ " " +:+ (version ?? "")))
    else
      hasPretty ← length_of prettyName;
      Ok (if (hasPretty : bool) then prettyName else None)).

Definition detectWindowsVersion : string :=
  or_fallback (
    version ← exec_trim "ver";
    Ok (if truthy version then Some version else None)).

Definition os : string :=
  if platform === "darwin" then detectMacosVersion
  else if platform === "linux" then detectLinuxVersion
  else if platform === "win32" then detectWindowsVersion
  else fallback.

Definition arch : string := match arch_pkg with Ok a => a | Err _ => arch_os end.

Record DeploymentRuntime : Type := mk_runtime {
  dr_version : string;
  dr_scriptsLoaded : bool;
  dr_localScriptsLoaded : bool;
  dr_ci : option string;
  dr_os : string;
  dr_arch : string;
  dr_docker : bool;
  dr_distribution : option string;
  dr_nodeVersion : string
}.

Definition getRuntime (version : string) (distribution ci docker_env : option string)
    (store : strmap VirtualScript) : DeploymentRuntime :=
  mk_runtime version (negb (size store =? 0)%nat) (negb (count LOCAL store =? 0)%nat)
    ci os arch (truthy_opt docker_env) distribution process_version.

End runtime.

(** An os-release of a distribution with versions, and one of a rolling release. *)
Definition debian_release : string :=
  "PRETTY_NAME=" +:+ dquote +:+ "Debian GNU/Linux 12" +:+ dquote +:+ newline +:+
  "NAME=" +:+ dquote +:+ "Debian GNU/Linux" +:+ dquote +:+ newline +:+
  "VERSION_ID=" +:+ dquote +:+ "12" +:+ dquote +:+ newline +:+ "ID=debian" +:+ newline.
Definition arch_release : string :=
  "NAME=" +:+ dquote +:+ "Arch Linux" +:+ dquote +:+ newline +:+
  "PRETTY_NAME=" +:+ dquote +:+ "Arch Linux" +:+ dquote +:+ newline +:+
  "ID=arch" +:+ newline +:+ "BUILD_ID=rolling" +:+ newline.

Example debian_detected :
  detectLinuxVersion "linux" "6.1" (fun _ => Ok debian_release) = "Debian GNU/Linux 12".
Proof. vm_compute. reflexivity. Qed.

(** The os-release of a rolling release has no version: the pretty name is never used, because reading
    the length of the missing version throws, and the kernel release is reported instead. *)
Theorem rolling_release_fallback platform release :
  detectLinuxVersion platform release (fun _ => Ok arch_release) = fallback platform release.
Proof.
  unfold detectLinuxVersion, exec_trim.
  remember (trim arch_release) as text eqn:Ht.
  assert (extract_or text "NAME" "ID" = Ok (Some "Arch Linux")) as Hn by (subst; by vm_compute).
  assert (extract_or text "VERSION" "VERSION_ID" = Ok None) as Hv by (subst; by vm_compute).
  assert (extractValue text "PRETTY_NAME" = Ok (Some "Arch Linux")) as Hp by (subst; by vm_compute).
  simpl. rewrite Hn. simpl. rewrite Hv. simpl. by rewrite Hp.
Qed.
