(* ===== verification/Serving.v ===== *)
(** * Serving a request event

    Composes the command hub with both executors, in the order in which container.ts registers them: what
    the cloud sees of a request event on an open session.  The scripts, the cached certificates
    and everything outside the program are arbitrary, so that the theorem speaks of an event among any
    others in flight: those meet it only through the scripts and the cache. *)
From S2P Require Import Prelude Helpers Scripts Request Certificates TryCerts.
From S2P Require Import HttpExecutor WsExecutor RepeaterServer CommandHub.

Section serving.
Context {UA : UrlApi} {LU : LegacyUrlApi} {CO : Codecs} (valid_regexp : string -> bool).
Context {Fn : Type} (runInContext : string -> result js_error (strmap Fn)).
Context (apply_handle : Fn -> RequestOptions -> result js_error RequestOptions).
Context (apply_onResponse : Fn -> Response -> result js_error (Headers * option ScriptResult)).
Context (transport : list CurlOp -> result js_error RawResponse -> Prop).
Context (regexp_test : string -> string -> bool) (sessions : WsClientOptions -> Session -> Prop).
Context {C} {CC : CertificatesCache C} {CL : CertificatesCacheLaws C}.
Context (readFile : string -> option Buffer) (extname basename : string -> string).
Context (secure_context : option string -> option Buffer -> bool).
Context (x : HttpRequestExecutor) (w : WsRequestExecutor) (store : strmap VirtualScript) (cache : C).

(** The executors the hub is given, by the protocol each declares. *)
Definition executors : list (string * (Request -> Response -> Prop)) :=
  [(HTTP, fun r resp => exists cache', execute valid_regexp runInContext apply_handle apply_onResponse transport
            readFile extname basename secure_context x store cache r resp cache');
   (WS, fun r resp => exists cache', ws_execute regexp_test sessions readFile extname basename secure_context
            w cache r resp cache')].

(** The repeater serves the event and the outcome of its handler may be [out]. *)
Definition serves : RequestOptions -> result js_error Response -> Prop := requestReceived valid_regexp executors.

(** An answer the cloud can use: of the protocol asked for, with a status or an error message. *)
Definition usable (protocol : string) (resp : Response) : Prop :=
  rs_protocol resp = protocol /\ (is_Some (rs_statusCode resp) \/ is_Some (rs_message resp)).

(** The right end of an event. *)
Definition answered (event : RequestOptions) (a : call_end Response) : Prop :=
  match new_Request valid_regexp event with
  | Ok r =>
      if bool_decide (rq_protocol r ∈ [HTTP; WS])
      then exists resp, a = Acknowledged resp /\ usable (rq_protocol r) resp
      else exists e, a = Logged e
  | Err e => a = Logged e
  end.

Hypothesis transfers_end : forall ops, exists raw, transport ops raw.
Hypothesis sessions_stop : sessions_end sessions.

Lemma executors_total p ex r : (p, ex) ∈ executors -> exists resp, ex r resp.
Proof.
  intros Hin. apply elem_of_cons in Hin as [Heq|Hin]; [|apply list_elem_of_singleton in Hin as Heq];
    injection Heq as -> ->.
  - destruct (execute_total valid_regexp runInContext apply_handle apply_onResponse transport readFile extname
      basename secure_context x store cache r transfers_end) as (resp & cache' & Hx). eauto.
  - destruct (ws_execute_total regexp_test sessions readFile extname basename secure_context w cache r
      sessions_stop) as (resp & cache' & Hx). eauto.
Qed.

Lemma executors_usable p ex r resp : (p, ex) ∈ executors -> ex r resp -> usable p resp.
Proof.
  intros Hin. apply elem_of_cons in Hin as [Heq|Hin]; [|apply list_elem_of_singleton in Hin as Heq];
    injection Heq as -> ->; intros [cache' Hx].
  - destruct (execute_shaped valid_regexp runInContext apply_handle apply_onResponse transport readFile extname
      basename secure_context x store cache r resp cache' Hx) as [[Hp Hs]|(Hp & _ & Hm & _)]; split; auto.
  - destruct (ws_execute_shaped regexp_test sessions readFile extname basename secure_context w cache r resp
      cache' Hx) as [Hp [[Hs _]|[_ Hm]]]; split; auto.
Qed.

(** A request event is answered: whatever scripts are loaded and certificates are cached, and
    however the target behaves as long as transfers and sessions end, the handler of an event
    settles; an event with valid options for HTTP or WebSocket is acknowledged with a response of
    that protocol that carries a status or an error message, and any other event is logged and not
    acknowledged. *)
Theorem request_answered event :
  (exists out, serves event out) /\
  forall out, serves event out -> answered event (request_event event out).
Proof.
  destruct (request_acknowledged valid_regexp executors event executors_total) as [Hex Hall].
  split; [done|]. intros out Hout. specialize (Hall out Hout). unfold answered.
  destruct (new_Request valid_regexp event) as [r|e]; [|done]. simpl in Hall.
  case_bool_decide; [|done]. destruct Hall as (ex & resp & Hin & Hresp & Hack).
  exists resp. split; [done|]. by eapply executors_usable.
Qed.
End serving.

Lemma request_answered_witness :
  exists out, serves (UA := one_host) (LU := sample_legacy) (CO := sample_codecs) (fun _ => true)
    (fun _ => Ok [("handle", tt)]) (fun _ o => Ok o) (fun _ r => Ok ([], None))
    (fun _ raw => raw = Ok (mk_raw 200 [1; 2]%N [] 1500)) (fun _ _ => false)
    (fun _ s => s = mk_session (Ok (101%Z, [])) (Ok tt) [Message "x"; TimerFired])
    (CC := DefaultCertificatesCache (H := one_host)) race_files race_ext id (fun _ _ => true)
    sample_executor (mk_ws_executor sample_http_options None None) [] [] sample_options out.
Proof.
  apply request_answered.
  - apply (DefaultCertificatesCache_laws (H0 := one_host_laws)).
  - intros ops. eexists. reflexivity.
  - intros opts. eexists. split; [reflexivity|]. right. right. simpl. right. left.
Defined.
