(* ===== verification/Inflight.v ===== *)
(** * Requests in flight

    A session serves many request events at once: [DefaultRepeaterServer] starts the handler of an
    event when it arrives and never waits for another.  The requests share the certificate cache
    (one [DefaultCertificatesCache] for both executors), the script store, which the cloud may
    replace meanwhile, and the options object whose [maxBodySize] a limits event overwrites.  The
    model is a transition system over the jobs: what runs synchronously on arrival is part of the
    arrival, each await is a step of its own, and steps of different jobs interleave freely.

    An attempt to send is one step, taken when the response arrives, with the executor as it is
    then: the only field that may have changed since the request left, [maxBodySize], is read
    after the response ([configureCurl_limits]). *)
From S2P Require Import Prelude Helpers Scripts Request Certificates TryCerts.
From S2P Require Import HttpExecutor WsExecutor RepeaterServer CommandHub Serving.

(** [this.requestExecutorOptions.maxBodySize = maxBodySize]. *)
Definition set_maxBodySize (n : number) (x : HttpRequestExecutor) : HttpRequestExecutor :=
  let o := x_options x in
  mk_executor
    (mk_options (o_timeout o) (o_proxyUrl o) (o_headers o) (o_certs o) (o_whitelistMimes o) (Some n)
       (o_maxContentLength o) (o_reuseConnection o) (o_proxyDomains o) (o_proxyDomainsBypass o) (o_kerberos o))
    (x_proxyDomains x) (x_proxyDomainsBypass x) (x_kerberosDomains x) (x_sharedMulti_max x).

Lemma configureCurl_limits {LU : LegacyUrlApi} {CO : Codecs} n x request :
  configureCurl (set_maxBodySize n x) request = configureCurl x request.
Proof. reflexivity. Qed.

Section inflight.
Context {UA : UrlApi} {LU : LegacyUrlApi} {CO : Codecs} (valid_regexp : string -> bool).
Context {Fn : Type} (runInContext : string -> result js_error (strmap Fn)).
Context (apply_handle : Fn -> RequestOptions -> result js_error RequestOptions).
Context (apply_onResponse : Fn -> Response -> result js_error (Headers * option ScriptResult)).
Context (transport : list CurlOp -> result js_error RawResponse -> Prop).
Context (regexp_test : string -> string -> bool) (sessions : WsClientOptions -> Session -> Prop).
Context {C} {CC : CertificatesCache C} {CL : CertificatesCacheLaws C}.
Context (readFile : string -> option Buffer) (extname basename : string -> string).
Context (secure_context : option string -> option Buffer -> bool).
Context (syntax_error : string -> option js_error) (w : WsRequestExecutor).

(** ** Jobs *)

(** Where the handler of an event is: its script runs (with what it will give), the request is on
    its way, candidate certificates are being tried, or the answer is out; a job whose answer
    is out may still have tasks of other candidates running. *)
Inductive stage : Type :=
| Scripting (out : result js_error Request)
| Sending (protocol : string) (request : Request)
| Trying (protocol : string) (st : @try_state C)
| Draining (protocol : string) (st : @try_state C)
| Finished.

Record job : Type := mk_job {
  jb_event : RequestOptions;
  jb_stage : stage;
  jb_acks : list (call_end Response)
}.

Record flight : Type := mk_flight {
  fl_executor : HttpRequestExecutor;
  fl_store : strmap VirtualScript;
  fl_cache : C;
  fl_jobs : list job
}.

(** The two executors by protocol. *)
Definition exec_of (x : HttpRequestExecutor) (store : strmap VirtualScript) (protocol : string) :
    Request -> result js_error Response -> Prop :=
  if protocol === HTTP then exec runInContext apply_onResponse transport x store
  else ws_exec regexp_test sessions w.
Definition certs_of (x : HttpRequestExecutor) (protocol : string) : option (list Cert) :=
  if protocol === HTTP then o_certs (x_options x) else o_certs (w_options w).
Definition answer_of (protocol : string) (out : result js_error Response) : Response :=
  if protocol === HTTP then response_of out else ws_response_of out.

(** What the cloud is sent for the event: the reply built from the response. *)
Definition ack (event : RequestOptions) (protocol : string) (out : result js_error Response) : call_end Response :=
  request_event event (Ok (reply_of (answer_of protocol out))).

(** [execute] from the choice of the certificates to its first await. *)
Definition resolve_job (x : HttpRequestExecutor) (cache : C) (event : RequestOptions) (acks : list (call_end Response))
    (protocol : string) (request : Request) : job :=
  match (match certs_of x protocol with Some certs => resolve request certs cache | None => Ok [] end) with
  | Err e => mk_job event Finished (acks ++ [ack event protocol (Err e)])
  | Ok [] => mk_job event (Sending protocol request) acks
  | Ok targetCerts => mk_job event (Trying protocol (try_init request targetCerts cache)) acks
  end.

(** The synchronous part of the handler of an event. *)
Definition new_job (x : HttpRequestExecutor) (store : strmap VirtualScript) (cache : C)
    (event : RequestOptions) : job :=
  match new_Request valid_regexp event with
  | Err e => mk_job event Finished [request_event event (Err e)]
  | Ok request =>
      if rq_protocol request === HTTP then
        let request := match o_headers (x_options x) with
                       | Some headers => setHeaders request headers | None => request end in
        mk_job event (Scripting (transformScript valid_regexp runInContext apply_handle store request)) []
      else if rq_protocol request === WS then resolve_job x cache event [] WS request
      else mk_job event Finished
             [request_event event (throw ("Unsupported protocol " +:+ dquote +:+ rq_protocol request +:+ dquote))]
  end.

(** ** Steps *)

(** What the cloud may send. *)
Inductive cloud_step : flight -> flight -> Prop :=
| cloud_request s event :
    cloud_step s (mk_flight (fl_executor s) (fl_store s) (fl_cache s)
      (fl_jobs s ++ [new_job (fl_executor s) (fl_store s) (fl_cache s) event]))
| cloud_scripts s payload :
    cloud_step s (mk_flight (fl_executor s) (compileScripts syntax_error payload (fl_store s)).2
      (fl_cache s) (fl_jobs s))
| cloud_limits s n :
    cloud_step s (mk_flight (set_maxBodySize n (fl_executor s)) (fl_store s) (fl_cache s) (fl_jobs s)).

(** One continuation of a job, and the cache after it. *)
Inductive job_step (x : HttpRequestExecutor) (store : strmap VirtualScript) (cache : C) : job -> job -> C -> Prop :=
| job_scripted event request acks :
    job_step x store cache (mk_job event (Scripting (Ok request)) acks)
      (resolve_job x cache event acks HTTP request) cache
| job_script_failed event e acks :
    job_step x store cache (mk_job event (Scripting (Err e)) acks)
      (mk_job event Finished (acks ++ [ack event HTTP (Err e)])) cache
| job_sent event protocol request out acks :
    exec_of x store protocol request out ->
    job_step x store cache (mk_job event (Sending protocol request) acks)
      (mk_job event Finished (acks ++ [ack event protocol out])) cache
| job_try event protocol st st' acks :
    try_step readFile extname basename secure_context (exec_of x store protocol) (with_cache cache st) st' ->
    job_step x store cache (mk_job event (Trying protocol st) acks)
      (mk_job event (Trying protocol st') acks) (ts_cache st')
| job_settle event protocol st out acks :
    ts_result st = Some out ->
    job_step x store cache (mk_job event (Trying protocol st) acks)
      (mk_job event (Draining protocol st) (acks ++ [ack event protocol out])) cache
| job_drain event protocol st st' acks :
    try_step readFile extname basename secure_context (exec_of x store protocol) (with_cache cache st) st' ->
    job_step x store cache (mk_job event (Draining protocol st) acks)
      (mk_job event (Draining protocol st') acks) (ts_cache st').

Inductive target_step : flight -> flight -> Prop :=
| one_job s i j j' cache' :
    fl_jobs s !! i = Some j -> job_step (fl_executor s) (fl_store s) (fl_cache s) j j' cache' ->
    target_step s (mk_flight (fl_executor s) (fl_store s) cache' (<[i := j']> (fl_jobs s))).

Definition flight_step (s s' : flight) : Prop := cloud_step s s' \/ target_step s s'.

(** ** Every event is answered once *)

(** The outcomes an attempt may have at any time of the session. *)
Definition any_exec (protocol : string) (sent : Request) (out : result js_error Response) : Prop :=
  exists x store, exec_of x store protocol sent out.

Definition valid_event (event : RequestOptions) (protocol : string) : Prop :=
  exists r, new_Request valid_regexp event = Ok r /\ rq_protocol r = protocol /\ protocol ∈ [HTTP; WS].

Definition trying_ok (protocol : string) (st : @try_state C) : Prop :=
  exists request certs, certs <> [] /\ local_inv (any_exec protocol) request certs st.

Definition job_ok (j : job) : Prop :=
  match jb_stage j with
  | Scripting _ => jb_acks j = [] /\ valid_event (jb_event j) HTTP
  | Sending p _ => jb_acks j = [] /\ valid_event (jb_event j) p
  | Trying p st => jb_acks j = [] /\ valid_event (jb_event j) p /\ trying_ok p st
  | Draining p st => (exists a, jb_acks j = [a] /\ answered valid_regexp (jb_event j) a) /\ trying_ok p st
  | Finished => exists a, jb_acks j = [a] /\ answered valid_regexp (jb_event j) a
  end.

Lemma try_step_any x store protocol st st' :
  try_step readFile extname basename secure_context (exec_of x store protocol) st st' ->
  try_step readFile extname basename secure_context (any_exec protocol) st st'.
Proof.
  destruct 1 as [st i cert Hi|st i cert sent out Hi Hx]; [by apply try_read|].
  eapply try_respond; [done|]. by exists x, store.
Qed.

Lemma trying_ok_step x store cache protocol st st' :
  try_step readFile extname basename secure_context (exec_of x store protocol) (with_cache cache st) st' ->
  trying_ok protocol st -> trying_ok protocol st'.
Proof.
  intros Hs (request & certs & Hne & Hl). exists request, certs. split; [done|].
  eapply local_inv_step; [by eapply try_step_any|by apply local_inv_cache].
Qed.

(** Any outcome of an attempt, and any error, is a usable answer. *)
Lemma answer_usable protocol out :
  protocol ∈ [HTTP; WS] -> (forall resp, out = Ok resp -> exists sent, any_exec protocol sent out) ->
  usable protocol (answer_of protocol out).
Proof.
  intros Hin Hout. unfold answer_of, any_exec, exec_of in *.
  apply elem_of_cons in Hin as [->|Hin]; [|apply list_elem_of_singleton in Hin as ->]; simpl in *.
  - destruct out as [resp|e]; [|split; [done|right; by eexists]].
    destruct (Hout resp eq_refl) as (sent & x & store & Hx). apply exec_target in Hx as [? ?]. split; auto.
  - destruct out as [resp|e]; [|split; [done|right; by eexists]].
    destruct (Hout resp eq_refl) as (sent & _ & _ & Hx). apply ws_exec_shape in Hx as [? [[? _]|[_ ?]]]; split; auto.
Qed.

Lemma ack_answered event protocol out :
  valid_event event protocol -> (forall resp, out = Ok resp -> exists sent, any_exec protocol sent out) ->
  answered valid_regexp event (ack event protocol out).
Proof.
  intros (r & Hr & Hp & Hin) Hout. unfold answered. rewrite Hr, Hp, bool_decide_true by done.
  eexists. split; [reflexivity|]. pose proof (answer_usable _ _ Hin Hout) as [H1 H2]. by split.
Qed.

Lemma resolve_job_ok x cache event protocol request :
  valid_event event protocol -> job_ok (resolve_job x cache event [] protocol request).
Proof.
  intros Hv. unfold resolve_job. destruct (match certs_of x protocol with Some _ => _ | None => _ end) as [[|c l]|e].
  - by split.
  - split_and!; [done..|]. exists request, (c :: l). split; [done|]. by apply local_inv_init.
  - exists (ack event protocol (Err e)). split; [done|]. by apply ack_answered.
Qed.

Lemma new_job_ok x store cache event : job_ok (new_job x store cache event).
Proof.
  unfold new_job. destruct (new_Request valid_regexp event) as [r|e] eqn:Hr.
  - destruct (eqbP (rq_protocol r) HTTP) as [Hp|Hp].
    + split; [done|]. exists r. split_and!; [done..|]. set_solver.
    + destruct (eqbP (rq_protocol r) WS) as [Hw|Hw].
      * apply resolve_job_ok. exists r. split_and!; [done..|]. set_solver.
      * eexists. split; [done|]. unfold answered. simpl. rewrite Hr, bool_decide_false by set_solver. by eexists.
  - eexists. split; [done|]. unfold answered. simpl. by rewrite Hr.
Qed.

Lemma job_step_ok x store cache j j' cache' : job_step x store cache j j' cache' -> job_ok j -> job_ok j'.
Proof.
  destruct 1 as [event r acks|event e acks|event p r out acks Hx|event p st st' acks Hs|event p st out acks Hr|event p st st' acks Hs];
    unfold job_ok; simpl.
  - intros [-> Hv]. by apply resolve_job_ok.
  - intros [-> Hv]. eexists. split; [done|]. by apply ack_answered.
  - intros [-> Hv]. eexists. split; [done|]. apply ack_answered; [done|]. intros resp _. exists r, x, store. done.
  - intros (-> & Hv & Ht). eauto using trying_ok_step.
  - intros (-> & Hv & Ht). split; [|done]. eexists. split; [done|]. apply ack_answered; [done|]. intros resp ->.
    destruct Ht as (request & certs & _ & [_ _ Htasks _ _ Hd]). destruct (Hd resp Hr) as (i & cert & sent & Hi).
    destruct (Htasks i _ Hi) as [_ Hx]. eauto.
  - intros [Ha Ht]. split; [done|]. by eapply trying_ok_step.
Qed.

Definition flight_ok (s : flight) : Prop := forall i j, fl_jobs s !! i = Some j -> job_ok j.

Lemma flight_step_ok s s' : flight_step s s' -> flight_ok s -> flight_ok s'.
Proof.
  intros [Hs|Hs] Hok i j Hj.
  - destruct Hs as [s event|s payload|s n]; simpl in *; [|by eapply Hok..].
    apply lookup_app_Some in Hj as [Hj|[_ Hj]]; [by eapply Hok|].
    apply list_lookup_singleton_Some in Hj as [_ <-]. apply new_job_ok.
  - destruct Hs as [s k j0 j1 cache' Hk Hs]. simpl in Hj.
    apply list_lookup_insert_Some in Hj as [(-> & -> & _)|[_ Hj]]; [|by eapply Hok].
    eapply job_step_ok; [done|]. by eapply Hok.
Qed.

(** A session without requests in flight. *)
Definition idle (x : HttpRequestExecutor) (store : strmap VirtualScript) (cache : C) : flight :=
  mk_flight x store cache [].

Lemma reachable_flight_ok x store cache s : rtc flight_step (idle x store cache) s -> flight_ok s.
Proof.
  intros Hr. remember (idle x store cache) as s0 eqn:H0. assert (flight_ok s0) as Hok by (subst; by intros i j).
  clear H0. induction Hr; eauto using flight_step_ok.
Qed.

Lemma job_ok_acks j :
  job_ok j -> jb_acks j = [] \/ exists a, jb_acks j = [a] /\ answered valid_regexp (jb_event j) a.
Proof. unfold job_ok. case_match; naive_solver. Qed.

(** ** The work in flight ends *)

Definition bound (x : HttpRequestExecutor) : nat := 2 * max 1 (length (o_certs (x_options x) ?? [])).
Definition weight (x : HttpRequestExecutor) (j : job) : nat :=
  match jb_stage j with
  | Scripting _ => bound x + 2
  | Sending _ _ => 1
  | Trying _ st => S (try_measure st)
  | Draining _ st => try_measure st
  | Finished => 0
  end.

Lemma resolve_length request certs (cache : C) l :
  resolve request certs cache = Ok l -> length l <= max 1 (length certs).
Proof.
  unfold resolve. intros Hr. inv_bind Hr. destruct a as [cert|]; [simplify_eq; simpl; lia|].
  inv_bind Hr. simplify_eq. pose proof (length_filter (fun cert =>
    matchHostnameAndPort (u_hostname a) (portFromURL a) cert = true) certs). lia.
Qed.

Lemma resolve_job_weight x cache event acks request :
  weight x (resolve_job x cache event acks HTTP request) <= bound x + 1.
Proof.
  unfold resolve_job, certs_of, bound. simpl. destruct (o_certs (x_options x)) as [certs|];
    [|unfold weight; simpl; lia].
  destruct (resolve request certs cache) as [[|c l]|e] eqn:Hr; unfold weight; simpl; try lia.
  apply resolve_length in Hr. rewrite measure_init. simpl in *. lia.
Qed.

Lemma job_step_weight x store cache j j' cache' : job_step x store cache j j' cache' -> weight x j' < weight x j.
Proof.
  destruct 1 as [event r acks|event e acks|event p r out acks Hx|event p st st' acks Hs|event p st out acks Hr|event p st st' acks Hs].
  1: { pose proof (resolve_job_weight x cache event acks r).
       change (weight x (mk_job event (Scripting (Ok r)) acks)) with (bound x + 2). lia. }
  all: unfold weight; simpl; try lia; apply try_step_measure in Hs; unfold try_measure in *; simpl in *; lia.
Qed.

Lemma target_step_terminates s : sn target_step s.
Proof.
  remember (sum_list_with (weight (fl_executor s)) (fl_jobs s)) as n eqn:Hn. revert s Hn.
  induction (lt_wf n) as [n _ IH]. intros s ->. constructor. intros s' Hs.
  eapply IH; [|reflexivity]. destruct Hs as [s i j j' cache' Hj Hs]. simpl.
  pose proof (sum_list_with_insert (weight (fl_executor s)) _ _ _ j' Hj).
  apply job_step_weight in Hs. lia.
Qed.

(** ** Answers are final *)

Definition extends (j j' : job) : Prop :=
  jb_event j' = jb_event j /\ exists more, jb_acks j' = jb_acks j ++ more.

Lemma resolve_job_extends x cache event acks protocol request :
  let j := resolve_job x cache event acks protocol request in
  jb_event j = event /\ exists more, jb_acks j = acks ++ more.
Proof. unfold resolve_job. repeat case_match; simpl; split; try done; first [by eexists|exists []; by rewrite app_nil_r]. Qed.

Lemma new_job_event x store cache event : jb_event (new_job x store cache event) = event.
Proof.
  unfold new_job. destruct (new_Request valid_regexp event); [|done].
  destruct (_ === HTTP); [done|]. destruct (_ === WS); [|done]. apply (resolve_job_extends x cache event []).
Qed.

Lemma job_step_extends x store cache j j' cache' : job_step x store cache j j' cache' -> extends j j'.
Proof.
  destruct 1; unfold extends; simpl; [apply resolve_job_extends|..]; split; try done;
    first [by eexists|exists []; by rewrite app_nil_r].
Qed.

Lemma flight_step_extends s s' i j :
  flight_step s s' -> fl_jobs s !! i = Some j -> exists j', fl_jobs s' !! i = Some j' /\ extends j j'.
Proof.
  assert (extends j j) as Hrefl by (split; [done|]; exists []; by rewrite app_nil_r).
  intros [Hs|Hs] Hj.
  - destruct Hs as [s event|s payload|s n]; simpl; [|by eauto..]. exists j. split; [|done].
    by apply lookup_app_l_Some.
  - destruct Hs as [s k j0 j1 cache' Hk Hs]. simpl. destruct (decide (k = i)) as [->|Hne].
    + exists j1. rewrite list_lookup_insert_eq by (by eapply lookup_lt_Some). split; [done|].
      simplify_eq. by eapply job_step_extends.
    + exists j. by rewrite list_lookup_insert_ne.
Qed.

Lemma flight_extends s s' i j :
  rtc flight_step s s' -> fl_jobs s !! i = Some j -> exists j', fl_jobs s' !! i = Some j' /\ extends j j'.
Proof.
  intros Hr. revert j. induction Hr as [s|s1 s2 s3 Hs _ IH]; intros j Hj.
  - exists j. split; [done|]. split; [done|]. exists []. by rewrite app_nil_r.
  - destruct (flight_step_extends _ _ _ _ Hs Hj) as (j2 & Hj2 & He & more & Ha).
    destruct (IH j2 Hj2) as (j3 & Hj3 & He3 & more3 & Ha3). exists j3. split; [done|]. split; [congruence|].
    exists (more ++ more3). by rewrite Ha3, Ha, <- (assoc_L (++)).
Qed.


(** ** The shared cache *)

(** The certificate is registered for the host and port of the request. *)
Definition configured (x : HttpRequestExecutor) (r : Request) (cert : Cert) : Prop :=
  exists protocol certs u, certs_of x protocol = Some certs /\ cert ∈ certs /\
    new_URL (rq_url r) = Some u /\ matchHostnameAndPort (u_hostname u) (portFromURL u) cert = true.

(** The race of candidates of a job, over or not. *)
Definition racing (j : job) : option (@try_state C) :=
  match jb_stage j with Trying _ st | Draining _ st => Some st | _ => None end.

(** Some task of some request got a response from the endpoint of [r] for this certificate. *)
Definition proven (s : flight) (r : Request) (cert : Cert) : Prop :=
  exists i j st k sent resp, fl_jobs s !! i = Some j /\ racing j = Some st /\
    ts_tasks st !! k = Some (cert, Settled sent (Ok resp)) /\ same_endpoint sent r.

Definition trusted (x0 : HttpRequestExecutor) (cache0 : C) (r : Request) (cert : Cert) : Prop :=
  cache_get r cache0 = Ok (Some cert) \/ configured x0 r cert.

Record cache_ok (x0 : HttpRequestExecutor) (cache0 : C) (s : flight) : Prop := {
  ck_certs : o_certs (x_options (fl_executor s)) = o_certs (x_options x0);
  ck_tasks : forall i j st cert, fl_jobs s !! i = Some j -> racing j = Some st ->
    cert ∈ (ts_tasks st).*1 -> trusted x0 cache0 (ts_request st) cert;
  ck_sound : forall r cert, cache_get r (fl_cache s) = Ok (Some cert) ->
    cache_get r cache0 = Ok (Some cert) \/ configured x0 r cert /\ proven s r cert
}.

Lemma configured_endpoint x r r' cert : same_endpoint r r' -> configured x r cert -> configured x r' cert.
Proof.
  intros (u1 & u2 & H1 & H2 & Hh & Hp) (p & certs & u & Hc & Hin & Hu & Hm). exists p, certs, u2.
  split_and!; [done..|]. simplify_eq. by rewrite <- Hh, <- Hp.
Qed.

Lemma trusted_endpoint x0 cache0 r r' cert :
  same_endpoint r r' -> trusted x0 cache0 r cert -> trusted x0 cache0 r' cert.
Proof.
  intros Hs [Hc|Hc]; [left; by rewrite <- (cache_get_endpoint r r')|right; by eapply configured_endpoint].
Qed.

Lemma same_endpoint_target r1 r2 r : target r1 = target r2 -> same_endpoint r2 r -> same_endpoint r1 r.
Proof. unfold target, same_endpoint. intros Ht Hs. injection Ht as _ _ Hurl _ _ _. by rewrite Hurl. Qed.

Lemma trusted_url x0 cache0 r cert : trusted x0 cache0 r cert -> is_Some (new_URL (rq_url r)).
Proof. intros [Hc|(? & ? & u & _ & _ & Hu & _)]; [by eapply cache_get_url|by exists u]. Qed.

(** Adding never replaces. *)
Lemma cache_add_keeps r0 cert0 (c c' : C) r cert :
  cache_add r0 cert0 c = Ok c' -> cache_get r c = Ok (Some cert) -> cache_get r c' = Ok (Some cert).
Proof.
  intros Ha Hg. destruct (decide (same_endpoint r0 r)) as [Hs|Hs].
  - rewrite <- (cache_get_endpoint r0 r) in Hg |- * by done.
    destruct (cache_get_add _ _ _ _ Ha) as (old & Hold & ->). rewrite Hg in Hold. by simplify_eq.
  - rewrite (cache_get_add_other _ _ _ _ Ha); [done| |done]. by eapply cache_get_url.
Qed.

Lemma job_step_cache x store cache j j' cache' :
  job_step x store cache j j' cache' -> cache' = cache \/ exists r cert, cache_add r cert cache = Ok cache'.
Proof.
  destruct 1 as [| | |event p st st' acks Hs| |event p st st' acks Hs]; try by left.
  all: apply try_step_cache in Hs as [->|(i & cert & sent & resp & _ & _ & Ha)]; [by left|right; eauto].
Qed.

Lemma flight_step_keeps s s' r cert :
  flight_step s s' -> cache_get r (fl_cache s) = Ok (Some cert) -> cache_get r (fl_cache s') = Ok (Some cert).
Proof.
  intros [Hs|Hs] Hg; [by destruct Hs|]. destruct Hs as [s i j j' cache' Hj Hs]. simpl.
  apply job_step_cache in Hs as [->|(r0 & cert0 & Ha)]; [done|]. by eapply cache_add_keeps.
Qed.

Lemma resolve_trusted x0 cache0 s r p certs l :
  cache_ok x0 cache0 s -> certs_of x0 p = Some certs -> resolve r certs (fl_cache s) = Ok l ->
  forall cert, cert ∈ l -> trusted x0 cache0 r cert.
Proof.
  intros Hok Hc Hr cert Hin. unfold resolve in Hr. inv_bind Hr. destruct a as [cached|].
  - simplify_eq. apply list_elem_of_singleton in Hin as ->.
    destruct (ck_sound _ _ _ Hok _ _ Ha) as [?|[? _]]; [by left|by right].
  - inv_bind Hr. simplify_eq. apply list_elem_of_filter in Hin as [Hm Hin]. right.
    unfold parse_URL in Ha0. destruct (new_URL (rq_url r)) as [u|] eqn:Hu; simplify_eq. by exists p, certs, a.
Qed.

(** What a continuation of a job does to its race. *)
Lemma job_step_race x store cache j j' cache' :
  job_step x store cache j j' cache' ->
  (racing j' = racing j /\ cache' = cache) \/
  (racing j = None /\ cache' = cache /\ exists event acks request, j' = resolve_job x cache event acks HTTP request) \/
  (exists protocol st st', racing j = Some st /\ racing j' = Some st' /\ cache' = ts_cache st' /\
     try_step readFile extname basename secure_context (exec_of x store protocol) (with_cache cache st) st').
Proof. destruct 1; try (left; by split); right; [left|right..]; eauto 10. Qed.

Lemma proven_step s s' r cert : flight_step s s' -> proven s r cert -> proven s' r cert.
Proof.
  intros Hs (i & j & st & k & sent & resp & Hj & Hst & Hk & He). destruct Hs as [Hs|Hs].
  - exists i, j, st, k, sent, resp. split_and!; try done.
    destruct Hs; simpl; try done. by apply lookup_app_l_Some.
  - destruct Hs as [s m j0 j1 cache' Hm Hs]. destruct (decide (m = i)) as [->|Hne].
    2: { exists i, j, st, k, sent, resp. simpl. by rewrite list_lookup_insert_ne. }
    simplify_eq. apply job_step_race in Hs.
    assert (exists st', racing j1 = Some st' /\ ts_tasks st' !! k = Some (cert, Settled sent (Ok resp)))
      as (st' & Hr' & Hk').
    { destruct Hs as [[Heq _]|[(Heq & _)|(p & st0 & st' & Heq & Heq' & _ & Hs)]]; [exists st; by rewrite Heq|congruence|].
      simplify_eq. apply try_step_frame in Hs as (_ & _ & Hkeep). exists st'. split; [done|]. by apply Hkeep. }
    exists i, j1, st', k, sent, resp. simpl.
    by rewrite list_lookup_insert_eq by (by eapply lookup_lt_Some).
Qed.

Lemma resolve_job_trusted x0 cache0 s event acks protocol request st cert :
  cache_ok x0 cache0 s ->
  racing (resolve_job (fl_executor s) (fl_cache s) event acks protocol request) = Some st ->
  cert ∈ (ts_tasks st).*1 -> trusted x0 cache0 (ts_request st) cert.
Proof.
  intros Hok. unfold resolve_job.
  assert (certs_of (fl_executor s) protocol = certs_of x0 protocol) as ->.
  { unfold certs_of. by rewrite (ck_certs _ _ _ Hok). }
  destruct (certs_of x0 protocol) as [certs|] eqn:Hc; [|done].
  destruct (resolve request certs (fl_cache s)) as [[|c l]|e] eqn:Hr; try done.
  intros [= <-] Hin. apply (resolve_trusted _ _ _ _ _ _ _ Hok Hc Hr).
  unfold try_init in Hin. simpl in Hin. by rewrite <- list_fmap_compose, list_fmap_id in Hin.
Qed.

Lemma new_job_trusted x0 cache0 s event st cert :
  cache_ok x0 cache0 s -> racing (new_job (fl_executor s) (fl_store s) (fl_cache s) event) = Some st ->
  cert ∈ (ts_tasks st).*1 -> trusted x0 cache0 (ts_request st) cert.
Proof.
  intros Hok. unfold new_job. destruct (new_Request valid_regexp event); [|done].
  destruct (_ === HTTP); [done|]. destruct (_ === WS); [|done]. by apply resolve_job_trusted.
Qed.

Lemma trusted_target x0 cache0 r r' cert :
  target r = target r' -> trusted x0 cache0 r cert -> trusted x0 cache0 r' cert.
Proof. intros Ht Hc. apply trusted_endpoint with r; [|done]. eapply target_endpoint; [done|by eapply trusted_url]. Qed.

(** The races of a state after a step hold only trusted candidates. *)
Lemma cache_ok_tasks x0 cache0 s s' i j st cert :
  flight_step s s' -> cache_ok x0 cache0 s -> fl_jobs s' !! i = Some j -> racing j = Some st ->
  cert ∈ (ts_tasks st).*1 -> trusted x0 cache0 (ts_request st) cert.
Proof.
  intros Hs Hok Hj Hst Hin. pose proof (ck_tasks _ _ _ Hok) as Htasks. destruct Hs as [Hs|Hs].
  - destruct Hs as [s event|s payload|s n]; simpl in Hj; [|by eauto..].
    apply lookup_app_Some in Hj as [Hj|[_ Hj]]; [by eauto|].
    apply list_lookup_singleton_Some in Hj as [_ <-]. by eapply new_job_trusted.
  - destruct Hs as [s k j0 j1 cache' Hk Hs]. simpl in Hj.
    apply list_lookup_insert_Some in Hj as [(-> & -> & _)|[_ Hj]]; [|by eauto].
    apply job_step_race in Hs as [[Heq _]|[(_ & _ & event & acks & r & ->)|(p & st0 & st1 & Heq & Heq' & _ & Hs)]].
    + rewrite Heq in Hst. by eauto.
    + by eapply resolve_job_trusted.
    + simplify_eq. apply try_step_frame in Hs as (Ht & Hc & _). rewrite Hc in Hin.
      apply trusted_target with (ts_request st0); [by symmetry|]. by eauto.
Qed.

(** What a job records was proven by the step that recorded it. *)
Lemma job_step_records x0 cache0 s i j j' cache' r cert :
  cache_ok x0 cache0 s -> flight_ok s -> fl_jobs s !! i = Some j ->
  job_step (fl_executor s) (fl_store s) (fl_cache s) j j' cache' ->
  cache_get r cache' = Ok (Some cert) ->
  cache_get r (fl_cache s) = Ok (Some cert) \/ trusted x0 cache0 r cert /\
    exists st' k sent resp, racing j' = Some st' /\ ts_tasks st' !! k = Some (cert, Settled sent (Ok resp)) /\
      same_endpoint sent r.
Proof.
  intros Hok Hfl Hj Hs Hg. specialize (Hfl i j Hj).
  apply job_step_race in Hs as [[_ ->]|[(_ & -> & _)|(p & st & st' & Heq & Heq' & -> & Hs)]]; [by left..|].
  apply try_step_cache in Hs as [Hc|(k & cert0 & sent & resp & Hk & Hk' & Ha)]; [left; by rewrite Hc in Hg|].
  simpl in Hk, Ha. destruct (decide (same_endpoint (ts_request st) r)) as [He|He].
  2: { left. by rewrite (cache_get_add_other _ _ _ _ Ha) in Hg by first [done|by eapply cache_get_url]. }
  rewrite <- (cache_get_endpoint _ _ (ts_cache st') He) in Hg.
  destruct (cache_get_add _ _ _ _ Ha) as (old & Hold & Hnew). rewrite Hnew in Hg.
  destruct old as [c|]; simpl in Hg; simplify_eq.
  { left. by rewrite <- (cache_get_endpoint _ _ (fl_cache s) He). }
  right. split.
  - apply trusted_endpoint with (ts_request st); [done|]. apply (ck_tasks _ _ _ Hok _ _ _ _ Hj Heq).
    apply list_elem_of_lookup_2 with k. by rewrite list_lookup_fmap, Hk.
  - exists st', k, sent, resp. split_and!; [done..|]. apply same_endpoint_target with (ts_request st); [|done].
    assert (exists p, trying_ok p st) as (p0 & request & certs & _ & Hl).
    { unfold job_ok in Hfl. unfold racing in Heq. destruct (jb_stage j); naive_solver. }
    rewrite (li_target _ _ _ _ Hl). apply (li_tasks _ _ _ _ Hl k _ Hk).
Qed.

Lemma cache_ok_step x0 cache0 s s' :
  flight_step s s' -> flight_ok s -> cache_ok x0 cache0 s -> cache_ok x0 cache0 s'.
Proof.
  intros Hs Hfl Hok. split.
  - rewrite <- (ck_certs _ _ _ Hok). by destruct Hs as [[]|[]].
  - intros. by eapply cache_ok_tasks.
  - intros r cert Hg.
    assert (cache_get r (fl_cache s) = Ok (Some cert) \/ trusted x0 cache0 r cert /\ proven s' r cert) as [Ho|[[Ht|Ht] Hp]];
      [|destruct (ck_sound _ _ _ Hok _ _ Ho) as [?|[? ?]]; eauto using proven_step|by left|by right].
    destruct Hs as [Hs|Hs]; [left; by destruct Hs|]. destruct Hs as [s i j j' cache' Hj Hs].
    destruct (job_step_records _ _ _ _ _ _ _ _ _ Hok Hfl Hj Hs Hg) as [?|(Ht & st' & k & sent & resp & Hr & Hk & He)];
      [by left|right; split; [done|]].
    exists i, j', st', k, sent, resp. simpl. by rewrite list_lookup_insert_eq by (by eapply lookup_lt_Some).
Qed.

Lemma reachable_cache_ok x store cache s : rtc flight_step (idle x store cache) s -> cache_ok x cache s.
Proof.
  intros Hr. remember (idle x store cache) as s0 eqn:H0.
  assert (flight_ok s0) as Hfl by (subst; by intros i j).
  assert (cache_ok x cache s0) as Hok by (subst; split; [done|by intros i j st cert Hj|by left]).
  clear H0. induction Hr; eauto using flight_step_ok, cache_ok_step.
Qed.

(** C4: The shared cache never lies and never forgets: whatever the interleaving of the requests in
    flight, a certificate the cache serves for a request was either there before the session or
    is registered for the host and port of that request and got a response from there in a task
    of some request, and once served it is served for the rest of the session. *)
Theorem cached_certificate_sound x store cache s s' r cert :
  rtc flight_step (idle x store cache) s -> rtc flight_step s s' ->
  cache_get r (fl_cache s) = Ok (Some cert) ->
  cache_get r (fl_cache s') = Ok (Some cert) /\
  (cache_get r cache = Ok (Some cert) \/ configured x r cert /\ proven s r cert).
Proof.
  intros Hr Hr' Hg. split; [|by apply (ck_sound _ _ _ (reachable_cache_ok _ _ _ _ Hr))].
  revert Hg. clear Hr. induction Hr'; eauto using flight_step_keeps.
Qed.

Hypothesis transfers_end : forall ops, exists raw, transport ops raw.
Hypothesis sessions_stop : sessions_end sessions.

Lemma exec_of_total x store protocol request : exists out, exec_of x store protocol request out.
Proof.
  unfold exec_of. destruct (protocol === HTTP); [by apply exec_total|by apply ws_exec_total].
Qed.

(** A job that has not answered can go on. *)
Lemma job_progress x store cache j : job_ok j -> jb_acks j = [] -> exists j' cache', job_step x store cache j j' cache'.
Proof.
  destruct j as [event stage acks]. unfold job_ok. simpl. destruct stage as [[r|e]|p r|p st|p st|]; intros Hok Hacks.
  - do 2 eexists. apply job_scripted.
  - do 2 eexists. apply job_script_failed.
  - destruct (exec_of_total x store p r) as [out Hx]. do 2 eexists. by apply job_sent.
  - destruct Hok as (_ & _ & request & certs & Hne & Hl).
    destruct (ts_result st) as [out|] eqn:Hr; [do 2 eexists; by apply job_settle|].
    destruct (li_pending _ _ _ _ Hl Hr) as (Hnf & Hnr).
    destruct (pending_progress readFile extname basename secure_context (exec_of x store p) (with_cache cache st))
      as [st' Hs]; [apply exec_of_total|done..|]. do 2 eexists. by apply job_try.
  - destruct Hok as [(a & Ha & _) _]. congruence.
  - destruct Hok as (a & Ha & _). congruence.
Qed.

(** Where the work in flight cannot go on, every request has its answer. *)
Lemma stuck_answered x store cache s i j :
  rtc flight_step (idle x store cache) s -> ~ (exists s2, target_step s s2) -> fl_jobs s !! i = Some j ->
  exists a, jb_acks j = [a] /\ answered valid_regexp (jb_event j) a.
Proof.
  intros Hr Hstuck Hj. pose proof (reachable_flight_ok _ _ _ _ Hr i j Hj) as Hok.
  destruct (job_ok_acks _ Hok) as [Hacks|?]; [|done]. destruct Hstuck.
  destruct (job_progress (fl_executor s) (fl_store s) (fl_cache s) j Hok Hacks) as (j2 & cache' & Hs).
  eexists. by eapply one_job.
Qed.


End inflight.

(** ** A request in flight *)

Definition demo_event : RequestOptions :=
  mk_RequestOptions "http" "https://x.dev" None None None None None None None None None None None None.
Definition demo_executor : HttpRequestExecutor :=
  mk_executor (mk_options (Some 1000%Z) None None (Some [race_certA]) None (Some Infinity) None false None None None)
    None None None None.

Section demo.
#[local] Existing Instances one_host sample_legacy sample_codecs.
#[local] Notation raw := (mk_raw 200 [1; 2]%N [] 1500).
#[local] Notation demo_cloud := (cloud_step (C := strmap Cert) (fun _ => true) (fun _ => Ok [("handle", tt)]) (fun _ o => Ok o)
  (fun _ => None) (mk_ws_executor sample_http_options None None)).
#[local] Notation demo_target := (target_step (C := strmap Cert) (fun _ => Ok [("handle", tt)]) (fun _ r => Ok ([], None))
  (fun _ out => out = Ok raw) (fun _ _ => false)
  (fun _ s => s = mk_session (Ok (101%Z, [])) (Ok tt) [Message "x"; TimerFired]) race_files race_ext id (fun _ _ => true)
  (mk_ws_executor sample_http_options None None)).
#[local] Notation demo_step := (flight_step (C := strmap Cert) (fun _ => true) (fun _ => Ok [("handle", tt)]) (fun _ o => Ok o)
  (fun _ r => Ok ([], None)) (fun _ out => out = Ok raw) (fun _ _ => false)
  (fun _ s => s = mk_session (Ok (101%Z, [])) (Ok tt) [Message "x"; TimerFired]) race_files race_ext id (fun _ _ => true)
  (fun _ => None) (mk_ws_executor sample_http_options None None)).

(** One request with a candidate certificate, from its arrival to the end of its handler. *)
Lemma demo_run : exists s1 s,
  demo_step (idle demo_executor [] []) s1 /\ is_Some (fl_jobs s1 !! 0) /\ rtc demo_target s1 s /\
  cache_get race_request (fl_cache s) = Ok (Some race_certA) /\
  exists j, fl_jobs s !! 0 = Some j /\ jb_event j = demo_event /\ length (jb_acks j) = 1 /\
  ~ exists s2, demo_target s s2.
Proof.
  do 2 eexists. split; [left; apply (cloud_request _ _ _ _ _ _ demo_event)|]. split; [by eexists|]. split.
  { eapply rtc_l; [eapply (one_job _ _ _ _ _ _ _ _ _ _ _ 0); [reflexivity|apply job_scripted]|].
    eapply rtc_l; [eapply (one_job _ _ _ _ _ _ _ _ _ _ _ 0); [reflexivity|apply job_try, (try_read _ _ _ _ _ _ 0); reflexivity]|].
    eapply rtc_l; [eapply (one_job _ _ _ _ _ _ _ _ _ _ _ 0); [reflexivity|apply job_try, (try_respond _ _ _ _ _ _ 0); [reflexivity|]]|].
    { simpl. eexists. split; reflexivity. }
    eapply rtc_l; [eapply (one_job _ _ _ _ _ _ _ _ _ _ _ 0); [reflexivity|apply job_settle; reflexivity]|].
    apply rtc_refl. }
  split; [vm_compute; reflexivity|]. eexists. split; [reflexivity|]. split_and!; [reflexivity..|].
  intros [s2 Hs]. inversion Hs as [s i j j' cache' Hj Hjs Heq]; subst; clear Hs.
  destruct i as [|i]; [|done]. apply job_step_weight in Hjs. injection Hj as <-. vm_compute in Hjs. lia.
Qed.

Lemma demo_reached s1 s : demo_step (idle demo_executor [] []) s1 -> rtc demo_target s1 s ->
  rtc demo_step (idle demo_executor [] []) s.
Proof. intros H1 Hr. eapply rtc_l; [done|]. eapply rtc_subrel; [|done]. by right. Qed.


Lemma cached_certificate_sound_witness :
  exists s : @flight (strmap Cert), cache_get race_request (fl_cache s) = Ok (Some race_certA) /\
    configured (mk_ws_executor sample_http_options None None) demo_executor race_request race_certA /\
    proven s race_request race_certA.
Proof.
  destruct demo_run as (s1 & s & H1 & _ & Hr & Hg & _). exists s. split; [done|].
  assert (CertificatesCacheLaws (strmap Cert)) as CL by apply (DefaultCertificatesCache_laws (H0 := one_host_laws)).
  destruct (cached_certificate_sound _ _ _ _ _ _ _ _ _ _ _ _ _ demo_executor [] [] s s race_request race_certA
              (demo_reached _ _ H1 Hr) (rtc_refl _ _) Hg) as [_ [Hc|Hc]]; [|exact Hc].
  vm_compute in Hc. discriminate.
Defined.

End demo.
