(* ===== verification/Deployment.v ===== *)
(** * Deployment of the repeater

    When the socket connects, [deployRepeater] of the launcher calls [deploy] of the server: it
    schedules the message, then waits for the first of the reply, an error of the socket and a timer
    of a minute.  Nothing waits for a previous call, so after a reconnection several calls may be
    pending on the same socket; closing the session removes their listeners, not their timers.
    The session itself is the [world] of [Launcher.v]. *)
From S2P Require Import Prelude Scripts Proxy RepeaterServer Launcher CommandHub.

(** [MAX_DEPLOYMENT_TIMEOUT], in milliseconds. *)
Definition MAX_DEPLOYMENT_TIMEOUT : Z := 60000.

(** How the race of [deploy] ends. An error event of the socket rejects [once]. *)
Inductive outcome : Type :=
| Deployed (event : payload)
| Refused (event : payload)
| NoResponse.

(** One call of [deploy]: when its timer was armed, whether the listeners of [once] are on the socket,
    whether the timer is still to fire, and the race. *)
Record deploy_call : Type := mk_call {
  dc_start : Z;
  dc_listening : bool;
  dc_armed : bool;
  dc_result : option outcome
}.

(** [dp_messages] are the DEPLOY messages sent; [dp_started] counts the lines
    "The Repeater (...) started" of the launcher; [dp_now] is the clock of the event loop. *)
Record deployment : Type := mk_deployment {
  dp_world : world;
  dp_calls : list deploy_call;
  dp_messages : list (option string * DeploymentRuntime);
  dp_started : nat;
  dp_now : Z
}.

(** The first settlement of a race counts. *)
Definition settle (out : outcome) (r : option outcome) : option outcome :=
  match r with Some old => Some old | None => Some out end.

(** [once]: the listeners for the event and for errors leave together. *)
Definition once_fires (out : outcome) (c : deploy_call) : deploy_call :=
  if dc_listening c then mk_call (dc_start c) false (dc_armed c) (settle out (dc_result c)) else c.

(** [socket.removeAllListeners()]. *)
Definition deafen (c : deploy_call) : deploy_call :=
  mk_call (dc_start c) false (dc_armed c) (dc_result c).

(** The timer is never cleared; when the race is over its rejection goes nowhere. *)
Definition timer_rejects (c : deploy_call) : deploy_call :=
  mk_call (dc_start c) (dc_listening c) false (settle NoResponse (dc_result c)).

Definition due (now : Z) (c : deploy_call) : bool :=
  dc_armed c && (dc_start c + MAX_DEPLOYMENT_TIMEOUT <=? now)%Z.

(** A fulfilled race lets [deployRepeater] log; a rejected one is swallowed. *)
Definition started (c : deploy_call) : bool :=
  match dc_result c with Some (Deployed _) => true | _ => false end.

(** What an event of the socket means to the listeners of [once]. *)
Definition reply (i : input) : option outcome :=
  match i with
  | ISocketEvent event p =>
      if event === SocketEvents.DEPLOYED then Some (Deployed p)
      else if event === SocketEvents.ERROR then Some (Refused p) else None
  | _ => None
  end.

Inductive dinput : Type :=
| DSession (i : input)
| DTimeout (k : nat)
| DElapse (ms : Z).

Section deployment.
Context {UA : UrlApi} (options : DefaultRepeaterServerOptions).
Context (syntax_error : string -> option js_error).
(** [getRuntime] of the launcher, for the scripts it has. *)
Context (runtime : strmap VirtualScript -> DeploymentRuntime).

(** [deploy]: the listeners and the timer are in place when the message leaves on the next tick;
    without a socket that tick throws. *)
Definition deploy (d : deployment) : result js_error deployment :=
  let w := dp_world d in
  if sv_socket (w_server w) then
    Ok (mk_deployment w (dp_calls d ++ [mk_call (dp_now d) true true None])
          (dp_messages d ++ [(ln_repeaterId (w_launcher w), runtime (ln_store (w_launcher w)))])
          (dp_started d) (dp_now d))
  else Err no_socket.

Fixpoint deploys (n : nat) (d : deployment) : result js_error deployment :=
  match n with O => Ok d | S n => d ← deploy d; deploys n d end.

(** An event of the session: the handlers of the session run first, then the listeners of [once]; the
    session calls [deploy] as often as [deployRepeater] ran. *)
Definition session_event (i : input) (d : deployment) : result js_error deployment :=
  w ← react options syntax_error i (dp_world d);
  let calls := match reply i with Some out => once_fires out <$> dp_calls d | None => dp_calls d end in
  let logged := length (base.filter (fun c => started c = true) calls) -
                length (base.filter (fun c => started c = true) (dp_calls d)) in
  let calls := if sv_socket (w_server w) then calls else deafen <$> calls in
  deploys (ln_deploys (w_launcher w) - ln_deploys (w_launcher (dp_world d)))
    (mk_deployment w calls (dp_messages d) (dp_started d + logged) (dp_now d)).

Definition dreact (i : dinput) (d : deployment) : result js_error deployment :=
  match i with
  | DSession i => session_event i d
  | DTimeout k => Ok (mk_deployment (dp_world d) (alter timer_rejects k (dp_calls d)) (dp_messages d)
                        (dp_started d) (dp_now d))
  | DElapse ms => Ok (mk_deployment (dp_world d) (dp_calls d) (dp_messages d) (dp_started d) (dp_now d + ms)%Z)
  end.

Definition denabled (i : dinput) (d : deployment) : bool :=
  match i with
  | DSession i => enabled i (dp_world d)
  | DTimeout k => match dp_calls d !! k with Some c => due (dp_now d) c | None => false end
  | DElapse ms => (0 <=? ms)%Z
  end.

Definition not_deployed : deployment := mk_deployment initial [] [] 0 0.

(** A run, with what can be observed of it: the inputs, and whether the session has a socket
    after each. *)
Inductive drun : deployment -> list (dinput * bool) -> deployment -> Prop :=
| drun_nil d : drun d [] d
| drun_cons i d d1 obs d2 :
    denabled i d = true -> dreact i d = Ok d1 -> drun d1 obs d2 ->
    drun d ((i, sv_socket (w_server (dp_world d1))) :: obs) d2.

(** ** Specification: the first event that decides *)

(** What becomes of call [k], given what happens after it was made: the first reply or error of the
    socket decides while the session stays open, its own timer at any time. *)
Fixpoint decision (k : nat) (deaf : bool) (obs : list (dinput * bool)) : option outcome :=
  match obs with
  | [] => None
  | (DTimeout j, _) :: obs => if j === k then Some NoResponse else decision k deaf obs
  | (DElapse _, _) :: obs => decision k deaf obs
  | (DSession i, open) :: obs =>
      match reply i with
      | Some out => if deaf then decision k true obs else Some out
      | None => decision k (deaf || negb open) obs
      end
  end.

(** ** What a step does to one call *)

Definition effect (k : nat) (i : dinput) (open : bool) (c : deploy_call) : deploy_call :=
  match i with
  | DTimeout j => if j === k then timer_rejects c else c
  | DElapse _ => c
  | DSession i =>
      let c := match reply i with Some out => once_fires out c | None => c end in
      if open then c else deafen c
  end.

(** [deploys] appends new calls, with a message each. *)
Lemma deploys_spec n d d' : deploys n d = Ok d' ->
  dp_world d' = dp_world d /\ dp_started d' = dp_started d /\ dp_now d' = dp_now d /\
  dp_calls d' = dp_calls d ++ replicate n (mk_call (dp_now d) true true None) /\
  dp_messages d' = dp_messages d ++ replicate n
    (ln_repeaterId (w_launcher (dp_world d)), runtime (ln_store (w_launcher (dp_world d)))).
Proof.
  revert d. induction n as [|n IH]; intros d Hd; simpl in Hd.
  { simplify_eq. by rewrite !app_nil_r. }
  inv_bind Hd. unfold deploy in Ha. destruct (sv_socket _); simplify_eq.
  apply IH in Hd as (Hw & Hs & Hn & Hc & Hm). simpl in *.
  by rewrite Hw, Hs, Hn, Hc, Hm, <- !(assoc_L (++)).
Qed.

Lemma dreact_call i d d1 k c : dreact i d = Ok d1 -> dp_calls d !! k = Some c ->
  dp_calls d1 !! k = Some (effect k i (sv_socket (w_server (dp_world d1))) c).
Proof.
  intros Hd Hk. destruct i as [i|j|ms]; simpl in *.
  - unfold session_event in Hd. inv_bind Hd. apply deploys_spec in Hd as (-> & _ & _ & -> & _). simpl.
    apply lookup_app_l_Some.
    assert (forall f : deploy_call -> deploy_call, (f <$> dp_calls d) !! k = Some (f c)) as Hf
      by (intros f; by rewrite list_lookup_fmap, Hk).
    destruct (reply i), (sv_socket (w_server a)); rewrite <- ?list_fmap_compose; by rewrite ?Hf.
  - simplify_eq. simpl. destruct (eqbP j k) as [->|Hne].
    + by rewrite list_lookup_alter_eq, Hk.
    + by rewrite list_lookup_alter_ne.
  - by simplify_eq.
Qed.

(** The calls follow the specification from any point of a run. *)
Lemma drun_decision d obs d2 k c : drun d obs d2 -> dp_calls d !! k = Some c ->
  exists c2, dp_calls d2 !! k = Some c2 /\ dc_start c2 = dc_start c /\
    dc_result c2 = match dc_result c with
                   | Some out => Some out | None => decision k (negb (dc_listening c)) obs end.
Proof.
  intros Hr. revert c. induction Hr as [d|i d d1 obs d2 _ Hd _ IH]; intros c Hk.
  { exists c. by destruct (dc_result c). }
  destruct (IH _ (dreact_call _ _ _ _ _ Hd Hk)) as (c2 & Hc2 & Hst & Hres).
  exists c2. rewrite Hst, Hres. split; [done|].
  generalize (sv_socket (w_server (dp_world d1))). intros open. clear -i.
  destruct c as [start listening armed res], i as [i|j|ms]; simpl; [|by destruct (j === k), res|by destruct res].
  unfold once_fires. by destruct (reply i), open, listening, res.
Qed.

(** ** Invariant *)

Definition call_ok (now : Z) (c : deploy_call) : Prop :=
  match dc_result c with
  | None => dc_armed c = true
  | Some NoResponse => (dc_start c + MAX_DEPLOYMENT_TIMEOUT <= now)%Z
  | Some _ => True
  end.

Record deploy_inv (d : deployment) : Prop := {
  di_world : rtc (repeater_step options syntax_error) initial (dp_world d);
  di_calls : Forall (call_ok (dp_now d)) (dp_calls d);
  di_started : dp_started d = length (base.filter (fun c => started c = true) (dp_calls d))
}.

Lemma started_map f l : (forall c, started c = true -> started (f c) = true) ->
  length (base.filter (fun c => started c = true) l) <= length (base.filter (fun c => started c = true) (f <$> l)).
Proof.
  intros Hf. induction l as [|c l IH]; [done|]. rewrite fmap_cons, !filter_cons. specialize (Hf c).
  repeat case_decide; simpl in *; try lia; tauto.
Qed.

Lemma started_same f l : (forall c, started (f c) = started c) ->
  length (base.filter (fun c => started c = true) (f <$> l)) = length (base.filter (fun c => started c = true) l).
Proof.
  intros Hf. induction l as [|c l IH]; [done|]. rewrite fmap_cons, !filter_cons, Hf. case_decide; simpl; lia.
Qed.

Lemma started_alter k l :
  length (base.filter (fun c => started c = true) (alter timer_rejects k l)) =
  length (base.filter (fun c => started c = true) l).
Proof.
  revert k. induction l as [|c l IH]; intros [|k]; try done.
  - simpl. rewrite !filter_cons.
    assert (started (timer_rejects c) = started c) as -> by (unfold started; simpl; by destruct (dc_result c)).
    by repeat case_decide.
  - change (alter timer_rejects (S k) (c :: l)) with (c :: alter timer_rejects k l).
    rewrite !filter_cons. case_decide; simpl; by rewrite IH.
Qed.

Lemma started_new n c l : started c = false ->
  length (base.filter (fun c => started c = true) (l ++ replicate n c)) =
  length (base.filter (fun c => started c = true) l).
Proof.
  intros Hc. rewrite filter_app, length_app. induction n as [|n IH]; [by rewrite Nat.add_0_r|].
  simpl. rewrite filter_cons_False by congruence. done.
Qed.

Lemma once_fires_started out c : started c = true -> started (once_fires out c) = true.
Proof. unfold started, once_fires. by destruct c as [? [] ? [[]|]]. Qed.

Lemma session_event_inv i d d1 :
  enabled i (dp_world d) = true -> session_event i d = Ok d1 -> deploy_inv d -> deploy_inv d1.
Proof.
  intros He Hd [Hw Hc Hs]. unfold session_event in Hd. inv_bind Hd.
  apply deploys_spec in Hd as (Hdw & Hds & Hdn & Hdc & _). simpl in *.
  set (calls := match reply i with Some out => once_fires out <$> dp_calls d | None => dp_calls d end) in *.
  assert (Forall (call_ok (dp_now d)) calls) as Hcalls.
  { unfold calls. destruct (reply i) as [out|] eqn:Hre; [|done]. apply Forall_fmap, (Forall_impl _ _ _ Hc).
    intros [? [] ? res] Hok; [|done]. unfold call_ok, once_fires, settle in *. simpl in *. destruct res; [done|].
    unfold reply in Hre. repeat case_match; by simplify_eq. }
  split.
  - rewrite Hdw. eapply rtc_r; [done|]. by eapply rstep.
  - rewrite Hdn, Hdc. apply Forall_app. split; [|by apply Forall_replicate].
    destruct (sv_socket _); [done|]. by apply Forall_fmap, (Forall_impl _ _ _ Hcalls).
  - rewrite Hds, Hdc, started_new, Hs by done.
    assert (length (base.filter (fun c => started c = true) (if sv_socket (w_server a) then calls else deafen <$> calls)) =
            length (base.filter (fun c => started c = true) calls)) as ->
      by (destruct (sv_socket _); [done|by apply started_same]).
    assert (length (base.filter (fun c => started c = true) (dp_calls d)) <=
            length (base.filter (fun c => started c = true) calls)); [|lia].
    unfold calls. destruct (reply i); [|done]. apply started_map. intros c. apply once_fires_started.
Qed.

Lemma dreact_inv i d d1 : denabled i d = true -> dreact i d = Ok d1 -> deploy_inv d -> deploy_inv d1.
Proof.
  intros He Hd Hinv. destruct i as [i|k|ms]; simpl in *; [by eapply session_event_inv|..].
  - destruct (dp_calls d !! k) as [c|] eqn:Hk; [|done]. simplify_eq. destruct Hinv as [Hw Hc Hs].
    split; simpl; [done| |by rewrite started_alter].
    apply Forall_alter; [done|]. intros c' Hc' Hok. simplify_eq.
    unfold due in He. apply andb_true_iff in He as [_ He%Z.leb_le].
    unfold call_ok, timer_rejects in *. simpl in *. destruct (dc_result c); done.
  - simplify_eq. destruct Hinv as [Hw Hc Hs]. apply Z.leb_le in He. split; simpl; [done| |done].
    apply (Forall_impl _ _ _ Hc). intros c. unfold call_ok. repeat case_match; lia || done.
Qed.

Lemma drun_inv d obs d2 : drun d obs d2 -> deploy_inv d -> deploy_inv d2.
Proof. induction 1; eauto using dreact_inv. Qed.

Lemma not_deployed_inv : deploy_inv not_deployed.
Proof. split; [apply rtc_refl|constructor|done]. Qed.

Hypothesis agent_ok : is_ok (connect_agent options) = true.

(** An open session makes one call for each connection. *)
Lemma connect_deploys d : deploy_inv d -> sv_socket (w_server (dp_world d)) = true ->
  exists d1, dreact (DSession ISocketConnect) d = Ok d1 /\ dp_now d1 = dp_now d /\
    dp_calls d1 = dp_calls d ++ [mk_call (dp_now d) true true None] /\
    dp_messages d1 = dp_messages d ++
      [(ln_repeaterId (w_launcher (dp_world d)), runtime (ln_store (w_launcher (dp_world d))))].
Proof.
  intros Hinv Hs.
  assert (core (dp_world d) = open_core) as Ho.
  { destruct (reachable_core _ _ agent_ok _ (di_world _ Hinv)) as [|Hc]; [done|]. injection Hc as _ Hc _. congruence. }
  simpl. unfold session_event. simpl.
  assert (handleConnect syntax_error (dp_world d) = run_handler syntax_error deployRepeater PNone
    (on_server (fun s => clearConnectionTimer (set_attempts 0 s)) (dp_world d))) as ->.
  { unfold handleConnect, emit. rewrite (open_handlers _ RepeaterServerEvents.CONNECTED deployRepeater); [done|done|left]. }
  simpl. rewrite Hs. replace (_ - ln_deploys (w_launcher (dp_world d))) with 1 by lia.
  simpl. unfold deploy. simpl. rewrite Hs. eexists. by split_and!.
Qed.

(** C13: A deployment has the outcome its first event decides: each connection of an open session sends
    one DEPLOY message and makes one call, which from then on is decided by the first of a reply
    or an error of the socket while the session stays open and its own timer, and by nothing
    else, however many calls are pending; the timer never decides within a minute and always can
    after it, and the launcher reports a start once for each call that got a reply and for no
    other. *)
Theorem deploy_refines obs0 d :
  drun not_deployed obs0 d -> sv_socket (w_server (dp_world d)) = true ->
  let k := length (dp_calls d) in
  exists d1, dreact (DSession ISocketConnect) d = Ok d1 /\
    dp_messages d1 = dp_messages d ++
      [(ln_repeaterId (w_launcher (dp_world d)), runtime (ln_store (w_launcher (dp_world d))))] /\
    forall obs d2, drun d1 obs d2 ->
      dp_started d2 = length (base.filter (fun c => started c = true) (dp_calls d2)) /\
      exists c, dp_calls d2 !! k = Some c /\ dc_result c = decision k false obs /\
        (dc_result c = Some NoResponse -> dp_now d + MAX_DEPLOYMENT_TIMEOUT <= dp_now d2)%Z /\
        (dc_result c = None -> due (dp_now d + MAX_DEPLOYMENT_TIMEOUT) c = true).
Proof.
  intros Hr Hs k. pose proof (drun_inv _ _ _ Hr not_deployed_inv) as Hinv.
  destruct (connect_deploys d Hinv Hs) as (d1 & Hd1 & Hnow & Hcalls & Hmsg).
  exists d1. split_and!; [done..|]. intros obs d2 Hr2.
  assert (deploy_inv d2) as [_ Hc2 Hs2].
  { eapply drun_inv; [done|]. eapply dreact_inv; [|done..]. done. }
  split; [done|].
  destruct (drun_decision d1 obs d2 k (mk_call (dp_now d) true true None) Hr2) as (c & Hk & Hst & Hres).
  { rewrite Hcalls. by apply list_lookup_middle. }
  exists c. split_and!; [done..| |]; pose proof (Forall_lookup_1 _ _ _ _ Hc2 Hk) as Hok; unfold call_ok in Hok.
  - intros Hn. rewrite Hn in Hok. simpl in Hst. by rewrite <- Hst.
  - intros Hn. rewrite Hn in Hok. unfold due. rewrite Hok, Hst. simpl. apply Z.leb_le. lia.
Qed.
End deployment.

(** Two connections before the first reply: the one reply is taken for both, so the start is reported
    twice. *)
Definition sample_runtime (store : strmap VirtualScript) : DeploymentRuntime :=
  getRuntime "linux" "6.1" "x64" "v22.0.0" (fun _ => Ok "") (Ok "x64") "13.2.0" None None None store.

#[local] Notation sample_dreact := (dreact (UA := no_urls) direct no_syntax_error sample_runtime).
#[local] Notation sample_drun := (drun (UA := no_urls) direct no_syntax_error sample_runtime).

Example one_reply_two_starts :
  exists d, (foldl (fun r i => d ← r; sample_dreact i d) (Ok not_deployed)
    [DSession (IRun "uL2zo7Vf"); DSession ISocketConnect; DSession (ISocketDisconnect "transport close");
     DSession ISocketConnect; DSession (ISocketEvent "deployed" PNone)]) = Ok d /\
  dp_started d = 2 /\ length (dp_messages d) = 2.
Proof. eexists. vm_compute. split_and!; reflexivity. Qed.

Lemma sample_run : exists obs d, sample_drun not_deployed obs d /\
  sv_socket (w_server (dp_world d)) = true.
Proof.
  do 2 eexists. split; [eapply (drun_cons _ _ _ (DSession (IRun "uL2zo7Vf"))); [reflexivity..|apply drun_nil]|reflexivity].
Qed.

Lemma deploy_refines_witness :
  exists d d1, sample_dreact (DSession ISocketConnect) d = Ok d1 /\
    forall obs d2, sample_drun d1 obs d2 -> exists c, dp_calls d2 !! length (dp_calls d) = Some c /\
      dc_result c = decision (length (dp_calls d)) false obs.
Proof.
  destruct sample_run as (obs0 & d & Hr & Hs). exists d.
  destruct (deploy_refines (UA := no_urls) direct no_syntax_error sample_runtime eq_refl _ d Hr Hs)
    as (d1 & Hd1 & _ & Hall).
  exists d1. split; [done|]. intros obs d2 Hr2. destruct (Hall obs d2 Hr2) as (_ & c & Hk & Hres & _). eauto.
Defined.
