(* ===== verification/System.v ===== *)
(** * The repeater as a whole

    The session of [Launcher.v] and the requests of [Inflight.v] in one system: the options object
    that a limits event overwrites and the script store are one and the same for the launcher
    and the executors, and a request event of the socket starts a job for each handler that is
    subscribed to it.  The system is shown to be a run of the requests in flight, with one job
    per event. *)
From S2P Require Import Prelude Helpers Scripts Request Proxy Certificates TryCerts HttpExecutor WsExecutor.
From S2P Require Import RepeaterServer Launcher CommandHub Serving Inflight.

(** ** What launcher and executors share *)

Definition shared (w : world) : strmap VirtualScript * number :=
  (ln_store (w_launcher w), ln_maxBodySize (w_launcher w)).

Inductive shared_step (syntax_error : string -> option js_error) :
    strmap VirtualScript * number -> strmap VirtualScript * number -> Prop :=
| shared_scripts payload store n :
    shared_step syntax_error (store, n) ((compileScripts syntax_error payload store).2, n)
| shared_limits store n n' : shared_step syntax_error (store, n) (store, n').

Section shared.
Context {UA : UrlApi} (options : DefaultRepeaterServerOptions) (syntax_error : string -> option js_error).

Lemma run_handler_shared h p w :
  rtc (shared_step syntax_error) (shared w) (shared (run_handler syntax_error h p w)).
Proof.
  destruct h, p as [| | | | | |[|]]; simpl; try (by apply rtc_refl); try (apply rtc_once, shared_limits).
  - case_match; apply rtc_refl.
  - pose proof (shared_scripts syntax_error script (ln_store (w_launcher w)) (ln_maxBodySize (w_launcher w))) as Hs.
    destruct (compileScripts _ _ _) as [[r refused] store]. by apply rtc_once.
Qed.

Lemma emit_shared event p w :
  rtc (shared_step syntax_error) (shared w) (shared (emit syntax_error event p w)).
Proof.
  unfold emit. generalize (handlers_of event (sv_events (w_server w))) as hs. intros hs. revert w.
  induction hs as [|h hs IH]; intros w; simpl; [apply rtc_refl|].
  etransitivity; [apply (run_handler_shared h p)|apply IH].
Qed.

Lemma emit_checked_shared event p w w' :
  emit_checked syntax_error event p w = Ok w' -> rtc (shared_step syntax_error) (shared w) (shared w').
Proof.
  unfold emit_checked. intros He. destruct (handlers_of _ _).
  - case_match; simplify_eq. apply rtc_refl.
  - simplify_eq. apply emit_shared.
Qed.

Lemma socket_connect_shared w w' : socket_connect w = Ok w' -> shared w' = shared w.
Proof. unfold socket_connect. intros Hs. case_match; by simplify_eq. Qed.

(** Whatever happens to the session, the shared state changes by events of the cloud only. *)
Lemma react_shared i w w' :
  react options syntax_error i w = Ok w' -> rtc (shared_step syntax_error) (shared w) (shared w').
Proof.
  destruct i; simpl; intros Hr.
  - simplify_eq. unfold run. repeat case_match; apply rtc_refl.
  - simplify_eq. apply rtc_refl.
  - simplify_eq. apply (emit_shared _ _ (on_server _ w)).
  - unfold handleConnectionError in Hr. inv_bind Hr. simplify_eq. transitivity (shared a).
    + repeat case_match; simplify_eq; [by eapply emit_checked_shared|apply rtc_refl..].
    + apply (emit_shared _ _ (on_server _ a)).
  - unfold handleDisconnect in Hr.
    set (w1 := if negb (reason === "io client disconnect") then _ else w) in Hr.
    assert (rtc (shared_step syntax_error) (shared w) (shared w1)) as Hw
      by (unfold w1; destruct (negb _); [apply emit_shared|apply rtc_refl]).
    destruct (reason === "io server disconnect"); [apply socket_connect_shared in Hr; by rewrite Hr|by simplify_eq].
  - case_match; [by eapply emit_checked_shared|simplify_eq; apply rtc_refl].
  - simplify_eq. apply (emit_shared _ _ (on_server _ w)).
  - simplify_eq. apply rtc_refl.
  - simplify_eq. apply emit_shared.
  - simplify_eq. apply emit_shared.
  - unfold timer_fires in Hr. apply socket_connect_shared in Hr. rewrite Hr. apply rtc_refl.
Qed.
End shared.

Section system.
Context {UA : UrlApi} {LU : LegacyUrlApi} {CO : Codecs} (valid_regexp : string -> bool).
Context {Fn : Type} (runInContext : string -> result js_error (strmap Fn)).
Context (apply_handle : Fn -> RequestOptions -> result js_error RequestOptions).
Context (apply_onResponse : Fn -> Response -> result js_error (Headers * option ScriptResult)).
Context (transport : list CurlOp -> result js_error RawResponse -> Prop).
Context (regexp_test : string -> string -> bool) (sessions : WsClientOptions -> Session -> Prop).
Context {C} {CC : CertificatesCache C} {CL : CertificatesCacheLaws C}.
Context (readFile : string -> option Buffer) (extname basename : string -> string).
Context (secure_context : option string -> option Buffer -> bool).
Context (syntax_error : string -> option js_error) (w : WsRequestExecutor).
Context (options : DefaultRepeaterServerOptions).

#[local] Notation flights := (@flight C).
#[local] Notation cloud := (cloud_step valid_regexp runInContext apply_handle syntax_error w (C := C)).
#[local] Notation target := (target_step runInContext apply_onResponse transport regexp_test sessions
  readFile extname basename secure_context w (C := C)).
#[local] Notation steps := (flight_step valid_regexp runInContext apply_handle apply_onResponse transport regexp_test
  sessions readFile extname basename secure_context syntax_error w (C := C)).

(** ** The system *)

(** [sy_received] lists the request events the socket delivered, in order. *)
Record system : Type := mk_system {
  sy_world : world;
  sy_flight : flights;
  sy_received : list RequestOptions
}.

(** The executors see the options and the scripts of the launcher. *)
Definition share (wd : world) (f : flights) : flights :=
  mk_flight (set_maxBodySize (ln_maxBodySize (w_launcher wd)) (fl_executor f)) (ln_store (w_launcher wd))
    (fl_cache f) (fl_jobs f).

(** A request event calls the handlers subscribed to it; those that serve requests start a job. *)
Definition start_job (event : RequestOptions) (f : flights) (h : handler) : flights :=
  match h with
  | Launcher.requestReceived =>
      mk_flight (fl_executor f) (fl_store f) (fl_cache f)
        (fl_jobs f ++ [new_job valid_regexp runInContext apply_handle w (fl_executor f) (fl_store f) (fl_cache f) event])
  | _ => f
  end.

Definition is_request (i : input) : bool :=
  match i with ISocketEvent event _ => event === SocketEvents.REQUEST | _ => false end.

Inductive system_step : system -> system -> Prop :=
| sys_request s event wd :
    sv_socket (w_server (sy_world s)) = true ->
    react options syntax_error (ISocketEvent SocketEvents.REQUEST PNone) (sy_world s) = Ok wd ->
    system_step s (mk_system wd
      (foldl (start_job event) (share wd (sy_flight s))
         (handlers_of RepeaterServerEvents.REQUEST (sv_events (w_server (sy_world s)))))
      (sy_received s ++ [event]))
| sys_input s i wd :
    enabled i (sy_world s) = true -> is_request i = false -> react options syntax_error i (sy_world s) = Ok wd ->
    system_step s (mk_system wd (share wd (sy_flight s)) (sy_received s))
| sys_target s f :
    target (sy_flight s) f -> system_step s (mk_system (sy_world s) f (sy_received s)).

(** ** Simulation *)

Lemma set_same n x : o_maxBodySize (x_options x) = Some n -> set_maxBodySize n x = x.
Proof. destruct x as [[]]. simpl. by intros ->. Qed.

(** Changes of the shared state are steps of the cloud. *)
Lemma shared_cloud sh sh' (f : flights) :
  rtc (shared_step syntax_error) sh sh' -> fl_store f = sh.1 -> o_maxBodySize (x_options (fl_executor f)) = Some sh.2 ->
  rtc cloud f (mk_flight (set_maxBodySize sh'.2 (fl_executor f)) sh'.1 (fl_cache f) (fl_jobs f)).
Proof.
  intros Hr. revert f. induction Hr as [sh|sh1 sh2 sh3 Hs _ IH]; intros f Hst Hm.
  - rewrite set_same by done. rewrite <- Hst. destruct f. apply rtc_refl.
  - destruct Hs as [payload store n|store n n']; simpl in Hst, Hm.
    + eapply rtc_l; [apply (cloud_scripts _ _ _ _ _ _ payload)|]. rewrite Hst.
      by apply (IH (mk_flight _ _ _ _)).
    + eapply rtc_l; [apply (cloud_limits _ _ _ _ _ _ n')|].
      by apply (IH (mk_flight (set_maxBodySize n' (fl_executor f)) (fl_store f) (fl_cache f) (fl_jobs f))).
Qed.

Definition coupled (s : system) : Prop :=
  fl_store (sy_flight s) = ln_store (w_launcher (sy_world s)) /\
  o_maxBodySize (x_options (fl_executor (sy_flight s))) = Some (ln_maxBodySize (w_launcher (sy_world s))).

Lemma share_cloud s i wd :
  coupled s -> react options syntax_error i (sy_world s) = Ok wd -> rtc cloud (sy_flight s) (share wd (sy_flight s)).
Proof. intros [Hst Hm] Hr%react_shared. by apply (shared_cloud _ _ _ Hr). Qed.

Lemma target_events f f' : target f f' ->
  jb_event <$> fl_jobs f' = jb_event <$> fl_jobs f /\ fl_store f' = fl_store f /\ fl_executor f' = fl_executor f.
Proof.
  destruct 1 as [s k j j' cache' Hk Hs]. split; [|done]. simpl. rewrite list_fmap_insert.
  apply list_insert_id. rewrite list_lookup_fmap, Hk. simpl. by apply job_step_extends in Hs as [-> _].
Qed.

Hypothesis agent_ok : is_ok (connect_agent options) = true.

Record system_inv (x : HttpRequestExecutor) (store : strmap VirtualScript) (cache : C) (s : system) : Prop := {
  sn_core : core (sy_world s) = open_core \/ core (sy_world s) = closed_core;
  sn_coupled : coupled s;
  sn_jobs : jb_event <$> fl_jobs (sy_flight s) = sy_received s;
  sn_run : rtc steps (idle x store cache) (sy_flight s)
}.

Lemma system_step_inv x store cache s s' :
  system_step s s' -> system_inv x store cache s -> system_inv x store cache s'.
Proof.
  destruct 1 as [s event wd Hs Hr|s i wd He _ Hr|s f Ht]; intros [Hc Hcp Hj Hrun].
  - assert (core (sy_world s) = open_core) as Ho.
    { destruct Hc as [|Hc]; [done|]. injection Hc as _ Hc _. congruence. }
    pose proof (share_cloud _ _ _ Hcp Hr) as Hsh.
    rewrite (open_handlers _ RepeaterServerEvents.REQUEST Launcher.requestReceived Ho) by (do 3 right; left).
    split; simpl.
    + eapply step_core; [done| |done]. eapply rstep; [|exact Hr]. done.
    + by split.
    + rewrite fmap_app, Hj. simpl. by rewrite new_job_event.
    + etransitivity; [done|]. etransitivity; [eapply rtc_subrel; [|done]; by left|].
      apply rtc_once. left. apply (cloud_request _ _ _ _ _ (share wd (sy_flight s)) event).
  - pose proof (share_cloud _ _ _ Hcp Hr) as Hsh. split; simpl.
    + eapply step_core; [done| |done]. eapply rstep; [|exact Hr]. done.
    + by split.
    + done.
    + etransitivity; [done|]. eapply rtc_subrel; [|done]. by left.
  - apply target_events in Ht as Hev. destruct Hev as (Hev & Hst & Hx). destruct Hcp. split; simpl; [done| | |].
    + split; simpl; congruence.
    + congruence.
    + eapply rtc_r; [done|]. by right.
Qed.

(** A repeater without requests so far, running or not, with the scripts and the executor it was
    given. *)
Definition ready (x : HttpRequestExecutor) (store : strmap VirtualScript) (cache : C) (s : system) : Prop :=
  (core (sy_world s) = open_core \/ core (sy_world s) = closed_core) /\ ln_store (w_launcher (sy_world s)) = store /\
  o_maxBodySize (x_options x) = Some (ln_maxBodySize (w_launcher (sy_world s))) /\
  sy_flight s = idle x store cache /\ sy_received s = [].

Lemma reachable_system_inv x store cache s0 s :
  ready x store cache s0 -> rtc system_step s0 s -> system_inv x store cache s.
Proof.
  intros (Hc & Hst & Hm & Hf & Hrec) Hr. assert (system_inv x store cache s0) as Hinv.
  { split; [done| | |rewrite Hf; apply rtc_refl].
    - split; by rewrite Hf.
    - by rewrite Hf, Hrec. }
  clear -Hr Hinv agent_ok. induction Hr; eauto using system_step_inv.
Qed.

Hypothesis transfers_end : forall ops, exists raw, transport ops raw.
Hypothesis sessions_stop : sessions_end sessions.

(** The repeater serves what it receives: through any sequence of runs, closes, connection losses,
    reconnections, errors, script and limit updates and requests, interleaved with the requests
    in flight, each request event delivered by the socket has exactly one job, in the order of
    arrival; the executors work with the scripts and the limit the cloud sent last; and when
    nothing more arrives, also after the session was closed, the work ends under every schedule
    with every request answered once. *)
Theorem repeater_serves x store cache s0 s :
  ready x store cache s0 -> rtc system_step s0 s ->
  jb_event <$> fl_jobs (sy_flight s) = sy_received s /\ coupled s /\
  sn target (sy_flight s) /\
  forall f, rtc target (sy_flight s) f -> ~ (exists f2, target f f2) ->
    forall i event, sy_received s !! i = Some event ->
      exists j a, fl_jobs f !! i = Some j /\ jb_event j = event /\ jb_acks j = [a] /\ answered valid_regexp event a.
Proof.
  intros H0 Hr. destruct (reachable_system_inv _ _ _ _ _ H0 Hr) as [_ Hcp Hj Hrun].
  split_and!; [done..|apply target_step_terminates|]. intros f Hf Hstuck i event Hi.
  assert (rtc steps (sy_flight s) f) as Hsf by (eapply rtc_subrel; [|done]; by right).
  rewrite <- Hj, list_lookup_fmap in Hi. destruct (fl_jobs (sy_flight s) !! i) as [j0|] eqn:Hj0; simplify_eq/=.
  destruct (flight_extends _ _ _ _ _ _ _ _ _ _ _ _ _ _ _ _ _ Hsf Hj0) as (j & Hj' & He & _).
  destruct (stuck_answered valid_regexp runInContext apply_handle apply_onResponse transport regexp_test sessions readFile
    extname basename secure_context syntax_error w transfers_end sessions_stop x store cache f i j
    ltac:(by etransitivity) Hstuck Hj') as (a & Ha & Hans).
  exists j, a. split_and!; [done..|]. by rewrite <- He.
Qed.
End system.

(** ** A session with one request *)

Section demo.
#[local] Existing Instances one_host sample_legacy sample_codecs.
#[local] Notation raw := (mk_raw 200 [1; 2]%N [] 1500).
#[local] Notation demo_steps := (system_step (C := strmap Cert) (fun _ => true) (fun _ => Ok [("handle", tt)])
  (fun _ o => Ok o) (fun _ r => Ok ([], None)) (fun _ out => out = Ok raw) (fun _ _ => false)
  (fun _ s => s = mk_session (Ok (101%Z, [])) (Ok tt) [Message "x"; TimerFired]) race_files race_ext id (fun _ _ => true)
  (fun _ => None) (mk_ws_executor sample_http_options None None) direct).
#[local] Notation demo_target := (target_step (C := strmap Cert) (fun _ => Ok [("handle", tt)]) (fun _ r => Ok ([], None))
  (fun _ out => out = Ok raw) (fun _ _ => false)
  (fun _ s => s = mk_session (Ok (101%Z, [])) (Ok tt) [Message "x"; TimerFired]) race_files race_ext id (fun _ _ => true)
  (mk_ws_executor sample_http_options None None)).

Definition demo_ready : system := mk_system initial (idle (C := strmap Cert) demo_executor [] []) [].

Definition demo_world : world := (run direct "uL2zo7Vf" initial).2.

Lemma demo_received : react direct (fun _ => None) (ISocketEvent SocketEvents.REQUEST PNone) demo_world = Ok demo_world.
Proof. vm_compute. reflexivity. Qed.

Lemma demo_session : exists s, rtc demo_steps demo_ready s /\ sy_received s = [demo_event].
Proof.
  eexists. split.
  { eapply rtc_l; [apply (sys_input _ _ _ _ _ _ _ _ _ _ _ _ _ _ _ (IRun "uL2zo7Vf") demo_world); done|].
    eapply rtc_l; [apply (sys_request _ _ _ _ _ _ _ _ _ _ _ _ _ _ _ demo_event demo_world); [done|apply demo_received]|].
    apply rtc_refl. }
  done.
Qed.

Lemma repeater_serves_witness :
  exists s, sy_received s = [demo_event] /\ jb_event <$> fl_jobs (sy_flight s) = [demo_event] /\
    coupled s /\ sn demo_target (sy_flight s).
Proof.
  destruct demo_session as (s & Hr & Hs). exists s. split; [done|].
  assert (CertificatesCacheLaws (strmap Cert)) as CL by apply (DefaultCertificatesCache_laws (H0 := one_host_laws)).
  destruct (repeater_serves (fun _ => true) (fun _ => Ok [("handle", tt)]) (fun _ o => Ok o)
    (fun _ r => Ok ([], None)) (fun _ out => out = Ok raw) (fun _ _ => false)
    (fun _ s => s = mk_session (Ok (101%Z, [])) (Ok tt) [Message "x"; TimerFired]) race_files race_ext id (fun _ _ => true)
    (fun _ => None) (mk_ws_executor sample_http_options None None) direct eq_refl
    ltac:(intros ops; eexists; reflexivity)
    ltac:(intros opts; eexists; split; [reflexivity|]; right; right; simpl; right; left)
    demo_executor [] [] demo_ready s ltac:(split_and!; [by right|done..]) Hr) as (Hj & Hc & Hn & _).
  rewrite Hs in Hj. done.
Defined.
End demo.
