(* ===== verification/Polling.v ===== *)
(** * Polling: [Scan/BasePolling.ts], [Scan/Severity.ts], [Scan/Breakpoints/],
    [Scan/DefaultBreakpointFactory.ts], [Discovery/DiscoveryPolling.ts] and
    [EntryPoint/HostUpdateJobStatusPolling.ts]

    The three loops that wait for a job of the cloud.  The [k]-th answer of the service is
    [status k] and takes [latency k]; time is virtual, in milliseconds, and advances by the
    answers, by the polling interval and by the sleeps of the back-off. *)
From S2P Require Import Prelude Backoff Utils.

(** ** Severities and breakpoints *)

Inductive Severity : Type := MEDIUM | HIGH | LOW | CRITICAL.
#[export] Instance Severity_eq_dec : EqDecision Severity.
Proof. solve_decision. Defined.

Definition Severity_values : list Severity := [MEDIUM; HIGH; LOW; CRITICAL].
Definition Severity_name (s : Severity) : string :=
  match s with MEDIUM => "Medium" | HIGH => "High" | LOW => "Low" | CRITICAL => "Critical" end.

Definition severityRanges (s : Severity) : list Severity :=
  match s with
  | CRITICAL => [CRITICAL]
  | HIGH => [HIGH; CRITICAL]
  | MEDIUM => [MEDIUM; HIGH; CRITICAL]
  | LOW => Severity_values
  end.

Inductive ScanStatus : Type :=
| RUNNING | PENDING | STOPPED | FAILED | DONE | DISRUPTED | SCHEDULED | QUEUED.
#[export] Instance ScanStatus_eq_dec : EqDecision ScanStatus.
Proof. solve_decision. Defined.

Record ScanState : Type := mk_state {
  st_status : ScanStatus;
  numberOfLowSeverityIssues : Z;
  numberOfMediumSeverityIssues : Z;
  numberOfHighSeverityIssues : Z;
  numberOfCriticalSeverityIssues : Z
}.

Definition issues (s : ScanState) (sev : Severity) : Z :=
  match sev with
  | LOW => numberOfLowSeverityIssues s
  | MEDIUM => numberOfMediumSeverityIssues s
  | HIGH => numberOfHighSeverityIssues s
  | CRITICAL => numberOfCriticalSeverityIssues s
  end.

(** [OnSeverity]: the only breakpoint class, given by its severity. *)
Definition isExcepted (severity : Severity) (stats : ScanState) : bool :=
  existsb (fun sev => (0 <? issues stats sev)%Z) (severityRanges severity).
Definition breakOn (severity : Severity) : js_error :=
  named_error "BreakpointException"
    ("Bright CLI found a first " +:+ Severity_name severity +:+ " issue.").
Definition breakpoint_execute (severity : Severity) (state : ScanState) : result js_error unit :=
  if isExcepted severity state then Err (breakOn severity) else Ok tt.

(** [DefaultBreakpointFactory.create]; [None] is null. *)
Definition create_breakpoint (type : string) : option Severity :=
  if type === "any" then Some LOW
  else if type === "high_issue" then Some HIGH
  else if type === "medium_issue" then Some MEDIUM
  else if type === "critical_issue" then Some CRITICAL
  else None.

(** The order of severities. *)
Definition rank (s : Severity) : nat :=
  match s with LOW => 0 | MEDIUM => 1 | HIGH => 2 | CRITICAL => 3 end.

Lemma severityRanges_spec severity s : s ∈ severityRanges severity <-> rank severity <= rank s.
Proof.
  rewrite <- (bool_decide_eq_true (s ∈ severityRanges severity)), <- Nat.leb_le.
  by destruct severity, s.
Qed.

Lemma isExcepted_spec severity state : isExcepted severity state = true <->
  exists s, rank severity <= rank s /\ (0 < issues state s)%Z.
Proof.
  unfold isExcepted. rewrite List.existsb_exists. setoid_rewrite <- list_elem_of_In.
  setoid_rewrite severityRanges_spec. setoid_rewrite Z.ltb_lt. done.
Qed.

(** A breakpoint fires exactly when the scan has at least one issue of its severity or a
    worse one, and lets the scan pass exactly when it has none. *)
Theorem breakpoint_threshold (severity : Severity) (state : ScanState) :
  (breakpoint_execute severity state = Err (breakOn severity) <->
     exists s, rank severity <= rank s /\ (0 < issues state s)%Z) /\
  (breakpoint_execute severity state = Ok tt <->
     forall s, rank severity <= rank s -> (issues state s <= 0)%Z).
Proof.
  pose proof (isExcepted_spec severity state) as Hex.
  unfold breakpoint_execute. destruct (isExcepted severity state).
  - split; [by rewrite <- Hex|]. split; [done|]. intros Hall.
    destruct (proj1 Hex eq_refl) as (s & Hs & Hi). specialize (Hall s Hs). lia.
  - split; [rewrite <- Hex; done|]. split; [|done]. intros _ s Hs.
    destruct (Z_le_gt_dec (issues state s) 0); [done|].
    assert (false = true) by (apply Hex; exists s; lia). done.
Qed.

(** ** [BasePolling] *)

Definition defaultInterval : Z := 10000.

(** The warnings of the constructors; [window] is the timeout they recommend. *)
Definition polling_warnings (window : string) (timeout interval : option Z) : list string :=
  (if (timeout ?? 0 =? 0)%Z
   then ["Warning: It looks like you've been running polling without " +:+ dquote +:+ "timeout" +:+ dquote +:+ " option.";
         "The recommended way to install polling with a minimal timeout: " +:+ window +:+ "."]
   else []) ++
  (if negb (interval ?? 0 =? 0)%Z && (interval ?? 0 <? defaultInterval)%Z
   then ["Warning: The minimal value for polling interval is 10 seconds."] else []).

(** The constructor warns before it asserts that there is a breakpoint. *)
Definition new_BasePolling (timeout interval : option Z) (breakpoint : option Severity) :
    list string * result js_error Severity :=
  (polling_warnings "10-20min" timeout interval,
   match breakpoint with
   | Some severity => Ok severity
   | None => Err (AssertionError "You should choose a breakpoint for polling.")
   end).
Definition new_DiscoveryPolling (timeout interval : option Z) : list string :=
  polling_warnings "10-20min" timeout interval.
Definition new_HostUpdateJobStatusPolling (timeout interval : option Z) : list string :=
  polling_warnings "10-60min" timeout interval.

(** [DefaultPollingFactory.create]. *)
Definition create_polling (timeout interval : option Z) (type : string) : list string * result js_error Severity :=
  new_BasePolling timeout interval (create_breakpoint type).

Definition isRedundant (status : ScanStatus) : bool :=
  bool_decide (status ∈ [DONE; STOPPED; DISRUPTED; FAILED]).

(** How [start] ends: the scan is over, the timeout was noticed, or an exception (of the breakpoint
    or of the service) leaves it. *)
Inductive poll_end : Type :=
| PollOver
| PollTimedOut
| PollThrown (e : js_error).

(** The end, the states observed in order, the time and the number of answers used. *)
Record poll_run : Type := mk_poll {
  pr_end : poll_end;
  pr_seen : list ScanState;
  pr_now : Z;
  pr_query : nat
}.

(** A timeout or interval of 0 counts as absent ([timeout]) or as given ([interval]). *)
Definition deadline (timeout : option Z) : option Z :=
  match timeout with Some t => if (t =? 0)%Z then None else Some t | None => None end.
Definition active (timeout : option Z) (now : Z) : bool :=
  match deadline timeout with Some t => (now <? t)%Z | None => true end.

(** One query through a fresh [Backoff]. *)
Definition query {A} (status : nat -> result js_error A) (q : nat) : run nat A :=
  execute DEFAULT_RECONNECT_TIMES shouldRetry_polling (fun q => (status q, S q)) 0 q.

(** The time a query takes: its sleeps and the answers it waited for. *)
Definition spent {A} (latency : nat -> Z) (q : nat) (r : run nat A) : Z :=
  total (r_delays r) + total (latency <$> seq q (r_world r - q)).

Definition seen (s : ScanState) (r : poll_run) : poll_run :=
  mk_poll (pr_end r) (s :: pr_seen r) (pr_now r) (pr_query r).

Section polling.
Context (status : nat -> result js_error ScanState) (latency : nat -> Z).
Context (timeout interval : option Z) (severity : Severity).

Fixpoint poll (fuel : nat) (now : Z) (q : nat) : option poll_run :=
  match fuel with
  | 0 => None
  | S fuel =>
      if active timeout now then
        let now := (now + (interval ?? defaultInterval))%Z in
        let r := query status q in
        let now := (now + spent latency q r)%Z in
        match r_result r with
        | Err e => Some (mk_poll (PollThrown e) [] now (r_world r))
        | Ok state =>
            if isRedundant (st_status state)
            then Some (mk_poll PollOver [state] now (r_world r))
            else
              match breakpoint_execute severity state with
              | Err e => Some (mk_poll (PollThrown e) [state] now (r_world r))
              | Ok _ => seen state <$> poll fuel now (r_world r)
              end
        end
      else Some (mk_poll PollTimedOut [] now q)
  end.

(** [start]: the run from time 0, its message and that of [stop] (which reports a timeout when
    the loop is left after the timer fired). *)
Definition start (fuel : nat) : option (poll_run * list string) :=
  match poll fuel 0 0 with
  | None => None
  | Some r => Some (r, "Starting polling..." :: if active timeout (pr_now r) then []
                       else ["Polling has been terminated by timeout."])
  end.
End polling.

(** ** Properties of [BasePolling] *)

Lemma total_nonneg l : Forall (fun d => 0 <= d)%Z l -> (0 <= total l)%Z.
Proof. induction 1; unfold total in *; simpl in *; lia. Qed.

Lemma query_delays {A} (status : nat -> result js_error A) q : (0 <= total (r_delays (query status q)))%Z.
Proof.
  apply total_nonneg. unfold query.
  destruct (attempts_shape _ _ _ 0 q _ (execute_attempts DEFAULT_RECONNECT_TIMES shouldRetry_polling
    (fun q => (status q, S q)) 0 q)) as (_ & _ & ->).
  apply Forall_fmap, Forall_forall. intros k _. unfold compose, retry_delay. lia.
Qed.

Lemma spent_nonneg {A} (status : nat -> result js_error A) latency q :
  (forall k, 0 <= latency k)%Z -> (0 <= spent latency q (query status q))%Z.
Proof.
  intros Hl. unfold spent. pose proof (query_delays status q).
  assert (0 <= total (latency <$> seq q (r_world (query status q) - q)))%Z; [|lia].
  apply total_nonneg, Forall_fmap, Forall_forall. intros k _. apply Hl.
Qed.

(** A state that lets the loop go on. *)
Definition quiet (severity : Severity) (s : ScanState) : Prop :=
  isRedundant (st_status s) = false /\ isExcepted severity s = false.

(** What the end of a run says about the states it has seen. *)
Definition verdict_ok (status : nat -> result js_error ScanState) (timeout : option Z)
    (severity : Severity) (r : poll_run) : Prop :=
  match pr_end r with
  | PollOver => exists before s, pr_seen r = before ++ [s] /\ Forall (quiet severity) before /\
      isRedundant (st_status s) = true
  | PollTimedOut => Forall (quiet severity) (pr_seen r) /\
      exists t, deadline timeout = Some t /\ (t <= pr_now r)%Z
  | PollThrown e =>
      (exists before s, pr_seen r = before ++ [s] /\ Forall (quiet severity) before /\
         isRedundant (st_status s) = false /\ isExcepted severity s = true /\ e = breakOn severity) \/
      Forall (quiet severity) (pr_seen r) /\ exists q, r_result (query status q) = Err e
  end.

Lemma verdict_seen status timeout severity s r :
  quiet severity s -> verdict_ok status timeout severity r ->
  verdict_ok status timeout severity (seen s r).
Proof.
  intros Hs. unfold verdict_ok, seen. simpl. destruct (pr_end r).
  - intros (before & l & -> & ? & ?). exists (s :: before), l. auto.
  - intros [? ?]. auto.
  - intros [(before & l & -> & ? & ? & ? & ?)|[? ?]]; [left|right; auto].
    exists (s :: before), l. split_and!; auto.
Qed.

(** A run of the scan polling means what it says: it ends normally only on a finished scan or
    after the timeout, and it throws only the breakpoint's exception, on a state that has
    such an issue, or an error of the service that the back-off gave up on; every state seen
    before the last was unfinished and without such an issue. *)
Theorem poll_verdict status latency timeout interval severity fuel now q r :
  poll status latency timeout interval severity fuel now q = Some r ->
  verdict_ok status timeout severity r.
Proof.
  revert now q r. induction fuel as [|fuel IH]; intros now q r; simpl; [done|].
  destruct (active timeout now) eqn:Ha.
  - destruct (r_result (query status q)) as [state|e] eqn:Hq.
    + destruct (isRedundant (st_status state)) eqn:Hred.
      { intros [= <-]. by exists [], state. }
      unfold breakpoint_execute. destruct (isExcepted severity state) eqn:Hex.
      { intros [= <-]. left. by exists [], state. }
      destruct (poll _ _ _ _ _ _ _ _) as [r'|] eqn:Hr; [|done]. intros [= <-].
      apply verdict_seen; [done|]. by eapply IH.
    + intros [= <-]. right. simpl. eauto.
  - intros [= <-]. split; [constructor|]. unfold active in Ha. simpl.
    destruct (deadline timeout) as [t|]; [|done]. exists t. split; [done|]. lia.
Qed.

Lemma poll_fuel status latency timeout interval severity t fuel now q :
  (forall k, 0 <= latency k)%Z -> deadline timeout = Some t -> (0 < interval ?? defaultInterval)%Z -> 0 < fuel ->
  (t - now <= (Z.of_nat fuel - 1) * (interval ?? defaultInterval))%Z ->
  is_Some (poll status latency timeout interval severity fuel now q).
Proof.
  intros Hl Ht Hi. revert now q. induction fuel as [|fuel IH]; intros now q Hf Hb; [lia|]. simpl.
  destruct (active timeout now) eqn:Ha; [|by eexists].
  unfold active in Ha. rewrite Ht in Ha.
  destruct (r_result (query status q)) as [state|e]; [|by eexists].
  case_match; [by eexists|]. case_match; [|by eexists].
  pose proof (spent_nonneg status latency q Hl) as Hd.
  destruct (IH (now + (interval ?? defaultInterval) + spent latency q (query status q))%Z
    (r_world (query status q))) as [r ->]; [nia..|by eexists].
Qed.

(** C25: with a timeout the polling always ends, whatever the service answers and however long its
    answers take: no more than one poll per interval within the timeout, and one more. *)
Theorem poll_terminates status latency timeout interval severity t :
  (forall k, 0 <= latency k)%Z -> deadline timeout = Some t -> (0 < t)%Z -> (0 < interval ?? defaultInterval)%Z ->
  is_Some (start status latency timeout interval severity
             (Z.to_nat (t / (interval ?? defaultInterval)) + 2)).
Proof.
  intros Hl Ht Htp Hi. unfold start.
  destruct (poll_fuel status latency timeout interval severity t
    (Z.to_nat (t / (interval ?? defaultInterval)) + 2) 0 0) as [r ->]; [done..|lia| |by eexists].
  pose proof (Z.div_pos t (interval ?? defaultInterval) ltac:(lia) Hi).
  pose proof (Z.mul_succ_div_gt t (interval ?? defaultInterval) Hi). lia.
Qed.

(** The breakpoint never sees the final state: a scan found finished by a poll ends the run
    without an exception, even if that state reports issues the breakpoint is set for. *)
Theorem final_state_unchecked status latency timeout interval severity fuel now q state :
  active timeout now = true -> r_result (query status q) = Ok state ->
  isRedundant (st_status state) = true ->
  exists r, poll status latency timeout interval severity (S fuel) now q = Some r /\
    pr_end r = PollOver /\ pr_seen r = [state].
Proof. intros Ha Hq Hr. simpl. rewrite Ha, Hq, Hr. by eexists. Qed.

Definition two_polls (k : nat) : result js_error ScanState :=
  match k with
  | 0 => Ok (mk_state RUNNING 1 0 0 0)
  | _ => Ok (mk_state DONE 1 0 0 7)
  end.

Lemma poll_verdict_witness :
  verdict_ok two_polls (Some 60000%Z) CRITICAL
    (mk_poll PollOver [mk_state RUNNING 1 0 0 0; mk_state DONE 1 0 0 7] 20060 2).
Proof.
  apply (poll_verdict two_polls (fun _ => 30%Z) (Some 60000%Z) None CRITICAL 5 0 0). vm_compute. reflexivity.
Defined.

Lemma poll_terminates_witness : is_Some (start two_polls (fun _ => 30%Z) (Some 60000%Z) None HIGH 8).
Proof.
  apply (poll_terminates two_polls (fun _ => 30%Z) (Some 60000%Z) None HIGH 60000);
    [intros _; lia|vm_compute; reflexivity..].
Defined.

Lemma final_state_unchecked_witness :
  exists r, poll two_polls (fun _ => 30%Z) None None CRITICAL 1 0 1 = Some r /\
    pr_end r = PollOver /\ pr_seen r = [mk_state DONE 1 0 0 7].
Proof.
  apply (final_state_unchecked two_polls (fun _ => 30%Z) None None CRITICAL 0 0 1); vm_compute; reflexivity.
Defined.

(** ** [DiscoveryPolling] and [HostUpdateJobStatusPolling]

    The two loops are the same up to the view they poll and the message of a fatal error; the
    timer aborts a signal that also interrupts the delay between polls. *)

Section view_polling.
Context {V : Type} (get_view : nat -> result js_error (option V)) (latency : nat -> Z).
Context (timeout interval : option Z).
(** [processView]: the messages logged for a view and whether to go on. *)
Context (processView : option V -> list string * bool).
(** The messages [handleError] logs before it exits. *)
Context (errorLog : js_error -> list string).

(** How [start] ends: a final view, the timeout, or [process.exit(1)]. *)
Inductive view_end : Type :=
| ViewFinished
| ViewStopped
| ViewExit (code : Z).

Record view_run : Type := mk_view {
  vr_end : view_end;
  vr_log : list string;
  vr_now : Z
}.

Definition logged (l : list string) (r : view_run) : view_run :=
  mk_view (vr_end r) (l ++ vr_log r) (vr_now r).

Definition aborted (now : Z) : bool := negb (active timeout now).

(** Waiting for the interval: when the timer fires meanwhile the wait throws an AbortError, which
    [handleError] ignores because the signal is aborted. *)
Definition interrupted (now : Z) : option Z :=
  match deadline timeout with
  | Some t => if (t <=? now + (interval ?? defaultInterval))%Z then Some (Z.max now t) else None
  | None => None
  end.

Fixpoint view_poll (fuel : nat) (now : Z) (q : nat) : option view_run :=
  match fuel with
  | 0 => None
  | S fuel =>
      if aborted now then Some (mk_view ViewStopped [] now)
      else
        let r := query get_view q in
        let now := (now + spent latency q r)%Z in
        match r_result r with
        | Err e =>
            if aborted now then Some (mk_view ViewStopped [] now)
            else Some (mk_view (ViewExit 1) (errorLog e) now)
        | Ok view =>
            let '(messages, shouldContinue) := processView view in
            if negb shouldContinue then Some (mk_view ViewFinished messages now)
            else match interrupted now with
                 | Some t => Some (mk_view ViewStopped messages t)
                 | None => logged messages <$>
                     view_poll fuel (now + (interval ?? defaultInterval))%Z (r_world r)
                 end
        end
  end.

Lemma view_poll_fuel t fuel now q :
  (forall k, 0 <= latency k)%Z -> deadline timeout = Some t -> (0 < interval ?? defaultInterval)%Z -> 0 < fuel ->
  (t - now <= (Z.of_nat fuel - 1) * (interval ?? defaultInterval))%Z ->
  exists r, view_poll fuel now q = Some r /\
    (vr_end r = ViewStopped -> (t <= vr_now r)%Z).
Proof.
  intros Hl Ht Hi. revert now q. induction fuel as [|fuel IH]; intros now q Hf Hb; [lia|]. simpl.
  unfold aborted, active. rewrite Ht. destruct (now <? t)%Z eqn:Ha; simpl.
  2: { eexists. split; [done|]. simpl. lia. }
  pose proof (spent_nonneg get_view latency q Hl) as Hd.
  destruct (r_result (query get_view q)) as [view|e].
  - destruct (processView view) as [messages go]. destruct go; simpl.
    2: { eexists. by split. }
    unfold interrupted. rewrite Ht. case_match eqn:Hc.
    + case_match; simplify_eq. eexists. split; [done|]. simpl. lia.
    + case_match; simplify_eq.
      destruct (IH (now + spent latency q (query get_view q) + (interval ?? defaultInterval))%Z
        (r_world (query get_view q))) as (r & -> & Hr); [nia..|].
      eexists. split; [done|]. exact Hr.
  - destruct (now + spent latency q (query get_view q) <? t)%Z eqn:Hlt; simpl;
      eexists; split; try done; simpl; lia.
Qed.
End view_polling.

(** *** Discoveries *)

Inductive DiscoveryStatus : Type :=
| DRunning | DPending | DStopped | DFailed | DDone | DDisrupted | DScheduled | DQueued.
#[export] Instance DiscoveryStatus_eq_dec : EqDecision DiscoveryStatus.
Proof. solve_decision. Defined.

Definition DiscoveryStatus_value (s : DiscoveryStatus) : string :=
  match s with
  | DRunning => "running" | DPending => "pending" | DStopped => "stopped" | DFailed => "failed"
  | DDone => "done" | DDisrupted => "disrupted" | DScheduled => "scheduled" | DQueued => "queued"
  end.

Definition isFinished (s : DiscoveryStatus) : bool :=
  bool_decide (s ∈ [DDone; DStopped; DDisrupted; DFailed]).

Definition handleDiscoveryStatus (s : DiscoveryStatus) : string :=
  match s with
  | DRunning => "Discovery is running."
  | DPending => "Discovery is pending."
  | DScheduled => "Discovery is scheduled."
  | DQueued => "Discovery is queued."
  | DDone => "Discovery has been completed."
  | DStopped => "Discovery has been stopped."
  | DDisrupted => "Discovery has been disrupted."
  | DFailed => "Discovery has failed."
  end.

Definition processDiscoveryView (view : option DiscoveryStatus) : list string * bool :=
  match view with
  | None => (["The discovery has not been found."], false)
  | Some s =>
      if isFinished s
      then ([handleDiscoveryStatus s;
             "The discovery has been finished with status: " +:+ DiscoveryStatus_value s +:+ "."], false)
      else ([handleDiscoveryStatus s], true)
  end.

(** The message of a fatal error is built and dropped. *)
Definition discovery_errorLog (e : js_error) : list string :=
  let message := genericCommandError (ForCommand "discovery:polling" (TError e)) in [].

(** *** Host updates *)

Inductive JobStatus : Type := JPending | JProcessing | JCompleted | JFailed.
#[export] Instance JobStatus_eq_dec : EqDecision JobStatus.
Proof. solve_decision. Defined.

Definition JobStatus_value (s : JobStatus) : string :=
  match s with
  | JPending => "pending" | JProcessing => "processing" | JCompleted => "completed"
  | JFailed => "failed"
  end.

Definition job_isFinished (s : JobStatus) : bool := bool_decide (s ∈ [JCompleted; JFailed]).

Definition handleJobStatus (s : JobStatus) : string :=
  match s with
  | JPending => "Host update job is pending."
  | JProcessing => "Host update job is processing."
  | JCompleted => "Host update job has been completed."
  | JFailed => "Host update job has failed."
  end.

Definition processJobView (job : option JobStatus) : list string * bool :=
  match job with
  | None => (["The host update job has not been found."], false)
  | Some s =>
      if job_isFinished s
      then ([handleJobStatus s;
             "The host update job has been finished with status: " +:+ JobStatus_value s +:+ "."], false)
      else ([handleJobStatus s], true)
  end.

Definition job_errorLog (e : js_error) : list string :=
  [genericCommandError (ForCommand "entrypoints:update-host-polling" (TError e))].

Definition discovery_polling get_view latency timeout interval fuel : option view_run :=
  view_poll get_view latency timeout interval processDiscoveryView discovery_errorLog fuel 0 0.
Definition host_update_polling get_view latency timeout interval fuel : option view_run :=
  view_poll get_view latency timeout interval processJobView job_errorLog fuel 0 0.

(** With a timeout both pollings always end, within one poll per interval and one more, and they
    report being stopped only once the timeout has passed. *)
Theorem view_polling_terminates latency timeout interval t :
  (forall k, 0 <= latency k)%Z -> deadline timeout = Some t -> (0 < t)%Z -> (0 < interval ?? defaultInterval)%Z ->
  let fuel := Z.to_nat (t / (interval ?? defaultInterval)) + 2 in
  (forall get_view, exists r, discovery_polling get_view latency timeout interval fuel = Some r /\
     (vr_end r = ViewStopped -> (t <= vr_now r)%Z)) /\
  (forall get_view, exists r, host_update_polling get_view latency timeout interval fuel = Some r /\
     (vr_end r = ViewStopped -> (t <= vr_now r)%Z)).
Proof.
  intros Hl Ht Htp Hi fuel.
  pose proof (Z.div_pos t (interval ?? defaultInterval) ltac:(lia) Hi).
  pose proof (Z.mul_succ_div_gt t (interval ?? defaultInterval) Hi).
  split; intros get_view; (apply view_poll_fuel; [done..|lia|lia]).
Qed.

Lemma view_polling_terminates_witness :
  exists r, discovery_polling (fun _ => Ok (Some DRunning)) (fun _ => 30%Z) (Some 25000%Z) None 4 = Some r /\
    (vr_end r = ViewStopped -> (25000 <= vr_now r)%Z).
Proof.
  destruct (view_polling_terminates (fun _ => 30%Z) (Some 25000%Z) None 25000) as [Hd _];
    [intros _; lia|vm_compute; reflexivity..|].
  apply Hd.
Defined.

(** A fatal error of a discovery poll ends the process with code 1 and no explanation: nothing is
    logged for the error. *)
Theorem discovery_error_silent get_view latency timeout interval fuel e :
  active timeout 0 = true -> active timeout (spent latency 0 (query get_view 0)) = true ->
  r_result (query get_view 0) = Err e ->
  exists now, discovery_polling get_view latency timeout interval (S fuel) =
    Some (mk_view (ViewExit 1) [] now).
Proof.
  intros H0 H1 Hq. unfold discovery_polling. cbn [view_poll]. unfold aborted.
  rewrite H0, Hq, Z.add_0_l, H1. by eexists.
Qed.
