(* ===== verification/Api.v ===== *)
(** * REST clients: [Scan/RestScans.ts], [Discovery/RestDiscoveries.ts] and
    [EntryPoint/RestEntryPoints.ts]

    The requests sent to the Bright API are data: method, path, query and body; the API is a
    parameter that answers them. *)
From S2P Require Import Prelude Request Proxy.

(** ** Client *)

(** The agents and headers of the axios instance; [None] is a plain Node agent. *)
Record ApiClient : Type := mk_client {
  ac_baseURL : string;
  ac_timeout : option Z;
  ac_httpAgent : option Agent;
  ac_httpsAgent : option Agent;
  ac_rejectUnauthorized : bool;
  ac_authorization : string
}.

Record RestOptions : Type := mk_rest_options {
  ra_baseURL : string;
  ra_apiKey : string;
  ra_timeout : option Z;
  ra_insecure : bool;
  ra_proxyURL : option string
}.

(** The constructor, the same in the three clients. *)
Definition new_client `{UrlApi} (o : RestOptions) : result js_error ApiClient :=
  agents ← (if truthy_opt (ra_proxyURL o)
            then p ← createProxy (ra_proxyURL o ?? "") (Some (negb (ra_insecure o)));
                 Ok (Some (httpAgent p), Some (httpsAgent p))
            else Ok (None, None));
  Ok (mk_client (ra_baseURL o) (ra_timeout o) agents.1 agents.2 (negb (ra_insecure o))
        ("Api-Key " +:+ ra_apiKey o)).

(** ** Attack parameter locations *)

Definition ARTIFICAL_FRAGMENT : string := "artifical-fragment".
Definition ARTIFICAL_QUERY : string := "artifical-query".
Definition ARTIFICIAL_FRAGMENT : string := "artificial-fragment".
Definition ARTIFICIAL_QUERY : string := "artificial-query".
Definition ATTACK_PARAM_LOCATIONS_DEFAULT : list string := ["body"; "fragment"; "query"].

(** One replacement: drop the deprecated name and add the new one unless it is there. *)
Definition replace_location (old new : string) (locs : list string) : list string :=
  if bool_decide (old ∈ locs) then
    let locs := base.filter (fun loc => loc <> old) locs in
    if bool_decide (new ∈ locs) then locs else locs ++ [new]
  else locs.

Definition replaceDeprecatedAttackParamLocations (locs : option (list string)) :
    option (list string) :=
  (fun locs => replace_location ARTIFICAL_QUERY ARTIFICIAL_QUERY
                 (replace_location ARTIFICAL_FRAGMENT ARTIFICIAL_FRAGMENT locs)) <$> locs.

(** The current name of a location. *)
Definition canonical (loc : string) : string :=
  if loc === ARTIFICAL_FRAGMENT then ARTIFICIAL_FRAGMENT
  else if loc === ARTIFICAL_QUERY then ARTIFICIAL_QUERY
  else loc.

Lemma replace_location_spec old new locs :
  old <> new ->
  (forall x, x ∈ replace_location old new locs <->
     exists y, y ∈ locs /\ x = if y === old then new else y) /\
  (NoDup locs -> NoDup (replace_location old new locs)).
Proof.
  intros Hne. unfold replace_location. destruct (bool_decide_reflect (old ∈ locs)) as [Ho|Ho].
  2: { split; [|done]. intros x. split.
       - intros Hx. exists x. split; [done|]. rewrite eqb_neq; [done|]. congruence.
       - intros (y & Hy & ->). rewrite eqb_neq; [done|]. congruence. }
  set (rest := base.filter (fun loc => loc <> old) locs).
  assert (Hrest : forall x, x ∈ rest <-> x <> old /\ x ∈ locs) 
    by (intros; unfold rest; by rewrite list_elem_of_filter).
  assert (Hall : forall x, (x ∈ rest \/ x = new) <->
    exists y, y ∈ locs /\ x = if y === old then new else y).
  { intros x. split.
    - intros [[Hx Hin]%Hrest| ->]; [exists x; by rewrite eqb_neq|exists old; by rewrite eqb_refl].
    - intros (y & Hy & ->). destruct (eqbP y old) as [->|Hn]; [by right|left; by apply Hrest]. }
  destruct (bool_decide_reflect (new ∈ rest)) as [Hn|Hn]; split.
  - intros x. rewrite <- Hall. naive_solver.
  - intros Hd. by apply NoDup_filter.
  - intros x. rewrite elem_of_app, list_elem_of_singleton. apply Hall.
  - intros Hd. apply NoDup_app. split_and!; [by apply NoDup_filter| |apply NoDup_singleton].
    intros x Hx ->%list_elem_of_singleton. done.
Qed.

(** The deprecated, misspelt locations never reach the API: the locations sent are exactly the
    current names of those configured, each configured location is covered, and no duplicates
    are introduced. *)
Theorem deprecated_locations_replaced (locs : list string) :
  exists out, replaceDeprecatedAttackParamLocations (Some locs) = Some out /\
    (forall x, x ∈ out <-> exists y, y ∈ locs /\ x = canonical y) /\
    (ARTIFICAL_FRAGMENT ∉ out) /\ (ARTIFICAL_QUERY ∉ out) /\ (NoDup locs -> NoDup out).
Proof.
  eexists. split; [done|].
  destruct (replace_location_spec ARTIFICAL_FRAGMENT ARTIFICIAL_FRAGMENT locs) as [H1 D1]; [done|].
  destruct (replace_location_spec ARTIFICAL_QUERY ARTIFICIAL_QUERY
    (replace_location ARTIFICAL_FRAGMENT ARTIFICIAL_FRAGMENT locs)) as [H2 D2]; [done|].
  assert (Hspec : forall x, x ∈ replace_location ARTIFICAL_QUERY ARTIFICIAL_QUERY
    (replace_location ARTIFICAL_FRAGMENT ARTIFICIAL_FRAGMENT locs) <->
    exists y, y ∈ locs /\ x = canonical y).
  { intros x. rewrite H2. setoid_rewrite H1. unfold canonical. split.
    - intros (z & (y & Hy & ->) & ->). exists y. split; [done|].
      by destruct (eqbP y ARTIFICAL_FRAGMENT).
    - intros (y & Hy & ->). eexists. split; [by exists y|].
      by destruct (eqbP y ARTIFICAL_FRAGMENT). }
  split_and!; [done| | |auto]; rewrite Hspec; intros (y & _ & Hy); unfold canonical in Hy;
    repeat case_eqb; congruence.
Qed.

(** ** Scan configuration *)

Record Exclusions : Type := mk_exclusions {
  ex_params : option (list string);
  ex_requests : option (list (list string * list string))
}.

Record Header : Type := mk_header { h_name : string; h_value : string; h_mergeStrategy : string }.

(** The fields of a scan configuration the client reads or changes; the others (name, module,
    tests, ...) pass through unread and are carried in [sc_rest]. *)
Record ScanConfig (R : Type) : Type := mk_scan_config {
  sc_rest : R;
  sc_templateId : option string;
  sc_fileId : option string;
  sc_crawlerUrls : option (list string);
  sc_attackParamLocations : option (list string);
  sc_discoveryTypes : option (list string);
  sc_exclusions : option Exclusions;
  sc_headers : option (strmap string)
}.
Arguments mk_scan_config {R}.
Arguments sc_rest {R}.
Arguments sc_templateId {R}.
Arguments sc_fileId {R}.
Arguments sc_crawlerUrls {R}.
Arguments sc_attackParamLocations {R}.
Arguments sc_discoveryTypes {R}.
Arguments sc_exclusions {R}.
Arguments sc_headers {R}.

(** What is posted: the configuration without its headers record, the headers as a list, and the
    client's name and version. *)
Record ScanRequest (R : Type) : Type := mk_scan_request {
  sq_config : ScanConfig R;
  sq_headers : option (list Header);
  sq_source : string;
  sq_client : string * string
}.
Arguments mk_scan_request {R}.
Arguments sq_config {R}.
Arguments sq_headers {R}.
Arguments sq_source {R}.
Arguments sq_client {R}.

Section config.
Context {R : Type} (version : string).
(** The type of a stored file, from GET /api/v2/files/id. *)
Context (file_type : string -> result js_error string).

Definition exploreDiscovery (fileId : option string) (crawlerUrls : option (list string)) :
    result js_error (list string) :=
  let discoveryTypes := match crawlerUrls with Some _ => ["crawler"] | None => [] end in
  if truthy_opt fileId then
    match file_type (fileId ?? "") with
    | Ok type => Ok (discoveryTypes ++ [if type === "har" then "archive" else "oas"])
    | Err _ => throw ("Error loading file with id " +:+ dquote +:+ (fileId ?? "") +:+ dquote +:+
                      ": No such file or you do not have permissions.")
    end
  else Ok discoveryTypes.

(** An array is truthy even when it is empty. *)
Definition keep_exclusions (e : option Exclusions) : option Exclusions :=
  match e with
  | Some x => match ex_params x, ex_requests x with None, None => None | _, _ => Some x end
  | None => None
  end.

Definition nonempty_types (types : list string) : option (list string) :=
  match types with [] => None | _ => Some types end.

Definition header_list (headers : option (strmap string)) : option (list Header) :=
  match headers with
  | Some h => Some (List.map (fun '(name, value) => mk_header name value "replace") h)
  | None => None
  end.

Definition applyDefaultSettings (c : ScanConfig R) : result js_error (ScanConfig R) :=
  let attackParamLocations :=
    sc_attackParamLocations c ???
    (if truthy_opt (sc_templateId c) then None else Some ATTACK_PARAM_LOCATIONS_DEFAULT) in
  let exclusions := keep_exclusions (sc_exclusions c) in
  types ← exploreDiscovery (sc_fileId c) (sc_crawlerUrls c);
  Ok (mk_scan_config (sc_rest c) (sc_templateId c) (sc_fileId c) (sc_crawlerUrls c)
        attackParamLocations (nonempty_types types) exclusions None).

Definition prepareScanConfig (c : ScanConfig R) : result js_error (ScanRequest R) :=
  config ← applyDefaultSettings c;
  let config := mk_scan_config (sc_rest config) (sc_templateId config) (sc_fileId config)
    (sc_crawlerUrls config) (replaceDeprecatedAttackParamLocations (sc_attackParamLocations config))
    (sc_discoveryTypes config) (sc_exclusions config) None in
  Ok (mk_scan_request config (header_list (sc_headers c)) "cli" ("bright-cli", version)).

(** [RestDiscoveries.prepareConfig]: the same without attack locations. *)
Definition prepareConfig (c : ScanConfig R) : result js_error (ScanRequest R) :=
  let exclusions := keep_exclusions (sc_exclusions c) in
  types ← exploreDiscovery (sc_fileId c) (sc_crawlerUrls c);
  Ok (mk_scan_request
        (mk_scan_config (sc_rest c) (sc_templateId c) (sc_fileId c) (sc_crawlerUrls c)
           (sc_attackParamLocations c) (nonempty_types types) exclusions None)
        (header_list (sc_headers c)) "cli" ("bright-cli", version)).
End config.

(** The calls of the two clients: method, path, body. *)
Inductive ApiCall (B : Type) : Type :=
| GET (path : string)
| POST (path : string) (body : option B)
| PUT (path : string) (body : string)
| DELETE (path : string).
Arguments GET {B}.
Arguments POST {B}.
Arguments PUT {B}.
Arguments DELETE {B}.

Definition scan_path (scanId : string) : string := "/api/v1/scans/" +:+ scanId.
Definition scans_create {R} version file_type (c : ScanConfig R) :
    result js_error (ApiCall (ScanRequest R)) :=
  config ← prepareScanConfig version file_type c; Ok (POST "/api/v1/scans" (Some config)).
Definition scans_retest {B} (scanId : string) : ApiCall B := POST (scan_path scanId +:+ "/retest") None.
Definition scans_status {B} (scanId : string) : ApiCall B := GET (scan_path scanId).
Definition scans_stop {B} (scanId : string) : ApiCall B := GET (scan_path scanId +:+ "/stop").
Definition scans_delete {B} (scanId : string) : ApiCall B := DELETE (scan_path scanId).

Definition discovery_path (projectId discoveryId : string) : string :=
  "/api/v2/projects/" +:+ projectId +:+ "/discoveries/" +:+ discoveryId.
Definition discoveries_create {R} version file_type (projectId : string) (c : ScanConfig R) :
    result js_error (ApiCall (ScanRequest R)) :=
  config ← prepareConfig version file_type c;
  Ok (POST ("/api/v2/projects/" +:+ projectId +:+ "/discoveries") (Some config)).
Definition discoveries_rerun {B} (projectId discoveryId : string) : ApiCall B :=
  POST (discovery_path projectId discoveryId +:+ "/rerun") None.
Definition discoveries_stop {B} (projectId discoveryId : string) : ApiCall B :=
  PUT (discovery_path projectId discoveryId +:+ "/lifecycle") "stop".
Definition discoveries_delete {B} (projectId discoveryId : string) : ApiCall B :=
  DELETE (discovery_path projectId discoveryId).
Definition discoveries_get {B} (projectId discoveryId : string) : ApiCall B :=
  GET (discovery_path projectId discoveryId).

(** ** [RestEntryPoints] *)

Record UpdateHostBody : Type := mk_update_host {
  uh_oldHostname : string;
  uh_newHostname : string;
  uh_entryPointIds : option (list string)
}.

Definition update_host_path (projectId : string) : string :=
  "/api/v2/projects/" +:+ projectId +:+ "/entry-points/update-host".
Definition updateHost (projectId : string) (body : UpdateHostBody) : ApiCall UpdateHostBody :=
  POST (update_host_path projectId) (Some body).
Definition getHostUpdateJobStatus {B} (projectId jobId : string) : ApiCall B :=
  GET (update_host_path projectId +:+ "/" +:+ jobId).

Definition entrypointsPaginationBatchSize : Z := 50.

Section entrypoints.
Context {E Cursor : Type} (cursor_of : E -> Cursor).
(** The page after a cursor, with at most so many items. *)
Context (get_page : option Cursor -> Z -> result js_error (list E)).

(** The [while] loop: what is still wanted, the data so far, the cursor. *)
Fixpoint paginate (fuel : nat) (remaining : Z) (data : list E) (next : option Cursor) :
    option (result js_error (list E)) :=
  match fuel with
  | 0 => None
  | S fuel =>
      if (0 <? remaining)%Z then
        match get_page next (Z.min remaining entrypointsPaginationBatchSize) with
        | Err e => Some (Err e)
        | Ok items =>
            match last items with
            | None => Some (Ok data)
            | Some item =>
                paginate fuel (remaining - entrypointsPaginationBatchSize)%Z (data ++ items)
                  (Some (cursor_of item))
            end
        end
      else Some (Ok data)
  end.

(** One iteration per batch and one that finds nothing left to fetch. *)
Definition pages (limit : Z) : nat := Z.to_nat ((limit + 49) / 50) + 1.
Definition entrypoints (limit : option Z) : option (result js_error (list E)) :=
  let limit := limit ?? 10%Z in paginate (pages limit) limit [] None.

(** A service that lists [all] in order and continues after the cursor of an entry. *)
Definition lists (all : list E) : Prop :=
  (forall n, (0 < n)%Z -> get_page None n = Ok (take (Z.to_nat n) all)) /\
  forall before item after n, all = before ++ item :: after -> (0 < n)%Z ->
    get_page (Some (cursor_of item)) n = Ok (take (Z.to_nat n) after).

Lemma paginate_lists all fuel remaining data rest :
  lists all -> all = data ++ rest -> (remaining <= (Z.of_nat fuel - 1) * 50)%Z -> 0 < fuel ->
  paginate fuel remaining data (cursor_of <$> last data) =
    Some (Ok (data ++ take (Z.to_nat remaining) rest)).
Proof.
  intros Hl. revert remaining data rest.
  induction fuel as [|fuel IH]; intros remaining data rest Hall Hr Hf; [lia|]. simpl.
  destruct (Z.ltb_spec 0 remaining) as [Hp|Hp].
  2: { by rewrite (Z2Nat.nonpos remaining), take_0, app_nil_r by lia. }
  unfold entrypointsPaginationBatchSize. set (n := Z.min remaining 50).
  assert (Hget : get_page (cursor_of <$> last data) n = Ok (take (Z.to_nat n) rest)).
  { destruct (last data) as [item|] eqn:Hlast; simpl.
    - apply last_Some in Hlast as [before ->]. apply (proj2 Hl before item rest n); [|lia].
      by rewrite <- (assoc_L (++)) in Hall.
    - apply last_None in Hlast as ->. rewrite (proj1 Hl n) by lia. by rewrite Hall. }
  rewrite Hget. destruct (last (take (Z.to_nat n) rest)) as [item|] eqn:Hitem.
  - assert (Some (cursor_of item) = cursor_of <$> last (data ++ take (Z.to_nat n) rest)) as ->.
    { by rewrite last_app, Hitem. }
    rewrite (IH _ _ (drop (Z.to_nat n) rest)).
    + rewrite <- (assoc_L (++)). do 3 f_equal. unfold n.
      destruct (Z.le_gt_cases remaining 50).
      * rewrite Z.min_l, (Z2Nat.nonpos (remaining - 50)), take_0, app_nil_r by lia. done.
      * rewrite Z.min_r by lia. replace (Z.to_nat remaining) with (Z.to_nat 50 + Z.to_nat (remaining - 50)) by lia.
        by rewrite take_take_drop.
    + by rewrite <- (assoc_L (++)), take_drop.
    + unfold n in *. lia.
    + unfold n in *. nia.
  - apply last_None in Hitem. assert (rest = []) as ->.
    { destruct rest; [done|]. destruct (Z.to_nat n) eqn:Hn; [lia|done]. }
    by rewrite take_nil, app_nil_r.
Qed.
End entrypoints.

(** C35: the entry points fetched page by page are exactly the first [limit] entries the service
    lists, in its order, in at most one request per fifty entries and one more. *)
Theorem entrypoints_prefix {E Cursor} (cursor_of : E -> Cursor) get_page (all : list E) limit :
  lists cursor_of get_page all ->
  entrypoints cursor_of get_page limit = Some (Ok (take (Z.to_nat (limit ?? 10%Z)) all)).
Proof.
  intros Hl. unfold entrypoints. cbv zeta. set (n := limit ?? 10%Z).
  apply (paginate_lists cursor_of get_page all (pages n) n [] all); [done..| |].
  - unfold pages. destruct (Z.le_gt_cases n 0); [lia|].
    pose proof (Z.div_pos (n + 49) 50). pose proof (Z.mul_succ_div_gt (n + 49) 50). lia.
  - unfold pages. lia.
Qed.

(** A service that lists the numbers below 120. *)
Definition number_page (cursor : option nat) (n : Z) : result js_error (list nat) :=
  let from := match cursor with Some c => S c | None => 0 end in
  Ok (take (Z.to_nat n) (seq from (120 - from))).

Lemma number_page_lists : lists id number_page (seq 0 120).
Proof.
  split; [done|]. intros before item after n Hall Hn. unfold number_page. do 2 f_equal.
  assert (seq 0 120 !! length before = Some item) as Hi
    by (rewrite Hall; by apply list_lookup_middle).
  apply lookup_seq in Hi as [-> Hlt]. simpl.
  assert (drop (S (length before)) (seq 0 120) = after) as <-.
  { rewrite Hall. by rewrite (cons_middle _ before after), app_assoc, drop_app_length' by
      (rewrite length_app; simpl; lia). }
  by rewrite drop_seq.
Qed.

Lemma entrypoints_prefix_witness :
  entrypoints id number_page (Some 70%Z) = Some (Ok (take 70 (seq 0 120))).
Proof. apply (entrypoints_prefix id number_page (seq 0 120) (Some 70%Z)), number_page_lists. Defined.
