(* ===== verification/McpTools.v ===== *)
(** * [Mcp/DefaultRepeaterTools.ts] and [Mcp/McpServer.ts]

    The MCP server starts repeaters as child processes and keeps a registry of them by id.
    Entries are shared objects (the handlers of a child hold its entry also after another entry
    took its place), so the model has a store of entries and a registry of references. *)
From S2P Require Import Prelude Helpers.

(** ** Arguments and secrets *)

Definition SENSITIVE_OPTIONS : list string := ["--token"; "-t"].

Record RunInput : Type := mk_run_input { ri_id : string; ri_hostname : option string }.

Definition requireId (id : option string) : result js_error string :=
  match id with
  | Some s => if truthy s then Ok s else throw "Repeater id is required."
  | None => throw "Repeater id is required."
  end.

Definition resolveToken (token env_token : option string) : result js_error string :=
  let token := token ??? env_token in
  if truthy_opt token then Ok (token ?? "")
  else throw "A Bright API token is required. Set BRIGHT_TOKEN on the MCP server process or provide it through MCP transport authentication.".

Definition addValue (args : list string) (option_ : string) (value : option string) : list string :=
  match value with Some v => args ++ [option_; v] | None => args end.

Definition buildArgs (input : RunInput) (token env_token : option string) :
    result js_error (list string) :=
  token ← resolveToken token env_token;
  let args := addValue [] "--token" (Some token) in
  let args := addValue args "--id" (Some (ri_id input)) in
  Ok (addValue args "--hostname" (ri_hostname input)).

(** [arg.split('=', 2)]. *)
Definition option_and_value (arg : string) : string * option string :=
  match split_char "=" arg with
  | [] => ("", None)
  | [name] => (name, None)
  | name :: value :: _ => (name, Some value)
  end.

Fixpoint collect (args : list string) : list string :=
  match args with
  | [] => []
  | arg :: rest =>
      let '(optionName, inlineValue) := option_and_value arg in
      (if truthy_opt inlineValue && bool_decide (optionName ∈ SENSITIVE_OPTIONS)
       then [inlineValue ?? ""] else []) ++
      (if bool_decide (arg ∈ SENSITIVE_OPTIONS)
       then match rest with next :: _ => if truthy next then [next] else [] | [] => [] end
       else []) ++
      collect rest
  end.
Definition collectSensitiveValues (args : list string) : list string :=
  base.filter (fun value => truthy value = true) (collect args).

(** [sort((left, right) => right.length - left.length)], a stable sort. *)
Fixpoint insert_by_length (s : string) (l : list string) : list string :=
  match l with
  | [] => [s]
  | t :: l' => if (String.length t <=? String.length s)%nat then s :: l
               else t :: insert_by_length s l'
  end.
Definition sort_by_length (l : list string) : list string := foldr insert_by_length [] l.

Definition FILTERED : string := "[Filtered]".

Definition redactWith (sensitiveValues : list string) (value : string) : string :=
  foldl (fun currentValue secret => join FILTERED (split_str secret currentValue))
    value (sort_by_length sensitiveValues).

(** ** Redaction hides secrets *)

(** A string without brackets that is not part of the replacement text. *)
Definition clean (secret : string) : Prop :=
  secret <> "" /\ str_has "[" secret = false /\ str_has "]" secret = false /\
  includes secret "Filtered" = false.

Lemma substr_cons p c s : substr p (String c s) <-> startsWith p (String c s) = true \/ substr p s.
Proof.
  rewrite startsWith_spec. split.
  - intros ([|d a] & b & H); [left; by exists b|]. rewrite app_str_cons in H. simplify_eq.
    right. by exists a, b.
  - intros [[t H]|(a & b & ->)]; [by exists "", t|]. by exists (String c a), b.
Qed.

Lemma prefix_before_char p c a b y :
  str_has c p = false -> a +:+ String c b = p +:+ y -> exists t, a = p +:+ t.
Proof.
  unfold str_has. revert a. induction p as [|e p IH]; intros a Hc H; [by exists a|].
  simpl in Hc. apply orb_false_iff in Hc as [He Hp]. destruct a as [|d a].
  - rewrite app_str_nil_l, app_str_cons in H. simplify_eq. by rewrite eqb_refl in He.
  - rewrite !app_str_cons in H. simplify_eq. destruct (IH a Hp) as [t ->]; [done|]. by exists t.
Qed.

(** A string without the character [c] that occurs around [c] occurs on one side. *)
Lemma substr_app_char p c a b :
  str_has c p = false -> substr p (a +:+ String c b) -> substr p a \/ substr p b.
Proof.
  intros Hc (x & y & H). revert a H. induction x as [|d x IH]; intros a H.
  - rewrite app_str_nil_l in H. destruct (prefix_before_char _ _ _ _ _ Hc H) as [t ->].
    left. by exists "", t.
  - destruct a as [|a0 a]; rewrite ?app_str_nil_l, !app_str_cons in H.
    + injection H as _ ->. right. by exists x, y.
    + injection H as -> H. destruct (IH _ H) as [(x' & y' & ->)|?]; [|auto]. left. by exists (String d x'), y'.
Qed.

Lemma substr_trans a b c : substr a b -> substr b c -> substr a c.
Proof.
  intros (x & y & ->) (x' & y' & ->). exists (x' +:+ x), (y +:+ y').
  by rewrite <- !app_str_assoc.
Qed.

(** The pieces of a split are parts of the string, the first one a prefix unless characters are
    being skipped. *)
Lemma split_go_pieces sep skip s :
  Forall (fun p => substr p s) (split_go sep skip s) /\
  (skip = 0 -> exists p ps t, split_go sep skip s = p :: ps /\ s = p +:+ t).
Proof.
  assert (Hcons : forall c s l, Forall (fun p => substr p s) l -> Forall (fun p => substr p (String c s)) l).
  { intros c s' l Hl. eapply Forall_impl; [exact Hl|]. intros p (a & b & ->). by exists (String c a), b. }
  revert skip. induction s as [|c s IH]; intros skip; simpl.
  { destruct skip; (split; [constructor; [by exists "", ""|constructor]|]); [|done].
    intros _. by exists "", [], "". }
  destruct skip as [|k]; [|split; [apply Hcons, IH|done]].
  destruct (startsWith sep (String c s)).
  - split; [|intros _; by eexists "", _, (String c s)].
    constructor; [by exists "", (String c s)|]. apply Hcons, IH.
  - destruct (IH 0) as [Hf Hp]. destruct (Hp eq_refl) as (p & ps & t & Heq & ->). rewrite Heq in *.
    split; [|intros _; by exists (String c p), ps, t].
    inversion Hf; subst. constructor; [by exists "", t|]. by apply Hcons.
Qed.

(** No piece contains the separator. *)
Lemma split_go_clean sep skip s : sep <> "" ->
  Forall (fun p => ~ substr sep p) (split_go sep skip s).
Proof.
  intros Hsep. assert (Hempty : ~ substr sep "").
  { intros (a & b & H). destruct a; [|done]. by destruct sep. }
  revert skip. induction s as [|c s IH]; intros skip; simpl; [by destruct skip; repeat constructor|].
  destruct skip as [|k]; [|apply IH]. destruct (startsWith sep (String c s)) eqn:Hs.
  - constructor; [done|apply IH].
  - pose proof (IH 0) as Hf. destruct (split_go_pieces sep 0 s) as [_ Hp].
    destruct (Hp eq_refl) as (p & ps & t & Heq & ->). rewrite Heq in *. inversion Hf; subst.
    constructor; [|done]. intros [Hst|?]%substr_cons; [|done].
    apply startsWith_spec in Hst as [u Hu]. revert Hs. apply not_false_iff_true.
    apply startsWith_spec. exists (u +:+ t). rewrite <- app_str_cons, Hu. by rewrite app_str_assoc.
Qed.

(** A clean string that occurs in no piece does not occur in the joined text. *)
Lemma join_clean secret l :
  clean secret -> Forall (fun p => ~ substr secret p) l -> ~ substr secret (join FILTERED l).
Proof.
  intros (Hne & Ho & Hc & Hf) Hl. induction Hl as [|p l Hp Hl IH].
  - intros (a & b & H). destruct a; [|done]. by destruct secret.
  - destruct l as [|q l]; [done|]. rewrite join_cons. unfold FILTERED at 1.
    intros Hsub. rewrite app_str_cons in Hsub.
    apply substr_app_char in Hsub as [?|Hsub]; [done| |done].
    change ("Filtered]" +:+ join FILTERED (q :: l))
      with ("Filtered" +:+ String "]" (join FILTERED (q :: l))) in Hsub.
    apply substr_app_char in Hsub as [Hsub|?]; [|done..].
    apply includes_spec in Hsub. congruence.
Qed.

Lemma replace_keeps secret other v :
  clean secret -> ~ substr secret v -> ~ substr secret (join FILTERED (split_str other v)).
Proof.
  intros Hc Hn. apply join_clean; [done|]. destruct (split_go_pieces other 0 v) as [Hf _].
  eapply Forall_impl; [exact Hf|]. intros p Hp Hs. apply Hn. by eapply substr_trans.
Qed.

Lemma redact_fold secrets v : Forall clean secrets -> forall secret, clean secret ->
  (~ substr secret v \/ secret ∈ secrets) ->
  ~ substr secret (foldl (fun v secret => join FILTERED (split_str secret v)) v secrets).
Proof.
  intros Hall. revert v. induction Hall as [|s secrets Hs _ IH]; intros v secret Hc Hor; simpl.
  - destruct Hor; [done|set_solver].
  - apply IH; [done|]. destruct Hor as [Hn|[->|Hin]%elem_of_cons]; [left; by apply replace_keeps| |auto].
    left. apply join_clean; [done|]. apply split_go_clean. apply Hs.
Qed.

Lemma elem_of_sort x l : x ∈ sort_by_length l <-> x ∈ l.
Proof.
  assert (Hins : forall s l, x ∈ insert_by_length s l <-> x = s \/ x ∈ l).
  { intros s l'. induction l' as [|t l' IH]; simpl; [set_solver|].
    destruct (String.length t <=? String.length s); rewrite !elem_of_cons; [naive_solver|].
    rewrite IH. naive_solver. }
  unfold sort_by_length. induction l as [|s l IH]; simpl; [done|].
  rewrite Hins, IH, elem_of_cons. done.
Qed.

(** C30: redaction hides every secret: after [redactWith], none of the sensitive values occurs in the
    text any more, for values without brackets that are no part of the word Filtered. *)
Theorem redactWith_hides (secrets : list string) (value : string) :
  Forall clean secrets ->
  forall secret, secret ∈ secrets -> includes secret (redactWith secrets value) = false.
Proof.
  intros Hall secret Hin. apply not_true_iff_false. rewrite includes_spec. unfold redactWith.
  rewrite Forall_forall in Hall. apply redact_fold; [|by apply Hall|right; by apply elem_of_sort].
  apply Forall_forall. intros s Hs. apply Hall. by apply elem_of_sort.
Qed.

Lemma redactWith_hides_witness :
  includes "s3cr3t" (redactWith ["s3cr3t"; "s3"] "spawn --token s3cr3t s3 failed") = false.
Proof.
  apply (redactWith_hides ["s3cr3t"; "s3"]); [|left].
  repeat constructor; try discriminate; vm_compute; reflexivity.
Defined.

(** The token of a repeater is always among the values its entry redacts. *)
Lemma collect_token token rest : truthy token = true ->
  token ∈ collectSensitiveValues ("--token" :: token :: rest).
Proof.
  intros Ht. unfold collectSensitiveValues. apply list_elem_of_filter. split; [done|].
  change (collect ("--token" :: token :: rest))
    with ((if truthy token then [token] else []) ++ collect (token :: rest)).
  rewrite Ht. set_solver.
Qed.

(** ** The registry of processes *)

Record RepeaterProcessEntry : Type := mk_entry {
  pe_id : string;
  pe_exited : bool;
  pe_exitCode : option (option Z);
  pe_lastError : option string;
  pe_sensitiveValues : list string;
  pe_starting : bool;
  pe_child : CommandArgs
}.

(** [tl_entries] are the entry objects ever made, [tl_processes] the registry of references to
    them; [pe_starting] holds while [run] waits for an immediate failure. *)
Record tools : Type := mk_tools {
  tl_entries : list RepeaterProcessEntry;
  tl_processes : strmap nat
}.
Definition no_tools : tools := mk_tools [] [].

Definition isRunning (e : RepeaterProcessEntry) : bool := negb (pe_exited e).

Section registry.
(** [path.normalize] and the process object, from which the command line is made. *)
Context (normalize : string -> string) (p : Process).

(** The command line of the child; its stdin is ignored and its outputs are piped. *)
Definition run_command (repeaterArgs : list string) : CommandArgs :=
  getExecArgs normalize p
    (mk_ExecOptions None (Some ("repeater" :: repeaterArgs)) (Some true) None (Some true)).

(** The synchronous part of [run]: everything up to the wait. *)
Definition run (input_id : option string) (hostname token env_token : option string) (t : tools) :
    result js_error tools :=
  id ← requireId input_id;
  _ ← match OMap.get id (tl_processes t) ≫= (fun i => tl_entries t !! i) with
      | Some existing =>
          if isRunning existing
          then throw ("A repeater command is already running for id " +:+ dquote +:+ id +:+ dquote +:+ ".")
          else Ok tt
      | None => Ok tt
      end;
  repeaterArgs ← buildArgs (mk_run_input id hostname) token env_token;
  let sensitiveValues := collectSensitiveValues repeaterArgs in
  let entry := mk_entry id false None None sensitiveValues true (run_command repeaterArgs) in
  Ok (mk_tools (tl_entries t ++ [entry]) (OMap.set id (length (tl_entries t)) (tl_processes t))).

(** The [catch] of [run]: forget an entry that is still registered and no longer runs. *)
Definition run_failed (i : nat) (t : tools) : tools :=
  match tl_entries t !! i with
  | Some e =>
      if bool_decide (OMap.get (pe_id e) (tl_processes t) = Some i) && negb (isRunning e)
      then mk_tools (tl_entries t) (OMap.del (pe_id e) (tl_processes t)) else t
  | None => t
  end.

Definition update_entry (i : nat) (f : RepeaterProcessEntry -> RepeaterProcessEntry) (t : tools) : tools :=
  mk_tools (alter f i (tl_entries t)) (tl_processes t).

Definition starting (i : nat) (t : tools) : bool :=
  match tl_entries t !! i with Some e => pe_starting e | None => false end.

(** The [error] event of the child: the handlers attached to it. *)
Definition child_error (i : nat) (message : string) (t : tools) : tools :=
  let was_starting := starting i t in
  let t := update_entry i (fun e => mk_entry (pe_id e) (pe_exited e) (pe_exitCode e)
             (Some (redactWith (pe_sensitiveValues e) message)) (pe_sensitiveValues e) false (pe_child e)) t in
  if was_starting then run_failed i t else t.

(** The [exit] event. *)
Definition child_exit (i : nat) (code : option Z) (t : tools) : tools :=
  let was_starting := starting i t in
  let t := update_entry i (fun e => mk_entry (pe_id e) true (Some code) (pe_lastError e)
             (pe_sensitiveValues e) false (pe_child e)) t in
  if was_starting then run_failed i t else t.

(** The grace period is over and [run] returns. *)
Definition started (i : nat) (t : tools) : tools :=
  update_entry i (fun e => mk_entry (pe_id e) (pe_exited e) (pe_exitCode e) (pe_lastError e)
    (pe_sensitiveValues e) false (pe_child e)) t.

Definition requireEntry (id : string) (t : tools) : result js_error RepeaterProcessEntry :=
  match OMap.get id (tl_processes t) ≫= (fun i => tl_entries t !! i) with
  | Some e => Ok e
  | None => throw ("No repeater process found for id " +:+ dquote +:+ id +:+ dquote +:+ ".")
  end.

(** [status]: the fields of the entry that are reported. *)
Definition toStatus (e : RepeaterProcessEntry) : string * bool * option (option Z) * option string :=
  (pe_id e, isRunning e, pe_exitCode e, pe_lastError e).
Definition status (id : option string) (t : tools) :
    result js_error (string * bool * option (option Z) * option string) :=
  id ← requireId id; e ← requireEntry id t; Ok (toStatus e).

(** [stop] sends a signal to a running process, and SIGKILL when it is still running after the
    timeout ([after] says whether it is). The registry does not change. *)
Definition stop (id signal : option string) (after : bool) (t : tools) :
    result js_error (list string) :=
  id ← requireId id;
  entry ← requireEntry id t;
  Ok (if negb (isRunning entry) then []
      else (signal ?? "SIGTERM") :: (if after then ["SIGKILL"] else [])).

(** [stopAll]: every registered id is stopped. *)
Definition stopAll (after : string -> bool) (t : tools) : result js_error (list (list string)) :=
  mapR (fun id => stop (Some id) None (after id) t) (OMap.keys (tl_processes t)).

Inductive tool_step : tools -> tools -> Prop :=
| tool_run t id hostname token env t' :
    run id hostname token env t = Ok t' -> tool_step t t'
| tool_error t i message : i < length (tl_entries t) -> tool_step t (child_error i message t)
| tool_exit t i code : i < length (tl_entries t) -> tool_step t (child_exit i code t)
| tool_started t i : tool_step t (started i t).

(** ** One running process per id *)

(** Every running process is the one registered under its id. *)
Definition registered (t : tools) : Prop :=
  forall i e, tl_entries t !! i = Some e -> isRunning e = true ->
    OMap.get (pe_id e) (tl_processes t) = Some i.

Lemma run_registered id hostname token env t t' :
  run id hostname token env t = Ok t' -> registered t -> registered t'.
Proof.
  unfold run. intros Hr Hreg. inv_bind Hr. rename a into id'. simplify_eq. intros i e Hi Hrun. simpl in *.
  apply lookup_app_Some in Hi as [Hi|[Hlen Hi]].
  - pose proof (Hreg i e Hi Hrun) as Hg. rewrite get_set_ne; [done|]. intros ->.
    rewrite Hg in Ha0. simpl in Ha0. rewrite Hi, Hrun in Ha0. done.
  - destruct (i - length (tl_entries t)) eqn:Hd; [|done]. simplify_eq/=.
    rewrite get_set_eq. f_equal. lia.
Qed.

(** An update that keeps ids and starts nothing keeps the invariant. *)
Lemma update_registered i f t :
  (forall e, pe_id (f e) = pe_id e) -> (forall e, isRunning (f e) = true -> isRunning e = true) ->
  registered t -> registered (update_entry i f t).
Proof.
  intros Hid Hrun Hreg j e Hj Hr. simpl in *. destruct (decide (i = j)) as [->|Hne].
  - rewrite list_lookup_alter_eq in Hj. destruct (tl_entries t !! j) as [e'|] eqn:He; simplify_eq/=.
    rewrite Hid. apply (Hreg j e' He). by apply Hrun.
  - rewrite list_lookup_alter_ne in Hj by done. by apply (Hreg j e).
Qed.

Lemma run_failed_registered i t : registered t -> registered (run_failed i t).
Proof.
  intros Hreg. unfold run_failed. destruct (tl_entries t !! i) as [e|] eqn:He; [|done].
  case_match eqn:Hc; [|done]. apply andb_true_iff in Hc as [Hg%bool_decide_eq_true Hr].
  intros j e' Hj Hrun. simpl in *. pose proof (Hreg j e' Hj Hrun) as Hg'.
  rewrite get_del_ne; [done|]. intros Heq. rewrite Heq in Hg.
  assert (i = j) as -> by congruence. assert (e = e') as -> by congruence. by rewrite Hrun in Hr.
Qed.

Lemma step_registered t t' : tool_step t t' -> registered t -> registered t'.
Proof.
  destruct 1 as [t id hostname token env t' Hr|t i message _|t i code _|t i]; intros Hreg.
  - by eapply run_registered.
  - unfold child_error. cbv zeta. case_match; [apply run_failed_registered|];
      (apply update_registered; [done| |done]; by intros []).
  - unfold child_exit. cbv zeta. case_match; [apply run_failed_registered|];
      (apply update_registered; [done| |done]; by intros []).
  - apply update_registered; [done| |done]. by intros [].
Qed.

Lemma reachable_registered t : rtc tool_step no_tools t -> registered t.
Proof.
  intros Hr. remember no_tools as t0 eqn:H0.
  assert (registered t0) as Hreg0 by (subst; by intros ? ? ?). clear H0.
  induction Hr; eauto using step_registered.
Qed.

(** C31: whatever starts, failures and exits happen, at most one repeater process runs per id, and it
    is the one that [status] and [stop] act on. *)
Theorem one_process_per_id t i j e e' :
  rtc tool_step no_tools t ->
  tl_entries t !! i = Some e -> tl_entries t !! j = Some e' ->
  isRunning e = true -> isRunning e' = true -> pe_id e = pe_id e' ->
  i = j /\ requireEntry (pe_id e) t = Ok e.
Proof.
  intros Hreg%reachable_registered Hi Hj He He' Hid.
  pose proof (Hreg i e Hi He) as Hgi. pose proof (Hreg j e' Hj He') as Hgj.
  rewrite Hid in Hgi. split; [congruence|]. unfold requireEntry. rewrite Hid, Hgi. simpl. by rewrite Hi.
Qed.

(** An id whose process could not be spawned is lost: a failed spawn reports an error and no
    exit, so the entry stays registered as running, and every later attempt to run that id is
    refused. *)
Theorem spawn_failure_blocks_id id hostname token env t t' message hostname2 token2 env2 :
  run (Some id) hostname token env t = Ok t' ->
  let t'' := child_error (length (tl_entries t)) message t' in
  exists e, requireEntry id t'' = Ok e /\ isRunning e = true /\
    run (Some id) hostname2 token2 env2 t'' =
      throw ("A repeater command is already running for id " +:+ dquote +:+ id +:+ dquote +:+ ".").
Proof.
  intros Hr t''. unfold run in Hr. inv_bind Hr. simplify_eq. unfold requireId in Ha.
  destruct (truthy id) eqn:Hid; simplify_eq. rename a into id.
  assert (Hreg : OMap.get id (tl_processes t'') = Some (length (tl_entries t)) /\
    exists e, tl_entries t'' !! length (tl_entries t) = Some e /\ isRunning e = true).
  { unfold t'', child_error, starting, run_failed. simpl. rewrite list_lookup_middle by done. simpl.
    rewrite list_lookup_alter_eq, list_lookup_middle by done. simpl.
    rewrite andb_false_r. simpl. rewrite list_lookup_alter_eq, list_lookup_middle by done. simpl.
    split; [apply get_set_eq|]. by eexists. }
  destruct Hreg as (Hg & e & He & Hrun). exists e. unfold requireEntry. rewrite Hg. simpl. rewrite He.
  split; [done|]. split; [done|]. unfold run, requireId. rewrite Hid. simpl. rewrite Hg. simpl.
  by rewrite He, Hrun.
Qed.

End registry.

Definition sample_process : Process :=
  mk_Process ["node"; "bright-cli"; "mcp"] [] "/usr/bin/node" "linux" None.
Definition sample_entry : RepeaterProcessEntry :=
  mk_entry "r1" false None None ["tok"] true
    (mk_CommandArgs "/usr/bin/node" ["bright-cli"; "repeater"; "--token"; "tok"; "--id"; "r1"] false false).
Definition one_tool : tools := mk_tools [sample_entry] [("r1", 0)].

Lemma one_process_per_id_witness : 0 = 0 /\ requireEntry "r1" one_tool = Ok sample_entry.
Proof.
  apply (one_process_per_id id sample_process one_tool 0 0 sample_entry sample_entry); try reflexivity.
  apply rtc_once. apply (tool_run _ _ _ (Some "r1") None (Some "tok") None). vm_compute. reflexivity.
Defined.

Lemma spawn_failure_blocks_id_witness :
  exists e, requireEntry "r1" (child_error 0 "spawn ENOENT" one_tool) = Ok e /\
    isRunning e = true /\
    run id sample_process (Some "r1") None (Some "tok") None (child_error 0 "spawn ENOENT" one_tool) =
      throw ("A repeater command is already running for id " +:+ dquote +:+ "r1" +:+ dquote +:+ ".").
Proof.
  apply (spawn_failure_blocks_id id sample_process "r1" None (Some "tok") None no_tools one_tool
    "spawn ENOENT").
  vm_compute. reflexivity.
Defined.
