(* ===== verification/McpStops.v ===== *)
(** * Stopping repeater processes, with everything else going on

    [stop] of [Mcp/DefaultRepeaterTools.ts] waits twice, for the process to exit or for a timer, and
    nothing keeps clients from stopping, starting and inspecting processes meanwhile.  Here it is a
    transition system: calls in their phases over the registry of [McpTools.v], with the
    exits of the processes, the clock and the timers as steps of their own.  The atomic [stop] of
    [McpTools.v], which the shutdown of the server is proved with, is its specification. *)
From S2P Require Import Prelude Helpers McpTools.

(** The timeouts of [stop] in milliseconds. *)
Definition DEFAULT_STOP_TIMEOUT : Z := 5000.
Definition KILL_TIMEOUT : Z := 1000.

Definition Status : Type := (string * bool * option (option Z) * option string)%type.
Definition running_of (s : Status) : bool := s.1.1.2.

(** Where a call is: it waits for the first signal to work, it waits for SIGKILL to work (with
    the time each wait began), or it has returned a status. *)
Inductive stop_phase : Type :=
| Waiting (since : Z)
| Killing (since : Z)
| Returned (status : Status).

(** A call: the id and signal asked for, its timeout, the registry and the entry it found when it was
    made, the signals it has sent, and its phase. *)
Record stop_call : Type := mk_stop {
  sp_id : string;
  sp_signal : option string;
  sp_timeoutMs : option Z;
  sp_tools : tools;
  sp_entry : nat;
  sp_at : Z;
  sp_signals : list string;
  sp_phase : stop_phase
}.

Record desk : Type := mk_desk {
  dk_tools : tools;
  dk_stops : list stop_call;
  dk_now : Z
}.

Definition in_phase (ph : stop_phase) (c : stop_call) : stop_call :=
  mk_stop (sp_id c) (sp_signal c) (sp_timeoutMs c) (sp_tools c) (sp_entry c) (sp_at c) (sp_signals c) ph.

Definition entry_of (t : tools) (c : stop_call) : option RepeaterProcessEntry := tl_entries t !! sp_entry c.

(** The continuation after a wait that an exit ended: the process no longer runs, so the call
    returns its status. *)
Definition exit_wakes (i : nat) (t : tools) (c : stop_call) : stop_call :=
  match sp_phase c, entry_of t c with
  | Returned _, _ | _, None => c
  | _, Some e => if sp_entry c === i then in_phase (Returned (toStatus e)) c else c
  end.

(** The continuation after the first timer: SIGKILL for a process that still runs. *)
Definition timer_kills (now : Z) (t : tools) (c : stop_call) : stop_call :=
  match entry_of t c with
  | None => c
  | Some e =>
      if isRunning e
      then mk_stop (sp_id c) (sp_signal c) (sp_timeoutMs c) (sp_tools c) (sp_entry c) (sp_at c)
             (sp_signals c ++ ["SIGKILL"]) (Killing now)
      else in_phase (Returned (toStatus e)) c
  end.

(** The continuation after the second timer. *)
Definition timer_returns (t : tools) (c : stop_call) : stop_call :=
  match entry_of t c with None => c | Some e => in_phase (Returned (toStatus e)) c end.

(** A call up to its first await. *)
Definition begin_stop (id signal : option string) (timeoutMs : option Z) (now : Z) (t : tools) :
    result js_error stop_call :=
  id ← requireId id;
  entry ← requireEntry id t;
  let i := OMap.get id (tl_processes t) ?? 0 in
  Ok (if isRunning entry
      then mk_stop id signal timeoutMs t i now [signal ?? "SIGTERM"] (Waiting now)
      else mk_stop id signal timeoutMs t i now [] (Returned (toStatus entry))).

Definition due (now : Z) (c : stop_call) : bool :=
  match sp_phase c with
  | Waiting since => (since + (sp_timeoutMs c ?? DEFAULT_STOP_TIMEOUT) <=? now)%Z
  | Killing since => (since + KILL_TIMEOUT <=? now)%Z
  | Returned _ => false
  end.

Definition timer_fires (now : Z) (t : tools) (c : stop_call) : stop_call :=
  match sp_phase c with
  | Waiting _ => timer_kills now t c
  | Killing _ => timer_returns t c
  | Returned _ => c
  end.

Section desk.
Context (normalize : string -> string) (p : Process).

(** What can happen: a client calls [run] or [stop], a process fails, gets ready or exits (once), time
    passes, a timer fires. *)
Inductive desk_step : desk -> desk -> Prop :=
| desk_run d id hostname token env t :
    run normalize p id hostname token env (dk_tools d) = Ok t ->
    desk_step d (mk_desk t (dk_stops d) (dk_now d))
| desk_stop d id signal timeoutMs c :
    begin_stop id signal timeoutMs (dk_now d) (dk_tools d) = Ok c ->
    desk_step d (mk_desk (dk_tools d) (dk_stops d ++ [c]) (dk_now d))
| desk_error d i message :
    i < length (tl_entries (dk_tools d)) ->
    desk_step d (mk_desk (child_error i message (dk_tools d)) (dk_stops d) (dk_now d))
| desk_started d i :
    desk_step d (mk_desk (started i (dk_tools d)) (dk_stops d) (dk_now d))
| desk_exit d i e code :
    tl_entries (dk_tools d) !! i = Some e -> isRunning e = true ->
    desk_step d (let t := child_exit i code (dk_tools d) in
                 mk_desk t (exit_wakes i t <$> dk_stops d) (dk_now d))
| desk_elapse d ms : (0 <= ms)%Z -> desk_step d (mk_desk (dk_tools d) (dk_stops d) (dk_now d + ms)%Z)
| desk_timer d k c :
    dk_stops d !! k = Some c -> due (dk_now d) c = true ->
    desk_step d (mk_desk (dk_tools d) (alter (timer_fires (dk_now d) (dk_tools d)) k (dk_stops d)) (dk_now d)).

Definition empty_desk : desk := mk_desk no_tools [] 0.

(** ** What happens to the entries *)

(** Entries stay where they are, and run as before. *)
Definition keeps (t t' : tools) : Prop :=
  forall i e, tl_entries t !! i = Some e -> exists e', tl_entries t' !! i = Some e' /\ isRunning e' = isRunning e.

Lemma run_failed_entries i t : tl_entries (run_failed i t) = tl_entries t.
Proof. unfold run_failed. by repeat case_match. Qed.

Lemma update_keeps i f t : (forall e, isRunning (f e) = isRunning e) -> keeps t (update_entry i f t).
Proof.
  intros Hf j e Hj. simpl. destruct (decide (i = j)) as [->|Hne].
  - rewrite list_lookup_alter_eq, Hj. simpl. eauto.
  - rewrite list_lookup_alter_ne by done. eauto.
Qed.

Lemma run_keeps id hostname token env t t' : run normalize p id hostname token env t = Ok t' -> keeps t t'.
Proof.
  unfold run. intros Hr j e Hj. inv_bind Hr. simplify_eq/=. exists e. split; [|done]. by apply lookup_app_l_Some.
Qed.

Lemma error_keeps i message t : keeps t (child_error i message t).
Proof.
  unfold child_error, keeps. cbv zeta. case_match; rewrite ?run_failed_entries; by apply update_keeps.
Qed.

Lemma exit_entries i code t j e : tl_entries t !! j = Some e ->
  exists e', tl_entries (child_exit i code t) !! j = Some e' /\
    isRunning e' = if j === i then false else isRunning e.
Proof.
  intros Hj. unfold child_exit. cbv zeta. destruct (eqbP j i) as [->|Hne].
  - case_match; rewrite ?run_failed_entries; simpl; rewrite list_lookup_alter_eq, Hj; simpl; eauto.
  - case_match; rewrite ?run_failed_entries; simpl; rewrite list_lookup_alter_ne by done; eauto.
Qed.

(** ** Invariant *)

Definition sent (c : stop_call) : string := sp_signal c ?? "SIGTERM".
Definition timeout (c : stop_call) : Z := sp_timeoutMs c ?? DEFAULT_STOP_TIMEOUT.

(** What a call knows of its entry: it was found under the id asked for, and it still is there. *)
Definition found (t : tools) (c : stop_call) (e0 e : RepeaterProcessEntry) : Prop :=
  requireId (Some (sp_id c)) = Ok (sp_id c) /\ requireEntry (sp_id c) (sp_tools c) = Ok e0 /\
  OMap.get (sp_id c) (tl_processes (sp_tools c)) = Some (sp_entry c) /\ entry_of t c = Some e.

Definition call_ok (t : tools) (now : Z) (c : stop_call) : Prop :=
  exists e0 e, found t c e0 e /\
  match sp_phase c with
  | Waiting since => since = sp_at c /\ isRunning e0 = true /\ isRunning e = true /\ sp_signals c = [sent c]
  | Killing since => (sp_at c + timeout c <= since)%Z /\ isRunning e0 = true /\ isRunning e = true /\
      sp_signals c = [sent c; "SIGKILL"]
  | Returned st =>
      if isRunning e0 then
        (exists killed : bool, sp_signals c = sent c :: (if killed then ["SIGKILL"] else [])) /\
        (running_of st = true -> sp_signals c = [sent c; "SIGKILL"] /\
           (sp_at c + timeout c + KILL_TIMEOUT <= now)%Z)
      else sp_signals c = [] /\ running_of st = false
  end.

Definition desk_ok (d : desk) : Prop := Forall (call_ok (dk_tools d) (dk_now d)) (dk_stops d).

Lemma call_ok_keeps t t' now now' c : keeps t t' -> (now <= now')%Z -> call_ok t now c -> call_ok t' now' c.
Proof.
  intros Hk Hn (e0 & e & (Hid & Hr & H0 & He) & Hph). destruct (Hk _ _ He) as (e' & He' & Hrun).
  exists e0, e'. split; [done|]. destruct (sp_phase c); rewrite ?Hrun; [done..|].
  case_match; [|done]. destruct Hph as [? Hst]. split; [done|]. intros [? ?]%Hst. split; [done|lia].
Qed.

Lemma begin_stop_ok id signal timeoutMs now t c :
  begin_stop id signal timeoutMs now t = Ok c -> call_ok t now c.
Proof.
  unfold begin_stop. intros Hb. inv_bind Hb. rename a into id', a0 into e. apply Ok_inj in Hb.
  assert (exists i, OMap.get id' (tl_processes t) = Some i /\ tl_entries t !! i = Some e) as (i & Hi & He).
  { unfold requireEntry in Ha0. destruct (OMap.get id' (tl_processes t)) as [i|]; [|done]. simpl in Ha0.
    destruct (tl_entries t !! i) eqn:He; simplify_eq. eauto. }
  assert (requireId (Some id') = Ok id') as Hid.
  { unfold requireId in *. destruct id as [s|]; [|done]. destruct (truthy s) eqn:Hs; [|done].
    simplify_eq. by rewrite Hs. }
  rewrite Hi in Hb. simpl in Hb. exists e, e. unfold call_ok, found, entry_of. subst c.
  destruct (isRunning e) eqn:Hrun; simpl; by rewrite ?Hrun.
Qed.

Lemma exit_wakes_ok i code t now c :
  call_ok t now c -> call_ok (child_exit i code t) now (exit_wakes i (child_exit i code t) c).
Proof.
  intros (e0 & e & (Hid & Hr & H0 & He) & Hph). destruct (exit_entries i code t _ _ He) as (e' & He' & Hrun).
  exists e0, e'. unfold exit_wakes, found, entry_of in *. rewrite He'.
  destruct (sp_phase c) as [since|since|st] eqn:Hphase; [..|by rewrite Hphase].
  all: destruct (sp_entry c === i); [|rewrite Hphase; naive_solver]; simpl; (split; [done|]);
    destruct Hph as (_ & -> & _ & ->); (split; [|unfold running_of; simpl; congruence]).
  - by exists false.
  - by exists true.
Qed.

Lemma timer_fires_ok t now c : due now c = true -> call_ok t now c -> call_ok t now (timer_fires now t c).
Proof.
  intros Hd (e0 & e & (Hid & Hr & H0 & He) & Hph). exists e0, e. unfold timer_fires, due, timer_kills, timer_returns in *.
  destruct (sp_phase c) as [since|since|st] eqn:Hphase; [..|done]; rewrite He; apply Z.leb_le in Hd;
    destruct Hph as (Hat & Hrun0 & Hrun & Hsig).
  - rewrite Hrun. simpl. split; [done|]. rewrite Hsig. subst since. by split_and!.
  - simpl. split; [done|]. rewrite Hrun0. split; [by exists true|]. intros _. split; [done|].
    unfold timeout in *. simpl in *. lia.
Qed.

Lemma desk_step_ok d d' : desk_step d d' -> desk_ok d -> desk_ok d'.
Proof.
  unfold desk_ok.
  destruct 1 as [d id hostname token env t Hr|d id signal timeoutMs c Hb|d i message Hi|d i|d i e code He Hrun|d ms Hms|d k c Hc Hd];
    simpl; intros Hok.
  - apply (Forall_impl _ _ _ Hok). intros c. apply call_ok_keeps; [by eapply run_keeps|lia].
  - apply Forall_app. split; [done|]. apply Forall_singleton. by eapply begin_stop_ok.
  - apply (Forall_impl _ _ _ Hok). intros c. apply call_ok_keeps; [apply error_keeps|lia].
  - apply (Forall_impl _ _ _ Hok). intros c. apply call_ok_keeps; [by apply update_keeps|lia].
  - apply Forall_fmap, (Forall_impl _ _ _ Hok). intros c. apply exit_wakes_ok.
  - apply (Forall_impl _ _ _ Hok). intros c. apply call_ok_keeps; [|lia]. intros j e Hj. eauto.
  - apply Forall_alter; [done|]. intros c' Hc' Hok'. simplify_eq. by apply timer_fires_ok.
Qed.

Lemma reachable_desk_ok d : rtc desk_step empty_desk d -> desk_ok d.
Proof.
  intros Hr. remember empty_desk as d0 eqn:H0. assert (desk_ok d0) as Hok by (subst; constructor). clear H0.
  induction Hr; eauto using desk_step_ok.
Qed.

(** ** Every call returns *)

(** A call that is due and whose timer fires gets on. *)
Lemma due_call_steps d k c : desk_ok d -> dk_stops d !! k = Some c -> due (dk_now d) c = true ->
  exists d' c', desk_step d d' /\ dk_now d' = dk_now d /\ dk_stops d' !! k = Some c' /\
    sp_at c' = sp_at c /\ sp_timeoutMs c' = sp_timeoutMs c /\
    match sp_phase c, sp_phase c' with
    | Waiting _, Killing since => since = dk_now d
    | Killing _, Returned _ => True
    | _, _ => False
    end.
Proof.
  intros Hok Hk Hd. destruct (Forall_lookup_1 _ _ _ _ Hok Hk) as (e0 & e & (_ & _ & _ & He) & Hph).
  eexists _, (timer_fires (dk_now d) (dk_tools d) c). split; [by eapply desk_timer|].
  split; [done|]. split; [simpl; by rewrite list_lookup_alter_eq, Hk|].
  unfold due in Hd. unfold timer_fires, timer_kills, timer_returns. rewrite He.
  destruct (sp_phase c); [destruct Hph as (_ & _ & -> & _)|..]; done.
Qed.

Lemma wait_step d ms : (0 <= ms)%Z -> exists d', desk_step d d' /\ dk_stops d' = dk_stops d /\ dk_now d' = (dk_now d + ms)%Z.
Proof. intros Hms. eexists. split; [by apply desk_elapse|]. done. Qed.

Definition returned (k : nat) (d : desk) : Prop :=
  exists c st, dk_stops d !! k = Some c /\ sp_phase c = Returned st.

Lemma killing_returns d k c since : desk_ok d -> dk_stops d !! k = Some c -> sp_phase c = Killing since ->
  exists d', rtc desk_step d d' /\ returned k d'.
Proof.
  intros Hok Hk Hph. destruct (wait_step d (Z.max 0 (since + KILL_TIMEOUT - dk_now d))) as (d1 & Hs1 & Hst & Hnow); [lia|].
  rewrite <- Hst in Hk. assert (desk_ok d1) as Hok1 by eauto using desk_step_ok.
  destruct (due_call_steps d1 k c Hok1 Hk) as (d2 & c2 & Hs2 & _ & Hk2 & _ & _ & Hph2).
  { unfold due. rewrite Hph, Hnow. apply Z.leb_le. lia. }
  rewrite Hph in Hph2. destruct (sp_phase c2) eqn:Hc2; try done.
  exists d2. split; [by eapply rtc_l, rtc_once|]. by exists c2, status.
Qed.

Lemma pending_returns d k c : desk_ok d -> dk_stops d !! k = Some c -> exists d', rtc desk_step d d' /\ returned k d'.
Proof.
  intros Hok Hk. destruct (sp_phase c) as [since|since|st] eqn:Hph;
    [|by eapply killing_returns|exists d; split; [apply rtc_refl|by exists c, st]].
  destruct (wait_step d (Z.max 0 (since + timeout c - dk_now d))) as (d1 & Hs1 & Hst & Hnow); [lia|].
  rewrite <- Hst in Hk. assert (desk_ok d1) as Hok1 by eauto using desk_step_ok.
  destruct (due_call_steps d1 k c Hok1 Hk) as (d2 & c2 & Hs2 & _ & Hk2 & _ & _ & Hph2).
  { unfold due. rewrite Hph, Hnow. apply Z.leb_le. unfold timeout. lia. }
  rewrite Hph in Hph2. destruct (sp_phase c2) eqn:Hc2; try done.
  assert (desk_ok d2) as Hok2 by eauto using desk_step_ok.
  destruct (killing_returns d2 k c2 _ Hok2 Hk2 Hc2) as (d3 & Hr & Hret).
  exists d3. split; [|done]. do 2 (eapply rtc_l; [done|]). done.
Qed.

End desk.

(** ** A process that ignores the first signal *)

#[local] Notation sample_step := (desk_step id sample_process).

Lemma stubborn_run : exists d c, rtc sample_step empty_desk d /\ dk_stops d !! 0 = Some c /\
  exists st, sp_phase c = Returned st /\ running_of st = true /\ sp_signals c = ["SIGINT"; "SIGKILL"].
Proof.
  do 2 eexists. split.
  { eapply rtc_l; [eapply (desk_run _ _ _ (Some "a") None (Some "t") None); reflexivity|].
    eapply rtc_l; [eapply (desk_stop _ _ _ (Some "a") (Some "SIGINT") None); reflexivity|].
    eapply rtc_l; [apply (desk_elapse _ _ _ 5000); lia|].
    eapply rtc_l; [eapply (desk_timer _ _ _ 0); reflexivity|].
    eapply rtc_l; [apply (desk_elapse _ _ _ 1000); lia|].
    eapply rtc_l; [eapply (desk_timer _ _ _ 0); reflexivity|]. apply rtc_refl. }
  split; [reflexivity|]. eexists. split_and!; reflexivity.
Qed.

