(* ===== verification/McpServer.v ===== *)
(** * The MCP server

    Models src/src/Mcp/McpServer.ts and the handler of src/src/Commands/RunMcpServer.ts: the
    tools the server lists, the dispatch of calls, and the shutdown.  The transport and the
    protocol engine are those of the SDK. *)
From S2P Require Import Prelude Json Helpers Utils McpTools.

(** ** The tools that are listed *)

Record Tool : Type := mk_tool { tool_name : string; tool_description : string; inputSchema : json }.

(** A schema of an object whose only required property is the id. *)
Definition id_schema (properties : list (string * json)) : json :=
  JObj [("type", JStr "object"); ("additionalProperties", JBool false);
        ("required", JArr [JStr "id"]); ("properties", JObj properties)].
Definition typed (type description : string) : json :=
  JObj [("type", JStr type); ("description", JStr description)].

Definition createTools : list Tool :=
  [mk_tool "runRepeater" "Start the Bright repeater by invoking the existing bright-cli repeater command."
     (id_schema
       [("id", typed "string" "Repeater ID. Required and must be unique per running repeater process.");
        ("hostname", typed "string" "Bright application hostname.")]);
   mk_tool "stopRepeater" "Stop the repeater process with the given id started by this MCP server."
     (id_schema
       [("id", typed "string" "Repeater id identifying the process to stop.");
        ("signal", JObj [("type", JStr "string");
                         ("enum", JArr [JStr "SIGTERM"; JStr "SIGINT"; JStr "SIGKILL"]);
                         ("description", JStr "Signal used to stop the repeater process.")]);
        ("timeoutMs", typed "number" "Milliseconds to wait before escalating to SIGKILL.")]);
   mk_tool "repeaterStatus" "Return the current status for the repeater process with the given id."
     (id_schema [("id", typed "string" "Repeater id identifying the process to inspect.")])].

(** ** Dispatch of tool calls *)

(** The arguments of a call; each tool reads its own. *)
Record ToolInput : Type := mk_tool_input {
  ti_id : option string;
  ti_hostname : option string;
  ti_signal : option string;
  ti_timeoutMs : option Z
}.

(** The interface [RepeaterTools] that the server is given: operations over a state [T] whose
    results are values of [R]. *)
Record RepeaterTools (T R : Type) : Type := mk_repeater_tools {
  rt_run : ToolInput -> option string -> T -> result js_error R * T;
  rt_stop : ToolInput -> T -> result js_error R * T;
  rt_status : ToolInput -> T -> result js_error R * T;
  rt_stopAll : option (T -> result js_error (list R) * T)
}.
Arguments rt_run {T R}.
Arguments rt_stop {T R}.
Arguments rt_status {T R}.
Arguments rt_stopAll {T R}.

Section server.
Context {T R : Type} (rtools : RepeaterTools T R).
(** The text of a result: itself if it is a string, otherwise [JSON.stringify(result, null, 2)]. *)
Context (text : R -> string).

Definition executeTool (name : string) (input : ToolInput) (auth_token : option string) (t : T) :
    result js_error R * T :=
  if name === "runRepeater" then rt_run rtools input auth_token t
  else if name === "stopRepeater" then rt_stop rtools input t
  else if name === "repeaterStatus" then rt_status rtools input t
  else (throw ("Unknown tool: " +:+ name), t).

(** The answer of a call: whether it is an error, and its text; a call never throws. *)
Definition callTool (name : string) (input : ToolInput) (auth_token : option string) (t : T) :
    (bool * string) * T :=
  let '(r, t) := executeTool name input auth_token t in
  (match r with Ok result => (false, text result) | Err e => (true, e_message e) end, t).

(** ** Requests of a client *)

(** The requests the server has a handler for, and their answers. *)
Inductive mcp_request : Type :=
| ListTools
| CallTool (name : string) (input : ToolInput) (auth_token : option string).
Inductive mcp_response : Type :=
| ToolList (tools : list Tool)
| CallToolResult (isError : bool) (content : string).

Definition registerHandlers (request : mcp_request) (t : T) : mcp_response * T :=
  match request with
  | ListTools => (ToolList createTools, t)
  | CallTool name input auth_token =>
      let '((isError, content), t) := callTool name input auth_token t in (CallToolResult isError content, t)
  end.

(** ** The life of the server process *)

(** The state of the process: the transport is connected, the signals listened to once, the
    log level, the exit code, the tools, and what stopping them did. *)
Record server_process : Type := mk_server {
  sv_connected : bool;
  sv_listeners : list string;
  sv_logLevel : LogLevel;
  sv_exitCode : option Z;
  sv_tools : T;
  sv_stopped : list R
}.

(** [close]: the tools are stopped first; if that fails the server stays open. *)
Definition close (s : server_process) : result js_error unit * server_process :=
  match rt_stopAll rtools with
  | Some stopAll =>
      match stopAll (sv_tools s) with
      | (Ok stopped, t) =>
          (Ok tt, mk_server false (sv_listeners s) (sv_logLevel s) (sv_exitCode s) t (sv_stopped s ++ stopped))
      | (Err e, t) =>
          (Err e, mk_server (sv_connected s) (sv_listeners s) (sv_logLevel s) (sv_exitCode s) t (sv_stopped s))
      end
  | None =>
      (Ok tt, mk_server false (sv_listeners s) (sv_logLevel s) (sv_exitCode s) (sv_tools s) (sv_stopped s))
  end.

(** [start] connects the transport. *)
Definition start (s : server_process) : server_process :=
  mk_server true (sv_listeners s) (sv_logLevel s) (sv_exitCode s) (sv_tools s) (sv_stopped s).

(** [RunMcpServer.handler] on a process with these tools. *)
Definition mcp_handler (t : T) : server_process :=
  start (mk_server false ["SIGINT"; "SIGTERM"] SILENT None t []).

(** A signal runs [shutdown] the first time it comes. *)
Definition on_signal (signal : string) (s : server_process) : server_process :=
  if bool_decide (signal ∈ sv_listeners s) then
    let '(r, s') := close (mk_server (sv_connected s) (List.filter (fun x => negb (x === signal)) (sv_listeners s))
                             (sv_logLevel s) (sv_exitCode s) (sv_tools s) (sv_stopped s)) in
    if is_ok r
    then mk_server (sv_connected s') (sv_listeners s') (sv_logLevel s') (Some 0%Z) (sv_tools s') (sv_stopped s')
    else s'
  else s.
End server.

(** The tools of the composition root: [after] says which processes survive the first signal,
    [env_token] is the token of the environment. A call of [run] answers once the start is
    over; what it answers then is the status of the id. *)
Inductive tool_result : Type :=
| StatusOf (s : string * bool * option (option Z) * option string)
| Signals (id : string) (signals : list string).

Section default.
Context (normalize : string -> string) (p : Process) (after : string -> bool) (env_token : option string).

Definition default_run (input : ToolInput) (auth_token : option string) (t : tools) : result js_error tool_result * tools :=
  match run normalize p (ti_id input) (ti_hostname input) auth_token env_token t with
  | Ok t' => (StatusOf <$> status (ti_id input) t', t')
  | Err e => (Err e, t)
  end.

Definition default_stop (input : ToolInput) (t : tools) : result js_error tool_result * tools :=
  (Signals (ti_id input ?? "") <$> stop (ti_id input) (ti_signal input) (after (ti_id input ?? "")) t, t).

Definition default_stopAll (t : tools) : result js_error (list tool_result) * tools :=
  (zip_with Signals (OMap.keys (tl_processes t)) <$> stopAll after t, t).

Definition DefaultRepeaterTools : RepeaterTools tools tool_result :=
  mk_repeater_tools _ _ default_run default_stop
    (fun input t => (StatusOf <$> status (ti_id input) t, t)) (Some default_stopAll).
End default.

(** What the constructor declares to clients. *)
Record ServerInfo : Type := mk_server_info {
  si_name : string;
  si_version : string;
  si_capabilities : list string
}.
Definition new_BrightMcpServer (version : string) : ServerInfo := mk_server_info "bright-cli" version ["tools"].

(** ** Properties *)

(** The server lists exactly the tools it serves: whatever implements them, a call of a
    listed name is handed to one of the three operations and nothing else, and any other name
    is answered with an error that names it and changes nothing. *)
Theorem listed_tools_served {T R} (rtools : RepeaterTools T R) text name input auth_token (t : T) :
  if bool_decide (name ∈ tool_name <$> createTools)
  then executeTool rtools name input auth_token t ∈
    [rt_run rtools input auth_token t; rt_stop rtools input t; rt_status rtools input t]
  else callTool rtools text name input auth_token t = ((true, "Unknown tool: " +:+ name), t).
Proof.
  unfold callTool, executeTool. case_bool_decide as Hin; simpl in Hin.
  - rewrite !elem_of_cons. rewrite !elem_of_cons in Hin. destruct Hin as [->|[->|[->|Hin]]]; [simpl; tauto..|].
    by apply not_elem_of_nil in Hin.
  - rewrite !not_elem_of_cons in Hin. destruct Hin as (H1 & H2 & H3 & _).
    by rewrite !eqb_neq by done.
Qed.

(** The registry names its entries: an id it holds is not empty and is the id of the entry. *)
Definition registry_ok (t : tools) : Prop :=
  forall id i, OMap.get id (tl_processes t) = Some i ->
    truthy id = true /\ exists e, tl_entries t !! i = Some e /\ pe_id e = id.

Lemma update_ok i f t : (forall e, pe_id (f e) = pe_id e) -> registry_ok t -> registry_ok (update_entry i f t).
Proof.
  intros Hf Hok id j Hj. destruct (Hok id j Hj) as (Ht & e & He & Hid). split; [done|]. simpl.
  destruct (decide (i = j)) as [->|Hne].
  - exists (f e). rewrite list_lookup_alter_eq, He. by rewrite Hf.
  - exists e. by rewrite list_lookup_alter_ne.
Qed.

Lemma run_failed_ok i t : registry_ok t -> registry_ok (run_failed i t).
Proof.
  intros Hok. unfold run_failed. repeat case_match; [|done..]. intros id j Hj. simpl in Hj.
  destruct (decide (id = pe_id r)) as [->|Hne]; [by rewrite get_del_eq in Hj|].
  rewrite get_del_ne in Hj by done. by apply Hok.
Qed.

Lemma run_ok normalize p id hostname token env t t' :
  run normalize p id hostname token env t = Ok t' -> registry_ok t -> registry_ok t'.
Proof.
  unfold run. intros Hr Hok. inv_bind Hr. rename a into id'. simplify_eq. intros k i Hk. simpl in *.
  assert (truthy id' = true) as Hid.
  { unfold requireId in Ha. destruct id as [s|]; [|done]. destruct (truthy s) eqn:Hs; simpl in *; by simplify_eq. }
  destruct (decide (k = id')) as [->|Hne].
  - rewrite get_set_eq in Hk. simplify_eq. split; [done|]. eexists. by rewrite list_lookup_middle.
  - rewrite get_set_ne in Hk by done. destruct (Hok k i Hk) as (Ht & e & He & Hpe). split; [done|].
    exists e. split; [|done]. by apply lookup_app_l_Some.
Qed.

Lemma step_ok normalize p t t' : tool_step normalize p t t' -> registry_ok t -> registry_ok t'.
Proof.
  destruct 1; eauto using run_ok; intros Hok; unfold child_error, child_exit, started;
    repeat case_match; eauto using run_failed_ok, update_ok.
Qed.

(** The signals sent to the process of an id. *)
Definition signals_of (after : string -> bool) (t : tools) (id : string) : list string :=
  match requireEntry id t with
  | Ok e => if isRunning e then "SIGTERM" :: (if after id then ["SIGKILL"] else []) else []
  | Err _ => []
  end.

Lemma stopAll_signals after t :
  registry_ok t -> stopAll after t = Ok (signals_of after t <$> OMap.keys (tl_processes t)).
Proof.
  intros Hok. apply mapR_pure. intros id Hid. unfold stop, signals_of, requireId, requireEntry.
  destruct (OMap.get id (tl_processes t)) as [i|] eqn:Hg; [|rewrite get_None in Hg; by destruct (Hg Hid)].
  destruct (Hok id i Hg) as (-> & e & He & _). simpl. rewrite ?Hg. simpl. rewrite He. simpl. by destruct (isRunning e).
Qed.

Lemma reachable_ok normalize p t : rtc (tool_step normalize p) no_tools t -> registry_ok t.
Proof.
  intros Hr. remember no_tools as t0 eqn:H0. assert (registry_ok t0) as Hok by (subst; by intros ? ?).
  clear H0. induction Hr; eauto using step_ok.
Qed.



(** ** Sessions *)

Section session.
Context (normalize : string -> string) (p : Process) (after : string -> bool) (env_token : option string).
Context (text : tool_result -> string).

(** A client sends requests while the processes it started fail, exit and get ready. *)
Inductive session_step : tools -> tools -> Prop :=
| session_request request t :
    session_step t (registerHandlers (DefaultRepeaterTools normalize p after env_token) text request t).2
| session_error t i message : i < length (tl_entries t) -> session_step t (child_error i message t)
| session_exit t i code : i < length (tl_entries t) -> session_step t (child_exit i code t)
| session_started t i : session_step t (started i t).

(** A request does nothing to the processes or starts one. *)
Lemma request_step request t :
  let t' := (registerHandlers (DefaultRepeaterTools normalize p after env_token) text request t).2 in
  t' = t \/ tool_step normalize p t t'.
Proof.
  destruct request as [|name input auth_token]; simpl; [by left|].
  unfold callTool, executeTool. simpl. destruct (name === "runRepeater").
  - unfold default_run. destruct (run _ _ _ _ _ _ _) as [t'|e] eqn:Hr; simpl; [right|by left].
    case_match. by eapply tool_run.
  - left. destruct (name === "stopRepeater"), (name === "repeaterStatus"); simpl; repeat case_match; done.
Qed.

Lemma session_reaches t t' : rtc session_step t t' -> rtc (tool_step normalize p) t t'.
Proof.
  induction 1 as [|t1 t2 t3 Hs _ IH]; [constructor|].
  destruct Hs as [request t|t i message Hi|t i code Hi|t i].
  - destruct (request_step request t) as [Heq|Hs]; [by rewrite Heq in IH|]. by eapply rtc_l.
  - eapply rtc_l; [|done]. by apply tool_error.
  - eapply rtc_l; [|done]. by apply tool_exit.
  - eapply rtc_l; [|done]. apply tool_started.
Qed.

(** Whatever a client asks for and whatever happens to the processes, a session never has two
    running processes for one id. *)
Theorem session_one_process t i j e e' :
  rtc session_step no_tools t -> tl_entries t !! i = Some e -> tl_entries t !! j = Some e' ->
  isRunning e = true -> isRunning e' = true -> pe_id e = pe_id e' -> i = j.
Proof.
  intros Hr%session_reaches%reachable_registered Hi Hj He He' Hid.
  pose proof (Hr i e Hi He) as Hgi. pose proof (Hr j e' Hj He') as Hgj. rewrite Hid in Hgi. congruence.
Qed.
End session.

