(* ===== verification/Traceroute.v ===== *)
(** * Traceroute: the probing loop of the configuration wizard

    Models src/src/Utils/Traceroute.ts.  [createPingRequest] and [parseIdFromIcmpMessage]
    work on lists of bytes; the class is a state machine whose inputs are the callbacks of
    the event loop (an immediate, the completion of a send, a timer, an ICMP message, the
    end of a reverse lookup, a socket error), so that every interleaving the code allows
    is a list of events.  The raw socket's checksum functions are third-party code and
    parameters. *)

From stdpp Require Import pretty sorting.
From S2P Require Import Prelude.
Local Open Scope Z_scope.

(** ** Bytes *)

Section packets.

(** [raw.createChecksum(buffer)] and [raw.writeChecksum(buffer, offset, checksum)]. *)
Context (createChecksum : list Z -> Z).
Context (writeChecksum : list Z -> nat -> Z -> list Z).

(** [firstByte] and [secondByte]: the low and the next eight bits. *)
Definition firstByte (value : Z) : Z := Z.land value 0xff.
Definition secondByte (value : Z) : Z := Z.shiftr (Z.land value 0xff00) 8.

(** [createPingRequest]: the echo request header followed by [packetSize] bytes 0xff, with
    the checksum written at offset 2. *)
Definition createPingRequest (type identifier sequence : Z) (packetSize : nat) : list Z :=
  let header := [ if type =? 0 then 0x08 else type; 0x00; 0x00; 0x00;
                  secondByte identifier; firstByte identifier;
                  secondByte sequence; firstByte sequence ] in
  let buffer := header ++ replicate packetSize 0xff in
  writeChecksum buffer 2 (createChecksum buffer).

End packets.

(** [Buffer.readUInt8] and [Buffer.readUInt16BE], which throw out of range. *)
Definition ERR_OUT_OF_RANGE : js_error :=
  mk_error "RangeError" "The value of offset is out of range" (Some "ERR_OUT_OF_RANGE")
    None None None false None None None.

Definition readUInt8 (msg : list Z) (offset : nat) : result js_error Z :=
  match msg !! offset with Some b => Ok b | None => Err ERR_OUT_OF_RANGE end.

Definition readUInt16BE (msg : list Z) (offset : nat) : result js_error Z :=
  match msg !! offset, msg !! S offset with
  | Some hi, Some lo => Ok (hi * 256 + lo)
  | _, _ => Err ERR_OUT_OF_RANGE
  end.

(** [parseIdFromIcmpMessage]: the number at offset 6 of the ICMP message, or, for the error
    types, of the datagram quoted after the inner IPv4 header; [None] is [undefined]. *)
Definition parseIdFromIcmpMessage (msg : list Z) : result js_error (option Z) :=
  let offset := 20%nat in
  type ← readUInt8 msg offset;
  if (type =? 3) || (type =? 4) || (type =? 5) || (type =? 11) then
    let icmpIPOffset := (offset + 8)%nat in
    if Z.of_nat (length msg) - Z.of_nat icmpIPOffset <? 20 then Ok None
    else
      first ← readUInt8 msg icmpIPOffset;
      if negb (Z.land first 0xf0 =? 0x40) then Ok None
      else
        let icmpIPLength := Z.land first 0x0f * 4 in
        if Z.of_nat (length msg) - Z.of_nat icmpIPOffset - icmpIPLength <? 8 then Ok None
        else
          id ← readUInt16BE msg (icmpIPOffset + Z.to_nat icmpIPLength + 6);
          Ok (Some id)
  else
    id ← readUInt16BE msg (offset + 6);
    Ok (Some id).

(** ** Options *)

Inductive Protocol : Type := ICMP | UDP.
#[export] Instance Protocol_eq_dec : EqDecision Protocol.
Proof. solve_decision. Defined.

(** [Options]; the stream option is declared by the code and never read. *)
Record Options : Type := mk_Options {
  amountProbes : Z;
  maximumHops : Z;
  timeoutInMillis : Z;
  reverseLookup : bool;
  protocol : Protocol;
  packetSize : nat
}.

Definition defaultOptions : Options := mk_Options 3 64 3000 true ICMP 52.

(** [Partial<Options>]: [None] is undefined or null, which [Helpers.omit] drops. *)
Record PartialOptions : Type := mk_Partial {
  p_amountProbes : option Z;
  p_maximumHops : option Z;
  p_timeoutInMillis : option Z;
  p_reverseLookup : option bool;
  p_protocol : option Protocol;
  p_packetSize : option nat
}.

(** The constructor's normalisation: user options over the defaults; a number of hops that
    is missing, zero, negative or above 255 is the default. *)
Definition new_options (user : PartialOptions) : Options :=
  let hops := match p_maximumHops user with
              | Some 0 | None => maximumHops defaultOptions
              | Some h => h
              end in
  mk_Options
    (p_amountProbes user ?? amountProbes defaultOptions)
    (if (255 <? hops) || (hops <? 1) then maximumHops defaultOptions else hops)
    (p_timeoutInMillis user ?? timeoutInMillis defaultOptions)
    (p_reverseLookup user ?? reverseLookup defaultOptions)
    (p_protocol user ?? protocol defaultOptions)
    (p_packetSize user ?? packetSize defaultOptions).

(** ** State *)

(** The fields of the class that change. *)
Record fields : Type := mk_fields {
  port : Z;
  ttl : Z;
  probes : Z;
  timeout : option nat;
  previousIP : option string;
  destinationIp : option string
}.

(** What the event loop holds for the instance: scheduled immediates, sends in flight,
    armed timers (with the next timer's identity), and the addresses whose reverse lookup
    the message handler awaits. *)
Record loop : Type := mk_loop {
  immediates : nat;
  sending : nat;
  armed : list nat;
  nextTimer : nat;
  lookups : list string
}.

(** The promise of [execute]: still resolving the destination, waiting for [Stop] or an
    error, fulfilled, rejected; [Crashed] is an uncaught exception. *)
Inductive status : Type :=
| Resolving
| Waiting
| Stopped (reached : bool)
| Failed (e : js_error)
| Crashed (e : js_error).

(** A probe handed to the socket: its hop limit, its number and its bytes. *)
Record probe : Type := mk_probe { pr_ttl : Z; pr_port : Z; pr_buffer : list Z }.

Record state : Type := mk_state {
  this : fields;
  evloop : loop;
  st : status;
  sent : list probe;
  stdout : string
}.

Inductive event : Type :=
| Resolved (addresses : result js_error (list string))
| Immediate (thrown : option js_error)
| Sent (error : option js_error)
| TimerFires (id : nat)
| Message (buffer : list Z) (ip : string)
| LookedUp (ip : string) (names : result js_error (list string)) (elapsedTime : string)
| SocketError (e : js_error).

Definition upd_this (f : fields -> fields) (s : state) : state :=
  mk_state (f (this s)) (evloop s) (st s) (sent s) (stdout s).
Definition upd_loop (f : loop -> loop) (s : state) : state :=
  mk_state (this s) (f (evloop s)) (st s) (sent s) (stdout s).
Definition set_st (x : status) (s : state) : state :=
  mk_state (this s) (evloop s) x (sent s) (stdout s).
Definition write (text : string) (s : state) : state :=
  mk_state (this s) (evloop s) (st s) (sent s) (stdout s +:+ text).
Definition log_probe (p : probe) (s : state) : state :=
  mk_state (this s) (evloop s) (st s) (sent s ++ [p]) (stdout s).

(** [setImmediate(() => this.sendPacket())]. *)
Definition setImmediate : state -> state :=
  upd_loop (fun l => mk_loop (S (immediates l)) (sending l) (armed l) (nextTimer l) (lookups l)).

(** [clearTimeout]: the timer stays recorded, and is disarmed if it has not fired. *)
Definition clearTimeout (s : state) : state :=
  match timeout (this s) with
  | Some id =>
      upd_loop (fun l => mk_loop (immediates l) (sending l)
        (base.filter (fun i => i <> id) (armed l)) (nextTimer l) (lookups l)) s
  | None => s
  end.

(** [emitError]: the promise of [once] takes the error while [execute] waits; without that
    listener the emitter throws it. *)
Definition emitError (e : js_error) (s : state) : state :=
  match st s with
  | Waiting => set_st (Failed e) s
  | _ => set_st (Crashed e) s
  end.

(** [subject.emit(Stop, { reached })]. *)
Definition emitStop (reached : bool) (s : state) : state :=
  match st s with
  | Waiting => set_st (Stopped reached) s
  | _ => s
  end.

Definition padStart3 (s : string) : string :=
  match String.length s with
  | 0%nat => "   " +:+ s
  | 1%nat => "  " +:+ s
  | 2%nat => " " +:+ s
  | _ => s
  end.

Fixpoint spaces (n : nat) : string :=
  match n with O => "" | S n => String (chr 32) (spaces n) end.

(** What [handleReply] prints. *)
Definition report (t : fields) (ip : option string) (symbolicAddress : option string)
    (elapsedTime : string) : string :=
  let formattedTTL := padStart3 (pretty (ttl t)) in
  match ip with
  | Some (String _ _ as ip) =>
      let name := if truthy_opt symbolicAddress then symbolicAddress ?? ip else ip in
      let line := name +:+ " (" +:+ ip +:+ ")  " +:+ elapsedTime +:+ " " in
      if Some ip === previousIP t then " " +:+ elapsedTime +:+ " "
      else if probes t =? 1 then newline +:+ formattedTTL +:+ "  " +:+ line
      else newline +:+ spaces (String.length formattedTTL) +:+ "  " +:+ line
  | _ => if probes t =? 1 then newline +:+ formattedTTL +:+ "  * " else "* "
  end.

Section machine.

Context (createChecksum : list Z -> Z).
Context (writeChecksum : list Z -> nat -> Z -> list Z).
Context (options : Options).

(** [handleReply]. *)
Definition handleReply (ip symbolicAddress : option string) (elapsedTime : string)
    (s : state) : state :=
  let s := clearTimeout s in
  let t := this s in
  let s := write (report t ip symbolicAddress elapsedTime) s in
  let reached := ip === destinationIp t in
  if (probes t =? amountProbes options) && (reached || (maximumHops options <=? ttl t))
  then emitStop reached (write newline s)
  else
    setImmediate
      (upd_this (fun t => mk_fields (port t) (ttl t) (probes t) (timeout t) ip (destinationIp t)) s).

(** The counters of [sendPacket]. *)
Definition next_probe (t : fields) : fields :=
  let '(ttl', probes') := if amountProbes options <=? probes t then (ttl t + 1, 0)
                          else (ttl t, probes t) in
  mk_fields (port t + 1) ttl' (probes' + 1) (timeout t) (previousIP t) (destinationIp t).

(** [sendPacket]; [thrown] is what setting the hop limit on the socket throws: caught for
    the datagram socket, uncaught for the raw one. *)
Definition sendPacket (thrown : option js_error) (s : state) : state :=
  let s := upd_this next_probe s in
  let t := this s in
  let buffer := createPingRequest createChecksum writeChecksum 0 0 (port t) (packetSize options) in
  match thrown, protocol options with
  | Some e, UDP => emitError e s
  | Some e, ICMP => set_st (Crashed e) s
  | None, _ =>
      upd_loop (fun l => mk_loop (immediates l) (S (sending l)) (armed l) (nextTimer l) (lookups l))
        (log_probe (mk_probe (ttl t) (port t) buffer) s)
  end.

(** [afterSend]. *)
Definition afterSend (error : option js_error) (s : state) : state :=
  match error with
  | Some e => emitError e s
  | None =>
      let id := nextTimer (evloop s) in
      upd_this (fun t => mk_fields (port t) (ttl t) (probes t) (Some id) (previousIP t) (destinationIp t))
        (upd_loop (fun l => mk_loop (immediates l) (sending l) (armed l ++ [id]) (S id) (lookups l)) s)
  end.

(** The [message] listener up to its await: it goes on only for the current number; a
    message it cannot read rejects the listener's promise, which nothing handles. *)
Definition onMessage (buffer : list Z) (ip : string) (s : state) : state :=
  match parseIdFromIcmpMessage buffer with
  | Err e => set_st (Crashed e) s
  | Ok id =>
      if id === Some (port (this s)) then
        upd_loop (fun l => mk_loop (immediates l) (sending l) (armed l) (nextTimer l) (lookups l ++ [ip])) s
      else s
  end.

(** [getHostName]: the first name, if lookups are on and this one succeeds. *)
Definition getHostName (names : result js_error (list string)) : option string :=
  if reverseLookup options then
    match names with Ok (h :: _) => Some h | _ => None end
  else None.

(** The part of [execute] after the resolution: the banner and the first scheduled probe. *)
Definition start (hostname : string) (s : state) : state :=
  setImmediate (set_st Waiting (write
    ("traceroute to " +:+ hostname +:+ " (" +:+ (destinationIp (this s) ?? "undefined") +:+ "), "
     +:+ pretty (maximumHops options) +:+ " hops max, "
     +:+ pretty (Z.of_nat (packetSize options)) +:+ " byte packets") s)).

(** [execute] on a new instance; [isIP] is the test of [node:net]. *)
Definition execute (isIP : string -> bool) (destination : string) : state :=
  let s := mk_state (mk_fields 33433 1 0 None None (Some destination))
             (mk_loop 0 0 [] 0 []) Resolving [] "" in
  if isIP destination then start destination s else s.

Fixpoint remove_one (ip : string) (l : list string) : option (list string) :=
  match l with
  | [] => None
  | x :: l => if x === ip then Some l else cons x <$> remove_one ip l
  end.

(** One callback of the event loop, [None] when the loop has no such callback to run. The
    raw socket is closed once [execute] returned, and delivers nothing more. *)
Definition step (hostname : string) (e : event) (s : state) : option state :=
  let l := evloop s in
  match st s, e with
  | Crashed _, _ => None
  | Resolving, Resolved addresses =>
      let destination := match addresses with
                         | Ok l => head l
                         | Err _ => destinationIp (this s)
                         end in
      Some (start hostname (upd_this (fun t => mk_fields (port t) (ttl t) (probes t)
        (timeout t) (previousIP t) destination) s))
  | _, Resolved _ => None
  | _, Immediate thrown =>
      match immediates l with
      | S n => Some (sendPacket thrown
          (upd_loop (fun l => mk_loop n (sending l) (armed l) (nextTimer l) (lookups l)) s))
      | O => None
      end
  | _, Sent error =>
      match sending l with
      | S n => Some (afterSend error
          (upd_loop (fun l => mk_loop (immediates l) n (armed l) (nextTimer l) (lookups l)) s))
      | O => None
      end
  | _, TimerFires id =>
      if bool_decide (id ∈ armed l) then
        Some (handleReply None None ""
          (upd_loop (fun l => mk_loop (immediates l) (sending l)
             (base.filter (fun i => i <> id) (armed l)) (nextTimer l) (lookups l)) s))
      else None
  | Stopped _, Message _ _ => None
  | _, Message buffer ip => Some (onMessage buffer ip s)
  | _, LookedUp ip names elapsedTime =>
      match remove_one ip (lookups l) with
      | Some rest => Some (handleReply (Some ip) (getHostName names) elapsedTime
          (upd_loop (fun l => mk_loop (immediates l) (sending l) (armed l) (nextTimer l) rest) s))
      | None => None
      end
  | _, SocketError e => Some (emitError e s)
  end.

(** A run: the events happen in this order. *)
Fixpoint run (hostname : string) (es : list event) (s : state) : option state :=
  match es with
  | [] => Some s
  | e :: es => s' ← step hostname e s; run hostname es s'
  end.

End machine.

(** ** Reading back the number of a probe *)

(** Documented behaviour of [raw.writeChecksum]: it overwrites the two bytes at the offset
    and nothing else. *)
Definition writes_two (writeChecksum : list Z -> nat -> Z -> list Z) : Prop :=
  forall b off c, (off + 1 < length b)%nat ->
    exists hi lo, writeChecksum b off c = <[off := hi]> (<[S off := lo]> b).

Lemma byte_pair value : 0 <= value < 65536 -> secondByte value * 256 + firstByte value = value.
Proof.
  intros Hv. unfold secondByte, firstByte.
  rewrite Z.shiftr_land. change (Z.shiftr 0xff00 8) with (Z.ones 8). change 0xff with (Z.ones 8).
  rewrite !Z.land_ones, Z.shiftr_div_pow2 by lia. change (2 ^ 8) with 256.
  rewrite (Z.mod_small (value / 256)).
  - pose proof (Z.div_mod value 256). lia.
  - split; [apply Z.div_pos; lia|]. apply Z.div_lt_upper_bound; lia.
Qed.

Section readback.

Context (createChecksum : list Z -> Z) (writeChecksum : list Z -> nat -> Z -> list Z).
Context (Hwrite : writes_two writeChecksum).

(** The bytes of a probe: an echo request that carries the number at offset 6. *)
Lemma ping_bytes sequence size :
  exists c1 c2, createPingRequest createChecksum writeChecksum 0 0 sequence size =
    [8; 0; c1; c2; 0; 0; secondByte sequence; firstByte sequence] ++ replicate size 0xff.
Proof.
  unfold createPingRequest. simpl Z.eqb. cbv iota zeta.
  set (buffer := _ ++ replicate size 255).
  destruct (Hwrite buffer 2%nat (createChecksum buffer)) as (hi & lo & Hw); [simpl; lia|].
  exists hi, lo. rewrite Hw. done.
Qed.

End readback.

Lemma readUInt8_app (a b : list Z) x :
  readUInt8 (a ++ x :: b) (length a) = Ok x.
Proof. unfold readUInt8. by rewrite list_lookup_middle. Qed.

Lemma readUInt16BE_app (a b : list Z) hi lo k :
  k = length a -> readUInt16BE (a ++ hi :: lo :: b) k = Ok (hi * 256 + lo).
Proof.
  intros ->. unfold readUInt16BE. rewrite list_lookup_middle by done.
  change (a ++ hi :: lo :: b) with (a ++ [hi] ++ lo :: b).
  rewrite (assoc_L (++)), list_lookup_middle; [done|]. rewrite length_app. simpl. lia.
Qed.

(** An echo reply: a 20-byte IP header, then the message, whose number is at offset 6. *)
Lemma parse_reply (ip : list Z) t r c1 c2 i1 i2 hi lo rest :
  length ip = 20%nat -> t <> 3 -> t <> 4 -> t <> 5 -> t <> 11 ->
  parseIdFromIcmpMessage (ip ++ [t; r; c1; c2; i1; i2; hi; lo] ++ rest) = Ok (Some (hi * 256 + lo)).
Proof.
  intros Hip H3 H4 H5 H11. unfold parseIdFromIcmpMessage.
  rewrite <- Hip at 1. simpl app. rewrite readUInt8_app. simpl.
  repeat rewrite (proj2 (Z.eqb_neq _ _)) by done. simpl.
  change (ip ++ t :: r :: c1 :: c2 :: i1 :: i2 :: hi :: lo :: rest)
    with (ip ++ [t; r; c1; c2; i1; i2] ++ hi :: lo :: rest).
  rewrite (assoc_L (++)), readUInt16BE_app; [done|]. rewrite length_app, Hip. done.
Qed.

(** An error message: it quotes an IPv4 header of [ihl] words and at least eight bytes of
    the datagram that caused it, and the number is at offset 6 of that datagram. *)
Lemma parse_error (ip quoted : list Z) t r c1 c2 u1 u2 u3 u4 ihl d0 d1 d2 d3 d4 d5 hi lo rest :
  length ip = 20%nat -> t ∈ [3; 4; 5; 11] -> 5 <= ihl <= 15 ->
  Z.of_nat (length quoted) = 4 * ihl - 1 ->
  parseIdFromIcmpMessage (ip ++ [t; r; c1; c2; u1; u2; u3; u4] ++ (0x40 + ihl :: quoted) ++
    [d0; d1; d2; d3; d4; d5; hi; lo] ++ rest) = Ok (Some (hi * 256 + lo)).
Proof.
  intros Hip Ht Hihl Hq. unfold parseIdFromIcmpMessage.
  rewrite <- Hip at 1. simpl app. rewrite readUInt8_app. cbn [mbind result_bind].
  replace ((t =? 3) || (t =? 4) || (t =? 5) || (t =? 11)) with true
    by (repeat (apply elem_of_cons in Ht as [->|Ht]; [done|]); set_solver).
  set (msg := ip ++ _).
  assert (length msg = 28 + S (length quoted) + 8 + length rest)%nat as Hlen.
  { subst msg. rewrite length_app, Hip. simpl. rewrite length_app. simpl. lia. }
  rewrite (proj2 (Z.ltb_ge _ _)) by lia.
  assert (msg = (ip ++ [t; r; c1; c2; u1; u2; u3; u4]) ++ (0x40 + ihl) ::
    (quoted ++ d0 :: d1 :: d2 :: d3 :: d4 :: d5 :: hi :: lo :: rest)) as Hmsg.
  { subst msg. by rewrite <- (assoc_L (++)). }
  assert (readUInt8 msg (20 + 8) = Ok (0x40 + ihl)) as ->.
  { rewrite Hmsg. replace (20 + 8)%nat with (length (ip ++ [t; r; c1; c2; u1; u2; u3; u4])).
    { apply readUInt8_app. } rewrite length_app, Hip. done. }
  cbn [mbind result_bind].
  assert (Z.land (0x40 + ihl) 0xf0 = 0x40 /\ Z.land (0x40 + ihl) 0x0f = ihl) as [-> ->].
  { assert (ihl ∈ seqZ 5 11) as Hin by (apply elem_of_seqZ; lia). revert Hin. clear.
    generalize ihl. apply Forall_forall. repeat constructor; vm_compute; split; reflexivity. }
  simpl negb. cbv iota. rewrite (proj2 (Z.ltb_ge _ _)) by lia.
  rewrite Hmsg.
  replace ((ip ++ [t; r; c1; c2; u1; u2; u3; u4]) ++ 64 + ihl ::
    (quoted ++ d0 :: d1 :: d2 :: d3 :: d4 :: d5 :: hi :: lo :: rest)) with
    (((ip ++ [t; r; c1; c2; u1; u2; u3; u4]) ++ (64 + ihl :: quoted) ++ [d0; d1; d2; d3; d4; d5])
      ++ hi :: lo :: rest) by (rewrite <- !(assoc_L (++)); done).
  rewrite readUInt16BE_app; [done|]. rewrite !length_app, Hip. simpl length.
  repeat rewrite length_app. simpl. lia.
Qed.

(** C24: The number of a probe survives the network: for every 16-bit number, the echo reply
    to the probe (any type that is not an error, the probe's bytes from offset 4) behind any
    20-byte IP header, and every ICMP error message that quotes an IPv4 header of any legal
    length and at least the first eight bytes of the probe, both parse to that number. *)
Theorem probe_number_roundtrip createChecksum writeChecksum sequence size ip t r c1 c2 :
  writes_two writeChecksum -> 0 <= sequence < 65536 -> length ip = 20%nat ->
  let ping := createPingRequest createChecksum writeChecksum 0 0 sequence size in
  (t ∉ [3; 4; 5; 11] ->
     parseIdFromIcmpMessage (ip ++ [t; r; c1; c2] ++ drop 4 ping) = Ok (Some sequence)) /\
  (forall ihl quoted n u1 u2 u3 u4,
     t ∈ [3; 4; 5; 11] -> 5 <= ihl <= 15 -> Z.of_nat (length quoted) = 4 * ihl - 1 -> (8 <= n)%nat ->
     parseIdFromIcmpMessage (ip ++ [t; r; c1; c2; u1; u2; u3; u4] ++ (0x40 + ihl :: quoted) ++ take n ping)
       = Ok (Some sequence)).
Proof.
  intros Hw Hs Hip ping.
  destruct (ping_bytes createChecksum writeChecksum Hw sequence size) as (k1 & k2 & Hping).
  subst ping. rewrite Hping.
  replace (Some sequence) with (Some (secondByte sequence * 256 + firstByte sequence))
    by (by rewrite byte_pair).
  split.
  - intros Ht. cbn [app drop].
    apply (parse_reply ip t r c1 c2 0 0 _ _ (replicate size 255)); set_solver.
  - intros ihl quoted n u1 u2 u3 u4 Ht Hi Hq Hn.
    destruct n as [|[|[|[|[|[|[|[|n]]]]]]]]; try lia. cbn [app take].
    by apply (parse_error ip quoted t r c1 c2 u1 u2 u3 u4 ihl 8 0 k1 k2 0 0 _ _ (take n (replicate size 255))).
Qed.

Lemma probe_number_roundtrip_witness :
  parseIdFromIcmpMessage (replicate 20 0 ++ [11; 0; 1; 2; 0; 0; 0; 0] ++ (0x46 :: replicate 23 7) ++
    take 8 (createPingRequest (fun _ => 0x1234) (fun b o c => <[o := Z.shiftr c 8]> (<[S o := Z.land c 255]> b))
      0 0 33434 52)) = Ok (Some 33434).
Proof.
  pose proof (probe_number_roundtrip (fun _ => 0x1234)
    (fun b o c => <[o := Z.shiftr c 8]> (<[S o := Z.land c 255]> b)) 33434 52 (replicate 20 0) 11 0 1 2) as [_ H].
  - intros b off c _. by exists (Z.shiftr c 8), (Z.land c 255).
  - lia.
  - reflexivity.
  - apply (H 6 (replicate 23 7) 8%nat 0 0 0 0); [set_solver|lia|reflexivity|lia].
Defined.

(** ** The counters in every interleaving *)

Section counters.

Context (createChecksum : list Z -> Z) (writeChecksum : list Z -> nat -> Z -> list Z).
Context (o : Options) (hostname : string).
Context (Hamount : 1 <= amountProbes o).

Abbreviation step := (step createChecksum writeChecksum o hostname).
Abbreviation run := (run createChecksum writeChecksum o hostname).
Abbreviation ping p := (createPingRequest createChecksum writeChecksum 0 0 p (packetSize o)).

(** The probe number [i], counted from 0. *)
Definition nth_probe (i : Z) : probe :=
  mk_probe (1 + i / amountProbes o) (33434 + i) (ping (33434 + i)).

(** The counters agree, and what was sent are numbered probes in increasing order. *)
Definition counters_ok (s : state) : Prop :=
  let t := this s in
  1 <= ttl t /\ 0 <= probes t <= amountProbes o /\
  port t = 33433 + (ttl t - 1) * amountProbes o + probes t /\
  exists idx : list Z, sent s = nth_probe <$> idx /\ StronglySorted Z.lt idx /\
    Forall (fun i => 0 <= i < port t - 33433) idx.

(** Only [sendPacket] touches the counters and the log. *)
Definition same_counters (s s' : state) : Prop :=
  ttl (this s') = ttl (this s) /\ probes (this s') = probes (this s) /\
  port (this s') = port (this s) /\ sent s' = sent s.

Lemma counters_ok_same s s' : same_counters s s' -> counters_ok s -> counters_ok s'.
Proof. unfold counters_ok. intros (-> & -> & -> & ->). done. Qed.

Lemma clearTimeout_same s : same_counters s (clearTimeout s).
Proof. unfold clearTimeout. destruct (timeout (this s)); done. Qed.

Lemma emitError_same e s : same_counters s (emitError e s).
Proof. unfold emitError. destruct (st s); done. Qed.

Lemma handleReply_same ip name el s : same_counters s (handleReply o ip name el s).
Proof.
  unfold handleReply. case_match.
  - unfold emitStop. destruct (clearTimeout_same s) as (?&?&?&?). simpl. case_match; done.
  - destruct (clearTimeout_same s) as (?&?&?&?). done.
Qed.

Lemma nth_probe_next t :
  1 <= ttl t -> 0 <= probes t <= amountProbes o ->
  port t = 33433 + (ttl t - 1) * amountProbes o + probes t ->
  mk_probe (ttl (next_probe o t)) (port (next_probe o t)) (ping (port (next_probe o t)))
  = nth_probe (port t - 33433).
Proof.
  intros Ht Hp Hport. unfold nth_probe.
  replace (33434 + (port t - 33433)) with (port t + 1) by lia.
  unfold next_probe. destruct (Z.leb_spec (amountProbes o) (probes t)); simpl; f_equal.
  - replace (port t - 33433) with (ttl t * amountProbes o) by nia. rewrite Z.div_mul by lia. lia.
  - replace (port t - 33433) with (probes t + (ttl t - 1) * amountProbes o) by lia.
    rewrite Z.div_add, Z.div_small by lia. lia.
Qed.

Lemma StronglySorted_snoc idx (n : Z) :
  StronglySorted Z.lt idx -> Forall (fun i => 0 <= i < n) idx -> StronglySorted Z.lt (idx ++ [n]).
Proof.
  induction 1 as [|i idx Hidx IH Hi]; intros Hall; simpl.
  - repeat constructor.
  - apply Forall_cons in Hall as [? ?]. constructor; [auto|].
    apply Forall_app; split; [done|]. repeat constructor. lia.
Qed.

Lemma next_probe_port t : port (next_probe o t) = port t + 1.
Proof. unfold next_probe. by case_match. Qed.

Lemma sendPacket_counters thrown s :
  counters_ok s -> counters_ok (sendPacket createChecksum writeChecksum o thrown s).
Proof.
  intros (Ht & Hp & Hport & idx & Hsent & Hsorted & Hall).
  pose proof (next_probe_port (this s)) as Hnp.
  assert (1 <= ttl (next_probe o (this s)) /\ 0 <= probes (next_probe o (this s)) <= amountProbes o /\
    port (next_probe o (this s)) = 33433 + (ttl (next_probe o (this s)) - 1) * amountProbes o
      + probes (next_probe o (this s))) as (Ht' & Hp' & Hport').
  { unfold next_probe. destruct (Z.leb_spec (amountProbes o) (probes (this s))); simpl; nia. }
  assert (counters_ok (upd_this (next_probe o) s)) as Hup.
  { unfold counters_ok. simpl. split_and!; try lia. exists idx. split_and!; [done..|]. rewrite Hnp.
    eapply Forall_impl; [done|]. simpl. lia. }
  unfold sendPacket. destruct thrown as [e|]; [case_match|].
  - apply (counters_ok_same (upd_this (next_probe o) s)); done.
  - eapply counters_ok_same, Hup. apply emitError_same.
  - unfold counters_ok. simpl. split_and!; try lia. exists (idx ++ [port (this s) - 33433]). simpl. split_and!.
    + rewrite fmap_app, Hsent, nth_probe_next by done. done.
    + by apply StronglySorted_snoc.
    + rewrite Hnp. apply Forall_app; split.
      * eapply Forall_impl; [done|]. simpl. lia.
      * repeat constructor; nia.
Qed.

Lemma afterSend_same error s : same_counters s (afterSend error s).
Proof. unfold afterSend. destruct error; [apply emitError_same|done]. Qed.

Lemma onMessage_same buffer ip s : same_counters s (onMessage buffer ip s).
Proof. unfold onMessage. repeat case_match; done. Qed.

Lemma same_counters_loop f s s' : same_counters (upd_loop f s) s' -> same_counters s s'.
Proof. done. Qed.

Lemma step_counters e s s' : step e s = Some s' -> counters_ok s -> counters_ok s'.
Proof.
  unfold Traceroute.step. intros Hs Hok.
  destruct e, (st s); simplify_eq/=; repeat case_match; simplify_eq/=;
    try (apply sendPacket_counters; by apply (counters_ok_same s));
    eapply counters_ok_same, Hok; try done;
    eauto using emitError_same, onMessage_same, same_counters_loop, afterSend_same, handleReply_same.
Qed.

Lemma run_counters es s s' : run es s = Some s' -> counters_ok s -> counters_ok s'.
Proof.
  revert s. induction es as [|e es IH]; simpl; intros s Hr Hok; [by simplify_eq|].
  destruct (step e s) as [s1|] eqn:Hs; [|done]. simpl in Hr.
  eapply IH; [done|]. by eapply step_counters.
Qed.

Lemma execute_counters isIP destination : counters_ok (execute o isIP destination).
Proof.
  unfold execute. destruct (isIP destination); simpl; split_and!; simpl; try lia;
    exists []; split_and!; done || constructor.
Qed.

End counters.

(** C23: In every interleaving of replies, timeouts, send completions, lookups and errors,
    the number of the current probe is a function of the hop limit and of the probe of the
    hop, so that no two probes share a number; and every probe handed to the socket is the
    echo request of its number, sent with the hop limit that number stands for. *)
Theorem counters_invariant createChecksum writeChecksum o hostname isIP destination es s :
  1 <= amountProbes o ->
  run createChecksum writeChecksum o hostname es (execute o isIP destination) = Some s ->
  let t := this s in
  1 <= ttl t /\ 0 <= probes t <= amountProbes o /\
  port t = 33433 + (ttl t - 1) * amountProbes o + probes t /\
  NoDup (pr_port <$> sent s) /\
  (forall p, p ∈ sent s -> exists i, 0 <= i < port t - 33433 /\
    p = mk_probe (1 + i / amountProbes o) (33434 + i)
          (createPingRequest createChecksum writeChecksum 0 0 (33434 + i) (packetSize o))).
Proof.
  intros Ha Hr. apply run_counters in Hr as (Ht & Hp & Hport & idx & Hsent & Hsorted & Hall);
    [|done|apply execute_counters; done].
  split_and!; try done || lia.
  - rewrite Hsent. clear -Hsorted. induction Hsorted as [|i idx _ IH Hi]; simpl; constructor; [|done].
    rewrite Forall_forall in Hi. intros (p & Hip & (j & -> & Hj)%list_elem_of_fmap)%list_elem_of_fmap.
    simpl in Hip. specialize (Hi j Hj). lia.
  - intros p. rewrite Hsent. intros (i & -> & Hi)%list_elem_of_fmap.
    rewrite Forall_forall in Hall. eauto.
Qed.

Lemma counters_invariant_witness :
  exists s, run (fun _ => 0) (fun b _ _ => b) defaultOptions "h"
      [Immediate None; Sent None; TimerFires 0; Immediate None] (execute defaultOptions (fun _ => true) "h")
    = Some s /\ NoDup (pr_port <$> sent s).
Proof.
  eexists. split; [vm_compute; reflexivity|].
  eapply (counters_invariant (fun _ => 0) (fun b _ _ => b) defaultOptions "h" (fun _ => true) "h"
    [Immediate None; Sent None; TimerFires 0; Immediate None]); [vm_compute; done|vm_compute; reflexivity].
Defined.

(** ** Orderly runs *)

(** What the network does with a probe: nothing within the time limit, or one message,
    with the sender's address, the names of its reverse lookup and the elapsed time. *)
Definition answer : Type := option (list Z * string * result js_error (list string) * string).

Definition answer_ip (a : answer) : option string := (fun '(_, ip, _, _) => ip) <$> a.

(** The events of one probe when nothing overtakes anything: the probe is sent, then it
    times out, or its answer arrives and is looked up. *)
Definition round (i : nat) (a : answer) : list event :=
  [Immediate None; Sent None] ++
  match a with
  | None => [TimerFires i]
  | Some (buffer, ip, names, elapsed) => [Message buffer ip; LookedUp ip names elapsed]
  end.

(** Reference: hop by hop, the first whose last probe the destination answered, or the last. *)
Fixpoint trace (last_ip : nat -> option string) (destination : option string) (remaining hop : nat) : nat * bool :=
  if last_ip hop === destination then (hop, true)
  else match remaining with
       | O => (hop, false)
       | S remaining => trace last_ip destination remaining (S hop)
       end.

Section orderly.

Context (createChecksum : list Z -> Z) (writeChecksum : list Z -> nat -> Z -> list Z).
Context (o : Options) (hostname : string) (destination : option string).
Context (Hamount : 1 <= amountProbes o).

Abbreviation run := (run createChecksum writeChecksum o hostname).
Abbreviation n := (amountProbes o).

(** Before probe [i]: one immediate is scheduled and nothing else is under way. *)
Definition ready (i : nat) (s : state) : Prop :=
  st s = Waiting /\ evloop s = mk_loop 1 0 [] i [] /\
  port (this s) = 33433 + Z.of_nat i /\ destinationIp (this s) = destination /\
  ttl (next_probe o (this s)) = 1 + Z.of_nat i / n /\
  probes (next_probe o (this s)) = 1 + Z.of_nat i mod n /\
  length (sent s) = i.

(** Whether probe [i] with this answer ends the trace, and the result. *)
Definition verdict (i : nat) (a : answer) : option bool :=
  let reached := answer_ip a === destination in
  if (1 + Z.of_nat i mod n =? n) && (reached || (maximumHops o <=? 1 + Z.of_nat i / n))
  then Some reached else None.

Lemma div_mod_succ i :
  (if n <=? 1 + Z.of_nat i mod n then (1 + Z.of_nat i / n + 1, 0 + 1)
   else (1 + Z.of_nat i / n, 1 + Z.of_nat i mod n + 1)) =
  (1 + Z.of_nat (S i) / n, 1 + Z.of_nat (S i) mod n).
Proof.
  pose proof (Z.div_mod (Z.of_nat i) n). pose proof (Z.mod_pos_bound (Z.of_nat i) n).
  destruct (Z.leb_spec n (1 + Z.of_nat i mod n)).
  - rewrite <- (Z.div_unique (Z.of_nat (S i)) n (Z.of_nat i / n + 1) 0),
      <- (Z.mod_unique (Z.of_nat (S i)) n (Z.of_nat i / n + 1) 0) by nia. f_equal; lia.
  - rewrite <- (Z.div_unique (Z.of_nat (S i)) n (Z.of_nat i / n) (Z.of_nat i mod n + 1)),
      <- (Z.mod_unique (Z.of_nat (S i)) n (Z.of_nat i / n) (Z.of_nat i mod n + 1)) by nia.
    f_equal; lia.
Qed.

Lemma ready_next i s ttl' probes' p :
  st s = Waiting -> evloop s = mk_loop 1 0 [] (S i) [] -> length (sent s) = S i ->
  this s = mk_fields (33433 + Z.of_nat i + 1) ttl' probes' (Some i) p destination ->
  ttl' = 1 + Z.of_nat i / n -> probes' = 1 + Z.of_nat i mod n -> ready (S i) s.
Proof.
  intros Hst Hl Hlen Hthis -> ->. pose proof (div_mod_succ i) as Hdm.
  unfold ready, next_probe. rewrite Hst, Hl, Hthis. simpl.
  destruct (n <=? 1 + Z.of_nat i mod n); simplify_eq/=; split_and!; try done || lia.
Qed.

Lemma run_app es1 es2 s : run (es1 ++ es2) s = s' ← run es1 s; run es2 s'.
Proof.
  revert s. induction es1 as [|e es1 IH]; intros s; [done|]. simpl.
  destruct (step _ _ _ _ e s); simpl; [apply IH|done].
Qed.

(** The state of an orderly run while probe [i] is awaited. *)
Definition awaiting (i : nat) (l : list string) (prev : option string) (sn : list probe) (out : string) : state :=
  mk_state (mk_fields (33433 + Z.of_nat i + 1) (1 + Z.of_nat i / n) (1 + Z.of_nat i mod n) (Some i)
              prev destination)
    (mk_loop 0 0 [i] (S i) l) Waiting sn out.

Lemma send_run i s :
  ready i s -> exists prev sn out, length sn = S i /\
    run [Immediate None; Sent None] s = Some (awaiting i [] prev sn out).
Proof.
  intros (Hst & Hl & Hport & Hdest & Httl & Hprobes & Hlen).
  pose proof (next_probe_port o (this s)) as Hp'.
  assert (destinationIp (next_probe o (this s)) = destination) as Hd'.
  { unfold next_probe. case_match. done. }
  destruct s as [t l x sn out]. simpl in *. subst l x. rewrite Hport in Hp'.
  destruct (next_probe o t) as [p' ttl' pr' tm' prev' d'] eqn:Hnext. simpl in *. subst.
  unfold sendPacket, upd_this. simpl. rewrite Hnext. simpl.
  eexists _, _, _. split; [|done]. rewrite length_app. simpl. lia.
Qed.

(** The reply or the timeout of probe [i]. *)
Lemma handleReply_run i a name el prev sn out armed' :
  armed' = [] \/ armed' = [i] -> length sn = S i ->
  let s' := handleReply o (answer_ip a) name el (mk_state (this (awaiting i [] prev sn out))
    (mk_loop 0 0 armed' (S i) []) Waiting sn out) in
  length (sent s') = S i /\
  match verdict i a with Some reached => st s' = Stopped reached | None => ready (S i) s' end.
Proof.
  intros Harm Hlen. unfold handleReply, clearTimeout, verdict, upd_loop. cbn [this awaiting timeout evloop].
  assert (base.filter (fun j => j <> i) armed' = []) as Hf.
  { destruct Harm as [->| ->]; [done|]. by rewrite filter_cons_False by naive_solver. }
  cbn [immediates sending armed nextTimer lookups]. rewrite Hf.
  cbn [probes ttl destinationIp write this evloop].
  destruct ((1 + Z.of_nat i mod n =? n) && _); split; try done.
  by eapply ready_next.
Qed.

Abbreviation stepT := (step createChecksum writeChecksum o hostname).

Lemma message_step i buffer ip prev sn out :
  parseIdFromIcmpMessage buffer = Ok (Some (33434 + Z.of_nat i)) ->
  stepT (Message buffer ip) (awaiting i [] prev sn out) = Some (awaiting i [ip] prev sn out).
Proof.
  intros Hb. unfold step, onMessage. rewrite Hb. cbn [st awaiting this port].
  rewrite (proj2 (eqb_true_iff (Some _) (Some _))) by (f_equal; lia). done.
Qed.

Lemma lookup_step i ip names el prev sn out :
  stepT (LookedUp ip names el) (awaiting i [ip] prev sn out) =
  Some (handleReply o (Some ip) (getHostName o names) el (awaiting i [] prev sn out)).
Proof. unfold step. cbn [st awaiting evloop lookups remove_one]. by rewrite eqb_refl. Qed.

Lemma timer_step i prev sn out :
  stepT (TimerFires i) (awaiting i [] prev sn out) =
  Some (handleReply o None None "" (mk_state (this (awaiting i [] prev sn out))
    (mk_loop 0 0 [] (S i) []) Waiting sn out)).
Proof.
  unfold step. cbn [st awaiting evloop armed]. rewrite bool_decide_true by set_solver.
  unfold upd_loop. cbn [evloop awaiting immediates sending armed nextTimer lookups].
  by rewrite filter_cons_False by naive_solver.
Qed.

(** One probe: the trace ends with the verdict, or is ready for the next one. *)
Lemma round_run i a s :
  ready i s ->
  (forall buffer ip names el, a = Some (buffer, ip, names, el) ->
     parseIdFromIcmpMessage buffer = Ok (Some (33434 + Z.of_nat i))) ->
  exists s', run (round i a) s = Some s' /\ length (sent s') = S i /\
    match verdict i a with Some reached => st s' = Stopped reached | None => ready (S i) s' end.
Proof.
  intros Hs Ha. destruct (send_run i s Hs) as (prev & sn & out & Hlen & Hrun).
  unfold round. rewrite run_app, Hrun.
  destruct a as [[[[buffer ip] names] el]|]; cbn [Traceroute.run mbind option_bind].
  - rewrite message_step by eauto. cbn [mbind option_bind]. rewrite lookup_step. eexists. split; [done|].
    apply (handleReply_run i (Some (buffer, ip, names, el)) _ _ prev sn out [i]); auto.
  - rewrite timer_step. eexists. split; [done|].
    apply (handleReply_run i None _ _ prev sn out []); auto.
Qed.

(** The first probes, as long as none of them ends the trace. *)
Lemma rounds_run (answers : nat -> answer) s m :
  ready 0 s ->
  (forall i buffer ip names el, answers i = Some (buffer, ip, names, el) ->
     parseIdFromIcmpMessage buffer = Ok (Some (33434 + Z.of_nat i))) ->
  (forall i, (i < m)%nat -> verdict i (answers i) = None) ->
  exists s', run (mjoin ((fun i => round i (answers i)) <$> seq 0 m)) s = Some s' /\ ready m s'.
Proof.
  intros Hs Ha. induction m as [|m IH]; intros Hv; [eauto|].
  destruct IH as (s1 & Hr1 & Hs1); [auto with lia|].
  rewrite seq_S, fmap_app, join_app, run_app, Hr1. simpl. rewrite app_nil_r.
  destruct (round_run m (answers m) s1 Hs1 (Ha m)) as (s2 & Hr2 & _ & Hs2).
  rewrite Hv in Hs2 by lia. eauto.
Qed.

End orderly.

Lemma trace_spec last_ip destination remaining hop k reached :
  trace last_ip destination remaining hop = (k, reached) ->
  (hop <= k <= hop + remaining)%nat /\ reached = (last_ip k === destination) /\
  (reached = false -> k = hop + remaining)%nat /\
  forall j, (hop <= j < k)%nat -> last_ip j <> destination.
Proof.
  revert hop. induction remaining as [|remaining IH]; intros hop; simpl; destruct (eqbP (last_ip hop) destination) as [He|He];
    intros Ht; simplify_eq/=.
  1,3: split_and!; try lia; try done; by rewrite eqb_refl.
  - split_and!; try lia. by rewrite eqb_neq.
  - apply IH in Ht as (Hk & Hr & Hf & Hj). split_and!; try lia; try done.
    + intros Hr'. specialize (Hf Hr'). lia.
    + intros j Hj'. destruct (decide (j = hop)) as [->|]; [done|]. apply Hj. lia.
Qed.

(** The last probe of a hop. *)
Lemma verdict_last o destination (answers : nat -> answer) k i :
  1 <= amountProbes o -> (i < k * Z.to_nat (amountProbes o))%nat ->
  verdict o destination i (answers i) <> None ->
  exists j, (1 <= j <= k)%nat /\ i = (j * Z.to_nat (amountProbes o) - 1)%nat /\
    Z.of_nat j = 1 + Z.of_nat i / amountProbes o /\
    (answer_ip (answers i) = destination \/ maximumHops o <= Z.of_nat j).
Proof.
  intros Ha Hi Hv. set (n := amountProbes o) in *.
  pose proof (Z.div_mod (Z.of_nat i) n) as Hdm.
  unfold verdict in Hv. fold n in Hv.
  destruct (Z.eqb_spec (1 + Z.of_nat i mod n) n) as [He|]; [|done].
  pose proof (Z.div_pos (Z.of_nat i) n). exists (Z.to_nat (1 + Z.of_nat i / n)).
  assert (Z.of_nat (Z.to_nat (1 + Z.of_nat i / n)) = 1 + Z.of_nat i / n) as Hj by lia.
  assert (Z.of_nat (Z.to_nat n) = n) as Hn by lia.
  split_and!; [lia| | |done|].
  - apply Nat2Z.inj_le. rewrite Hj. apply Nat2Z.inj_lt in Hi. rewrite Nat2Z.inj_mul, Hn in Hi. nia.
  - apply Nat2Z.inj. rewrite Nat2Z.inj_sub, Nat2Z.inj_mul, Hj, Hn by nia. nia.
  - rewrite Hj. destruct (eqbP (answer_ip (answers i)) destination); [auto|].
    destruct (Z.leb_spec (maximumHops o) (1 + Z.of_nat i / n)); [auto|done].
Qed.

(** C22: A trace whose probes are each answered at most once, in time and in order ends: for
    every network behaviour, [execute] returns the verdict of the hop-by-hop reference after
    exactly the probes of its hops, at most [amountProbes] times [maximumHops] of them. The
    verdict is that of the last probe of the first hop whose last probe the destination
    answered, or of the last hop. *)
Theorem trace_refines createChecksum writeChecksum o hostname destination (answers : nat -> answer) hops reached :
  1 <= amountProbes o -> 1 <= maximumHops o ->
  (forall i buffer ip names el, answers i = Some (buffer, ip, names, el) ->
     parseIdFromIcmpMessage buffer = Ok (Some (33434 + Z.of_nat i))) ->
  let n := Z.to_nat (amountProbes o) in
  trace (fun hop => answer_ip (answers (hop * n - 1)%nat)) (Some destination)
    (Z.to_nat (maximumHops o) - 1) 1 = (hops, reached) ->
  exists s, run createChecksum writeChecksum o hostname
      (mjoin ((fun i => round i (answers i)) <$> seq 0 (hops * n))) (execute o (fun _ => true) destination) = Some s /\
    st s = Stopped reached /\ length (sent s) = (hops * n)%nat /\ Z.of_nat hops <= maximumHops o.
Proof.
  intros Ha Hm Hans n Ht. apply trace_spec in Ht as (Hk & Hr & Hf & Hj).
  set (last := (hops * n - 1)%nat) in *.
  assert (hops * n = S last)%nat as -> by nia.
  destruct (rounds_run createChecksum writeChecksum o hostname (Some destination) Ha answers
    (execute o (fun _ => true) destination) last) as (s1 & Hr1 & Hs1).
  - unfold ready. simpl. split_and!; try done; unfold next_probe; simpl.
    + rewrite (proj2 (Z.leb_gt _ _)) by lia. simpl. rewrite Z.div_0_l by lia. lia.
    + rewrite (proj2 (Z.leb_gt _ _)) by lia. simpl. rewrite Z.mod_0_l by lia. lia.
  - done.
  - intros i Hi. destruct (verdict o (Some destination) i (answers i)) eqn:Hv; [exfalso|done].
    destruct (verdict_last o (Some destination) answers hops i) as (j & Hj1 & -> & _ & Hor); [done|nia|congruence|].
    destruct (decide (j = hops)) as [->|]; [fold n in Hi; lia|].
    destruct Hor as [Hd|Hmax]; [by apply (Hj j); [lia|]|lia].
  - rewrite seq_S, fmap_app, join_app, run_app, Hr1. cbn [mbind option_bind fmap list_fmap mjoin list_join].
    rewrite app_nil_r. destruct (round_run createChecksum writeChecksum o hostname (Some destination) Ha
      last (answers last) s1 Hs1 (Hans last)) as (s2 & Hr2 & Hlen & Hv).
    exists s2. split_and!; [done| |done|lia].
    assert (1 + Z.of_nat last mod amountProbes o = amountProbes o /\ 1 + Z.of_nat last / amountProbes o = Z.of_nat hops)
      as [Hmod Hdiv].
    { assert (Z.of_nat last = (Z.of_nat hops - 1) * amountProbes o + (amountProbes o - 1)) as -> by nia.
      rewrite (Z.add_comm (_ * _)), Z.div_add, Z.mod_add, Z.div_small, Z.mod_small by lia. lia. }
    unfold verdict in Hv. rewrite Hmod, Hdiv, Z.eqb_refl, <- Hr in Hv. destruct reached; [done|].
    rewrite Hf, (proj2 (Z.leb_le _ _)) in Hv by (done || lia). done.
Qed.

(** The echo reply to a probe, behind an IP header of zeros. *)
Definition sample_reply (number : Z) : list Z :=
  replicate 20 0 ++ [0; 0; 0; 0; 0; 0; secondByte number; firstByte number].

Lemma trace_refines_witness :
  exists s, run (fun _ => 0) (fun b _ _ => b) (mk_Options 1 30 3000 true ICMP 52) "h"
      (mjoin ((fun i => round i (if (i <? 2)%nat then Some (sample_reply (33434 + Z.of_nat i),
         (if (i =? 1)%nat then "b" else "a"), Ok ["name"], "1 ms") else None)) <$> seq 0 (2 * 1)))
      (execute (mk_Options 1 30 3000 true ICMP 52) (fun _ => true) "b") = Some s /\
    st s = Stopped true /\ length (sent s) = 2%nat /\ 2 <= 30.
Proof.
  apply (trace_refines (fun _ => 0) (fun b _ _ => b) (mk_Options 1 30 3000 true ICMP 52) "h" "b"
    (fun i => if (i <? 2)%nat then Some (sample_reply (33434 + Z.of_nat i),
       (if (i =? 1)%nat then "b" else "a"), Ok ["name"], "1 ms") else None) 2 true).
  - vm_compute. congruence.
  - vm_compute. congruence.
  - intros i buffer ip names el. destruct i as [|[|i]]; simpl; intros H; simplify_eq; reflexivity.
  - reflexivity.
Defined.

(** The test on the number happens before the reverse lookup, and the timer keeps running
    during it.  When the lookup outlives the timer, one probe is handled twice: two probes
    leave at once, the probe that should have ended the last hop is skipped over, and the
    trace goes on beyond [maximumHops]. *)
Lemma late_lookup_exceeds_hops :
  let o := mk_Options 3 1 3000 true ICMP 52 in
  exists s, run (fun _ => 0) (fun b _ _ => b) o "h"
      [Immediate None; Sent None; TimerFires 0;
       Immediate None; Sent None; Message (sample_reply 33435) "a"; TimerFires 1;
       LookedUp "a" (Ok []) "1 ms"; Immediate None; Immediate None]
      (execute o (fun _ => true) "b") = Some s /\
    st s = Waiting /\ maximumHops o < ttl (this s).
Proof. eexists. split; [vm_compute; reflexivity|]. vm_compute. auto. Qed.

(** A socket error rejects [execute] without closing the sockets: the replies that still
    arrive are handled and send further probes. *)
Lemma failed_trace_keeps_probing :
  exists s, run (fun _ => 0) (fun b _ _ => b) defaultOptions "h"
      [Immediate None; Sent None; SocketError (new_Error "EPERM");
       Message (sample_reply 33434) "a"; LookedUp "a" (Ok []) "1 ms"; Immediate None]
      (execute defaultOptions (fun _ => true) "b") = Some s /\
    st s = Failed (new_Error "EPERM") /\ length (sent s) = 2%nat.
Proof. eexists. split; [vm_compute; reflexivity|]. vm_compute. auto. Qed.

(** Options are normalised: whatever the user gives, the number of hops lies in 1..255,
    so that with at most 125 probes a hop every number the trace can use fits the 16 bits
    of the sequence field. *)
Theorem options_bounds user i :
  let o := new_options user in
  1 <= maximumHops o <= 255 /\
  (1 <= amountProbes o <= 125 -> 0 <= i < amountProbes o * maximumHops o -> 0 <= 33434 + i < 65536).
Proof.
  unfold new_options. simpl. set (hops := match p_maximumHops user with Some _ => _ | None => _ end).
  destruct (Z.ltb_spec 255 hops), (Z.ltb_spec hops 1); simpl; nia.
Qed.

Lemma options_bounds_witness :
  1 <= maximumHops (new_options (mk_Partial (Some 3) (Some 300) None None None None)) <= 255.
Proof. apply (options_bounds (mk_Partial (Some 3) (Some 300) None None None None) 0). Defined.

(** In datagram mode the error message quotes a UDP header, whose bytes 6 and 7 are its
    checksum: the number the code compares with the port is that checksum. *)
Lemma udp_reads_checksum (ip quoted : list Z) p hi lo rest :
  length ip = 20%nat -> Z.of_nat (length quoted) = 19 ->
  parseIdFromIcmpMessage (ip ++ [11; 0; 0; 0; 0; 0; 0; 0] ++ (0x45 :: quoted) ++
    [0; 0; secondByte p; firstByte p; 0; 60; hi; lo] ++ rest) = Ok (Some (hi * 256 + lo)).
Proof.
  intros Hip Hq. apply (parse_error ip quoted 11 0 0 0 0 0 0 0 5); [done|set_solver|lia|lia].
Qed.

(** ** A trace of no probes per hop *)

Section no_probes.
Context (createChecksum : list Z -> Z) (writeChecksum : list Z -> nat -> Z -> list Z).
Context (o : Options) (hostname : string) (Hnone : amountProbes o <= 0).

Definition unstopped (s : state) : Prop := probes (this s) = 1 /\ forall reached, st s <> Stopped reached.

Lemma emitError_unstopped e s : unstopped s -> unstopped (emitError e s).
Proof. intros [Hp Hs]. unfold emitError. split; case_match; done. Qed.

Lemma handleReply_unstopped ip name el s : unstopped s -> unstopped (handleReply o ip name el s).
Proof.
  intros [Hp Hs]. assert (this (clearTimeout s) = this s /\ st (clearTimeout s) = st s) as [Ht Hst].
  { unfold clearTimeout. by case_match. }
  unfold handleReply. rewrite Ht, Hp. destruct (Z.eqb_spec 1 (amountProbes o)); [lia|].
  split; simpl; [by rewrite Ht|by rewrite Hst].
Qed.

Lemma sendPacket_unstopped thrown s :
  unstopped s -> unstopped (sendPacket createChecksum writeChecksum o thrown s).
Proof.
  intros [Hp Hs]. assert (unstopped (upd_this (next_probe o) s)) as Hup.
  { split; [|done]. simpl. unfold next_probe. rewrite Hp.
    by destruct (Z.leb_spec (amountProbes o) 1); [|lia]. }
  unfold sendPacket. destruct thrown; [case_match|]; [|by apply emitError_unstopped|]; destruct Hup; by split.
Qed.

Lemma step_unstopped e s s' :
  step createChecksum writeChecksum o hostname e s = Some s' -> unstopped s -> unstopped s'.
Proof.
  unfold step. intros Hs Hun. pose proof Hun as [Hp Hst].
  assert (forall f, unstopped (upd_loop f s)) as Hloop by done.
  destruct e, (st s) eqn:Hst'; simplify_eq/=; repeat case_match; simplify_eq/=;
    eauto using sendPacket_unstopped, handleReply_unstopped, emitError_unstopped;
    try (split; [done|intros; simpl; congruence]);
    unfold onMessage, afterSend; repeat case_match; eauto using emitError_unstopped;
    split; simpl; congruence.
Qed.

(** With zero or fewer probes a hop (the command line takes any number) the hop limit grows
    without bound: once the first packet is out no event makes the trace stop, not even a
    reply of the destination. *)
Lemma no_probes_never_stops es s s' :
  run createChecksum writeChecksum o hostname es s = Some s' -> unstopped s -> unstopped s'.
Proof.
  revert s. induction es as [|e es IH]; simpl; intros s Hr Hun; [by simplify_eq|].
  destruct (step _ _ _ _ e s) as [s1|] eqn:Hs; [|done]. simpl in Hr.
  eapply IH; [done|]. by eapply step_unstopped.
Qed.

End no_probes.
