(* ===== verification/Config.v ===== *)
(** * Configuration

    Models src/src/Config: [SystemConfigManager] (the cached system configuration and its
    rotation), [DefaultConfigReader], [CliInfo] and the parts of [CliBuilder] that compute
    (coercions, middlewares, the wrapping of command handlers).  The file system, the clock and
    the HTTP reply are inputs; the parsers of YAML and JavaScript configuration files, the
    [ms] package and [find-up] are third-party code and parameters. *)
From stdpp Require Import pretty.
From S2P Require Import Prelude Json Helpers Utils HttpExecutor.

(** The [Date] class of the platform on milliseconds: printing, and the constructor on a parsed
    value ([None] is an invalid date; the argument is [None] for undefined). *)
Class DateApi : Type := {
  toISOString : Z -> string;
  new_Date : option json -> option Z
}.

(** Documented behaviour: a printed date is read back. *)
Class DateLaws `{DateApi} : Prop :=
  date_roundtrip : forall t, new_Date (Some (JStr (toISOString t))) = Some t.

(** Truthiness of a parsed value; a number literal is falsy when all its digits before the
    exponent are zeros. *)
Fixpoint zero_literal (n : string) : bool :=
  match n with
  | "" => true
  | String c t => if (c === "e"%char) || (c === "E"%char) then true
                  else bool_decide (c ∈ ["-"%char; "0"%char; "."%char]) && zero_literal t
  end.

Definition truthy_json (v : option json) : bool :=
  match v with
  | None | Some JNull => false
  | Some (JBool b) => b
  | Some (JNum n) => negb (zero_literal n)
  | Some (JStr s) => truthy s
  | Some (JArr _) | Some (JObj _) => true
  end.

(** Own enumerable properties, as object spread copies them. *)
Definition indexed (l : list json) : strmap json := imap (fun i v => (pretty i, v)) l.
Fixpoint chars (s : string) : list json :=
  match s with "" => [] | String c t => JStr (String c "") :: chars t end.
Definition spread (v : option json) : strmap json :=
  match v with
  | Some (JObj m) => m
  | Some (JArr l) => indexed l
  | Some (JStr s) => indexed (chars s)
  | _ => []
  end.

(** ** [SystemConfigManager] *)

Definition rotationInterval : Z := 3600000.

(** [SystemConfigFile]: the properties read from the file, and the date made of one of them. *)
Record SystemConfigFile : Type := mk_SystemConfigFile {
  cf_properties : strmap json;
  cf_updatedAt : option Z
}.

Definition cf_data (c : SystemConfigFile) : option json := OMap.get "data" (cf_properties c).

Section manager.
Context {DA : DateApi}.
(** Whether NODE_ENV is production. *)
Context (production : bool).

(** What is on disk: the text, or the error of reading it. *)
Definition file : Type := result js_error string.

Definition defaultConfigFile (now : Z) : SystemConfigFile :=
  mk_SystemConfigFile [("data", JObj [])] (Some now).

(** [getConfigFile]: any failure (no file, no JSON, null) gives the default, dated [now]. *)
Definition getConfigFile (f : file) (now : Z) : SystemConfigFile :=
  let loaded :=
    text ← f;
    fileConfig ← parse text;
    updatedAt ← field "updatedAt" fileConfig;
    Ok (mk_SystemConfigFile (spread (Some fileConfig)) (new_Date updatedAt)) in
  match loaded with
  | Ok c => c
  | Err _ => defaultConfigFile now
  end.

(** [JSON.stringify] of a configuration file; an invalid date prints as null. *)
Definition print_config (c : SystemConfigFile) : string :=
  let date := match cf_updatedAt c with Some t => JStr (toISOString t) | None => JNull end in
  stringify (JObj (OMap.set "updatedAt" date (cf_properties c))).

(** [updateConfigFile]; [failed] is [Some f] when writing throws and the disk then holds [f]. *)
Definition updateConfigFile (c : SystemConfigFile) (failed : option file) : file :=
  match failed with
  | None => Ok (print_config c)
  | Some f => f
  end.

(** [needsRotation]; a comparison with an invalid date is false. *)
Definition needsRotation (c : SystemConfigFile) (now : Z) : bool :=
  production &&
  match cf_updatedAt c with
  | Some t => (rotationInterval <=? now - t)%Z
  | None => false
  end.

(** [fetchNewConfig]: the body of the reply, undefined on any error. *)
Definition fetchNewConfig (reply : result js_error (option json)) : option json :=
  match reply with Ok data => data | Err _ => None end.

(** The outside world during one rotation: the clock where the default is dated, where the age
    is computed, and where the new file is dated; the reply; the fate of the write. *)
Record moment : Type := mk_moment {
  mo_loaded : Z;
  mo_checked : Z;
  mo_written : Z;
  mo_reply : result js_error (option json);
  mo_failed : option file
}.

(** [rotateIfNecessary]: its result, whether a request was made, and the file afterwards. *)
Definition rotateIfNecessary (w : moment) (f : file) : bool * bool * file :=
  let configFile := getConfigFile f (mo_loaded w) in
  if negb (needsRotation configFile (mo_checked w)) then (false, false, f)
  else
    let newConfig := fetchNewConfig (mo_reply w) in
    match truthy_json newConfig, newConfig with
    | true, Some data =>
        (true, true, updateConfigFile (mk_SystemConfigFile [("data", data)] (Some (mo_written w))) (mo_failed w))
    | _, _ =>
        (false, true, updateConfigFile (mk_SystemConfigFile (cf_properties configFile) (Some (mo_written w))) (mo_failed w))
    end.

(** [read]: the Sentry address is the file's if its data has the property, else that of the
    environment. *)
Definition read (w : moment) (now : Z) (sentryDsn : option string) (f : file) : option json * file :=
  let '(_, f) := rotateIfNecessary w f in
  let configFile := getConfigFile f now in
  (match OMap.get "sentryDsn" (spread (cf_data configFile)) with
   | Some v => Some v
   | None => JStr <$> sentryDsn
   end, f).

(** [runBackgroundRotation]: one moment per turn of the loop, with the flag its condition reads;
    gives the configurations handed to the callback, the requests made, and the file. *)
Fixpoint runBackgroundRotation (ws : list (bool * moment)) (f : file) : list (option json) * nat * file :=
  match ws with
  | [] => ([], 0, f)
  | (enabled, w) :: ws =>
      if enabled then
        let '(isRotated, requested, f) := rotateIfNecessary w f in
        let called := if isRotated then [cf_data (getConfigFile f (mo_written w))] else [] in
        let '(calls, requests, f) := runBackgroundRotation ws f in
        (called ++ calls, (if requested then 1 else 0) + requests, f)
      else ([], 0, f)
  end.

End manager.

Section quiet.
Context {DA : DateApi}.

(** A file of a given age needs no rotation, and nothing is asked of the service. *)
Lemma young_not_rotated production w f c :
  getConfigFile f (mo_loaded w) = c ->
  (forall t, cf_updatedAt c = Some t -> (mo_checked w - t < rotationInterval)%Z) ->
  rotateIfNecessary production w f = (false, false, f).
Proof.
  intros Hc Ht. unfold rotateIfNecessary, needsRotation. rewrite Hc.
  destruct production; [|done]. destruct (cf_updatedAt c) as [t|]; [|done]. cbn [andb].
  rewrite (proj2 (Z.leb_gt _ _)) by (specialize (Ht t eq_refl); lia). done.
Qed.

Lemma quiet_rotation production f ws :
  (forall b w, (b, w) ∈ ws -> rotateIfNecessary production w f = (false, false, f)) ->
  runBackgroundRotation production ws f = ([], 0, f).
Proof.
  induction ws as [|[b w] ws IH]; intros Hw; [done|]. simpl. destruct b; [|done].
  rewrite (Hw true w) by set_solver. rewrite IH by set_solver. done.
Qed.

End quiet.

Section rotation.
Context `{DL : DateLaws}.

(** What [updateConfigFile] wrote is read back. *)
Lemma config_roundtrip properties t now :
  printable (JObj properties) = true ->
  getConfigFile (Ok (print_config (mk_SystemConfigFile properties (Some t)))) now =
  mk_SystemConfigFile (OMap.set "updatedAt" (JStr (toISOString t)) properties) (Some t).
Proof.
  intros Hp. unfold getConfigFile, print_config. cbn [cf_updatedAt cf_properties mbind result_bind].
  rewrite parse_stringify.
  - cbn [mbind result_bind field]. rewrite get_set_eq. cbn. by rewrite date_roundtrip.
  - cbn [printable] in *. apply andb_true_iff in Hp as [Hall Hnd%bool_decide_eq_true].
    apply andb_true_iff. split; [|apply bool_decide_eq_true; by apply (wf_set "updatedAt")].
    rewrite forallb_forall in Hall |- *. intros e He%list_elem_of_In.
    apply elem_of_set in He as [->|He]; [done|]. apply Hall. by apply list_elem_of_In.
Qed.

(** What a due rotation with a usable reply and a working disk does. *)
Lemma due_rotation w properties u data :
  printable (JObj properties) = true -> (rotationInterval <= mo_checked w - u)%Z ->
  mo_reply w = Ok (Some data) -> truthy_json (Some data) = true -> mo_failed w = None ->
  rotateIfNecessary true w (Ok (print_config (mk_SystemConfigFile properties (Some u)))) =
  (true, true, Ok (print_config (mk_SystemConfigFile [("data", data)] (Some (mo_written w))))).
Proof.
  intros Hp Hage Hr Ht Hf. unfold rotateIfNecessary, needsRotation. rewrite config_roundtrip by done.
  cbn [cf_updatedAt andb]. rewrite (proj2 (Z.leb_le _ _)) by done. rewrite Hr. cbn [negb fetchNewConfig].
  by rewrite Ht, Hf.
Qed.

Lemma old_file_data data t now :
  printable data = true ->
  cf_data (getConfigFile (Ok (print_config (mk_SystemConfigFile [("data", data)] (Some t)))) now) = Some data.
Proof.
  intros Hp. rewrite config_roundtrip; [done|]. simpl. by rewrite Hp.
Qed.

End rotation.

(** C39: In production the cached configuration is rotated once per hour: a file as the
    program wrote it is left alone, without a request, while it is younger than the interval;
    once it is older and the service answers, the new configuration is written, read back
    unchanged, handed to the callback, and then for the next hour no background turn, however
    many there are, makes a request or touches the file. *)
Theorem rotation_hourly `{DL : DateLaws} properties u data w ws :
  printable (JObj properties) = true -> printable data = true -> truthy_json (Some data) = true ->
  mo_reply w = Ok (Some data) -> mo_failed w = None ->
  (forall b w', (b, w') ∈ ws -> (mo_checked w' - mo_written w < rotationInterval)%Z) ->
  let before := Ok (print_config (mk_SystemConfigFile properties (Some u))) in
  let after := Ok (print_config (mk_SystemConfigFile [("data", data)] (Some (mo_written w)))) in
  runBackgroundRotation true ((true, w) :: ws) before =
  if (rotationInterval <=? mo_checked w - u)%Z then ([Some data], 1, after)
  else runBackgroundRotation true ws before.
Proof.
  intros Hp Hd Ht Hr Hf Hws before after. cbn [runBackgroundRotation].
  destruct (Z.leb_spec rotationInterval (mo_checked w - u)) as [Hage|Hage].
  - subst before. rewrite (due_rotation w properties u data) by done. fold after.
    rewrite quiet_rotation.
    + subst after. by rewrite old_file_data.
    + intros b w' Hin. eapply young_not_rotated; [done|]. subst after. rewrite config_roundtrip.
      * cbn. intros t [= <-]. by apply (Hws b).
      * simpl. by rewrite Hd.
  - rewrite (young_not_rotated true w before _ eq_refl).
    + destruct (runBackgroundRotation true ws before) as [[calls n] f]. done.
    + subst before. rewrite config_roundtrip by done. cbn. intros t [= <-]. lia.
Qed.

(** A fresh installation never receives its configuration: while there is no readable
    configuration file, every attempt dates the default configuration at that very moment and
    so finds it too young; no request is ever made and no file is ever written. *)
Theorem fresh_install_never_rotates {DA : DateApi} production (e : js_error) w ws :
  (forall b w', (b, w') ∈ (true, w) :: ws ->
     (0 <= mo_checked w' - mo_loaded w' < rotationInterval)%Z) ->
  rotateIfNecessary production w (Err e) = (false, false, Err e) /\
  runBackgroundRotation production ((true, w) :: ws) (Err e) = ([], 0, Err e).
Proof.
  intros Hw. assert (forall b w', (b, w') ∈ (true, w) :: ws ->
    rotateIfNecessary production w' (Err e) = (false, false, Err e)) as Hq.
  { intros b w' Hin. eapply young_not_rotated; [done|]. cbn. intros t [= <-].
    specialize (Hw b w' Hin). lia. }
  split; [apply (Hq true); set_solver|]. by apply quiet_rotation.
Qed.

(** A date API for evaluation: dates print as a tag and a number of strokes. *)
Fixpoint strokes (n : nat) : string := match n with O => "" | S n => String "I" (strokes n) end.
Definition stroke_date : DateApi := {|
  toISOString t := if (t <? 0)%Z then String "-" (strokes (Z.to_nat (- t))) else strokes (Z.to_nat t);
  new_Date v := match v with
                | Some (JStr (String "-" s)) => Some (- Z.of_nat (String.length s))%Z
                | Some (JStr s) => Some (Z.of_nat (String.length s))
                | _ => None
                end |}.

Lemma length_strokes n : String.length (strokes n) = n.
Proof. induction n; simpl; congruence. Qed.

Lemma stroke_laws : @DateLaws stroke_date.
Proof.
  intros t. simpl. destruct (Z.ltb_spec t 0).
  - rewrite length_strokes. f_equal. lia.
  - destruct (Z.to_nat t) as [|n] eqn:E; simpl; [f_equal; lia|]. rewrite length_strokes. f_equal. lia.
Qed.

Lemma rotation_hourly_witness :
  let w := mk_moment 3600000 3600001 0 (Ok (Some (JObj [("sentryDsn", JStr "d")]))) None in
  runBackgroundRotation (DA := stroke_date) true [(true, w)]
    (Ok (print_config (DA := stroke_date) (mk_SystemConfigFile [("data", JObj [])] (Some 1%Z)))) =
  ([Some (JObj [("sentryDsn", JStr "d")])], 1,
   Ok (print_config (DA := stroke_date) (mk_SystemConfigFile [("data", JObj [("sentryDsn", JStr "d")])] (Some 0%Z)))).
Proof.
  apply (rotation_hourly (DL := stroke_laws) [("data", JObj [])] 1 (JObj [("sentryDsn", JStr "d")])
    (mk_moment 3600000 3600001 0 (Ok (Some (JObj [("sentryDsn", JStr "d")]))) None) []);
    [vm_compute; reflexivity..|]. set_solver.
Defined.

Lemma fresh_install_never_rotates_witness :
  rotateIfNecessary (DA := stroke_date) true
    (mk_moment 5 6 7 (Ok (Some (JObj [("sentryDsn", JStr "d")]))) None) (Err (new_Error "ENOENT"))
  = (false, false, Err (new_Error "ENOENT")).
Proof.
  apply (fresh_install_never_rotates (DA := stroke_date) true (new_Error "ENOENT")
    (mk_moment 5 6 7 (Ok (Some (JObj [("sentryDsn", JStr "d")]))) None) []).
  intros b w' Hin. apply elem_of_cons in Hin as [[= _ ->]|Hin]; [vm_compute; split; congruence|set_solver].
Defined.

(** ** [DefaultConfigReader] *)

Definition rcOptions : list string :=
  [".brightrc"; ".brightrc.json"; ".brightrc.yml"; ".brightrc.yaml"; "bright.config.js";
   ".nexploitrc"; ".nexploitrc.json"; ".nexploitrc.yml"; ".nexploitrc.yaml"; "nexploit.config.js"].

(** [path.extname] (POSIX): from the last dot of the last path segment, unless that dot starts
    the segment or the segment is the parent directory. *)
Definition basename (path : string) : string :=
  List.last (base.filter (fun p => p <> "") (split_char "/" path)) "".
Definition extname (path : string) : string :=
  let name := basename path in
  let parts := split_char "." name in
  match parts with
  | [_] => ""
  | ["" ; _] => ""
  | _ => if name === ".." then "" else "." +:+ List.last parts ""
  end.

(** What a configuration module exports. *)
Inductive exports : Type :=
| EValue (v : json)
| EFunction (call : result js_error json).

(** The variables of the sandbox after the script ran, [None] for undefined or null. *)
Record sandbox : Type := mk_sandbox {
  sb_module : option (option exports);
  sb_exports : option exports
}.

Section reader.
(** Reading a file, the YAML parser, and running a script in a new context. *)
Context (readFile : string -> result js_error string).
Context (load_yaml : string -> result js_error json).
Context (runInNewContext : string -> result js_error sandbox).

(** The exported configuration; [None] when nothing is exported. *)
Definition loadCommonJsModule (filename : string) : result js_error (option json) :=
  code ← readFile filename;
  context ← runInNewContext code;
  match (match sb_module context with Some e => e | None => None end) ??? sb_exports context with
  | Some (EFunction call) => Some <$> call
  | Some (EValue v) => Ok (Some v)
  | None => Ok None
  end.

(** [configure]: [Object.entries] throws on null and undefined; null values are dropped. *)
Definition configure_reader (map : option json) (config : strmap json) : result js_error (strmap json) :=
  match map with
  | None | Some JNull => Err (TypeError "Cannot convert undefined or null to object")
  | Some v =>
      let entries := omit (prod_map id (fun v => match v with JNull => None | v => Some v end) <$> spread (Some v)) in
      Ok (foldl (fun c e => OMap.set e.1 e.2 c) config entries)
  end.

Definition load (rcPath : string) (config : strmap json) : result js_error (strmap json) :=
  let rcExt := extname (toLowerCase rcPath) in
  if rcExt === ".js" then
    v ← loadCommonJsModule rcPath; configure_reader v config
  else if (rcExt === ".yml") || (rcExt === ".yaml") then
    text ← readFile rcPath; v ← load_yaml text; configure_reader (Some v) config
  else
    text ← readFile rcPath; v ← parse text; configure_reader (Some v) config.

(** [toJSON]: the entries of the map, copied into an object. *)
Definition toJSON (config : strmap json) : strmap json :=
  foldl (fun acc e => OMap.set e.1 e.2 acc) [] config.

(** [get] and [has]. *)
Definition get (key : string) (config : strmap json) : option json := OMap.get key config.
Definition has (key : string) (config : strmap json) : bool := OMap.has key config.

(** [discovery]: the file found for one of the names, from [cwd] upwards. *)
Context (find_up : list string -> string -> option string).
Definition discovery (cwd : string) : option string := find_up rcOptions cwd.

(** The option config: the file given on the command line, else the one discovered, is read into a
    new reader. *)
Definition config_option (given : option string) (cwd : string) : result js_error (strmap json) :=
  match given ??? discovery cwd with
  | Some rcPath => config ← load rcPath []; Ok (toJSON config)
  | None => Ok []
  end.

End reader.

(** [Helpers.omit] keeps the first position and, with distinct keys, the entries that are
    neither undefined nor null. *)
Lemma omit_spec {V} (data : strmap (option V)) :
  NoDup data.*1 -> omit data = omap (fun e => (fun v => (e.1, v)) <$> e.2) data.
Proof.
  unfold omit. assert (forall acc, NoDup (OMap.keys acc ++ data.*1) ->
    foldl (fun acc '(k, v) => match v with Some v => OMap.set k v acc | None => acc end) acc data =
    acc ++ omap (fun e => (fun v => (e.1, v)) <$> e.2) data) as H; [|intros Hn; by apply H].
  induction data as [|[k [v|]] data IH]; intros acc Hnd; simpl in *; [by rewrite app_nil_r| |].
  - apply NoDup_app in Hnd as (Ha & Hd & Hk). apply NoDup_cons in Hk as [Hk1 Hk2].
    rewrite set_fresh by (intros Hin; apply (Hd _ Hin); set_solver).
    rewrite IH; [by rewrite <- (assoc_L (++))|]. unfold OMap.keys in *. rewrite fmap_app. simpl.
    rewrite <- (assoc_L (++)). apply NoDup_app. split_and!; [done|set_solver|].
    simpl. by apply NoDup_cons.
  - apply IH. apply NoDup_app in Hnd as (Ha & Hd & Hk). apply NoDup_cons in Hk as [_ Hk].
    apply NoDup_app. set_solver.
Qed.

Lemma omit_wf {V} (data : strmap (option V)) : OMap.wf (omit data).
Proof.
  unfold omit. assert (forall acc, OMap.wf acc -> OMap.wf (foldl (fun acc '(k, v) =>
    match v with Some v => OMap.set k v acc | None => acc end) acc data)) as H; [|apply H, wf_nil].
  induction data as [|[k [v|]] data IH]; intros acc Hw; simpl; auto using wf_set.
Qed.

Definition non_null (v : json) : option json := match v with JNull => None | v => Some v end.

Lemma get_omit (m : strmap json) k :
  NoDup m.*1 -> OMap.get k (omit (prod_map id non_null <$> m)) = OMap.get k m ≫= non_null.
Proof.
  intros Hm. rewrite omit_spec.
  - induction m as [|[k' v] m IH]; [done|]. simpl in Hm. apply NoDup_cons in Hm as [Hk Hm].
    specialize (IH Hm). simpl. destruct (non_null v) as [x|] eqn:Hv; simpl; case_eqb; try done.
    rewrite IH. apply get_None in Hk. unfold OMap.keys in Hk. by rewrite Hk.
  - rewrite <- list_fmap_compose. replace ((fst ∘ prod_map id non_null) <$> m) with m.*1; [done|].
    apply list_fmap_ext. by intros i [].
Qed.

(** A JSON configuration file is read as it was written: for a path without a YAML or
    script extension, after loading a printed object each option has the file's value where
    that is not null, and what an earlier file set otherwise; the object handed to the command
    line parser is exactly that map. *)
Theorem reader_load_json readFile load_yaml run rcPath m config :
  extname (toLowerCase rcPath) ∉ [".js"; ".yml"; ".yaml"] -> OMap.wf config ->
  printable (JObj m) = true -> readFile rcPath = Ok (stringify (JObj m)) ->
  exists config', load readFile load_yaml run rcPath config = Ok config' /\ toJSON config' = config' /\
    forall k, OMap.get k config' = (OMap.get k m ≫= non_null) ??? OMap.get k config.
Proof.
  intros Hext Hwf Hp Hr. unfold load. rewrite !eqb_neq by set_solver. cbn [orb].
  rewrite Hr. cbn [mbind result_bind]. rewrite parse_stringify by done. cbn [mbind result_bind configure_reader spread].
  fold non_null. cbn [printable] in Hp. apply andb_true_iff in Hp as [_ Hnd%bool_decide_eq_true].
  eexists. split; [done|]. split.
  - apply merge_nil_l, (wf_merge config), Hwf.
  - intros k. pose proof (get_merge k config (omit (prod_map id non_null <$> m))) as Hg.
    unfold OMap.merge in Hg. rewrite Hg by apply omit_wf. by rewrite get_omit.
Qed.

Lemma reader_load_json_witness :
  exists config', load (fun _ => Ok (stringify (JObj [("token", JStr "t"); ("api", JNull)])))
      (fun _ => Err SyntaxError) (fun _ => Err SyntaxError) ".brightrc" [("api", JStr "old")] = Ok config' /\
    toJSON config' = config' /\
    forall k, OMap.get k config' =
      (OMap.get k [("token", JStr "t"); ("api", JNull)] ≫= non_null) ??? OMap.get k [("api", JStr "old")].
Proof.
  apply (reader_load_json (fun _ => Ok (stringify (JObj [("token", JStr "t"); ("api", JNull)])))
    (fun _ => Err SyntaxError) (fun _ => Err SyntaxError) ".brightrc" [("token", JStr "t"); ("api", JNull)] [("api", JStr "old")]).
  - apply (bool_decide_eq_true_1 (extname (toLowerCase ".brightrc") ∉ [".js"; ".yml"; ".yaml"])). vm_compute. reflexivity.
  - apply (bool_decide_eq_true_1 (NoDup ["api"])). vm_compute. reflexivity.
  - vm_compute. reflexivity.
  - reflexivity.
Defined.

(** The command line sees the discovered file unless it names another: what [get] gives for an option
    is what that file says, with null read as absent, and nothing without a file. *)
Theorem config_option_reads readFile load_yaml run find_up given cwd rcPath m :
  given ??? discovery find_up cwd = Some rcPath ->
  extname (toLowerCase rcPath) ∉ [".js"; ".yml"; ".yaml"] ->
  printable (JObj m) = true -> readFile rcPath = Ok (stringify (JObj m)) ->
  exists config, config_option readFile load_yaml run find_up given cwd = Ok config /\
    forall k, get k config = (OMap.get k m ≫= non_null).
Proof.
  intros Hg Hext Hp Hr. unfold config_option. rewrite Hg.
  destruct (reader_load_json readFile load_yaml run rcPath m [] Hext) as (config & Hl & Hj & Hk); [constructor|done..|].
  exists config. rewrite Hl. simpl. rewrite Hj. split; [done|]. intros k. unfold get. rewrite Hk. by destruct (_ ≫= _).
Qed.

(** ** [CliInfo] *)

Record CliInfo : Type := mk_CliInfo {
  ci_cwd : string;
  ci_version : option json;
  ci_distribution : option json
}.

Section info.
(** [find-up] and [path.dirname], the environment and the current directory. *)
Context (findUp : string -> string -> option string) (dirname : string -> string).
Context (env : string -> option string) (process_cwd : string).
Context (readFile : string -> result js_error string).

Definition getPackagePath (cwd : string) : option string :=
  findUp "package.json" (if truthy cwd then cwd
                         else if truthy_opt (env "BRIGHT_CWD") then env "BRIGHT_CWD" ?? "" else process_cwd).

(** [getPackageData]: undefined when the file is missing or unreadable. *)
Definition getPackageData (packagePath : option string) : option json :=
  match packagePath with
  | Some path => match (text ← readFile path; parse text) with Ok v => Some v | Err _ => None end
  | None => None
  end.

(** [v?.k] on a parsed value. *)
Definition optional_field (k : string) (v : option json) : option json :=
  match v with
  | None | Some JNull => None
  | Some v => OMap.get k (spread (Some v))
  end.

Definition new_CliInfo (cwd : string) : CliInfo :=
  let packagePath := getPackagePath cwd in
  let packageData := getPackageData packagePath in
  mk_CliInfo (match packagePath with
              | Some (String _ _ as p) => dirname p
              | _ => cwd
              end)
    (match env "VERSION" with Some v => Some (JStr v) | None => optional_field "version" packageData end)
    (optional_field "distribution" (optional_field "brightCli" packageData)).

End info.

(** ** [CliBuilder] *)

(** The unary plus of a string, NaN for a text that is no number. *)
Class ToNumber : Type := toNumber : string -> number.

(** [timeout]: seconds, or a duration for the [ms] package, in milliseconds. *)
Definition coerce_timeout {TN : ToNumber} (ms : string -> number) (arg : string) : number :=
  match toNumber arg with
  | NaN => ms arg
  | n => number_mul n 1000
  end.

(** The value of the log level option. *)
Inductive level_arg : Type := LNumber (n : Z) | LName (s : string).
#[export] Instance level_arg_eq_dec : EqDecision level_arg.
Proof. solve_decision. Defined.

Definition LEVELS : list LogLevel := [SILENT; ERROR; WARN; NOTICE; VERBOSE; TRACE].

(** The accepted values: the keys of the enumeration, its numbers and its names. *)
Definition level_choices : list level_arg :=
  ((fun l => LNumber (Z.of_nat (level_value l))) <$> LEVELS) ++
  ((fun l => LName (toLowerCase (level_name l))) <$> LEVELS).

(** The last middleware: a number is the level itself, a name is looked up in the enumeration;
    [None] is no level. *)
Definition level_of (arg : level_arg) : option LogLevel :=
  match arg with
  | LNumber n => List.find (fun l => Z.of_nat (level_value l) =? n)%Z LEVELS
  | LName s => List.find (fun l => level_name l === toUpperCase s) LEVELS
  end.

(** The arguments the middlewares read. *)
Record global_args : Type := mk_global_args {
  ga_cluster : ClusterArgs;
  ga_logLevel : level_arg;
  ga_logFile : option string;
  ga_logMaxSize : option string;
  ga_logMaxFiles : option Z;
  ga_logRotateInterval : option string;
  ga_logCompress : option bool
}.

(** The first middleware: the addresses, and the log file with its rotation options.  Only a
    value of false asks for no compression. *)
Definition middleware_cluster `{UrlApi} (args : global_args) : ClusterUrls := getClusterUrls (ga_cluster args).

Definition log_options (args : global_args) : LogOptions :=
  mk_log_options (ga_logMaxSize args) (ga_logMaxFiles args) (ga_logRotateInterval args)
    (match ga_logCompress args with Some false => None | _ => Some "gzip" end).

(** The three middlewares on the logger (the level of the intermediate states, which nothing
    reads, is left out): the files ended on the way come second. *)
Definition logger_middlewares (args : global_args) (l : Logger) : option (Logger * list string) :=
  level ← level_of (ga_logLevel args);
  let '(l, ended1) := if truthy_opt (ga_logFile args)
                      then configure (Some level) (ga_logFile args) (Some (log_options args)) l
                      else (l, []) in
  let '(l, ended2) := if truthy_opt (ga_logFile args) then set_logFile (ga_logFile args) l else (l, []) in
  Some (mk_logger level (lg_file l) (lg_options l), ended1 ++ ended2).

(** [args[k] && '[Filtered]']. *)
Definition filtered (k : string) (args : strmap (option json)) : option json :=
  let v := match OMap.get k args with Some v => v | None => None end in
  if truthy_json v then Some (JStr "[Filtered]") else v.

(** The arguments as they are attached to an error report. *)
Definition beforeSend (args : option (strmap (option json))) : option (strmap (option json)) :=
  (fun args => OMap.set "token" (filtered "token" args) (OMap.set "t" (filtered "t" args) args)) <$> args.

(** What a wrapped command does, in order. *)
Inductive action : Type :=
| ReadSystemConfig (baseURL : string)
| InitSentry (dsn : option json)
| SetContext
| EnableRotation
| CallHandler.

Definition wrapWithSentry (api : string) (dsn : option json) : list action :=
  [ReadSystemConfig api; InitSentry dsn; SetContext; EnableRotation; CallHandler].

Lemma level_choices_ok arg : arg ∈ level_choices -> is_Some (level_of arg).
Proof.
  intros Ha. apply (proj1 (Forall_forall (fun a => is_Some (level_of a)) level_choices)); [|done].
  repeat constructor; by eexists.
Qed.

Lemma level_of_spec arg level : level_of arg = Some level ->
  match arg with
  | LNumber n => Z.of_nat (level_value level) = n
  | LName s => level_name level = toUpperCase s
  end.
Proof.
  unfold level_of. destruct arg; intros [_ Hl]%find_Some_elem;
    [by apply Z.eqb_eq in Hl|by rewrite eqb_true_iff in Hl].
Qed.

(** Every value the log level option accepts selects a level: a number the level with that
    number, a name the level of that name; after the middlewares the logger has that level, and
    writes to the given file with the rotation options of the command line. *)
Theorem log_level_choices args l :
  ga_logLevel args ∈ level_choices ->
  exists level l' ended, level_of (ga_logLevel args) = Some level /\
    logger_middlewares args l = Some (l', ended) /\ lg_level l' = level /\
    match ga_logLevel args with
    | LNumber n => Z.of_nat (level_value level) = n
    | LName s => level_name level = toUpperCase s
    end /\
    (truthy_opt (ga_logFile args) = true -> lg_file l' = ga_logFile args /\
       lg_options l' = normalize_options (log_options args)) /\
    (truthy_opt (ga_logFile args) = false -> lg_file l' = lg_file l /\ lg_options l' = lg_options l).
Proof.
  intros [level Hl]%level_choices_ok. exists level. unfold logger_middlewares. rewrite Hl.
  unfold Utils.configure, set_logFile. cbn [mbind option_bind].
  destruct (truthy_opt (ga_logFile args)) eqn:Hf; (eexists _, _; split_and!; [done..| | |]); try done.
  all: by apply level_of_spec.
Qed.

Lemma log_level_choices_witness :
  exists level l' ended, level_of (LName "verbose") = Some level /\
    logger_middlewares (mk_global_args (mk_ClusterArgs None None) (LName "verbose") None None None None None)
      (mk_logger NOTICE None (mk_log_options None None None None)) = Some (l', ended) /\ lg_level l' = level.
Proof.
  destruct (log_level_choices (mk_global_args (mk_ClusterArgs None None) (LName "verbose") None None None None None)
    (mk_logger NOTICE None (mk_log_options None None None None))) as (level & l' & ended & H1 & H2 & H3 & _).
  - apply (bool_decide_eq_true_1 (LName "verbose" ∈ level_choices)). vm_compute. reflexivity.
  - exists level, l', ended. auto.
Defined.

Lemma filtered_spec k args :
  filtered k args = Some (JStr "[Filtered]") \/ truthy_json (filtered k args) = false.
Proof. unfold filtered. set (v := match OMap.get k args with Some _ => _ | None => _ end).
  destruct (truthy_json v) eqn:Hv; auto.
Qed.

(** Error reports hide the API key and only it: whatever the arguments are, the entries of
    both spellings of the option are replaced unless they are empty, and every other argument
    is reported as it is. *)
Theorem beforeSend_filters args :
  exists out, beforeSend (Some args) = Some out /\
    (forall k, k ∈ ["t"; "token"] -> exists v, OMap.get k out = Some v /\
       (v = Some (JStr "[Filtered]") \/ truthy_json v = false)) /\
    forall k, k ∉ ["t"; "token"] -> OMap.get k out = OMap.get k args.
Proof.
  eexists. split; [done|]. split.
  - intros k Hk. assert (k = "t" \/ k = "token") as [-> | ->] by set_solver.
    + rewrite get_set_ne, get_set_eq by done. eexists. split; [done|]. apply filtered_spec.
    + rewrite get_set_eq. eexists. split; [done|]. apply filtered_spec.
  - intros k Hk. rewrite !get_set_ne by set_solver. done.
Qed.

Lemma beforeSend_filters_witness :
  exists out, beforeSend (Some [("t", Some (JStr "secret"))]) = Some out /\
    forall k, k ∉ ["t"; "token"] -> OMap.get k out = OMap.get k [("t", Some (JStr "secret"))].
Proof.
  destruct (beforeSend_filters [("t", Some (JStr "secret"))]) as (out & Ho & _ & Hk). by exists out.
Defined.
