(* ===== verification/Options.v ===== *)
(** * Command-line options

    The option declarations of src/src/Config/CliBuilder.ts and of every command under
    src/src/Commands, as data in the order of the builders.  The descriptions, groups and
    deprecation notices, which only the help shows, are left out, and the coercions are in
    Config.v and Commands.v.  yargs, which interprets the declarations, is third-party code: what
    the handlers rely on is [accepted], a condition on the arguments it passes on. *)
From S2P Require Import Prelude Json Config Api.

Inductive opt_type : Type := TAny | TString | TNumber | TBoolean.

Record option_decl : Type := mk_option {
  od_name : string;
  od_alias : list string;
  od_type : opt_type;
  od_array : bool;
  od_requiresArg : bool;
  od_demand : bool;
  od_default : option json;
  od_choices : list json;
  od_hidden : bool;
  od_normalize : bool
}.

Declare Scope decl_scope.
Delimit Scope decl_scope with decl.
Notation "d |> f" := (f d) (at level 50, left associativity, only parsing) : decl_scope.
Local Open Scope decl_scope.

Definition opt (name : string) : option_decl :=
  mk_option name [] TAny false false false None [] false false.
Definition alias (l : list string) (d : option_decl) : option_decl :=
  mk_option (od_name d) l (od_type d) (od_array d) (od_requiresArg d) (od_demand d)
    (od_default d) (od_choices d) (od_hidden d) (od_normalize d).
Definition of_type (t : opt_type) (d : option_decl) : option_decl :=
  mk_option (od_name d) (od_alias d) t (od_array d) (od_requiresArg d) (od_demand d)
    (od_default d) (od_choices d) (od_hidden d) (od_normalize d).
Definition array (d : option_decl) : option_decl :=
  mk_option (od_name d) (od_alias d) (od_type d) true (od_requiresArg d) (od_demand d)
    (od_default d) (od_choices d) (od_hidden d) (od_normalize d).
Definition requiresArg (d : option_decl) : option_decl :=
  mk_option (od_name d) (od_alias d) (od_type d) (od_array d) true (od_demand d)
    (od_default d) (od_choices d) (od_hidden d) (od_normalize d).
Definition demandOption (d : option_decl) : option_decl :=
  mk_option (od_name d) (od_alias d) (od_type d) (od_array d) (od_requiresArg d) true
    (od_default d) (od_choices d) (od_hidden d) (od_normalize d).
Definition default (v : option json) (d : option_decl) : option_decl :=
  mk_option (od_name d) (od_alias d) (od_type d) (od_array d) (od_requiresArg d) (od_demand d)
    v (od_choices d) (od_hidden d) (od_normalize d).
Definition choices (l : list json) (d : option_decl) : option_decl :=
  mk_option (od_name d) (od_alias d) (od_type d) (od_array d) (od_requiresArg d) (od_demand d)
    (od_default d) l (od_hidden d) (od_normalize d).
Definition hidden (d : option_decl) : option_decl :=
  mk_option (od_name d) (od_alias d) (od_type d) (od_array d) (od_requiresArg d) (od_demand d)
    (od_default d) (od_choices d) true (od_normalize d).
Definition normalize (d : option_decl) : option_decl :=
  mk_option (od_name d) (od_alias d) (od_type d) (od_array d) (od_requiresArg d) (od_demand d)
    (od_default d) (od_choices d) (od_hidden d) true.

Record command_decl : Type := mk_command {
  cd_command : string;
  cd_options : list option_decl;
  cd_positionals : list option_decl;
  cd_conflicts : list (string * list string);
  cd_implies : list (string * string);
  cd_env : option string
}.

Definition num (literal : string) : option json := Some (JNum literal).
Definition jtrue : option json := Some (JBool true).
Definition jfalse : option json := Some (JBool false).
Definition strs (l : list string) : list json := JStr <$> l.

(** ** [CliBuilder.build] *)

(** The default of the configuration file is what is found near the working directory, that of
    the proxy comes from the environment. *)
Definition global_options (rc PROXY : option string) : list option_decl :=
  [ opt "config" |> requiresArg |> default (JStr <$> rc);
    opt "log-level" |> requiresArg
      |> choices ((fun a => match a with LNumber n => JNum (pretty.pretty n) | LName s => JStr s end) <$> level_choices)
      |> default (num "3");
    opt "log-file" |> requiresArg |> of_type TString;
    opt "log-max-size" |> requiresArg |> of_type TString;
    opt "log-max-files" |> requiresArg |> of_type TNumber;
    opt "log-rotate-interval" |> requiresArg |> of_type TString;
    opt "log-compress" |> of_type TBoolean;
    opt "cluster" |> requiresArg;
    opt "hostname" |> requiresArg;
    opt "insecure" |> of_type TBoolean |> default jfalse;
    opt "proxy" |> requiresArg |> default (JStr <$> PROXY);
    opt "proxy-bright" |> requiresArg;
    opt "proxy-target" |> requiresArg;
    opt "timeout" |> default (num "30") ].

Definition global_implies : list (string * string) :=
  [("log-max-size", "log-file"); ("log-max-files", "log-file");
   ("log-rotate-interval", "log-file"); ("log-compress", "log-file")].

Definition global_conflicts : list (string * list string) :=
  [("proxy", ["proxy-bright"; "proxy-target"]); ("hostname", ["cluster"])].

(** The options yargs adds, with the aliases given to them. *)
Definition builtin_options : list option_decl :=
  [opt "version" |> alias ["v"]; opt "help" |> alias ["h"]].

(** ** The commands *)

Definition token_option : option_decl := opt "token" |> alias ["t"] |> requiresArg |> demandOption.
Definition token_string : option_decl := token_option |> of_type TString.
Definition project_option : option_decl :=
  opt "project" |> alias ["p"] |> of_type TString |> requiresArg |> demandOption.

(** [NO_PROXY?.trim().split(',').map((domain) => domain.trim())]. *)
Definition no_proxy (NO_PROXY : option string) : option json :=
  (fun s => JArr (strs (trim <$> split_char "," (trim s)))) <$> NO_PROXY.

Definition repeater_request_options : list option_decl :=
  [ token_option;
    opt "id" |> alias ["agent"] |> of_type TString |> requiresArg |> demandOption;
    opt "scripts" |> alias ["S"] |> requiresArg |> of_type TString;
    opt "timeout" |> of_type TNumber |> requiresArg |> default (num "30000");
    opt "header" |> alias ["H"] |> requiresArg |> array;
    opt "headers" |> requiresArg |> of_type TString;
    opt "cacert" |> default jfalse |> requiresArg;
    opt "cert" |> requiresArg |> array |> of_type TString ].

Definition repeater_network_options (NO_PROXY : option string) : list option_decl :=
  [ opt "experimental-connection-reuse" |> of_type TBoolean;
    opt "ntlm" |> of_type TBoolean;
    opt "kerberos" |> of_type TBoolean;
    opt "kerberos-domains" |> requiresArg |> array;
    opt "kerberos-credentials" |> requiresArg |> of_type TString;
    opt "kerberos-delegation" |> of_type TBoolean;
    opt "daemon" |> alias ["d"];
    opt "run" |> hidden;
    opt "remove-daemon" |> alias ["rm"; "remove"];
    opt "proxy-domains" |> requiresArg |> array;
    opt "proxy-domains-bypass" |> requiresArg |> array |> default (no_proxy NO_PROXY) ].

Definition RunRepeater (NO_PROXY : option string) : command_decl :=
  mk_command "repeater [options]"
    (repeater_request_options ++ repeater_network_options NO_PROXY)
    []
    [ ("header", ["headers"]); ("headers", ["header"]);
      ("daemon", ["remove-daemon"]); ("ntlm", ["proxy"; "experimental-connection-reuse"; "kerberos"]);
      ("kerberos", ["ntlm"]); ("proxy-domains", ["proxy-domains-bypass"]) ]
    [ ("kerberos-domains", "kerberos"); ("kerberos-credentials", "kerberos");
      ("kerberos-delegation", "kerberos") ]
    (Some "REPEATER").

Definition Module_values : list string := ["dast"; "fuzzer"].
Definition AttackParamLocation_values : list string :=
  [ARTIFICAL_FRAGMENT; ARTIFICAL_QUERY; ARTIFICIAL_FRAGMENT; ARTIFICIAL_QUERY; "body"; "fragment";
   "header"; "path"; "query"].

Definition RunScan : command_decl :=
  mk_command "scan:run [options]"
    [ token_option;
      opt "name" |> alias ["n"] |> requiresArg |> demandOption;
      opt "auth" |> alias ["o"] |> requiresArg;
      opt "repeater" |> alias ["agent"] |> requiresArg;
      opt "archive" |> alias ["a"] |> normalize |> requiresArg;
      opt "crawler" |> alias ["c"] |> requiresArg |> array;
      opt "test" |> array;
      opt "bucket" |> array;
      opt "project" |> alias ["p"] |> requiresArg |> of_type TString;
      opt "template" |> alias ["tp"] |> of_type TString;
      opt "module" |> default (Some (JStr "dast")) |> requiresArg |> choices (strs Module_values);
      opt "host-filter" |> alias ["F"] |> requiresArg |> array;
      opt "header" |> alias ["H"] |> requiresArg |> array;
      opt "exclude-param" |> requiresArg |> array |> of_type TString;
      opt "exclude-entry-point" |> array;
      opt "smart" |> of_type TBoolean;
      opt "concurrency" |> of_type TNumber |> default (num "10") |> requiresArg;
      opt "param" |> array |> requiresArg |> choices (strs AttackParamLocation_values);
      opt "entrypoint" |> array |> alias ["e"] ]
    [] [("entrypoint", ["crawler"; "archive"])] [] None.

Definition RetestScan : command_decl :=
  mk_command "scan:retest [options] <scanId>" [token_option]
    [opt "scanId" |> of_type TString |> demandOption] [] [] None.

Definition StopScan : command_decl :=
  mk_command "scan:stop [options] <scanId>" [token_option]
    [opt "scanId" |> requiresArg |> demandOption |> of_type TString] [] [] None.

Definition BreakpointType_values : list string := ["any"; "medium_issue"; "high_issue"; "critical_issue"].

Definition PollingScanStatus : command_decl :=
  mk_command "scan:polling [options] <scanId>"
    [ token_option;
      opt "interval" |> requiresArg |> default (num "5000");
      opt "timeout" |> requiresArg;
      opt "breakpoint" |> alias ["b"] |> choices (strs BreakpointType_values) |> of_type TString
        |> requiresArg |> default (Some (JStr "any")) ]
    [opt "scanId" |> of_type TString |> demandOption] [] [] None.

Definition RunDiscovery : command_decl :=
  mk_command "discovery:run [options]"
    [ token_string; project_option;
      opt "name" |> alias ["n"] |> of_type TString |> requiresArg |> demandOption;
      opt "auth" |> alias ["o"] |> of_type TString |> requiresArg;
      opt "repeater" |> alias ["agent"] |> requiresArg;
      opt "archive" |> alias ["a"] |> normalize |> requiresArg;
      opt "crawler" |> alias ["c"] |> requiresArg |> array;
      opt "host-filter" |> alias ["F"] |> requiresArg |> array;
      opt "header" |> alias ["H"] |> requiresArg |> array;
      opt "smart" |> of_type TBoolean;
      opt "crawl-parent-subdomains" |> of_type TBoolean |> default jfalse;
      opt "concurrency" |> of_type TNumber |> default (num "10") |> requiresArg;
      opt "interactions-depth" |> of_type TNumber |> default (num "3") |> requiresArg ]
    [] [("archive", ["crawler"])] [] None.

Definition RerunDiscovery : command_decl :=
  mk_command "discovery:rerun [options] <discoveryId>" [token_string; project_option]
    [opt "discoveryId" |> requiresArg |> demandOption |> of_type TString] [] [] None.

Definition StopDiscovery : command_decl :=
  mk_command "discovery:stop [options] <discoveryId>" [token_string; project_option]
    [opt "discoveryId" |> requiresArg |> demandOption |> of_type TString] [] [] None.

Definition PollingDiscoveryStatus : command_decl :=
  mk_command "discovery:polling [options] <discoveryId>"
    [ token_option; project_option;
      opt "interval" |> requiresArg |> default (num "5000");
      opt "timeout" |> requiresArg ]
    [opt "discoveryId" |> demandOption |> of_type TString] [] [] None.

Definition PollingHostUpdateJobStatus : command_decl :=
  mk_command "entrypoints:update-host-polling [options] <jobId>"
    [ token_option;
      opt "interval" |> requiresArg |> default (num "5000");
      opt "timeout" |> requiresArg;
      project_option ]
    [opt "jobId" |> of_type TString |> demandOption] [] [] None.

Definition GetEntryPoints : command_decl :=
  mk_command "entrypoints:list [options]"
    [ token_option;
      opt "project" |> alias ["p"] |> requiresArg |> demandOption;
      opt "verbose" |> of_type TBoolean |> default jfalse;
      opt "limit" |> default (num "10");
      opt "pretty" |> of_type TBoolean |> default jfalse;
      opt "connectivity" |> array
        |> choices (strs ["ok"; "unreachable"; "problem"; "skipped"; "unauthorized"; "unavailable"]);
      opt "status" |> array |> choices (strs ["new"; "changed"; "tested"; "vulnerable"]) ]
    [] [] [] None.

Definition EntryPointsUpdateHost : command_decl :=
  mk_command "entrypoints:update-host [options]"
    [ token_string; project_option;
      opt "old-hostname" |> alias ["o"] |> of_type TString |> requiresArg |> demandOption;
      opt "new-hostname" |> alias ["n"] |> of_type TString |> requiresArg |> demandOption;
      opt "entrypoint-ids" |> alias ["e"] |> of_type TString |> requiresArg |> array ]
    [] [] [] None.

Definition SpecType_values : list string := ["OpenAPI"; "HAR"; "Postman"].

Definition UploadArchive : command_decl :=
  mk_command "archive:upload [options] <file>"
    [ token_option;
      opt "type" |> alias ["T"] |> requiresArg |> choices (strs (toLowerCase <$> SpecType_values))
        |> default (Some (JStr (toLowerCase "HAR"))) |> demandOption;
      opt "discard" |> alias ["d"] |> default jtrue |> of_type TBoolean;
      opt "project" |> alias ["p"; "projectId"];
      opt "header" |> alias ["H"] |> default (Some (JArr [])) |> requiresArg |> array;
      opt "variable" |> alias ["V"] |> default (Some (JArr [])) |> requiresArg |> array ]
    [opt "file" |> of_type TString |> demandOption |> normalize] [] [] None.

Definition Configure : command_decl :=
  mk_command "configure [options]"
    [ opt "http" |> hidden |> requiresArg;
      opt "auth" |> hidden |> requiresArg;
      opt "ping" |> of_type TBoolean;
      opt "traceroute" |> of_type TBoolean;
      opt "max-ttl" |> of_type TNumber |> requiresArg |> default (num "64");
      opt "probes" |> alias ["p"] |> of_type TNumber |> requiresArg |> default (num "3") ]
    [] [("ping", ["traceroute"])] [] None.

Definition VersionCommand : command_decl := mk_command "version" [] [] [] [] None.
Definition RunMcpServer : command_decl := mk_command "mcp [options]" [] [] [] [] None.

(** The commands of src/src/index.ts, in order. *)
Definition commands (NO_PROXY : option string) : list command_decl :=
  [RunRepeater NO_PROXY; VersionCommand; PollingScanStatus; RunScan; RetestScan; StopScan;
   RunDiscovery; StopDiscovery; RerunDiscovery; PollingDiscoveryStatus; PollingHostUpdateJobStatus;
   UploadArchive; Configure; GetEntryPoints; EntryPointsUpdateHost; RunMcpServer].

(** ** Names *)

(** The camel-case spelling under which an option is read. *)
Fixpoint camelCase (s : string) : string :=
  match s with
  | String "-" (String c t) => toUpperCase (String c "") +:+ camelCase t
  | String c t => String c (camelCase t)
  | "" => ""
  end.

(** The names an option answers to, and the properties it sets on the arguments. *)
Definition names (d : option_decl) : list string := od_name d :: od_alias d.
Definition properties (d : option_decl) : list string :=
  names d ++ base.filter (fun n => n ∉ names d) (camelCase <$> names d).

(** The options in force for a command: its own, which replace a global one of the same name,
    its positionals, the remaining global ones, and those of yargs. *)
Definition options_of (globals : list option_decl) (c : command_decl) : list option_decl :=
  let own := cd_options c ++ cd_positionals c in
  own ++ base.filter (fun d => od_name d ∉ (od_name <$> own)) globals ++ builtin_options.

(** The word that selects a command. *)
Definition command_word (c : command_decl) : string :=
  match split_char " " (cd_command c) with w :: _ => w | [] => "" end.

(** The names the conflicts and implications of a command refer to. *)
Definition referenced (c : command_decl) : list string :=
  (cd_conflicts c).*1 ++ mjoin ((cd_conflicts c).*2) ++ (cd_implies c).*1 ++ (cd_implies c).*2.

(** A declared default is one of the choices, if there are any. *)
Definition default_chosen (d : option_decl) : bool :=
  match od_choices d, od_default d with
  | [], _ | _, None => true
  | l, Some v => bool_decide (stringify v ∈ (stringify <$> l))
  end.

(** Every command has a word of its own; in each command every property of the arguments is
    set by one option, the names that conflicts and implications mention are declared, and a
    declared default is one of the choices. *)
Definition well_declared (globals : list option_decl) (cs : list command_decl) : bool :=
  bool_decide (NoDup (command_word <$> cs)) &&
  forallb (fun c =>
    let os := options_of globals c in
    bool_decide (NoDup (mjoin (properties <$> os))) &&
    forallb (fun n => bool_decide (n ∈ (od_name <$> os))) (referenced c) &&
    forallb default_chosen os) cs.

(** ** Arguments *)

(** What yargs guarantees of the arguments it passes on, where [given] tells whether an option
    has a value: conflicting options are not both given, implied ones are, and demanded ones are
    given. *)
Definition accepted (globals : list option_decl) (c : command_decl) (given : string -> Prop) : Prop :=
  (forall n l m, (n, l) ∈ cd_conflicts c ++ global_conflicts -> m ∈ l -> given n -> given m -> False) /\
  (forall n m, (n, m) ∈ cd_implies c ++ global_implies -> given n -> given m) /\
  (forall d, d ∈ options_of globals c -> od_demand d = true -> given (od_name d)).


