(* ===== verification/RepeaterCommand.v ===== *)
(** * The repeater command

    Models src/src/Commands/RunRepeater.ts: the coercions of its options, its check, the
    middleware that builds the options of the executor and of the server, and the handler,
    composed with the launcher (Launcher.v, Startup.v), the certificates, the scripts and the
    constructors of both executors.  The declarations themselves are in Options.v. *)
From S2P Require Import Prelude Json Helpers Utils Request Scripts.
From S2P Require Import Certificates HttpExecutor WsExecutor Launcher Startup Options.

(** ** Coercions *)

(** A coercion gives a value, throws (which yargs reports), or ends the process. *)
Inductive coerced (A : Type) : Type :=
| Coerced (a : A)
| Throws (e : js_error)
| Exits (code : Z) (error : string).
Arguments Coerced {A}.
Arguments Throws {A}.
Arguments Exits {A}.

Definition of_result {A} (r : result js_error A) : coerced A :=
  match r with Ok a => Coerced a | Err e => Throws e end.

Fixpoint map_coerced {A B} (f : A -> coerced B) (l : list A) : coerced (list B) :=
  match l with
  | [] => Coerced []
  | x :: l =>
      match f x with
      | Coerced y =>
          match map_coerced f l with
          | Coerced ys => Coerced (y :: ys)
          | Throws e => Throws e
          | Exits c m => Exits c m
          end
      | Throws e => Throws e
      | Exits c m => Exits c m
      end
  end.

(** [scripts] and [headers]: a JSON text. *)
Definition coerce_json (arg : string) : coerced json := of_result (parse arg).

(** [header]: a list of headers; yargs may hand over something that is no array. *)
Definition coerce_header (decodeURIComponent : string -> option string) (arg : option (list string)) :
    coerced (strmap string) :=
  match arg with
  | Some l => of_result (parseHeaders decodeURIComponent l)
  | None => Coerced []
  end.

(** [cacert]: a path or a flag; anything else counts as no. *)
Inductive cacert_arg : Type := CaFlag (b : bool) | CaPath (s : string).
Definition coerce_cacert (arg : json) : cacert_arg :=
  match arg with JStr s => CaPath s | JBool b => CaFlag b | _ => CaFlag false end.

Definition NO_CERT_PATH : string :=
  "Error during " +:+ dquote +:+ "repeater" +:+ dquote +:+ ": Specify the path to your client certificate file.".
Definition NO_CERT_HOST : string :=
  "Error during " +:+ dquote +:+ "repeater" +:+ dquote +:+ ": Specify the hostname (without protocol and port) of the request URL for which you want to use the certificate.".

(** [cert]: each argument is a JSON text; all are parsed first, then each must have a path and
    a host name.  The other two fields are kept as they are. *)
Record cert_arg : Type := mk_cert_arg {
  ct_hostname : json;
  ct_passphrase : option json;
  ct_path : string;
  ct_port : option json
}.

Definition ERR_INVALID_ARG_TYPE : js_error :=
  mk_error "TypeError" "The path argument must be of type string" (Some "ERR_INVALID_ARG_TYPE")
    None None None false None None None.

Definition cert_of_json (normalize : string -> string) (v : json) : coerced cert_arg :=
  match v with
  | JNull => Throws (TypeError "Cannot destructure property 'path' of 'object null'")
  | _ =>
      let get k := match v with JObj m => OMap.get k m | _ => None end in
      if negb (Config.truthy_json (get "path")) then Exits 1 NO_CERT_PATH
      else if negb (Config.truthy_json (get "hostname")) then Exits 1 NO_CERT_HOST
      else match get "path", get "hostname" with
           | Some (JStr path), Some hostname =>
               Coerced (mk_cert_arg hostname (get "passphrase") (normalize path) (get "port"))
           | _, _ => Throws ERR_INVALID_ARG_TYPE
           end
  end.

Definition coerce_cert (normalize : string -> string) (args : list string) : coerced (list cert_arg) :=
  match mapR parse args with
  | Err e => Throws e
  | Ok vs => map_coerced (cert_of_json normalize) vs
  end.

(** The three lists of domains: a single value with a space, as an environment variable gives
    it, is split at the spaces. [None] in the list is undefined. *)
Definition split_single (arg : string) : list string :=
  if includes " " arg then split_char " " (trim arg) else [arg].

(** [arg[0] === undefined], which also holds for an empty list. *)
Definition coerce_domains (arg : list (option string)) : option (list (option string)) :=
  match arg with
  | [] | None :: _ => None
  | [Some s] => Some (Some <$> split_single s)
  | _ => Some arg
  end.

(** [proxy-domains-bypass] only looks at a list of one: an empty list stays. *)
Definition coerce_bypass (arg : list (option string)) : option (list (option string)) :=
  match arg with
  | [None] => None
  | [Some s] => Some (Some <$> split_single s)
  | _ => Some arg
  end.

(** ** Arguments *)

(** The first middleware: the environment variable REPEATER without a suffix makes an option with
    an empty name, which strict parsing would refuse. *)
Definition drop_unnamed (args : strmap json) : strmap json :=
  if OMap.has "" args then OMap.del "" args else args.

(** The parsed and coerced arguments the command reads. *)
Record RepeaterArgs : Type := mk_repeater_args {
  rp_id : string;
  rp_token : string;
  rp_scripts : option (strmap string);
  rp_timeout : option Z;
  rp_header : option (strmap string);
  rp_headers : option (strmap string);
  rp_cacert : cacert_arg;
  rp_cert : option (list Cert);
  rp_ntlm : option bool;
  rp_experimentalConnectionReuse : option bool;
  rp_kerberos : option bool;
  rp_kerberosDomains : option (list string);
  rp_kerberosCredentials : option string;
  rp_kerberosDelegation : option bool;
  rp_daemon : option bool;
  rp_run : option bool;
  rp_remove : option bool;
  rp_proxyDomains : option (list string);
  rp_proxyDomainsBypass : option (list string);
  rp_proxy : option string;
  rp_proxyBright : option string;
  rp_proxyTarget : option string;
  rp_repeaterServer : string;
  rp_insecure : option bool
}.

Definition some {A} (o : option A) : bool := match o with Some _ => true | None => false end.

(** Which options have a value, for those that conflicts and implications mention. *)
Definition given (a : RepeaterArgs) (name : string) : Prop :=
  match OMap.get name
    [ ("header", some (rp_header a)); ("headers", some (rp_headers a));
      ("daemon", some (rp_daemon a)); ("remove-daemon", some (rp_remove a));
      ("ntlm", some (rp_ntlm a)); ("proxy", some (rp_proxy a));
      ("experimental-connection-reuse", some (rp_experimentalConnectionReuse a));
      ("kerberos", some (rp_kerberos a)); ("kerberos-domains", some (rp_kerberosDomains a));
      ("kerberos-credentials", some (rp_kerberosCredentials a));
      ("kerberos-delegation", some (rp_kerberosDelegation a));
      ("proxy-domains", some (rp_proxyDomains a));
      ("proxy-domains-bypass", some (rp_proxyDomainsBypass a));
      ("proxy-bright", some (rp_proxyBright a)); ("proxy-target", some (rp_proxyTarget a));
      ("id", true); ("token", true) ] with
  | Some b => b = true
  | None => False
  end.

(** The check of the builder. *)
Definition WRONG_ID : string :=
  "Option --id has wrong value. Please ensure that --id option has a valid ID.".
Definition WRONG_DOMAINS : string :=
  "Option --proxy-domains has a wrong value.Please ensure that --proxy-domains option has space separated list of domain values".
Definition WRONG_BYPASS : string :=
  "Option --proxy-domain-bypass has wrong value.Please ensure that --proxy-domain-bypass option has space separated list of domain values".

Definition check_domains (message : string) (domains : option (list string)) : result js_error unit :=
  if existsb (includes ",") (domains ?? []) then throw message else Ok tt.

Definition check (a : RepeaterArgs) : result js_error unit :=
  short ← isShortUUID (rp_id a);
  uuid ← (if (short : bool) then Ok true else isUUID (rp_id a));
  _ ← (if (uuid : bool) then Ok tt else throw WRONG_ID);
  _ ← check_domains WRONG_DOMAINS (rp_proxyDomains a);
  check_domains WRONG_BYPASS (rp_proxyDomainsBypass a).

(** The middleware: options of the executor and of the server. *)
Definition whitelistMimes : list WhitelistMimeType :=
  [ mk_mime "text/html" (Some false); mk_mime "text/plain" (Some true);
    mk_mime "text/css" (Some false); mk_mime "text/javascript" (Some false);
    mk_mime "text/markdown" (Some true); mk_mime "text/xml" (Some false);
    mk_mime "application/javascript" (Some false); mk_mime "application/x-javascript" (Some false);
    mk_mime "application/json" (Some false); mk_mime "application/xml" (Some false);
    mk_mime "application/x-www-form-urlencoded" (Some false);
    mk_mime "application/msgpack" (Some false); mk_mime "application/ld+json" (Some false);
    mk_mime "application/graphql" (Some false) ].

Definition yes (o : option bool) : bool := o ?? false.

Definition executor_options (a : RepeaterArgs) : RequestExecutorOptions :=
  mk_options (rp_timeout a) (rp_proxyTarget a ??? rp_proxy a)
    ((fun h : strmap string => (fun '(k, v) => (k, HStr v)) <$> h) <$> (rp_header a ??? rp_headers a))
    (rp_cert a) (Some whitelistMimes) (Some Infinity) (Some (Fin 100))
    (yes (rp_ntlm a) || yes (rp_experimentalConnectionReuse a))
    (rp_proxyDomains a) (rp_proxyDomainsBypass a)
    (if yes (rp_kerberos a)
     then Some (mk_kerberos true (rp_kerberosDomains a) (rp_kerberosCredentials a)
                  (Some (yes (rp_kerberosDelegation a))))
     else None).

Definition server_options (a : RepeaterArgs) : DefaultRepeaterServerOptions :=
  mk_server_options (rp_repeaterServer a) (rp_token a) (rp_timeout a)
    (rp_proxyBright a ??? rp_proxy a) (rp_insecure a).

(** ** The handler *)

(** The state the handler works on: the repeater in its process (with the scripts it holds),
    the services of the system, the root certificates, the exit code, the log and the signals the
    process listens to. *)
Record command_world (S : Type) : Type := mk_cw {
  cw_service : service;
  cw_os : S;
  cw_ca : option (list string);
  cw_exitCode : option Z;
  cw_log : list string;
  cw_signals : list string
}.
Arguments mk_cw {S}.
Arguments cw_service {S}.
Arguments cw_os {S}.
Arguments cw_ca {S}.
Arguments cw_exitCode {S}.
Arguments cw_log {S}.
Arguments cw_signals {S}.

Section handler.
Context {UA : UrlApi} {S : Type} {OS : OsService S}.
Context (normalize : string -> string) (p : Process).
(** Reading certificate files, win-ca, reading scripts, and the order in which the concurrent
    reads of the scripts finish. *)
Context (readCert : string -> option string) (loadWin : bool).
Context (readScript : string -> result js_error string) (finishing : strmap string -> strmap string).
Context (syntax_error : string -> option js_error).

Implicit Types (w : command_world S).

Definition set_store (store : strmap VirtualScript) (s : service) : service :=
  mk_service (on_launcher (fun l => mk_launcher (ln_running l) (ln_repeaterId l) (ln_exitCode l)
    (ln_maxBodySize l) store (ln_deploys l) (ln_log l)) (sp_world s)) (sp_callbacks s) (sp_stopped s).

(** [loadCerts]. *)
Definition loadCerts (path : option string) w : command_world S :=
  let '(ca, warnings) := Certificates.load (p_platform p) readCert loadWin path (cw_ca w) in
  mk_cw (cw_service w) (cw_os w) ca (cw_exitCode w) (cw_log w ++ warnings) (cw_signals w).

(** [loadScripts]. *)
Definition loadScripts (scripts : strmap string) w : result js_error unit * command_world S :=
  let '(r, store) := load_done syntax_error readScript (finishing scripts)
                       (ln_store (w_launcher (sp_world (cw_service w)))) in
  (r, mk_cw (set_store store (cw_service w)) (cw_os w) (cw_ca w) (cw_exitCode w) (cw_log w) (cw_signals w)).

Definition set_exit (z : Z) w : command_world S :=
  mk_cw (cw_service w) (cw_os w) (cw_ca w) (Some z) (cw_log w) (cw_signals w).

Definition SIGNALS : list string := ["SIGTERM"; "SIGINT"; "SIGHUP"].

(** [repeaterLauncher.close()]. *)
Definition close_service (s : service) : service :=
  mk_service (close (sp_world s)) (sp_callbacks s) (sp_stopped s).

(** A signal to the process: its listener closes the launcher. *)
Definition on_signal (signal : string) w : command_world S :=
  if bool_decide (signal ∈ cw_signals w)
  then mk_cw (close_service (cw_service w)) (cw_os w) (cw_ca w) (Some 0%Z) (cw_log w) (cw_signals w)
  else w.

(** The last part of the handler: listen to the signals, run, and on an exception log, close and set
    the exit code. *)
Definition run_part (a : RepeaterArgs) w : command_world S :=
  let '(error, s) := run_as (server_options a) (rp_id a) (yes (rp_run a)) (cw_service w) in
  let w := mk_cw s (cw_os w) (cw_ca w) (cw_exitCode w) (cw_log w) (cw_signals w ++ SIGNALS) in
  match error with
  | None => w
  | Some e =>
      mk_cw (close_service s) (cw_os w) (cw_ca w) (Some 1%Z)
        (cw_log w ++ [genericCommandError (ForCommand "repeater" (TError e))]) (cw_signals w)
  end.

(** Resolving the launcher builds the command hub and with it both executors, in the order of their
    registration. *)
Definition build_executors (a : RepeaterArgs) : result js_error (HttpRequestExecutor * WsRequestExecutor) :=
  http ← new_HttpRequestExecutor (executor_options a);
  ws ← new_WsRequestExecutor (executor_options a);
  Ok (http, ws).

(** [handler]: what its promise is rejected with, if anything, and the state afterwards. *)
Definition handler (a : RepeaterArgs) w : result js_error unit * command_world S :=
  match build_executors a with
  | Err e => (Err e, w)
  | Ok _ =>
      let w := match rp_cacert a with
               | CaFlag false | CaPath "" => w
               | CaFlag true => loadCerts None w
               | CaPath path => loadCerts (Some path) w
               end in
      let '(loaded, w) := match rp_scripts a with
                          | Some scripts => loadScripts scripts w
                          | None => (Ok tt, w)
                          end in
      match loaded with
      | Err e => (Err e, w)
      | Ok _ =>
          if yes (rp_remove a) then
            (Ok tt, set_exit 0 (mk_cw (cw_service w) (launcher_uninstall (cw_os w)) (cw_ca w)
                                  (cw_exitCode w) (cw_log w) (cw_signals w)))
          else if yes (rp_daemon a) then
            let '(r, os) := launcher_install normalize p (cw_os w) in
            let w := mk_cw (cw_service w) os (cw_ca w) (cw_exitCode w) (cw_log w) (cw_signals w) in
            match r with
            | Err e => (Err e, w)
            | Ok _ => (Ok tt, set_exit 0 w)
            end
          else (Ok tt, run_part a w)
      end
  end.

End handler.

(** ** Properties *)

(** The declared conflicts rule out both lists of proxy domains at once. *)
Lemma domains_exclusive globals NO_PROXY a :
  accepted globals (RunRepeater NO_PROXY) (given a) ->
  rp_proxyDomains a = None \/ rp_proxyDomainsBypass a = None.
Proof.
  intros (Hc & _). destruct (rp_proxyDomains a) eqn:H1; [|by left].
  destruct (rp_proxyDomainsBypass a) eqn:H2; [exfalso|by right].
  apply (Hc "proxy-domains" ["proxy-domains-bypass"] "proxy-domains-bypass").
  - apply elem_of_app. left. do 5 right. left.
  - left.
  - unfold given. simpl. by rewrite H1.
  - unfold given. simpl. by rewrite H2.
Qed.

Lemma executor_built globals NO_PROXY a :
  accepted globals (RunRepeater NO_PROXY) (given a) ->
  is_ok (new_HttpRequestExecutor (executor_options a)) = true.
Proof.
  intros Ha. apply domains_exclusive in Ha. unfold new_HttpRequestExecutor.
  cbn [o_proxyDomains o_proxyDomainsBypass executor_options].
  destruct Ha as [-> | ->]; [done|]. cbn [nonempty_opt]. by rewrite andb_false_r.
Qed.


Section outcome.
Context {UA : UrlApi} {S : Type} {OS : OsService S}.
Implicit Types (w : command_world S).

Definition repeater_core w := core (sp_world (cw_service w)).

Lemma set_store_core store s : core (sp_world (set_store store s)) = core (sp_world s).
Proof. done. Qed.

(** Running from a closed state: an open session, or a closed one with the failure reported. *)
Lemma run_part_outcome a w :
  repeater_core w = closed_core ->
  (repeater_core (run_part a w) = open_core /\ cw_exitCode (run_part a w) = cw_exitCode w /\
   cw_signals (run_part a w) = cw_signals w ++ SIGNALS) \/
  (exists e, connect_agent (server_options a) = Err e /\ repeater_core (run_part a w) = closed_core /\
     cw_exitCode (run_part a w) = Some 1%Z /\
     genericCommandError (ForCommand "repeater" (TError e)) ∈ cw_log (run_part a w)).
Proof.
  intros Hc. unfold repeater_core, run_part, run_as in *.
  assert (ln_running (w_launcher (sp_world (cw_service w))) = false) as -> by (by injection Hc).
  set (s := if yes (rp_run a) then startup_run (cw_service w) else cw_service w).
  assert (sp_world s = sp_world (cw_service w)) as Hs by (unfold s; by destruct (yes _)).
  destruct (connect_agent (server_options a)) as [agent|e] eqn:Hag.
  - left. pose proof (run_core (server_options a) ltac:(by rewrite Hag) (rp_id a) _ Hc) as Ho.
    rewrite Hs. destruct (run (server_options a) (rp_id a) (sp_world (cw_service w))) as [[e|] w'] eqn:Hr; [|done].
    exfalso. unfold run in Hr. injection Hc as _ _ Hrun. rewrite Hrun in Hr.
    unfold server_connect, io_options in Hr. by rewrite Hag in Hr.
  - right. exists e. split; [done|].
    destruct (refused_proxy_half_open (server_options a) (rp_id a) (rp_id a) _ e Hag Hc) as (w' & Hr & _).
    rewrite Hs, Hr. cbn. split_and!; [done..|]. set_solver.
Qed.

End outcome.

(** C18: The repeater command never leaves a half-open session: started from a closed state with
    accepted arguments, the handler ends either with an open session (running, connected and
    subscribed once) and the exit code untouched, which each of the three signals then closes with
    exit code 0, or with a closed one; it is rejected only when the proxy for the targets is
    refused, the scripts cannot be loaded or the service cannot be installed; removing and
    installing the service exit with code 0 without connecting; and a failure to connect is
    logged, closed and reported with exit code 1. *)
Theorem repeater_handler_outcome {UA : UrlApi} {S} {OS : OsService S} normalize p readCert loadWin readScript finishing
    syntax_error globals NO_PROXY a (w : command_world S) :
  accepted globals (RunRepeater NO_PROXY) (given a) ->
  repeater_core w = closed_core ->
  let '(r, w') := handler normalize p readCert loadWin readScript finishing syntax_error a w in
  match r with
  | Err e => repeater_core w' = closed_core /\
      (new_WsRequestExecutor (executor_options a) = Err e \/ rp_scripts a <> None \/ yes (rp_daemon a) = true)
  | Ok _ =>
      if yes (rp_remove a) || yes (rp_daemon a)
      then repeater_core w' = closed_core /\ cw_exitCode w' = Some 0%Z
      else (repeater_core w' = open_core /\ cw_exitCode w' = cw_exitCode w /\
            forall signal, signal ∈ SIGNALS ->
              repeater_core (on_signal signal w') = closed_core /\ cw_exitCode (on_signal signal w') = Some 0%Z) \/
           (repeater_core w' = closed_core /\ cw_exitCode w' = Some 1%Z /\
            exists e, genericCommandError (ForCommand "repeater" (TError e)) ∈ cw_log w')
  end.
Proof.
  intros Ha Hc. unfold handler.
  pose proof (executor_built _ _ _ Ha) as Hx. unfold build_executors.
  destruct (new_HttpRequestExecutor (executor_options a)); [clear Hx|done]. cbn [mbind result_bind].
  destruct (new_WsRequestExecutor (executor_options a)) as [ws|e]; cbn [mbind result_bind]; [|auto].
  set (w1 := match rp_cacert a with CaFlag _ => _ | CaPath _ => _ end).
  assert (repeater_core w1 = closed_core /\ cw_exitCode w1 = cw_exitCode w) as [Hc1 He1].
  { subst w1. unfold loadCerts. destruct (rp_cacert a) as [[]|[]]; try done;
      destruct (Certificates.load _ _ _ _ _); done. }
  set (lw := match rp_scripts a with Some _ => _ | None => _ end).
  assert (repeater_core lw.2 = closed_core /\ cw_exitCode lw.2 = cw_exitCode w /\
    (forall e, lw.1 = Err e -> rp_scripts a <> None)) as (Hc2 & He2 & Hl).
  { subst lw. unfold loadScripts. destruct (rp_scripts a) as [scripts|]; [|done].
    destruct (load_done _ _ _ _) as [r store]. done. }
  destruct lw as [[[]|e] w2]; cbn [fst snd] in *; [|eauto].
  destruct (yes (rp_remove a)); cbn [orb]; [done|].
  destruct (yes (rp_daemon a)).
  - destruct (launcher_install normalize p (cw_os w2)) as [[[]|e] os]; [done|auto].
  - destruct (run_part_outcome a w2 Hc2) as [(Ho & He & Hsig)|(e & _ & Ho & He & Hlog)].
    + left. split; [done|]. split; [congruence|]. intros signal Hin. unfold on_signal.
      by rewrite bool_decide_true by (rewrite Hsig; set_solver).
    + right. eauto.
Qed.

(** The launcher is resolved outside the handler's try: a refused proxy for the targets is not
    reported by the command, neither logged nor by an exit code. *)
Lemma refused_target_proxy_escapes {UA : UrlApi} {S} {OS : OsService S} normalize p readCert loadWin readScript finishing
    syntax_error globals NO_PROXY a (w : command_world S) e :
  accepted globals (RunRepeater NO_PROXY) (given a) ->
  new_WsRequestExecutor (executor_options a) = Err e ->
  handler normalize p readCert loadWin readScript finishing syntax_error a w = (Err e, w).
Proof.
  intros Ha%executor_built He. unfold handler, build_executors.
  destruct (new_HttpRequestExecutor _); [|done]. cbn [mbind result_bind]. by rewrite He.
Qed.

(** Arguments of a plain run. *)
Definition sample_args : RepeaterArgs :=
  mk_repeater_args "uL2zo7VfuL2zo7Vf" "token" None (Some 30000%Z) None None (CaFlag false) None None None None
    None None None None None None None None None None None "wss://app.brightsec.com/workstations" None.

Lemma sample_accepted : accepted (global_options None None) (RunRepeater None) (given sample_args).
Proof.
  assert (forall n, given sample_args n -> n = "id" \/ n = "token") as Hg.
  { intros n. unfold given. cbn [OMap.get]. repeat case_eqb; simpl; intros; (done || auto). }
  split_and!.
  - intros n l m Hin _ Hn _. apply Hg in Hn. simpl in Hin.
    repeat (apply elem_of_cons in Hin as [[= ? ?]|Hin]; [subst; naive_solver|]). set_solver.
  - intros n m Hin Hn. apply Hg in Hn. simpl in Hin.
    repeat (apply elem_of_cons in Hin as [[= ? ?]|Hin]; [subst; naive_solver|]). set_solver.
  - assert (forallb (fun d => negb (od_demand d) || bool_decide (od_name d ∈ ["id"; "token"]))
      (options_of (global_options None None) (RunRepeater None)) = true) as H by (vm_compute; reflexivity).
    rewrite forallb_forall in H. intros d Hd%list_elem_of_In Hdem. specialize (H d Hd).
    rewrite Hdem in H. simpl in H. apply bool_decide_eq_true in H.
    apply elem_of_cons in H as [->|H%list_elem_of_singleton]; [done|]. by rewrite H.
Qed.


Lemma repeater_handler_outcome_witness :
  let w := mk_cw (mk_service initial 0 None) ([] : registry) None None [] [] in
  let w' := (handler (UA := no_urls) id sample_process (fun _ => None) false (fun _ => Ok "") id (fun _ => None)
    sample_args w).2 in
  (repeater_core w' = open_core /\ cw_exitCode w' = cw_exitCode w /\
   forall signal, signal ∈ SIGNALS ->
     repeater_core (on_signal signal w') = closed_core /\ cw_exitCode (on_signal signal w') = Some 0%Z) \/
  (repeater_core w' = closed_core /\ cw_exitCode w' = Some 1%Z /\
   exists e, genericCommandError (ForCommand "repeater" (TError e)) ∈ cw_log w').
Proof.
  exact (repeater_handler_outcome (UA := no_urls) id sample_process (fun _ => None) false (fun _ => Ok "") id
    (fun _ => None) (global_options None None) None sample_args
    (mk_cw (mk_service initial 0 None) ([] : registry) None None [] []) sample_accepted eq_refl).
Defined.

(** ** Coercions and the check *)

Lemma split_char_no c s : str_has c s = false -> split_char c s = [s].
Proof.
  unfold str_has. induction s as [|d s IH]; [done|]. simpl. intros [Hd Hs]%orb_false_iff.
  rewrite Hd. by rewrite IH.
Qed.

Lemma split_char_sep c s t :
  str_has c s = false -> split_char c (s +:+ String c t) = s :: split_char c t.
Proof.
  unfold str_has. induction s as [|d s IH]; intros Hs.
  - rewrite app_str_nil_l. simpl. by rewrite eqb_refl.
  - simpl in Hs. apply orb_false_iff in Hs as [Hd Hs]. rewrite app_str_cons. simpl. by rewrite Hd, IH.
Qed.

Lemma split_char_join c ds :
  ds <> [] -> Forall (fun d => str_has c d = false) ds -> split_char c (join (String c "") ds) = ds.
Proof.
  intros Hne Hds. induction Hds as [|d ds Hd Hds IH]; [done|]. destruct ds as [|d' ds].
  - by apply split_char_no.
  - rewrite join_cons, app_str_cons, app_str_nil_l, split_char_sep by done. by rewrite IH.
Qed.

(** A domain: not empty, and without white space. *)
Definition plain_domain (d : string) : Prop := d <> "" /\ str_any is_ws d = false.

Lemma trimEnd_plain s d : plain_domain d -> trimEnd (s +:+ d) = s +:+ d.
Proof.
  intros [Hne Hws]. assert (trimEnd d = d) as Hd.
  { clear Hne. induction d as [|c d IH]; [done|]. simpl in *.
    apply orb_false_iff in Hws as [Hc Hws]. by rewrite Hc, IH. }
  induction s as [|c s IH]; [by rewrite app_str_nil_l|]. rewrite app_str_cons. simpl. rewrite IH.
  rewrite (eqb_neq (s +:+ d) ""); [by rewrite andb_false_r|]. destruct s, d; done.
Qed.

Lemma join_last sep d ds : exists s, join sep (ds ++ [d]) = s +:+ d.
Proof.
  induction ds as [|d' ds [s IH]]; [by exists ""|]. destruct ds as [|d'' ds].
  - exists (d' +:+ sep). simpl. by rewrite <- app_str_assoc.
  - exists (d' +:+ sep +:+ s). simpl app. rewrite join_cons. simpl app in IH. rewrite IH.
    by rewrite <- !app_str_assoc.
Qed.

Lemma join_head sep d ds : exists s, join sep (d :: ds) = d +:+ s.
Proof. destruct ds; [exists ""; by rewrite app_str_nil_r|eexists; by rewrite join_cons]. Qed.

Lemma trim_join ds : Forall plain_domain ds -> trim (join " " ds) = join " " ds.
Proof.
  intros Hds. destruct (decide (ds = [])) as [->|Hne]; [done|]. unfold trim.
  assert (trimStart (join " " ds) = join " " ds) as ->.
  { destruct ds as [|d ds]; [done|]. apply Forall_cons in Hds as [[Hd Hw] _].
    destruct (join_head " " d ds) as [s ->]. destruct d as [|c d]; [done|]. simpl in Hw.
    apply orb_false_iff in Hw as [Hc _]. rewrite app_str_cons. simpl. by rewrite Hc. }
  destruct (exists_last Hne) as (ds' & d & ->). destruct (join_last " " d ds') as [s ->].
  apply trimEnd_plain. apply Forall_app in Hds as [_ Hd]. by rewrite Forall_singleton in Hd.
Qed.

Lemma plain_no_space d : plain_domain d -> str_has " "%char d = false.
Proof.
  intros [_ Hw]. unfold str_has. induction d as [|c d IH]; [done|]. simpl in *.
  apply orb_false_iff in Hw as [Hc Hw]. rewrite IH by done.
  rewrite (eqb_neq c " "%char); [done|]. by intros ->.
Qed.

Lemma includes_space_plain d : plain_domain d -> includes " " d = false.
Proof.
  intros Hd%plain_no_space. destruct (includes " " d) eqn:Hi; [|done].
  apply includes_spec in Hi as (x & y & ->). unfold str_has in Hd.
  rewrite !str_any_app in Hd. simpl in Hd. by rewrite orb_true_r in Hd.
Qed.

(** Domain lists mean the same on the command line and in the environment: any non-empty
    list of domains without white space is read back both from separate arguments and from the
    single space-separated string an environment variable gives, for the proxy, the bypass and
    the Kerberos domains alike; an absent value stays absent. *)
Theorem domains_coercion ds :
  ds <> [] -> Forall plain_domain ds ->
  let read := [coerce_domains (Some <$> ds); coerce_domains [Some (join " " ds)];
               coerce_bypass (Some <$> ds); coerce_bypass [Some (join " " ds)]] in
  Forall (fun r => r = Some (Some <$> ds)) read /\
  coerce_domains [None] = None /\ coerce_bypass [None] = None.
Proof.
  intros Hne Hds read.
  assert (split_single (join " " ds) = ds) as Hs.
  { unfold split_single. destruct (includes " " (join " " ds)) eqn:Hi.
    - rewrite trim_join by done. apply (split_char_join " "%char); [done|].
      eapply Forall_impl; [done|]. apply plain_no_space.
    - destruct ds as [|d [|d' ds]]; [done..|]. rewrite join_cons in Hi.
      assert (includes " " (d +:+ " " +:+ join " " (d' :: ds)) = true); [|congruence].
      apply includes_spec. by exists d, (join " " (d' :: ds)). }
  assert (Forall (fun d => split_single d = [d]) ds) as Hone.
  { eapply Forall_impl; [done|]. intros d Hd. unfold split_single. by rewrite includes_space_plain. }
  split; [|done]. repeat (apply Forall_cons; split); [| | | |apply Forall_nil_2].
  - destruct ds as [|d [|d' ds]]; [done| |done]. rewrite Forall_singleton in Hone. simpl. by rewrite Hone.
  - simpl. by rewrite Hs.
  - destruct ds as [|d [|d' ds]]; [done| |done]. rewrite Forall_singleton in Hone. simpl. by rewrite Hone.
  - simpl. by rewrite Hs.
Qed.

Lemma domains_coercion_witness :
  coerce_domains [Some "a.com b.com"] = Some (Some <$> ["a.com"; "b.com"]).
Proof.
  pose proof (domains_coercion ["a.com"; "b.com"]) as H.
  assert (["a.com"; "b.com"] <> []) as Hne by done.
  assert (Forall plain_domain ["a.com"; "b.com"]) as Hp by (repeat constructor; done).
  specialize (H Hne Hp). simpl in H. destruct H as [H _].
  apply Forall_cons in H as [_ H]. apply Forall_cons in H as [H _]. exact H.
Defined.

(** A certificate given as JSON is read as given, its path normalised. *)
Lemma coerce_cert_roundtrip normalize path hostname passphrase port :
  path <> "" -> hostname <> "" ->
  coerce_cert normalize [stringify (JObj [("hostname", JStr hostname); ("path", JStr path);
    ("passphrase", JStr passphrase); ("port", JStr port)])] =
  Coerced [mk_cert_arg (JStr hostname) (Some (JStr passphrase)) (normalize path) (Some (JStr port))].
Proof.
  intros Hp Hh. unfold coerce_cert. cbn [mapR]. rewrite parse_stringify by reflexivity.
  simpl. unfold truthy. by rewrite !eqb_neq by done.
Qed.

(** The check accepts exactly the identifiers of either form, with lists free of commas. *)
Lemma check_spec a :
  check a = Ok tt <->
  (isShortUUID (rp_id a) = Ok true \/ isUUID (rp_id a) = Ok true) /\
  Forall (fun d => includes "," d = false) (rp_proxyDomains a ?? []) /\
  Forall (fun d => includes "," d = false) (rp_proxyDomainsBypass a ?? []).
Proof.
  assert (forall m o, check_domains m o = Ok tt <-> Forall (fun d => includes "," d = false) (o ?? [])) as Hd.
  { intros m o. unfold check_domains. destruct (existsb _ _) eqn:He.
    - split; [done|]. intros Hf. apply existsb_exists in He as (d & Hin & Hd).
      rewrite Forall_forall in Hf. rewrite Hf in Hd; [done|]. by apply list_elem_of_In.
    - split; [|done]. intros _. apply Forall_forall. intros d Hin%list_elem_of_In.
      destruct (includes "," d) eqn:Hi; [|done].
      assert (existsb (includes ",") (o ?? []) = true); [|congruence].
      apply existsb_exists. eauto. }
  rewrite <- (Hd WRONG_DOMAINS), <- (Hd WRONG_BYPASS). unfold check, isShortUUID, isUUID.
  generalize (match_classes UUID_PATTERN (rp_id a)) as uuid. intros uuid.
  destruct (ok (truthy (rp_id a)) "Value must be string"); simpl;
    [|split; [done|intros ([|] & _); done]].
  assert (forall P : Prop, P -> (_ ← check_domains WRONG_DOMAINS (rp_proxyDomains a);
      check_domains WRONG_BYPASS (rp_proxyDomainsBypass a)) = Ok tt <->
    P /\ check_domains WRONG_DOMAINS (rp_proxyDomains a) = Ok tt /\
    check_domains WRONG_BYPASS (rp_proxyDomainsBypass a) = Ok tt) as Hrest.
  { intros P HP. destruct (check_domains WRONG_DOMAINS _) as [[]|]; simpl.
    - split; [auto|by intros (_ & _ & ?)].
    - split; [done|by intros (_ & ? & _)]. }
  destruct (SHORT_UUID_PATTERN (rp_id a)); simpl; [apply Hrest; auto|].
  destruct uuid; simpl; [apply Hrest; auto|]. split; [done|intros ([|] & _); done].
Qed.
