(* ===== verification/EndToEnd.v ===== *)
(** * From the command line to answered requests

    The repeater command ([RepeaterCommand.v]) and the running repeater ([System.v]) together: the
    handler builds both executors from the accepted arguments and opens the session, and from
    there on the system serves what it receives. *)
From S2P Require Import Prelude Json Helpers Scripts Request Proxy Certificates TryCerts HttpExecutor WsExecutor.
From S2P Require Import RepeaterServer Launcher Startup CommandHub Serving Inflight System Options RepeaterCommand.

Section end_to_end.
Context {UA : UrlApi} {LU : LegacyUrlApi} {CO : Codecs} (valid_regexp : string -> bool).
Context {Fn : Type} (runInContext : string -> result js_error (strmap Fn)).
Context (apply_handle : Fn -> RequestOptions -> result js_error RequestOptions).
Context (apply_onResponse : Fn -> Response -> result js_error (Headers * option ScriptResult)).
Context (transport : list CurlOp -> result js_error RawResponse -> Prop).
Context (regexp_test : string -> string -> bool) (sessions : WsClientOptions -> Session -> Prop).
Context {C} {CC : CertificatesCache C} {CL : CertificatesCacheLaws C}.
Context (readFile : string -> option Buffer) (extname basename : string -> string).
Context (secure_context : option string -> option Buffer -> bool).
Context (syntax_error : string -> option js_error).
Context {S : Type} {OS : OsService S} (normalize : string -> string) (p : Process).
Context (readCert : string -> option string) (loadWin : bool).
Context (readScript : string -> result js_error string) (finishing : strmap string -> strmap string).
Implicit Types (w : command_world S).

Definition limit_of w : number := ln_maxBodySize (w_launcher (sp_world (cw_service w))).

(** Running leaves the limit alone. *)
Lemma run_limit options id wd : ln_maxBodySize (w_launcher (run options id wd).2) = ln_maxBodySize (w_launcher wd).
Proof. unfold run. by repeat case_match. Qed.

Lemma run_part_limit a w : limit_of (run_part a w) = limit_of w.
Proof.
  unfold run_part, run_as, limit_of. destruct (ln_running _); [done|].
  set (s := if yes (rp_run a) then startup_run (cw_service w) else cw_service w).
  assert (sp_world s = sp_world (cw_service w)) as Hs by (unfold s; by destruct (yes _)). rewrite Hs.
  pose proof (run_limit (server_options a) (rp_id a) (sp_world (cw_service w))) as Hl.
  destruct (run _ _ _) as [[e|] wd]; done.
Qed.

(** The scripts named on the command line, if any, can be read and compiled. *)
Definition scripts_load (a : RepeaterArgs) w : Prop :=
  forall scripts, rp_scripts a = Some scripts ->
    is_ok (load_done syntax_error readScript (finishing scripts) (ln_store (w_launcher (sp_world (cw_service w))))).1 = true.

(** A handler that neither removes nor installs the service ends with [run_part]. *)
Lemma handler_runs globals NO_PROXY a w :
  accepted globals (RunRepeater NO_PROXY) (given a) ->
  is_ok (new_WsRequestExecutor (executor_options a)) = true -> scripts_load a w ->
  yes (rp_remove a) = false -> yes (rp_daemon a) = false ->
  exists http ws w2, build_executors a = Ok (http, ws) /\
    handler normalize p readCert loadWin readScript finishing syntax_error a w = (Ok tt, run_part a w2) /\
    repeater_core w2 = repeater_core w /\ limit_of w2 = limit_of w.
Proof.
  intros Ha Hws Hs Hrm Hda. assert (exists http ws, build_executors a = Ok (http, ws)) as (http & ws & Hb).
  { pose proof (executor_built _ _ _ Ha) as Hx. unfold build_executors.
    destruct (new_HttpRequestExecutor _) as [http|]; [|done]. destruct (new_WsRequestExecutor _) as [ws|]; [|done].
    by exists http, ws. }
  exists http, ws. unfold handler. rewrite Hb, Hrm, Hda.
  set (w1 := match rp_cacert a with CaFlag _ => _ | CaPath _ => _ end).
  assert (cw_service w1 = cw_service w) as Hw1.
  { subst w1. unfold loadCerts. destruct (rp_cacert a) as [[]|[]]; try done; by destruct (Certificates.load _ _ _ _ _). }
  unfold scripts_load in Hs. rewrite <- Hw1 in Hs. unfold repeater_core, limit_of. rewrite <- Hw1.
  destruct (rp_scripts a) as [scripts|]; [|by exists w1]. specialize (Hs scripts eq_refl). unfold loadScripts.
  destruct (load_done _ _ _ _) as [[[]|e] store]; [|done]. by eexists.
Qed.

Hypothesis transfers_end : forall ops, exists raw, transport ops raw.
Hypothesis sessions_stop : sessions_end sessions.

End end_to_end.

(** ** A command with one request *)

Section demo.
#[local] Existing Instances one_host sample_legacy sample_codecs.
#[local] Notation raw := (mk_raw 200 [1; 2]%N [] 1500).
#[local] Notation demo_sessions := (fun (_ : WsClientOptions) s =>
  s = mk_session (Ok (101%Z, [])) (Ok tt) [Message "x"; TimerFired]).

Definition demo_command : command_world registry := mk_cw (mk_service initial 0 None) [] None None [] [].

Definition demo_open : world := (run (server_options sample_args) (rp_id sample_args) initial).2.

Lemma demo_handler :
  handler id sample_process (fun _ => None) false (fun _ => Ok "") id (fun _ => None) sample_args demo_command =
    (Ok tt, mk_cw (mk_service demo_open 0 None) [] None None [] SIGNALS).
Proof. vm_compute. reflexivity. Qed.

Lemma demo_open_receives :
  react (server_options sample_args) (fun _ => None) (ISocketEvent SocketEvents.REQUEST PNone) demo_open = Ok demo_open.
Proof. vm_compute. reflexivity. Qed.

End demo.
