(* ===== verification/Commands.v ===== *)
(** * The commands that call the Bright API

    Models the coercions, checks, middlewares and handlers of src/src/Commands: scan:run,
    scan:retest, scan:stop, scan:polling, discovery:run, discovery:rerun, discovery:stop,
    discovery:polling, entrypoints:list, entrypoints:update-host,
    entrypoints:update-host-polling and version, composed with the REST clients (Api.v) and the
    polling loops (Polling.v).  The API is a parameter that answers calls. *)
From stdpp Require Import pretty.
From S2P Require Import Prelude Json Helpers Backoff Utils Request Api Polling Config Options RepeaterCommand.

(** ** Outcomes *)

(** What a handler prints, the errors and warnings it logs, the exit code, and what its promise
    is rejected with. *)
Record outcome : Type := mk_outcome {
  oc_stdout : list string;
  oc_errors : list string;
  oc_warnings : list string;
  oc_code : option Z;
  oc_rejected : option js_error
}.

Definition fails (command : string) (e : js_error) : outcome :=
  mk_outcome [] [genericCommandError (ForCommand command (TError e))] [] (Some 1%Z) None.

(** The try and catch all handlers share: exit code 0, or the logged error and exit code 1. *)
Definition guarded (command : string) (body : result js_error (list string * list string)) : outcome :=
  match body with
  | Ok (out, warnings) => mk_outcome out [] warnings (Some 0%Z) None
  | Err e => fails command e
  end.

(** ** The middleware of the API commands *)

Record ApiArgs : Type := mk_api_args {
  aa_api : string;
  aa_token : string;
  aa_timeout : option Z;
  aa_insecure : bool;
  aa_proxy : option string;
  aa_proxyBright : option string
}.

Definition rest_options (a : ApiArgs) : RestOptions :=
  mk_rest_options (aa_api a) (aa_token a) (aa_timeout a) (aa_insecure a) (aa_proxyBright a ??? aa_proxy a).

(** ** scan:run *)

(** What a [Set] of parsed values takes for the same: equal primitives. *)
Definition same_value (a b : json) : bool :=
  match a, b with
  | JArr _, _ | JObj _, _ | _, JArr _ | _, JObj _ => false
  | _, _ => stringify a === stringify b
  end.

(** [[...new Set(l)]]. *)
Fixpoint unique (seen l : list json) : list json :=
  match l with
  | [] => []
  | v :: l => if existsb (same_value v) seen then unique seen l else v :: unique (v :: seen) l
  end.

Definition NO_PATTERNS : string := "please make sure that patterns contain at least one regexp".

(** The parameter of the second callback: both properties default to an empty array. *)
Definition exclusion_of (v : json) : coerced (list json * list json) :=
  match v with
  | JNull => Throws (TypeError "Cannot destructure property 'methods' of 'object null'")
  | _ =>
      let get k := (match v with JObj m => OMap.get k m | _ => None end) ?? JArr [] in
      match get "patterns" with
      | JArr patterns =>
          let nonEmptyPatterns := List.filter (fun p => truthy_json (Some p)) patterns in
          match nonEmptyPatterns with
          | [] => Exits 1 (genericCommandError (ForCommand "scan:run" (Utils.TString NO_PATTERNS)))
          | _ =>
              match get "methods" with
              | JArr methods => Coerced (unique [] methods, unique [] nonEmptyPatterns)
              | JStr s => Coerced (unique [] (chars s), unique [] nonEmptyPatterns)
              | JNull => Coerced ([], unique [] nonEmptyPatterns)
              | _ => Throws (TypeError "object is not iterable")
              end
          end
      | _ => Throws (TypeError "patterns.filter is not a function")
      end
  end.

Definition excludeEntryPoint (args : list string) : coerced (list (list json * list json)) :=
  match mapR parse args with
  | Err e => Throws e
  | Ok vs => map_coerced exclusion_of vs
  end.

Record ScanArgs : Type := mk_scan_args {
  sa_test : option (list string);
  sa_name : string;
  sa_module : string;
  sa_auth : option string;
  sa_project : option string;
  sa_template : option string;
  sa_bucket : option (list string);
  sa_hostFilter : option (list string);
  sa_header : option (list string);
  sa_crawler : option (list string);
  sa_archive : option string;
  sa_repeater : option string;
  sa_smart : option bool;
  sa_param : option (list string);
  sa_concurrency : Z;
  sa_excludeEntryPoint : option (list (list string * list string));
  sa_excludeParam : option (list string);
  sa_entrypoint : option (list string)
}.

(** Which of the three sources of a scan have a value. *)
Definition scan_given (a : ScanArgs) (name : string) : Prop :=
  match OMap.get name [("entrypoint", some (sa_entrypoint a)); ("crawler", some (sa_crawler a));
                       ("archive", some (sa_archive a)); ("name", true); ("token", true)] with
  | Some b => b = true
  | None => False
  end.

(** An array is truthy, an empty path is not. *)
Definition scan_check (a : ScanArgs) : result js_error unit :=
  if some (sa_entrypoint a) && truthy_opt (sa_archive a) && some (sa_crawler a)
  then throw "Arguments --entrypoint, --archive and --crawler are mutually exclusive"
  else if negb (some (sa_entrypoint a)) && negb (truthy_opt (sa_archive a)) && negb (some (sa_crawler a))
  then throw "When --entrypoint is not provided, either --archive or --crawler must be specified"
  else Ok tt.

(** The fields of the configuration that pass through the client unread. *)
Record scan_rest : Type := mk_scan_rest {
  sr_tests : option (list string);
  sr_name : string;
  sr_module : string;
  sr_authObjectId : option string;
  sr_projectId : option string;
  sr_buckets : option (list string);
  sr_hostsFilter : option (list string);
  sr_repeaters : option (list string);
  sr_smart : option bool;
  sr_poolSize : Z;
  sr_entryPointIds : option (list string)
}.

Definition repeaters (repeater : option string) : option (list string) :=
  if truthy_opt repeater then (fun r => [r]) <$> repeater else None.

Section api.
Context {UA : UrlApi} (version : string).
Context (decodeURIComponent : string -> option string).
(** The API behind a client: the type of a stored file, and the answers to the calls. *)
Context (file_type : ApiClient -> string -> result js_error string).

(** A created job: its id and the messages of the warnings. *)
Record created : Type := mk_created { cr_id : string; cr_warnings : option (list string) }.

(** What is logged when there are warnings: their messages, one per line. *)
Definition warnings_of (r : created) : list string :=
  match cr_warnings r with
  | None | Some [] => []
  | Some l => [join newline l +:+ newline]
  end.

Definition scan_config (a : ScanArgs) : result js_error (ScanConfig scan_rest) :=
  headers ← parseHeaders decodeURIComponent (sa_header a ?? []);
  Ok (mk_scan_config
        (mk_scan_rest (sa_test a) (sa_name a) (sa_module a) (sa_auth a) (sa_project a) (sa_bucket a)
           (sa_hostFilter a) (repeaters (sa_repeater a)) (sa_smart a) (sa_concurrency a) (sa_entrypoint a))
        (sa_template a) (sa_archive a) (sa_crawler a) (sa_param a) None
        (Some (mk_exclusions (sa_excludeParam a) (sa_excludeEntryPoint a))) (Some headers)).

Definition RunScan_handler (post : ApiClient -> ApiCall (ScanRequest scan_rest) -> result js_error created)
    (c : ApiArgs) (a : ScanArgs) : outcome :=
  guarded "scan:run"
    (client ← new_client (rest_options c);
     config ← scan_config a;
     call ← scans_create version (file_type client) config;
     reply ← post client call;
     Ok ([cr_id reply], warnings_of reply)).

(** ** scan:retest and scan:stop *)

Definition RetestScan_handler (send : ApiClient -> ApiCall unit -> result js_error string)
    (c : ApiArgs) (scanId : string) : outcome :=
  guarded "scan:retest"
    (client ← new_client (rest_options c);
     id ← send client (scans_retest scanId);
     Ok ([id], [])).

Definition StopScan_handler (send : ApiClient -> ApiCall unit -> result js_error unit)
    (c : ApiArgs) (scanId : string) : outcome :=
  guarded "scan:stop"
    (client ← new_client (rest_options c);
     _ ← send client (scans_stop scanId);
     Ok ([], [])).

(** ** discovery:run, discovery:rerun and discovery:stop *)

Record DiscoveryArgs : Type := mk_discovery_args {
  da_project : string;
  da_name : string;
  da_auth : option string;
  da_hostFilter : option (list string);
  da_crawler : option (list string);
  da_archive : option string;
  da_repeater : option string;
  da_smart : option bool;
  da_concurrency : Z;
  da_interactionsDepth : Z;
  da_crawlParentSubdomains : bool;
  da_header : option (list string)
}.

Definition discovery_check (a : DiscoveryArgs) : result js_error unit :=
  if truthy_opt (da_archive a) && some (da_crawler a)
  then throw "Arguments --archive and --crawler are mutually exclusive"
  else if negb (truthy_opt (da_archive a)) && negb (some (da_crawler a))
  then throw "Either --archive or --crawler must be specified"
  else Ok tt.

Record discovery_rest : Type := mk_discovery_rest {
  dr_name : string;
  dr_authObjectId : option string;
  dr_hostsFilter : option (list string);
  dr_repeaters : option (list string);
  dr_optimizedCrawler : option bool;
  dr_poolSize : Z;
  dr_maxInteractionsChainLength : Z;
  dr_subdomainsCrawl : bool
}.

(** The headers are handed over as the array of the command line; the client lists the entries
    of the object it gets, which for an array are its indices. *)
Definition array_entries (l : list string) : strmap string := imap (fun i v => (pretty i, v)) l.

Definition discovery_config (a : DiscoveryArgs) : ScanConfig discovery_rest :=
  mk_scan_config
    (mk_discovery_rest (da_name a) (da_auth a) (da_hostFilter a) (repeaters (da_repeater a)) (da_smart a)
       (da_concurrency a) (da_interactionsDepth a) (da_crawlParentSubdomains a))
    None (da_archive a) (da_crawler a) None None None (array_entries <$> da_header a).

Definition RunDiscovery_handler
    (post : ApiClient -> ApiCall (ScanRequest discovery_rest) -> result js_error created)
    (c : ApiArgs) (a : DiscoveryArgs) : outcome :=
  guarded "discovery:run"
    (client ← new_client (rest_options c);
     call ← discoveries_create version (file_type client) (da_project a) (discovery_config a);
     reply ← post client call;
     Ok ([cr_id reply], warnings_of reply)).

Definition RerunDiscovery_handler (send : ApiClient -> ApiCall unit -> result js_error string)
    (c : ApiArgs) (project discoveryId : string) : outcome :=
  guarded "discovery:rerun"
    (client ← new_client (rest_options c);
     id ← send client (discoveries_rerun project discoveryId);
     Ok ([id], [])).

Definition StopDiscovery_handler (send : ApiClient -> ApiCall unit -> result js_error unit)
    (c : ApiArgs) (project discoveryId : string) : outcome :=
  guarded "discovery:stop"
    (client ← new_client (rest_options c);
     _ ← send client (discoveries_stop project discoveryId);
     Ok ([], [])).

(** ** entrypoints:update-host and entrypoints:list *)

Definition EntryPointsUpdateHost_handler
    (send : ApiClient -> ApiCall UpdateHostBody -> result js_error string)
    (c : ApiArgs) (project oldHostname newHostname : string) (entrypointIds : option (list string)) : outcome :=
  guarded "entrypoints:update-host"
    (client ← new_client (rest_options c);
     taskId ← send client (updateHost project (mk_update_host oldHostname newHostname entrypointIds));
     Ok ([taskId], [])).

End api.

(** [JSON.stringify(v, null, 2)]. *)
Fixpoint blanks (n : nat) : string := match n with O => "" | S n => String " " (blanks n) end.
Fixpoint stringify_pretty (indent : nat) (v : json) : string :=
  let inner := newline +:+ blanks (indent + 2) in
  match v with
  | JArr [] => "[]"
  | JArr l => "[" +:+ inner +:+ join ("," +:+ inner) (map (stringify_pretty (indent + 2)) l)
                +:+ newline +:+ blanks indent +:+ "]"
  | JObj [] => "{}"
  | JObj m => "{" +:+ inner +:+
      join ("," +:+ inner) (map (fun e => dquote +:+ quoted e.1 +:+ ": " +:+ stringify_pretty (indent + 2) e.2) m)
      +:+ newline +:+ blanks indent +:+ "}"
  | v => stringify v
  end.

(** The three fields shown of an entry point; a missing one is not printed. *)
Definition brief (e : json) : json :=
  JObj (omap (fun k => (fun v => (k, v)) <$> optional_field k (Some e)) ["id"; "method"; "url"]).

(** The client is resolved outside the try: a refused proxy rejects the handler. *)
Definition GetEntryPoints_handler {UA : UrlApi} {Cursor} (cursor_of : json -> Cursor)
    (get_page : ApiClient -> option Cursor -> Z -> result js_error (list json))
    (c : ApiArgs) (limit : option Z) (verbose pretty : bool) : option outcome :=
  match new_client (rest_options c) with
  | Err e => Some (mk_outcome [] [] [] None (Some e))
  | Ok client =>
      r ← entrypoints cursor_of (get_page client) limit;
      Some (guarded "entrypoints:list"
        (entryPoints ← r;
         let ep := JArr (if verbose then entryPoints else brief <$> entryPoints) in
         Ok ([if pretty then stringify_pretty 0 ep else stringify ep], [])))
  end.

(** ** The polling commands *)

(** What was logged before. *)
Definition printed (lines : list string) (o : outcome) : outcome :=
  mk_outcome (lines ++ oc_stdout o) (oc_errors o) (oc_warnings o) (oc_code o) (oc_rejected o).
Definition warned (warnings : list string) (o : outcome) : outcome :=
  mk_outcome (oc_stdout o) (oc_errors o) (warnings ++ oc_warnings o) (oc_code o) (oc_rejected o).

(** scan:polling: [status] and [latency] are the answers of the service (Polling.v). *)
Definition PollingScanStatus_handler {UA : UrlApi} (status : nat -> result js_error ScanState)
    (latency : nat -> Z) (c : ApiArgs) (timeout interval : option Z) (breakpoint : string) (fuel : nat) :
    option outcome :=
  match new_client (rest_options c) with
  | Err e => Some (fails "scan:polling" e)
  | Ok _ =>
      let '(warnings, created) := create_polling timeout interval breakpoint in
      warned warnings <$>
      match created with
      | Err e => Some (fails "scan:polling" e)
      | Ok severity =>
          '(r, messages) ← start status latency timeout interval severity fuel;
          Some (printed messages (match pr_end r with
                | PollOver | PollTimedOut => mk_outcome [] [] [] (Some 0%Z) None
                | PollThrown e =>
                    if e_name e === "BreakpointException"
                    then mk_outcome [] ["The breakpoint has been hit during polling.";
                                        "Breakpoint: " +:+ e_message e] [] (Some 50%Z) None
                    else fails "scan:polling" e
                end))
      end
  end.

(** discovery:polling and entrypoints:update-host-polling: the loop itself ends the process on
    an error; otherwise the exit code is 0.  The messages are listed without their level. *)
Definition view_outcome (r : view_run) : outcome :=
  mk_outcome (vr_log r) [] []
    (Some (match vr_end r with ViewFinished | ViewStopped => 0%Z | ViewExit code => code end)) None.

Definition PollingDiscoveryStatus_handler {UA : UrlApi} get_view latency (c : ApiArgs)
    (timeout interval : option Z) (fuel : nat) : option outcome :=
  match new_client (rest_options c) with
  | Err e => Some (fails "discovery:polling" e)
  | Ok _ => (fun r => warned (new_DiscoveryPolling timeout interval) (view_outcome r)) <$>
            discovery_polling get_view latency timeout interval fuel
  end.

Definition PollingHostUpdateJobStatus_handler {UA : UrlApi} get_view latency (c : ApiArgs)
    (timeout interval : option Z) (fuel : nat) : option outcome :=
  match new_client (rest_options c) with
  | Err e => Some (fails "entrypoints:update-host-polling" e)
  | Ok _ => (fun r => warned (new_HostUpdateJobStatusPolling timeout interval) (view_outcome r)) <$>
            host_update_polling get_view latency timeout interval fuel
  end.

(** ** Properties of scan:run *)

Lemma scan_sources globals a :
  accepted globals RunScan (scan_given a) -> scan_check a = Ok tt ->
  (sa_entrypoint a <> None /\ sa_crawler a = None /\ sa_archive a = None) \/
  (sa_entrypoint a = None /\ (sa_crawler a <> None \/ truthy_opt (sa_archive a) = true)).
Proof.
  intros (Hc & _) Hk. destruct (sa_entrypoint a) as [e|] eqn:He.
  - left. split; [done|].
    assert (scan_given a "entrypoint") as Hg by (unfold scan_given; simpl; by rewrite He).
    split; [destruct (sa_crawler a) eqn:Hx | destruct (sa_archive a) eqn:Hx]; try done; exfalso.
    + apply (Hc "entrypoint" ["crawler"; "archive"] "crawler"); [left|left|done|].
      unfold scan_given. simpl. by rewrite Hx.
    + apply (Hc "entrypoint" ["crawler"; "archive"] "archive"); [left|right; left|done|].
      unfold scan_given. simpl. by rewrite Hx.
  - right. split; [done|]. unfold scan_check in Hk. rewrite He in Hk. simpl in Hk.
    destruct (truthy_opt (sa_archive a)); [by right|]. simpl in Hk.
    destruct (sa_crawler a); [by left|done].
Qed.


(** Sets of strings. *)
Lemma same_value_str a b : same_value (JStr a) (JStr b) = (a === b).
Proof.
  unfold same_value. destruct (eqbP a b) as [->|Hn]; [apply eqb_refl|]. apply eqb_neq. intros He.
  assert (parse (stringify (JStr a)) = parse (stringify (JStr b))) as Hp by (by rewrite He).
  rewrite !parse_stringify in Hp by done. congruence.
Qed.

Lemma unique_strings l seen :
  exists l', unique (JStr <$> seen) (JStr <$> l) = JStr <$> l' /\ NoDup l' /\
    forall x, x ∈ l' <-> x ∈ l /\ x ∉ seen.
Proof.
  revert seen. induction l as [|v l IH]; intros seen.
  { exists []. split_and!; [done|constructor|set_solver]. }
  rewrite fmap_cons. cbn [unique].
  assert (existsb (same_value (JStr v)) (JStr <$> seen) = bool_decide (v ∈ seen)) as ->.
  { apply eq_bool_prop_intro. rewrite bool_decide_spec, Is_true_true, existsb_exists. split.
    - intros (x & Hx%list_elem_of_In & Hs). apply list_elem_of_fmap in Hx as (y & -> & Hy).
      rewrite same_value_str, eqb_true_iff in Hs. by subst.
    - intros Hv. exists (JStr v). split; [apply list_elem_of_In; set_solver|].
      by rewrite same_value_str, eqb_refl. }
  case_bool_decide.
  - destruct (IH seen) as (l' & Hl & Hnd & Hin). exists l'. split_and!; [done..|].
    intros x. rewrite Hin, elem_of_cons. destruct (decide (x = v)); naive_solver.
  - destruct (IH (v :: seen)) as (l' & Hl & Hnd & Hin). exists (v :: l').
    rewrite fmap_cons in Hl |- *. rewrite Hl. split_and!; [done| |].
    + constructor; [|done]. intros [_ Hn]%Hin. apply Hn. left.
    + intros x. rewrite !elem_of_cons, Hin, not_elem_of_cons.
      destruct (decide (x = v)); naive_solver.
Qed.

Lemma filter_truthy_strings ps :
  List.filter (fun p => truthy_json (Some p)) (JStr <$> ps) = JStr <$> List.filter truthy ps.
Proof.
  induction ps as [|p ps IH]; [done|]. rewrite fmap_cons. cbn [List.filter]. rewrite IH. cbn [truthy_json].
  by destruct (truthy p).
Qed.

(** Excluded entry points are read as written: an exclusion given as JSON is taken over
    with its methods and its non-empty patterns, each once; one without any such pattern ends
    the command with exit code 1. *)
Theorem exclusion_roundtrip ms ps :
  let text := stringify (JObj [("methods", JArr (JStr <$> ms)); ("patterns", JArr (JStr <$> ps))]) in
  (forall p, p ∈ ps -> p = "") /\ (exists m, excludeEntryPoint [text] = Exits 1 m) \/
  exists ms' ps', excludeEntryPoint [text] = Coerced [(JStr <$> ms', JStr <$> ps')] /\
    NoDup ms' /\ (forall x, x ∈ ms' <-> x ∈ ms) /\
    NoDup ps' /\ ps' <> [] /\ (forall x, x ∈ ps' <-> x ∈ ps /\ x <> "").
Proof.
  intros text. subst text. unfold excludeEntryPoint. cbn [mapR].
  assert (forall l, forallb printable (JStr <$> l) = true) as Hstr by (induction l; done).
  rewrite parse_stringify by (simpl; by rewrite !Hstr). cbn [mbind result_bind map_coerced exclusion_of].
  cbn [OMap.get]. rewrite (eqb_neq "methods" "patterns"), !eqb_refl by done. cbn [nullish].
  rewrite filter_truthy_strings.
  destruct (unique_strings ms []) as (ms' & Hms & Hnm & Him).
  destruct (unique_strings (List.filter truthy ps) []) as (ps' & Hps & Hnp & Hip).
  assert (forall x, x ∈ List.filter truthy ps <-> x ∈ ps /\ x <> "") as Hf.
  { intros x. rewrite list_elem_of_In, List.filter_In, <- list_elem_of_In. unfold truthy.
    by rewrite negb_true_iff, eqb_false_iff. }
  destruct (List.filter truthy ps) as [|p0 ps0] eqn:Hfil.
  - left. split; [|by eexists]. intros p Hp. destruct (decide (p = "")); [done|].
    assert (p ∈ ([] : list string)) by (by apply Hf). set_solver.
  - right. exists ms', ps'. rewrite fmap_cons. cbn [fmap list_fmap] in Hps. simpl in Hms. rewrite Hms, Hps.
    split_and!; [done|done|set_solver|done| |set_solver].
    intros ->. assert (p0 ∈ ([] : list string)) by (apply Hip; set_solver). set_solver.
Qed.

(** The documentation of the option says that an empty string removes the default exclusions;
    it is refused like every other text that is not JSON. *)
Lemma empty_exclusion_refused : excludeEntryPoint [""] = Throws SyntaxError.
Proof. reflexivity. Qed.


(** ** Properties of discovery:run *)

(** Headers given to discovery:run lose their names: whatever they are, the request posted
    names them by their position and sends the whole text of the option as the value, where
    scan:run sends the parsed names and values. *)
Theorem discovery_headers_by_index version file_type a call :
  discoveries_create version file_type (da_project a) (discovery_config a) = Ok call ->
  exists req, call = POST ("/api/v2/projects/" +:+ da_project a +:+ "/discoveries") (Some req) /\
    forall hs, da_header a = Some hs ->
      sq_headers req = Some (imap (fun i h => mk_header (pretty i) h "replace") hs).
Proof.
  unfold discoveries_create, prepareConfig. intros H. inv_bind H. apply Ok_inj in H as <-.
  inv_bind Ha. apply Ok_inj in Ha as <-. eexists. split; [done|]. intros hs Hh. cbn. rewrite Hh. cbn.
  f_equal. unfold array_entries. clear. change (map ?f ?l) with (f <$> l). rewrite fmap_imap.
  apply imap_ext. intros i h _. done.
Qed.

Definition sample_discovery : DiscoveryArgs :=
  mk_discovery_args "p" "n" None None (Some ["http://a"]) None None None 10 3 false (Some ["x-key: 1"]).

Lemma discovery_headers_by_index_witness :
  exists req, discoveries_create "1.0" (fun _ => Ok "har") "p" (discovery_config sample_discovery) =
      Ok (POST "/api/v2/projects/p/discoveries" (Some req)) /\
    sq_headers req = Some [mk_header "0" "x-key: 1" "replace"].
Proof.
  destruct (discovery_headers_by_index "1.0" (fun _ => Ok "har") sample_discovery _ eq_refl) as (req & Hc & Hh).
  exists req. rewrite (Hh ["x-key: 1"] eq_refl). split; [|reflexivity]. exact (f_equal Ok Hc).
Defined.

(** ** Properties of the polling commands *)



(** ** Properties of entrypoints:list *)

Lemma brief_printable e : printable e = true -> printable (brief e) = true.
Proof.
  intros He. unfold brief. cbn [printable]. apply andb_true_iff. split.
  - apply forallb_forall. intros [k v] Hin%list_elem_of_In. apply list_elem_of_omap in Hin as (k' & _ & Hk).
    destruct (optional_field k' (Some e)) as [v'|] eqn:Ho; simplify_eq/=. unfold optional_field in Ho.
    assert ((k, v) ∈ spread (Some e)) as Hs by (destruct e; (done || by apply get_Some_elem in Ho)).
    clear -He Hs. destruct e as [|b|n|s|l|m]; simpl in *; try set_solver.
    + unfold indexed in Hs. apply elem_of_lookup_imap in Hs as (i & w & [= -> ->] & Hl).
      apply list_elem_of_lookup_2 in Hl. clear He. induction s as [|c s IH]; simpl in Hl; [set_solver|].
      apply elem_of_cons in Hl as [->|Hl]; [done|auto].
    + apply elem_of_lookup_imap in Hs as (i & w & [= -> ->] & Hl). rewrite forallb_forall in He. apply He.
      apply list_elem_of_In. by eapply list_elem_of_lookup_2.
    + apply andb_true_iff in He as [He _]. rewrite forallb_forall in He.
      apply (He (k, v)). by apply list_elem_of_In.
  - apply bool_decide_eq_true. cbn [omap list_omap].
    destruct (optional_field "id" (Some e)), (optional_field "method" (Some e)), (optional_field "url" (Some e));
      simpl; repeat constructor; set_solver.
Qed.

(** Entrypoints:list prints what it was asked for: against a service that lists the entry
    points in pages, the command ends with exit code 0 and prints one line of JSON that reads back
    as the first entries up to the limit, in full or reduced to their id, method and URL. *)
Theorem entrypoints_list_prints {UA : UrlApi} {Cursor} (cursor_of : json -> Cursor) get_page c limit verbose client all :
  new_client (rest_options c) = Ok client -> lists cursor_of (get_page client) all ->
  Forall (fun e => printable e = true) all ->
  exists line, GetEntryPoints_handler cursor_of get_page c limit verbose false =
      Some (mk_outcome [line] [] [] (Some 0%Z) None) /\
    parse line = Ok (JArr ((if verbose then id else brief) <$> take (Z.to_nat (limit ?? 10%Z)) all)).
Proof.
  intros Hc Hl Hp. unfold GetEntryPoints_handler, entrypoints. rewrite Hc. cbv zeta.
  set (n := limit ?? 10%Z).
  assert (paginate cursor_of (get_page client) (pages n) n [] None = Some (Ok (take (Z.to_nat n) all))) as ->.
  { apply (paginate_lists cursor_of (get_page client) all (pages n) n [] all); [done..| |]; unfold pages; [|lia].
    pose proof (Z.div_mod (n + 49) 50). pose proof (Z.mod_pos_bound (n + 49) 50). lia. }
  cbn [mbind option_bind result_bind]. eexists. split; [done|].
  set (l := take (Z.to_nat n) all).
  assert (Forall (fun e => printable e = true) l) as Hpl by (by apply Forall_take).
  replace (if verbose then l else brief <$> l) with ((if verbose then id else brief) <$> l)
    by (destruct verbose; [apply list_fmap_id|done]).
  apply parse_stringify. cbn [printable]. apply forallb_forall. intros e He%list_elem_of_In.
  apply list_elem_of_fmap in He as (e' & -> & He'). rewrite Forall_forall in Hpl.
  destruct verbose; [by apply Hpl|]. apply brief_printable. by apply Hpl.
Qed.

Definition one_page (client : ApiClient) (cursor : option string) (n : Z) : result js_error (list json) :=
  match cursor with None => Ok (take (Z.to_nat n) [JObj [("id", JStr "e1"); ("extra", JNull)]]) | Some _ => Ok [] end.

Lemma entrypoints_list_prints_witness :
  exists line, GetEntryPoints_handler (UA := Launcher.no_urls) stringify one_page
      (mk_api_args "https://app.brightsec.com" "t" None false None None) None false false =
      Some (mk_outcome [line] [] [] (Some 0%Z) None) /\
    parse line = Ok (JArr [JObj [("id", JStr "e1")]]).
Proof.
  eapply (entrypoints_list_prints (UA := Launcher.no_urls) stringify one_page
    (mk_api_args "https://app.brightsec.com" "t" None false None None) None false _ [JObj [("id", JStr "e1"); ("extra", JNull)]]).
  - reflexivity.
  - split; [done|]. intros before item after n Ha _. destruct before as [|? [|]]; simplify_eq/=.
    by rewrite take_nil.
  - repeat constructor.
Defined.

(** ** version *)

(** [executeCommand]: the first of the two streams that has text, else the error. *)
Definition executeCommand (stdout stderr : string) (error : option js_error) : result js_error string :=
  if truthy stdout then Ok stdout
  else if truthy stderr then Ok stderr
  else match error with Some e => Err e | None => Ok "" end.

(** The characters a dot matches, and the longest run of them. *)
Definition dot (c : ascii) : bool := negb ((code c =? 10) || (code c =? 13))%N.
Fixpoint span_dot (s : string) : string * string :=
  match s with
  | String c t => if dot c then let '(d, r) := span_dot t in (String c d, r) else ("", s)
  | "" => ("", "")
  end.

(** The group of the leftmost match of the pattern: the package name with its version up to the
    end of the line. *)
Definition PACKAGE : string := " @brightsec/cli@".
Fixpoint match_version (s : string) : option string :=
  let here := if startsWith PACKAGE s then
                let '(v, r) := span_dot (str_drop (String.length PACKAGE) s) in
                match r with String c _ => if (code c =? 10)%N then Some v else None | "" => None end
              else None in
  match here with
  | Some v => Some v
  | None => match s with "" => None | String _ t => match_version t end
  end.

(** [replace(/"invalid"/gi, '')]. *)
Definition INVALID : string := dquote +:+ "invalid" +:+ dquote.
Fixpoint drop_invalid (skip : nat) (s : string) : string :=
  match skip, s with
  | _, "" => ""
  | S k, String _ t => drop_invalid k t
  | 0, String c t =>
      if startsWith INVALID (toLowerCase s) then drop_invalid (String.length INVALID - 1) t
      else String c (drop_invalid 0 t)
  end.

Definition npm_version (list : string) : string :=
  trim (drop_invalid 0 (match match_version list with Some v => v | None => "" end)).

(** The messages of the handler, from the outputs of the two commands. *)
Definition VersionCommand_handler (local global : result js_error string) : result js_error (list string) :=
  localNpmList ← local;
  let localNpmVersion := npm_version localNpmList in
  globalNpmList ← global;
  let globalNpmVersion := npm_version globalNpmList in
  Ok ([if truthy localNpmVersion then "Local installed version: " +:+ localNpmVersion
       else "No local installed Bright CLI was found."] ++
      [if truthy globalNpmVersion then "Global installed Bright CLI version: " +:+ globalNpmVersion
       else "No global installed was found."] ++
      (if truthy localNpmVersion && truthy globalNpmVersion && negb (localNpmVersion === globalNpmVersion)
       then ["To avoid issues with CLI please make sure your global and local Bright CLI versions match, or you are using locally installed Bright CLI instead of global one."]
       else [])).

Example version_found :
  npm_version ("/app" +:+ newline +:+ "`-- @brightsec/cli@13.1.0 " +:+ INVALID +:+ newline) = "13.1.0".
Proof. vm_compute. reflexivity. Qed.
