(* ===== verification/Archive.v ===== *)
(** * Archives: parsing, validation and upload

    Models src/src/Archive (the parsers, their factory, the three validators and the REST client)
    and the handler of src/src/Commands/UploadArchive.ts.  The JSON schemas are checked by ajv,
    versions are compared by semver, YAML is parsed by js-yaml: third-party code and parameters. *)
From S2P Require Import Prelude Json Helpers Utils Request Api Config Options RepeaterCommand Commands.

(** [SpecType]: the enumeration with its keys. *)
Definition SpecType : strmap string := [("HAR", "HAR"); ("OPENAPI", "OpenAPI"); ("POSTMAN", "Postman")].

(** ** Validators *)

Section validators.
Context {UA : UrlApi}.

(** The compiled schemas: whether a value matches the schema with the given id. *)
Context (har_schema : json -> bool) (oas_schema : string -> json -> bool).
(** The collection schemas ajv has under an id, if it has one. *)
Context (postman_schema : string -> option (json -> bool)).

(** *** [HarValidator] *)

(** [parseEntry]: undefined for an entry without a host, a protocol, or of an extension. *)
Definition parseEntry (entry : json) : result js_error (option string) :=
  request ← field "request" entry;
  match request with
  | None => Err (TypeError "Cannot read properties of undefined (reading 'url')")
  | Some request =>
      url ← field "url" request;
      match url with
      | Some (JStr url) =>
          match new_URL url with
          | None => Err (TypeError "Invalid URL")
          | Some u =>
              Ok (if negb (truthy (u_host u)) || negb (truthy (u_protocol u)) then None
                  else if u_protocol u === "chrome-extension:" then None
                  else Some url)
          end
      | _ => Err (TypeError "Invalid URL")
      end
  end.

Definition entriesAreValid (entries : option json) : result js_error bool :=
  match entries with
  | Some (JArr l) =>
      urls ← mapR parseEntry l;
      let urls := List.filter (fun u => truthy_opt u) urls in
      Ok (negb (length (remove_dups urls) =? 0)%nat)
  | _ => if truthy_json entries then Err (TypeError "entries.map is not a function") else Ok false
  end.

Definition har_validate (data : json) : result js_error unit :=
  if negb (har_schema data) then throw "The HAR file is corrupted."
  else
    log ← field "log" data;
    match log with
    | None => Err (TypeError "Cannot read properties of undefined (reading 'entries')")
    | Some log =>
        entries ← field "entries" log;
        valid ← entriesAreValid entries;
        if (valid : bool) then Ok tt else throw "HAR is empty or contains none of request."
    end.

(** *** [OasValidator] *)

Definition MIN_ALLOWED_VERSION : string := "2.0.0".
Definition VERSION_SCHEMA_MAP (major : Z) : option string :=
  if (major =? 2)%Z then Some "http://swagger.io/v2/schema.json#"
  else if (major =? 3)%Z then Some "https://spec.openapis.org/oas/3.0/schema/2019-04-02"
  else None.
Definition SCHEMA_NOT_FOUND : string := "Cannot determine version of schema. Schema ID is missed.".
Definition SWAGGER_V1 : string :=
  "Swagger v1 are not supported. If you are using an older format, convert it to v2 and try again.".

(** semver: [valid], [major] (which throws on an invalid version) and [gte]. *)
Context (semver_valid : string -> bool) (semver_major : string -> result js_error Z).
Context (semver_gte : string -> string -> result js_error bool).

(** [a || b] on parsed values. *)
Definition or_json (a b : option json) : option json := if truthy_json a then a else b.

(** [getVersion]; only a string can be trimmed. *)
Definition getVersion (spec : json) : result js_error string :=
  openapi ← field "openapi" spec;
  swagger ← field "swagger" spec;
  match or_json (or_json openapi swagger) (Some (JStr "")) with
  | Some (JStr s) =>
      let version := trim s in
      _ ← ok (truthy version) "Cannot determine version of specification.";
      Ok (if negb (semver_valid version) && startsWith version MIN_ALLOWED_VERSION
          then MIN_ALLOWED_VERSION else version)
  | _ => Err (TypeError "(spec.openapi || spec.swagger || ).trim is not a function")
  end.

Definition validateVersion (spec : json) : result js_error unit :=
  version ← getVersion spec;
  gte ← semver_gte version MIN_ALLOWED_VERSION;
  if (gte : bool) then Ok tt else throw SWAGGER_V1.

Definition oas_validate (spec : json) : result js_error unit :=
  version ← getVersion spec;
  major ← semver_major version;
  match VERSION_SCHEMA_MAP major with
  | None => Err (AssertionError SCHEMA_NOT_FOUND)
  | Some schemaId =>
      _ ← validateVersion spec;
      if oas_schema schemaId spec then Ok tt else throw "The OAS file is corrupted."
  end.

(** *** [PostmanValidator] *)

Definition ALLOWED_SCHEMAS : list string :=
  ["https://schema.getpostman.com/json/draft-07/collection/v2.0.0/";
   "https://schema.getpostman.com/json/draft-07/collection/v2.1.0/";
   "https://schema.getpostman.com/json/collection/v2.0.0/";
   "https://schema.getpostman.com/json/collection/v2.1.0/"].

(** [path.parse(p).dir] (POSIX): what precedes the last slash, ignoring trailing slashes. *)
Fixpoint strip_slashes (l : list string) : list string :=
  match l with
  | [] => []
  | p :: l => match p, strip_slashes l with "", [] => [] | _, r => p :: r end
  end.
Definition path_dir (p : string) : string :=
  match strip_slashes (split_char "/" p) with
  | [] => if startsWith "/" p then "/" else ""
  | [_] => ""
  | ["" ; _] => "/"
  | l => join "/" (removelast l)
  end.

Definition POSTMAN_V1 : string :=
  "Postman v1 collections are not supported. If you are using an older format, convert it to v2 and try again.".

Definition postman_validate (collection : json) : result js_error unit :=
  _ ← ok (truthy_json (Some collection)) "Postman collection is not provided.";
  info ← field "info" collection;
  _ ← ok (truthy_json info) (dquote +:+ "info" +:+ dquote +:+ " section is missed in the collection.");
  schema ← field "schema" (info ?? JNull);
  schemaId ← (if truthy_json schema then
                match schema with
                | Some (JStr s) => Ok (path_dir s +:+ "/")
                | _ => Err ERR_INVALID_ARG_TYPE
                end
              else Ok "");
  if negb (bool_decide (trim schemaId ∈ ALLOWED_SCHEMAS)) then throw POSTMAN_V1
  else match postman_schema schemaId with
       | None => throw SCHEMA_NOT_FOUND
       | Some validate =>
           if validate collection then Ok tt else throw "The Postman Collection file is corrupted."
       end.

End validators.

(** ** Parsers *)

(** The file system as the parser sees it: existence, size and contents. *)
Record files : Type := mk_files {
  fs_exists : string -> bool;
  fs_size : string -> result js_error Z;
  fs_read : string -> result js_error string
}.

Record File : Type := mk_File {
  fl_content : string;
  fl_filename : string;
  fl_contentType : string
}.

Definition FILE_SIZE_LIMIT : Z := 500 * 1024 ^ 2.

Definition contentType (ext : string) : string :=
  if (ext === ".yml") || (ext === ".yaml") then "application/yaml" else "application/json".

Definition access (fs : files) (path : string) : result js_error unit :=
  _ ← ok (truthy path) "The path is invalid.";
  if fs_exists fs path then Ok tt else throw (basename path +:+ " file doesn't found.").

(** [BaseParser.parse]; [deserialize] gets the text and the extension. *)
Definition parse_file (deserialize : string -> string -> result js_error json)
    (validate : json -> result js_error unit) (fs : files) (path : string) : result js_error File :=
  _ ← access fs path;
  size ← fs_size fs path;
  if (FILE_SIZE_LIMIT <? size)%Z then throw "There is not enough storage space to save this file"
  else
    content ← fs_read fs path;
    let ext := extname path in
    match deserialize content ext with
    | Err e => throw ("File is invalid. " +:+ e_message e)
    | Ok data =>
        _ ← validate data;
        Ok (mk_File content (basename path) (contentType ext))
    end.

(** [BaseParser.deserialize] and that of [OasParser]. *)
Definition base_deserialize (file ext : string) : result js_error json := parse file.
Definition oas_deserialize (load_yaml : string -> result js_error json) (file ext : string) : result js_error json :=
  if (ext === ".yml") || (ext === ".yaml") then load_yaml file else parse file.

(** What the parsers are built from: the validators and the YAML parser. *)
Record validators : Type := mk_validators {
  va_har : json -> result js_error unit;
  va_oas : json -> result js_error unit;
  va_postman : json -> result js_error unit;
  va_yaml : string -> result js_error json
}.

(** [DefaultParserFactory.create]. *)
Definition create_parser (v : validators) (spec : option string) :
    result js_error (files -> string -> result js_error File) :=
  match spec with
  | Some t =>
      if t === "HAR" then Ok (parse_file base_deserialize (va_har v))
      else if t === "OpenAPI" then Ok (parse_file (oas_deserialize (va_yaml v)) (va_oas v))
      else if t === "Postman" then Ok (parse_file base_deserialize (va_postman v))
      else throw "Incorrect a specification type"
  | None => throw "Incorrect a specification type"
  end.

(** ** [RestArchives] *)

Record Spec : Type := mk_Spec {
  sp_file : File;
  sp_type : string;
  sp_discard : option bool;
  sp_projectId : option string;
  sp_headers : option (strmap string);
  sp_variables : option (strmap string)
}.

(** A part of the form: the file with its name and type, or a text. *)
Inductive part : Type :=
| FilePart (content filename type : string)
| TextPart (value : string).

Record UploadRequest : Type := mk_upload {
  up_path : string;
  up_discard : option bool;
  up_form : list (string * part)
}.

Definition ALLOWED_SPECS : list string := ["OpenAPI"; "Postman"; "HAR"].

(** What [FormData.append] makes of a missing value. *)
Definition form_string (v : option string) : string := v ?? "undefined".

Definition strings_json (m : option (strmap string)) : string :=
  stringify (JObj ((fun '(k, v) => (k, JStr v)) <$> (m ?? []))).

Definition upload (spec : Spec) : result js_error UploadRequest :=
  _ ← ok (bool_decide (sp_type spec ∈ ALLOWED_SPECS))
        ("Invalid specification type. Allowed: " +:+ join "," ALLOWED_SPECS);
  let f := sp_file spec in
  Ok (mk_upload "/api/v1/files" (sp_discard spec)
        [("file", FilePart (fl_content f) (fl_filename f) (fl_contentType f));
         ("projectId", TextPart (form_string (sp_projectId spec)));
         ("headers", TextPart (strings_json (sp_headers spec)));
         ("variables", TextPart (strings_json (sp_variables spec)))]).

(** The client of the archives has a timeout of its own when none is given. *)
Definition archives_options (o : RestOptions) : RestOptions :=
  mk_rest_options (ra_baseURL o) (ra_apiKey o) (Some (ra_timeout o ?? 10000%Z)) (ra_insecure o) (ra_proxyURL o).

(** ** The handler of archive:upload *)

Record UploadArgs : Type := mk_upload_args {
  ua_type : string;
  ua_discard : bool;
  ua_project : option string;
  ua_header : strmap string;
  ua_variable : strmap string;
  ua_file : string
}.

Definition UploadArchive_handler {UA : UrlApi} (v : validators) (fs : files)
    (post : ApiClient -> UploadRequest -> result js_error string) (c : ApiArgs) (a : UploadArgs) : outcome :=
  guarded "archive:upload"
    (client ← new_client (archives_options (rest_options c));
     let type := selectEnumValue SpecType (ua_type a) in
     parser ← create_parser v type;
     file ← parser fs (ua_file a);
     request ← upload (mk_Spec file (type ?? "undefined") (Some (ua_discard a)) (ua_project a)
                         (Some (ua_header a)) (Some (ua_variable a)));
     id ← post client request;
     Ok ([id], [])).

(** ** Properties *)

(** The request URL of an entry that counts: it parses, and has a host of the web. *)
Definition entry_url {UA : UrlApi} (entry : json) (url : string) : Prop :=
  exists request u, field "request" entry = Ok (Some request) /\ field "url" request = Ok (Some (JStr url)) /\
    new_URL url = Some u /\ u_host u <> "" /\ u_protocol u <> "" /\ u_protocol u <> "chrome-extension:".

Lemma parseEntry_Some {UA : UrlApi} entry url :
  parseEntry entry = Ok (Some url) <-> entry_url entry url.
Proof.
  unfold parseEntry, entry_url. split.
  - intros H. inv_bind H. destruct a as [request|]; [|done]. inv_bind H. destruct a as [[]|]; try done.
    destruct (new_URL s) as [u|] eqn:Hu; [|done]. destruct (truthy (u_host u)) eqn:Hh; [|done].
    destruct (truthy (u_protocol u)) eqn:Hp; [|done]. simpl in H. case_eqb.
    unfold truthy in *. rewrite negb_true_iff, eqb_false_iff in Hh, Hp.
    exists request, u. by split_and!.
  - intros (request & u & Hr & Hu & Hn & Hh & Hp & Hc). rewrite Hr. cbn [mbind result_bind]. rewrite Hu.
    cbn [mbind result_bind]. rewrite Hn. unfold truthy. by rewrite !eqb_neq.
Qed.

Lemma mapR_elem {E A B} (f : A -> result E B) l l' y :
  mapR f l = Ok l' -> y ∈ l' <-> exists x, x ∈ l /\ f x = Ok y.
Proof.
  revert l'. induction l as [|x l IH]; intros l' H; simpl in H.
  - apply Ok_inj in H as <-. split; [set_solver|]. intros (? & ? & _). set_solver.
  - inv_bind H. apply Ok_inj in H as <-. rewrite elem_of_cons, (IH _ Ha0). split.
    + intros [->|(z & Hz & Hf)]; [exists x|exists z]; set_solver.
    + intros (z & [->|Hz]%elem_of_cons & Hf); [left; congruence|right; eauto].
Qed.

Lemma remove_dups_nil {A} `{EqDecision A} (l : list A) : remove_dups l = [] <-> l = [].
Proof.
  split; [|by intros ->]. intros H. destruct l as [|x l]; [done|].
  assert (x ∈ remove_dups (x :: l)) as Hx by (apply elem_of_remove_dups; left). rewrite H in Hx. set_solver.
Qed.

(** C36: A HAR file is accepted exactly when it matches the schema, every entry's URL can be
    parsed, and at least one entry is a request to a host of the web. *)
Theorem har_accepts {UA : UrlApi} har_schema data log entries :
  field "log" data = Ok (Some log) -> field "entries" log = Ok (Some (JArr entries)) ->
  har_validate har_schema data = Ok tt <->
  har_schema data = true /\ (forall e, e ∈ entries -> is_ok (parseEntry e) = true) /\
  exists e url, e ∈ entries /\ url <> "" /\ entry_url e url.
Proof.
  intros Hl He. unfold har_validate. destruct (har_schema data); simpl; [|split; [done|by intros (? & _)]].
  rewrite Hl. cbn [mbind result_bind]. rewrite He. cbn [mbind result_bind entriesAreValid].
  assert (is_ok (mapR parseEntry entries) = true <-> forall e, e ∈ entries -> is_ok (parseEntry e) = true) as Hall.
  { clear. induction entries as [|e entries IH]; simpl; [split; [intros _ e; set_solver|done]|].
    destruct (parseEntry e) as [x|x] eqn:Hx; simpl.
    - destruct (mapR parseEntry entries) as [y|y]; simpl in *; split.
      + intros _ e' [->|]%elem_of_cons; [by rewrite Hx|]. by apply IH.
      + done.
      + done.
      + intros H. apply IH. intros. apply H. set_solver.
    - split; [done|]. intros H. specialize (H e). rewrite Hx in H. apply H. left. }
  rewrite <- Hall. destruct (mapR parseEntry entries) as [urls|x] eqn:Hm; simpl; [|split; [done|by intros (_ & ? & _)]].
  set (urls' := List.filter (fun u => truthy_opt u) urls).
  assert ((exists e url, e ∈ entries /\ url <> "" /\ entry_url e url) <-> urls' <> []) as ->.
  { split.
    - intros (e & url & He' & Hne & Hu). assert (Some url ∈ urls') as Hin.
      { apply list_elem_of_In, List.filter_In. rewrite <- list_elem_of_In. split.
        - apply (mapR_elem _ _ _ _ Hm). exists e. by rewrite parseEntry_Some.
        - simpl. unfold truthy. by rewrite eqb_neq. }
      intros Hn. rewrite Hn in Hin. set_solver.
    - intros Hn. destruct urls' as [|[url|] l] eqn:Hu'; [done| |].
      + assert (Some url ∈ urls') as Hin by (rewrite Hu'; left). unfold urls' in Hin.
        apply list_elem_of_In, List.filter_In in Hin as [Hin Ht]. simpl in Ht.
        unfold truthy in Ht. rewrite negb_true_iff, eqb_false_iff in Ht.
        apply list_elem_of_In, (mapR_elem _ _ _ _ Hm) in Hin as (e & Hee & Hp). apply parseEntry_Some in Hp. eauto.
      + assert (None ∈ urls') as Hin by (rewrite Hu'; left). unfold urls' in Hin.
        by apply list_elem_of_In, List.filter_In in Hin as [_ Hin]. }
  destruct (length (remove_dups urls') =? 0)%nat eqn:Hz; simpl.
  - apply Nat.eqb_eq, nil_length_inv in Hz. rewrite remove_dups_nil in Hz. split; [done|].
    intros (_ & _ & Hn). by apply Hn in Hz.
  - split; [|done]. intros _. split_and!; [done..|]. intros Hn. rewrite Hn in Hz. done.
Qed.

Definition one_url : UrlApi := fun s =>
  if s === "http://a.com/" then Some (mk_URL "http:" "a.com" "a.com" "") else None.
Definition sample_entry : json := JObj [("request", JObj [("url", JStr "http://a.com/")])].

Lemma har_accepts_witness :
  har_validate (UA := one_url) (fun _ => true) (JObj [("log", JObj [("entries", JArr [sample_entry])])]) = Ok tt.
Proof.
  apply (har_accepts (UA := one_url) (fun _ => true) (JObj [("log", JObj [("entries", JArr [sample_entry])])])
    (JObj [("entries", JArr [sample_entry])]) [sample_entry]); [reflexivity..|].
  split_and!; [reflexivity| |].
  - intros e ->%list_elem_of_singleton. reflexivity.
  - exists sample_entry, "http://a.com/". split_and!; [left|done|].
    exists (JObj [("url", JStr "http://a.com/")]), (mk_URL "http:" "a.com" "a.com" ""). by split_and!.
Defined.

(** A specification of an old version is never told so: when the major version is neither 2
    nor 3 the validation ends in the failure of the schema lookup, before the check that has the
    message about Swagger v1 is reached; that check can only refuse versions whose major version
    is 2 or 3. *)
Theorem swagger_v1_message (oas_schema : string -> json -> bool) semver_valid semver_major semver_gte spec version major :
  getVersion semver_valid spec = Ok version -> semver_major version = Ok major ->
  (major <> 2%Z -> major <> 3%Z ->
     oas_validate oas_schema semver_valid semver_major semver_gte spec = Err (AssertionError SCHEMA_NOT_FOUND)) /\
  (oas_validate oas_schema semver_valid semver_major semver_gte spec = Err (new_Error SWAGGER_V1) ->
     major = 2%Z \/ major = 3%Z).
Proof.
  intros Hv Hm. unfold oas_validate. rewrite Hv. cbn [mbind result_bind]. rewrite Hm. cbn [mbind result_bind].
  unfold VERSION_SCHEMA_MAP. split.
  - intros H2 H3. by rewrite (proj2 (Z.eqb_neq _ _) H2), (proj2 (Z.eqb_neq _ _) H3).
  - destruct (Z.eqb_spec major 2); [by left|]. destruct (Z.eqb_spec major 3); [by right|]. done.
Qed.

Lemma swagger_v1_message_witness :
  oas_validate (fun _ _ => true) (fun _ => true) (fun _ => Ok 1%Z) (fun _ _ => Ok false)
    (JObj [("swagger", JStr "1.2.0")]) = Err (AssertionError SCHEMA_NOT_FOUND).
Proof.
  apply (swagger_v1_message (fun _ _ => true) (fun _ => true) (fun _ => Ok 1%Z) (fun _ _ => Ok false)
    (JObj [("swagger", JStr "1.2.0")]) "1.2.0" 1 eq_refl eq_refl); lia.
Defined.

(** A version that YAML reads as a number has no [trim]. *)
Lemma numeric_version_throws semver_valid :
  is_ok (getVersion semver_valid (JObj [("swagger", JNum "2")])) = false.
Proof. reflexivity. Qed.

(** ** Properties of archive:upload *)

(** Every type the option accepts has a parser. *)
Lemma upload_types v t : t ∈ (toLowerCase <$> SpecType_values) ->
  exists type parser, selectEnumValue SpecType t = Some type /\ type ∈ ALLOWED_SPECS /\
    create_parser v (Some type) = Ok parser.
Proof.
  intros Ht. simpl in Ht.
  repeat (apply elem_of_cons in Ht as [->|Ht]; [eexists _, _; split; [vm_compute; reflexivity|]|]).
  4: set_solver.
  all: split; [|reflexivity]; apply (bool_decide_unpack _); vm_compute; done.
Qed.

Lemma parse_file_Ok deserialize validate fs path f :
  parse_file deserialize validate fs path = Ok f ->
  exists content data size, fs_exists fs path = true /\ fs_size fs path = Ok size /\ (size <= FILE_SIZE_LIMIT)%Z /\
    fs_read fs path = Ok content /\ deserialize content (extname path) = Ok data /\ validate data = Ok tt /\
    f = mk_File content (basename path) (contentType (extname path)).
Proof.
  unfold parse_file, access. intros H. inv_bind H. destruct (fs_exists fs path) eqn:He; [|by inv_bind Ha].
  destruct (Z.ltb_spec FILE_SIZE_LIMIT a0); [done|]. inv_bind H.
  destruct (deserialize a1 (extname path)) as [data|e] eqn:Hd; [|done]. inv_bind H.
  apply Ok_inj in H as <-. destruct a2. eauto 12.
Qed.

Lemma strings_json_roundtrip (m : strmap string) : OMap.wf m ->
  parse (strings_json (Some m)) = Ok (JObj ((fun '(k, v) => (k, JStr v)) <$> m)).
Proof.
  intros Hm. unfold strings_json. cbn [nullish]. rewrite parse_stringify; [done|].
  replace ((fun '(k, v) => (k, JStr v)) <$> m) with (prod_map id JStr <$> m) by (apply list_fmap_ext; by intros i []).
  by apply printable_strings.
Qed.

(** C37: archive:upload sends what it checked: when the command ends with exit code 0, the type
    of the option was recognised, the file was within the size limit and its parsed contents
    passed the validator of that type, and the one request posted carries the file's text
    unchanged under its base name, with headers and variables that read back as given; its id
    is printed. *)
Theorem upload_sends_checked {UA : UrlApi} v fs post c a :
  OMap.wf (ua_header a) -> OMap.wf (ua_variable a) ->
  oc_code (UploadArchive_handler v fs post c a) = Some 0%Z ->
  exists type content data size client request id,
    selectEnumValue SpecType (ua_type a) = Some type /\
    fs_size fs (ua_file a) = Ok size /\ (size <= FILE_SIZE_LIMIT)%Z /\ fs_read fs (ua_file a) = Ok content /\
    ((type = "HAR" /\ parse content = Ok data /\ va_har v data = Ok tt) \/
     (type = "OpenAPI" /\ oas_deserialize (va_yaml v) content (extname (ua_file a)) = Ok data /\ va_oas v data = Ok tt) \/
     (type = "Postman" /\ parse content = Ok data /\ va_postman v data = Ok tt)) /\
    post client request = Ok id /\ oc_stdout (UploadArchive_handler v fs post c a) = [id] /\
    OMap.get "file" (up_form request) =
      Some (FilePart content (basename (ua_file a)) (contentType (extname (ua_file a)))) /\
    (exists h w, OMap.get "headers" (up_form request) = Some (TextPart h) /\
       parse h = Ok (JObj ((fun '(k, x) => (k, JStr x)) <$> ua_header a)) /\
       OMap.get "variables" (up_form request) = Some (TextPart w) /\
       parse w = Ok (JObj ((fun '(k, x) => (k, JStr x)) <$> ua_variable a))).
Proof.
  intros Hh Hv. unfold UploadArchive_handler, guarded.
  match goal with |- context [match ?b with Ok _ => _ | Err _ => _ end] => destruct b as [[out warns]|e] eqn:Hb end; [|done].
  intros _. inv_bind Hb. apply Ok_inj in Hb as [= <- <-].
  unfold upload in Ha2. inv_bind Ha2. apply Ok_inj in Ha2 as <-.
  destruct (selectEnumValue SpecType (ua_type a)) as [type|] eqn:Ht; [|done].
  assert (exists deserialize validate, a1 = parse_file deserialize validate /\
    ((type = "HAR" /\ deserialize = base_deserialize /\ validate = va_har v) \/
     (type = "OpenAPI" /\ deserialize = oas_deserialize (va_yaml v) /\ validate = va_oas v) \/
     (type = "Postman" /\ deserialize = base_deserialize /\ validate = va_postman v))) as (des & val & -> & Hty).
  { unfold create_parser in Ha0. repeat case_eqb; try (apply Ok_inj in Ha0 as <-); try done;
      eexists _, _; (split; [done|]); auto. }
  apply parse_file_Ok in Ha1 as (content & data & size & _ & Hs & Hle & Hr & Hd & Hval & ->).
  eexists type, content, data, size, _, _, a4. split_and!; [done..| |exact Ha3|done|done|].
  - destruct Hty as [(-> & -> & ->)|[(-> & -> & ->)|(-> & -> & ->)]]; auto.
  - eexists _, _. split_and!; [reflexivity| |reflexivity|]; cbn [sp_headers sp_variables]; by apply strings_json_roundtrip.
Qed.

Definition sample_files : files :=
  mk_files (fun _ => true) (fun _ => Ok 100%Z) (fun _ => Ok "{}").
Definition lenient : validators :=
  mk_validators (fun _ => Ok tt) (fun _ => Ok tt) (fun _ => Ok tt) (fun _ => Err SyntaxError).

Lemma upload_sends_checked_witness :
  exists type content, selectEnumValue SpecType "har" = Some type /\ fs_read sample_files "dir/app.har" = Ok content.
Proof.
  destruct (upload_sends_checked (UA := one_url) lenient sample_files (fun _ _ => Ok "id")
    (mk_api_args "https://app.brightsec.com" "t" None false None None)
    (mk_upload_args "har" true None [] [] "dir/app.har"))
    as (type & content & data & size & client & request & id & H1 & _ & _ & H2 & _).
  - apply wf_nil.
  - apply wf_nil.
  - vm_compute. reflexivity.
  - by exists type, content.
Defined.

(** The project of an upload is optional on the command line but never in the request:
    without it every upload names the project with the text of a missing value. *)
Theorem upload_undefined_project spec request :
  sp_projectId spec = None -> upload spec = Ok request ->
  OMap.get "projectId" (up_form request) = Some (TextPart "undefined").
Proof. unfold upload. intros Hp H. inv_bind H. apply Ok_inj in H as <-. simpl. by rewrite Hp. Qed.

Lemma upload_undefined_project_witness :
  exists request, upload (mk_Spec (mk_File "{}" "a.har" "application/json") "HAR" None None None None) = Ok request /\
    OMap.get "projectId" (up_form request) = Some (TextPart "undefined").
Proof.
  eexists. split; [reflexivity|].
  apply (upload_undefined_project (mk_Spec (mk_File "{}" "a.har" "application/json") "HAR" None None None None));
    reflexivity.
Defined.
