(* ===== verification/Wizard.v ===== *)
(** * The configuration wizard

    Models src/src/Wizard (FSTokens, Credentials, the connectivity tests and their analyzer,
    ReadlinePlatform) and src/src/Commands/Configure.ts.  The answers typed by the user, the
    outcomes of network requests and the files are inputs; what is printed is a list of
    lines, without the questions and the line breaks written around them; reading and writing
    a file does not fail. *)
From stdpp Require Import pretty.
From S2P Require Import CommandHub.
From S2P Require Import Traceroute.
From S2P Require Import Prelude Json Helpers Utils Config Commands.

(** [TestType]. *)
Inductive TestType : Type := HTTP | AUTH | TRACEROUTE.
#[export] Instance TestType_eq_dec : EqDecision TestType.
Proof. solve_decision. Defined.
Definition TestType_value (t : TestType) : string :=
  match t with HTTP => "http" | AUTH => "auth" | TRACEROUTE => "traceroute" end.

(** ** Credentials and tokens *)

Record Credentials : Type := mk_Credentials { repeaterId : string; authToken : string }.

(** The pattern of an API token: seven characters, a dot, nexa or nexp, a dot, 32 characters. *)
Definition base64_char (c : ascii) : bool :=
  let n := code c in
  ((65 <=? n) && (n <=? 90) || (97 <=? n) && (n <=? 122) || (48 <=? n) && (n <=? 57)
   || (n =? 43) || (n =? 47) || (n =? 61))%N.
Fixpoint match_pattern (ps : list (ascii -> bool)) (s : string) : bool :=
  match ps, s with
  | [], "" => true
  | p :: ps, String c s => p c && match_pattern ps s
  | _, _ => false
  end.
Definition exactly (c : ascii) : ascii -> bool := fun d => d === c.
Definition AUTH_TOKEN_VALIDATION_REGEXP : string -> bool :=
  match_pattern (replicate 7 base64_char ++
    [exactly "."; exactly "n"; exactly "e"; exactly "x"; (fun c => (c === "a"%char) || (c === "p"%char)); exactly "."] ++
    replicate 32 base64_char).

(** Files by path, and the two places of the token file. *)
Abbreviation disk := (strmap string).
Definition join_path (dir name : string) : string := dir +:+ "/" +:+ name.
Definition token_path (home : string) : string := join_path home ".bright-cli".
Definition legacy_path (home : string) : string := join_path home ".nexploit-cli".

Definition credentials_json (c : Credentials) : json :=
  JObj [("repeaterId", JStr (repeaterId c)); ("authToken", JStr (authToken c))].

Definition writeTokens (home : string) (c : Credentials) (fs : disk) : disk :=
  OMap.set (token_path home) (stringify (credentials_json c)) fs.

(** [readTokens]: the first of the two files that exists; [None] is undefined. *)
Definition readTokens (home : string) (fs : disk) : result js_error (option json) :=
  match OMap.get (token_path home) fs with
  | Some text => Some <$> parse text
  | None =>
      match OMap.get (legacy_path home) fs with
      | Some text => Some <$> parse text
      | None => Ok None
      end
  end.

(** ** Connectivity tests *)

(** A property of what [readTokens] gave, as a template literal prints it. *)
Definition show (v : option json) : string :=
  match v with
  | None => "undefined"
  | Some (JStr s) => s
  | Some v => stringify v
  end.

(** What is tested: a URL, or the host typed for a trace. *)
Inductive target : Type := AtUrl (u : URL) | AtHost (s : string).

(** The outside world of a session: whether a request gets a response, the GET of axios
    (address and [Authorization] header to the body of the reply), [URL.toString], [resolve]
    of node:url, and what awaiting a trace gives. *)
Record network : Type := mk_network {
  nw_http : URL -> result js_error unit;
  nw_get : string -> string -> result js_error json;
  nw_href : URL -> string;
  nw_resolve : string -> string -> string;
  nw_trace : Traceroute.Options -> option target -> result js_error bool
}.

Record TracerouteOptions : Type := mk_TracerouteOptions { to_maxTTL : option Z; to_probes : option Z }.

Section connectivity.
Context (home : string) (nw : network).

Definition target_text (t : target) : string :=
  match t with AtUrl u => nw_href nw u | AtHost s => s end.

(** [AuthConnectivity.test]: reading the tokens happens outside the try, all else inside. *)
Definition auth_test (fs : disk) (url : option target) : result js_error bool :=
  tokens ← readTokens home fs;
  match tokens with
  | None | Some JNull => Err (TypeError "Cannot destructure property 'repeaterId' of undefined")
  | Some tokens =>
      let repeaterId := optional_field "repeaterId" (Some tokens) in
      let authToken := optional_field "authToken" (Some tokens) in
      let reply := match url with
                   | Some url => nw_get nw (nw_resolve nw (target_text url) ("/api/v1/repeaters/" +:+ show repeaterId))
                                   ("api-key " +:+ show authToken)
                   | None => Err (TypeError "Cannot read properties of undefined (reading 'toString')")
                   end in
      match reply ≫= field "id" with
      | Err _ => Ok false
      | Ok id =>
          Ok (match id, repeaterId with
              | Some a, Some b => same_value a b
              | None, None => true
              | _, _ => false
              end)
      end
  end.

(** [HTTPConnectivity.test]: any response counts; without a URL of a known protocol there is no
    factory to call. *)
Definition http_test (url : option target) : result js_error bool :=
  match url with
  | Some (AtUrl u) =>
      if bool_decide (u_protocol u ∈ ["http:"; "https:"])
      then Ok (is_ok (nw_http nw u))
      else Err (TypeError "Cannot read properties of undefined (reading 'request')")
  | Some (AtHost _) => Err (TypeError "Cannot read properties of undefined (reading 'request')")
  | None => Err (TypeError "Cannot destructure property 'port' of 'undefined'")
  end.

(** [TracerouteConnectivity.test]: the options of the trace, and its result, false on an error. *)
Definition trace_options (opt : option TracerouteOptions) : Traceroute.Options :=
  Traceroute.new_options (Traceroute.mk_Partial (opt ≫= to_probes) (opt ≫= to_maxTTL) None None None None).

Definition traceroute_test (opt : option TracerouteOptions) (t : option target) : result js_error bool :=
  match nw_trace nw (trace_options opt) t with
  | Ok reached => Ok reached
  | Err _ => Ok false
  end.

(** The three tests, in the order of their registration. *)
Definition connectivityTestRegistry (fs : disk) (opt : option TracerouteOptions) :
    list (TestType * (option target -> result js_error bool)) :=
  [(HTTP, http_test); (TRACEROUTE, traceroute_test opt); (AUTH, auth_test fs)].

(** [DefaultConnectivityAnalyzer.verifyAccess]: the registered test of the type, on the target
    or on the address configured for the type. *)
Definition verifyAccess (registry : list (TestType * (option target -> result js_error bool)))
    (urls : TestType -> option URL) (type : TestType) (t : option target) : result js_error bool :=
  match List.find (fun x => x.1 === type) registry with
  | None => throw "Selected test is not support."
  | Some (_, test) => test (t ??? (AtUrl <$> urls type))
  end.

End connectivity.

(** ** [ReadlinePlatform] *)

Definition INTERNAL_DIAGNOSTIC : string := "Starting INTERNAL communication diagnostics:".
Definition delimiter : string := "--".

(** [process]: an exception of the handler counts as a failure. *)
Definition process (text : string) (r : result js_error bool) : string :=
  text +:+ "... " +:+ (match r with Ok true => "Success" | _ => "Failed" end).

(** [getDelimitedInput(value, ',')]. *)
Definition getDelimitedInput (value : option string) : list string :=
  let inputVal := trim (value ?? "") in
  if truthy inputVal then List.filter truthy (trim <$> split_char "," inputVal) else [].

(** [requestTokens]: what is printed, and the disk afterwards. *)
Definition requestTokens (home : string) (repeaterId authToken : string) (fs : disk) : list string * disk :=
  if negb (truthy authToken) || negb (AUTH_TOKEN_VALIDATION_REGEXP authToken)
  then (["Invalid value for authentication token"], fs)
  else if negb (truthy repeaterId) then (["Invalid value for repeater id"], fs)
  else ([], writeTokens home (mk_Credentials repeaterId authToken) fs).

(** What the user types. *)
Record answers : Type := mk_answers {
  an_repeaterId : string;
  an_authToken : string;
  an_urls : string;
  an_target : string
}.

(** The handler of one URL in [processPing]; a text that is no URL throws in it. *)
Definition ping_test {UA : UrlApi} (verify : target -> result js_error bool) (url : string) : result js_error bool :=
  match new_URL url with
  | Some u => verify (AtUrl u)
  | None => Err (TypeError "Invalid URL")
  end.

(** The tests finish in some order, [finishing]; each counts when it finishes. *)
Definition processPing {UA : UrlApi} (verify : target -> result js_error bool)
    (finishing : list string -> list string) (answer : string) : list string :=
  let urls := getDelimitedInput (Some answer) in
  let '(lines, reachedCount) :=
    foldl (fun '(lines, n) url =>
      let r := ping_test verify url in
      (lines ++ [process ("Trying to reach " +:+ url) r],
       (n + match r with Ok true => 1 | _ => 0 end)%Z)) ([], 0%Z) (finishing urls) in
  ["Next step is to validate the connection to your INTERNAL (local) target application(s).";
   delimiter; INTERNAL_DIAGNOSTIC] ++ lines ++
  ["INTERNAL communication diagnostics completed.";
   pretty (Z.of_nat (length urls) - reachedCount)%Z +:+ " out of " +:+ pretty (Z.of_nat (length urls))
     +:+ " URLs could not be reached."].

Section platform.
Context {UA : UrlApi} (home : string) (nw : network) (finishing : list string -> list string).
(** The addresses of the two external tests, and the options of the trace. *)
Context (http_url auth_url : URL) (opt : option TracerouteOptions) (win32 : bool).

Definition urls_get (type : TestType) : option URL :=
  match type with HTTP => Some http_url | AUTH => Some auth_url | TRACEROUTE => None end.
Definition verify (fs : disk) (type : TestType) (t : option target) : result js_error bool :=
  verifyAccess (connectivityTestRegistry home nw fs opt) urls_get type t.

Definition processConnectivity (fs : disk) (type : TestType) (url : URL) : string :=
  process ("Validating the " +:+ TestType_value type +:+ " connection to " +:+ nw_href nw url)
    (verify fs type (Some (AtUrl url))).

Definition processExternalCommunication (fs : disk) : list string :=
  ["Starting EXTERNAL communication diagnostics:";
   processConnectivity fs HTTP http_url;
   process "Verifying provided Token and Repeater ID" (verify fs AUTH None);
   "EXTERNAL communication diagnostics completed."].

Definition processTraceroute (fs : disk) (answer : string) : result js_error (list string) :=
  reached ← verify fs TRACEROUTE (Some (AtHost answer));
  Ok (["Traceroute to your INTERNAL (local) target application."] ++
      (if win32 then ["Note: Some Windows users might need to allow the ICMP network traffic through a firewall"] else []) ++
      [delimiter; INTERNAL_DIAGNOSTIC; "Traceroute " +:+ (if reached : bool then "completed" else "failed") +:+ "."]).

Definition configure (ping : bool) (a : answers) (fs : disk) : list string * disk :=
  let '(before, fs) :=
    if ping then ([], fs)
    else
      let '(messages, fs) := requestTokens home (an_repeaterId a) (an_authToken a) fs in
      (["Welcome to the Bright Network Testing wizard!";
        "Note: To run the test, you will require a `Repeater ID` and an `Repeater Token` with the correct scopes.";
        "If you are running the configuration as part of a POC, both of these should have been sent to you via your sales contact."]
       ++ messages ++ [delimiter] ++ processExternalCommunication fs ++ [delimiter], fs) in
  (before ++ processPing (fun t : target => verify fs HTTP (Some t)) finishing (an_urls a), fs).

Definition start (ping traceroute : bool) (a : answers) (fs : disk) : result js_error (list string * disk) :=
  '(lines, fs) ← (if traceroute then lines ← processTraceroute fs (an_target a); Ok (lines, fs)
                  else Ok (configure ping a fs));
  Ok (lines ++ [delimiter; COMPELED_MESSAGE], fs).

End platform.

(** The readline interface of the session, closed by [stop]. *)
Record console : Type := mk_console { rl_open : bool; rl_exitCode : option Z }.
Definition stop (c : console) : console := mk_console false (rl_exitCode c).

(** ** The configure command *)

Definition getMapEntryOrThrow {UA : UrlApi} (type : TestType) (input : string) : result js_error (TestType * URL) :=
  match new_URL input with
  | Some u => Ok (type, u)
  | None => throw ("Invalid value for " +:+ TestType_value type +:+ " testing endpoint")
  end.

(** The middleware: the addresses of the two tests default to that of the API. *)
Definition connectivity_urls {UA : UrlApi} (http auth : option string) (api : string) :
    result js_error (list (TestType * URL)) :=
  h ← getMapEntryOrThrow HTTP (http ?? api);
  a ← getMapEntryOrThrow AUTH (auth ?? api);
  Ok [h; a].

(** The options of a trace: what is no number is left to the defaults of [Traceroute]. *)
Definition connectivity_options (maxTtl probes : option Z) : option TracerouteOptions :=
  Some (mk_TracerouteOptions maxTtl probes).

(** The handler: what is printed and the disk, or the message before exit code 1. *)
Definition configure_handler (run : result js_error (list string * disk)) : (list string * disk) + (string * Z) :=
  match run with
  | Ok r => inl r
  | Err e => inr (genericCommandError (ForCommand "configure" (TError e)), 1%Z)
  end.

(** The signals the handler listens to stop the platform and end the process. *)
Definition on_stop_signal (signal : string) (c : console) : console :=
  if bool_decide (signal ∈ ["SIGTERM"; "SIGINT"; "SIGHUP"])
  then mk_console (rl_open (stop c)) (Some 0%Z) else c.

(** ** Properties *)

Lemma paths_differ home : token_path home <> legacy_path home.
Proof.
  unfold token_path, legacy_path, join_path. intros H.
  induction home as [|c home IH]; [done|]. rewrite !app_str_cons in H. injection H. exact IH.
Qed.

Lemma read_write home c fs : readTokens home (writeTokens home c fs) = Ok (Some (credentials_json c)).
Proof.
  unfold readTokens, writeTokens. rewrite get_set_eq. by rewrite parse_stringify by reflexivity.
Qed.

(** Every session that is not interrupted ends with the closing message: no failure of a
    request, of a trace or of the tokens on disk reaches the handler. *)
Lemma session_completes {UA : UrlApi} home nw finishing http_url auth_url opt win32 ping traceroute a fs :
  exists lines fs', configure_handler
      (start home nw finishing http_url auth_url opt win32 ping traceroute a fs) =
    inl (lines ++ [delimiter; COMPELED_MESSAGE], fs').
Proof.
  unfold start. destruct traceroute.
  - assert (exists lines, processTraceroute home nw http_url auth_url opt win32 fs (an_target a) = Ok lines)
      as [lines ->]; [|by exists lines, fs].
    unfold processTraceroute. change (verify _ _ _ _ _ _ TRACEROUTE _) with (traceroute_test nw opt (Some (AtHost (an_target a)))).
    unfold traceroute_test. by destruct (nw_trace _ _ _); eexists.
  - destruct (configure _ _ _ _ _ _ _ _ _) as [lines fs']. by exists lines, fs'.
Qed.

(** What the authentication test asks the service when the disk holds these credentials. *)
Definition auth_reply (nw : network) (url : target) (c : Credentials) : result js_error json :=
  nw_get nw (nw_resolve nw (target_text nw url) ("/api/v1/repeaters/" +:+ repeaterId c)) ("api-key " +:+ authToken c).

Lemma auth_test_asks home nw fs url c :
  readTokens home fs = Ok (Some (credentials_json c)) ->
  auth_test home nw fs (Some url) =
  Ok (match auth_reply nw url c with
      | Ok data => match field "id" data with Ok (Some v) => same_value v (JStr (repeaterId c)) | _ => false end
      | Err _ => false
      end).
Proof.
  intros Hr. unfold auth_test. rewrite Hr. cbn [mbind result_bind].
  change (optional_field "repeaterId" (Some (credentials_json c))) with (Some (JStr (repeaterId c))).
  change (optional_field "authToken" (Some (credentials_json c))) with (Some (JStr (authToken c))).
  cbn [show credentials_json]. unfold auth_reply.
  destruct (nw_get _ _ _) as [data|e]; [|done]. simpl. destruct (field "id" data) as [[v|]|e]; done.
Qed.

(** C40: The wizard remembers exactly valid credentials: valid answers are written so that they
    read back, the legacy file notwithstanding, no other file is touched, and the
    authentication test then succeeds exactly when the service, asked for that repeater with
    that token, replies with that repeater; invalid answers change nothing on disk. *)
Theorem tokens_roundtrip home nw id token fs url :
  let '(messages, fs') := requestTokens home id token fs in
  let c := mk_Credentials id token in
  if truthy token && AUTH_TOKEN_VALIDATION_REGEXP token && truthy id
  then messages = [] /\ readTokens home fs' = Ok (Some (credentials_json c)) /\
    (forall path, path <> token_path home -> OMap.get path fs' = OMap.get path fs) /\
    (auth_test home nw fs' (Some url) = Ok true <->
       exists data v, auth_reply nw url c = Ok data /\ field "id" data = Ok (Some v) /\ same_value v (JStr id) = true)
  else messages <> [] /\ fs' = fs.
Proof.
  unfold requestTokens. destruct (truthy token); simpl; [|done].
  destruct (AUTH_TOKEN_VALIDATION_REGEXP token); simpl; [|done]. destruct (truthy id); simpl; [|done].
  pose proof (read_write home (mk_Credentials id token) fs) as Hrw. split_and!; [done..| |].
  - intros path Hp. unfold writeTokens. by apply get_set_ne.
  - rewrite (auth_test_asks _ _ _ _ _ Hrw). cbn [repeaterId]. split.
    + intros [= Hok]. destruct (auth_reply _ _ _) as [data|]; [|done].
      destruct (field "id" data) as [[v|]|] eqn:Hf; try done. eauto.
    + intros (data & v & -> & -> & ->). done.
Qed.

(** Refused answers are not what gets verified: when the answers are invalid but an earlier
    session left credentials on disk, the wizard goes on and the line about the provided token and
    repeater reports on the old ones, so that it can say Success for answers it refused. *)
Theorem stale_tokens_verified {UA : UrlApi} home nw finishing http_url auth_url opt a fs c data :
  truthy (an_authToken a) && AUTH_TOKEN_VALIDATION_REGEXP (an_authToken a) && truthy (an_repeaterId a) = false ->
  readTokens home fs = Ok (Some (credentials_json c)) ->
  auth_reply nw (AtUrl auth_url) c = Ok data ->
  field "id" data = Ok (Some (JStr (repeaterId c))) ->
  process "Verifying provided Token and Repeater ID" (Ok true) ∈
    (configure home nw finishing http_url auth_url opt false a fs).1.
Proof.
  intros Hinv Hr Hg Hf. unfold configure.
  assert (exists m, requestTokens home (an_repeaterId a) (an_authToken a) fs = (m, fs)) as [m ->].
  { unfold requestTokens. destruct (truthy (an_authToken a)); simpl in *; [|by eexists].
    destruct (AUTH_TOKEN_VALIDATION_REGEXP (an_authToken a)); simpl in *; [|by eexists].
    rewrite Hinv. by eexists. }
  assert (verify home nw http_url auth_url opt fs AUTH None = Ok true) as Hv.
  { change (verify home nw http_url auth_url opt fs AUTH None) with (auth_test home nw fs (Some (AtUrl auth_url))).
    rewrite (auth_test_asks _ _ _ _ _ Hr), Hg, Hf.
    by rewrite same_value_str, eqb_refl. }
  unfold processExternalCommunication. rewrite Hv. cbn [fst]. rewrite !elem_of_app, !elem_of_cons. tauto.
Qed.

(** The count of reached URLs does not depend on the order in which the tests finish. *)
Definition reaches {UA : UrlApi} (verify : target -> result js_error bool) (url : string) : bool :=
  match ping_test verify url with Ok true => true | _ => false end.

Lemma ping_fold {UA : UrlApi} verify l lines n :
  foldl (fun '(lines, n) url =>
      let r := ping_test verify url in
      (lines ++ [process ("Trying to reach " +:+ url) r],
       (n + match r with Ok true => 1 | _ => 0 end)%Z)) (lines, n) l =
  (lines ++ ((fun url => process ("Trying to reach " +:+ url) (ping_test verify url)) <$> l),
   (n + Z.of_nat (length (List.filter (reaches verify) l)))%Z).
Proof.
  revert lines n. induction l as [|url l IH]; intros lines n; simpl.
  { by rewrite app_nil_r, Z.add_0_r. }
  rewrite IH, <- (assoc_L (++)). unfold reaches at 2.
  destruct (ping_test verify url) as [[]|]; simpl; f_equal; lia.
Qed.

Lemma filter_length_perm {A} (f : A -> bool) l l' :
  l ≡ₚ l' -> length (List.filter f l) = length (List.filter f l').
Proof.
  induction 1 as [|x l1 l2 _ IH|x y l|]; simpl; [done| | |congruence].
  - destruct (f x); simpl; congruence.
  - by destruct (f x), (f y).
Qed.

Lemma filter_length_split {A} (f : A -> bool) l :
  length l = length (List.filter f l) + length (List.filter (fun x => negb (f x)) l).
Proof. induction l as [|x l IH]; [done|]. simpl. destruct (f x); simpl; lia. Qed.

(** The ping report is right whatever finishes first: for every order of completion, each
    URL of the answer has exactly one line that says whether it was reached, a text that is
    no URL counting as not reached, and the last line gives the number of those that were
    not. *)
Theorem ping_report {UA : UrlApi} verify finishing answer :
  let urls := getDelimitedInput (Some answer) in
  finishing urls ≡ₚ urls ->
  exists lines, processPing verify finishing answer =
    ["Next step is to validate the connection to your INTERNAL (local) target application(s).";
     delimiter; INTERNAL_DIAGNOSTIC] ++ lines ++
    ["INTERNAL communication diagnostics completed.";
     pretty (Z.of_nat (length (List.filter (fun u => negb (reaches verify u)) urls))) +:+ " out of " +:+
       pretty (Z.of_nat (length urls)) +:+ " URLs could not be reached."] /\
    lines ≡ₚ ((fun url => "Trying to reach " +:+ url +:+ "... " +:+
                 (if reaches verify url then "Success" else "Failed")) <$> urls).
Proof.
  intros urls Hp. unfold processPing. fold urls. rewrite ping_fold. cbn [app].
  eexists. split.
  - do 4 f_equal. f_equal. f_equal. rewrite (filter_length_perm _ _ _ Hp), Z.add_0_l.
    rewrite (filter_length_split (reaches verify) urls) at 1. do 2 f_equal. lia.
  - rewrite Hp. apply Permutation_refl'. apply list_fmap_ext. intros i url _. unfold process, reaches.
    rewrite <- !app_str_assoc. do 2 f_equal. by destruct (ping_test verify url) as [[]|].
Qed.

(** A session on a machine where an earlier run left credentials, and a service that knows the
    repeater; the answers typed now are refused. *)
Definition some_url : URL := mk_URL "https:" "app.brightsec.com" "app.brightsec.com" "".
Definition old_credentials : Credentials := mk_Credentials "old-repeater" "old-token".
Definition a_network : network :=
  mk_network (fun _ => Ok tt) (fun _ _ => Ok (JObj [("id", JStr "old-repeater")])) (fun _ => "https://app.brightsec.com/")
    (fun _ path => "https://app.brightsec.com" +:+ path) (fun _ _ => Ok true).

Lemma stale_tokens_verified_witness :
  process "Verifying provided Token and Repeater ID" (Ok true) ∈
    (configure (UA := fun _ => None) "/home" a_network id some_url some_url None false
       (mk_answers "mine" "not a token" "" "") (writeTokens "/home" old_credentials [])).1.
Proof.
  apply (@stale_tokens_verified (fun _ => None) "/home" a_network id some_url some_url None
           (mk_answers "mine" "not a token" "" "") (writeTokens "/home" old_credentials [])
           old_credentials (JObj [("id", JStr "old-repeater")])); [vm_compute; reflexivity..].
Defined.

Lemma ping_report_witness :
  let UA : UrlApi := fun s => if s === "https://a" then Some some_url else None in
  exists lines, processPing (UA := UA) (fun t => http_test a_network (Some t)) (@rev string) "https://a, b" =
    ["Next step is to validate the connection to your INTERNAL (local) target application(s).";
     delimiter; INTERNAL_DIAGNOSTIC] ++ lines ++
    ["INTERNAL communication diagnostics completed."; "1 out of 2 URLs could not be reached."].
Proof.
  intros UA. destruct (@ping_report UA (fun t => http_test a_network (Some t)) (@rev string) "https://a, b") as (lines & Heq & _).
  - symmetry. apply Permutation_rev.
  - exists lines. exact Heq.
Defined.
