(* ===== verification/Container.v ===== *)
(** * The composition root

    Models src/src/container.ts: the registrations, the constructor dependencies of the
    classes they name, and what the middleware of each command adds before its handler
    resolves its entry point.  The container itself is a library: what is stated here is about
    the graph it is given (every token that is asked for has a provider, and following
    dependencies ends). *)
From S2P Require Import Prelude Json Options.

(** ** Registrations *)

Inductive provider : Type :=
| UseValue
| UseClass (class : string)
| UseFactory (resolves : list string).

Record registration : Type := mk_reg { rg_token : string; rg_provider : provider; rg_singleton : bool }.

Definition single (token class : string) : registration := mk_reg token (UseClass class) true.

(** The engine of the repeater and the wizard's tests. *)
Definition engine_registrations : list registration :=
  [ mk_reg "tsyringe" UseValue false;
    mk_reg "CliInfo" UseValue false;
    single "RequestExecutor" "HttpRequestExecutor";
    single "Certificates" "CertificatesLoader";
    single "CertificatesCache" "DefaultCertificatesCache";
    single "CertificatesResolver" "DefaultCertificatesResolver";
    single "RequestExecutor" "WsRequestExecutor";
    single "VirtualScripts" "DefaultVirtualScripts";
    single "StartupManager" "DefaultStartupManager";
    single "RuntimeDetector" "DefaultRuntimeDetector";
    single "RepeaterServer" "DefaultRepeaterServer";
    single "RepeaterCommandHub" "DefaultRepeaterCommandHub";
    single "Tokens" "FSTokens";
    single "Connectivity" "HTTPConnectivity";
    single "Connectivity" "TracerouteConnectivity";
    single "Connectivity" "AuthConnectivity" ].

(** The services of the commands. *)
Definition service_registrations : list registration :=
  [ single "BreakpointFactory" "DefaultBreakpointFactory";
    single "PollingFactory" "DefaultPollingFactory";
    single "DiscoveryPollingFactory" "DefaultDiscoveryPollingFactory";
    single "HostUpdateJobStatusPollingFactory" "DefaultHostUpdateJobStatusPollingFactory";
    single "Scans" "RestScans";
    single "Discoveries" "RestDiscoveries";
    single "EntryPoints" "RestEntryPoints";
    single "Archives" "RestArchives";
    single "ParserFactory" "DefaultParserFactory";
    single "ScriptLoader" "FSScriptLoader";
    single "ConnectivityAnalyzer" "DefaultConnectivityAnalyzer";
    single "Platform" "ReadlinePlatform";
    single "ConfigReader" "DefaultConfigReader";
    mk_reg "CliBuilder" (UseFactory ["CliInfo"; "ConfigReader"]) false;
    mk_reg "ProxyFactory" (UseClass "DefaultProxyFactory") false;
    single "RepeaterLauncher" "ServerRepeaterLauncher";
    single "RepeaterTools" "DefaultRepeaterTools";
    mk_reg "RepeaterRunCommandOptions" UseValue false ].

Definition container : list registration := engine_registrations ++ service_registrations.

(** ** Dependencies *)

(** What a constructor parameter asks for: one instance, all instances, or a proxy that
    resolves a class on first use. *)
Inductive dependency : Type :=
| Inject (token : string)
| InjectAll (token : string)
| InjectDelayed (token : string).
#[export] Instance dependency_eq_dec : EqDecision dependency.
Proof. solve_decision. Defined.
Definition asked (d : dependency) : string :=
  match d with Inject t | InjectAll t | InjectDelayed t => t end.

Definition deps_DefaultPollingFactory := [Inject "Scans"; Inject "BreakpointFactory"].
Definition deps_RestScans := [InjectDelayed "CliInfo"; Inject "ProxyFactory"; Inject "RestScansOptions"].
Definition deps_FSScriptLoader := [Inject "VirtualScripts"].
Definition deps_RestArchives := [Inject "ProxyFactory"; Inject "RestArchivesOptions"].
Definition deps_DefaultRepeaterCommandHub := [Inject "VirtualScripts"; InjectAll "RequestExecutor"].
Definition deps_DefaultRepeaterServer := [Inject "ProxyFactory"; Inject "DefaultRepeaterServerOptions"].
Definition deps_ServerRepeaterLauncher :=
  [Inject "RuntimeDetector"; Inject "VirtualScripts"; Inject "RepeaterServer"; Inject "StartupManager";
   Inject "RepeaterCommandHub"; Inject "Certificates"; Inject "ScriptLoader";
   Inject "RequestExecutorOptions"; InjectDelayed "CliInfo"].
Definition deps_DefaultRuntimeDetector := [InjectDelayed "CliInfo"].
Definition deps_RestEntryPoints := [Inject "ProxyFactory"; Inject "RestProjectsOptions"].
Definition deps_DefaultHostUpdateJobStatusPollingFactory := [Inject "EntryPoints"].
Definition deps_AuthConnectivity := [Inject "Tokens"].
Definition deps_DefaultConnectivityAnalyzer :=
  [Inject "ConnectivityUrls"; Inject "Options"; InjectAll "Connectivity"].
Definition deps_ReadlinePlatform := [Inject "ConnectivityUrls"; Inject "Tokens"; Inject "ConnectivityAnalyzer"].
Definition deps_WsRequestExecutor :=
  [Inject "ProxyFactory"; Inject "RequestExecutorOptions"; Inject "CertificatesCache"; Inject "CertificatesResolver"].
Definition deps_HttpRequestExecutor :=
  [Inject "VirtualScripts"; Inject "RequestExecutorOptions"; Inject "CertificatesCache"; Inject "CertificatesResolver"].
Definition deps_DefaultCertificatesResolver := [Inject "CertificatesCache"].
Definition deps_RestDiscoveries := [InjectDelayed "CliInfo"; Inject "ProxyFactory"; Inject "RestDiscoveryOptions"].
Definition deps_DefaultDiscoveryPollingFactory := [Inject "Discoveries"].
Definition deps_DefaultRepeaterTools := [Inject "RepeaterRunCommandOptions"].
Definition deps_BrightMcpServer := [InjectDelayed "CliInfo"; Inject "RepeaterTools"].

(** Classes that are not listed have a constructor without parameters. *)
Definition classes : list (string * list dependency) :=
  [ ("DefaultPollingFactory", deps_DefaultPollingFactory); ("RestScans", deps_RestScans);
    ("FSScriptLoader", deps_FSScriptLoader); ("RestArchives", deps_RestArchives);
    ("DefaultRepeaterCommandHub", deps_DefaultRepeaterCommandHub);
    ("DefaultRepeaterServer", deps_DefaultRepeaterServer);
    ("ServerRepeaterLauncher", deps_ServerRepeaterLauncher);
    ("DefaultRuntimeDetector", deps_DefaultRuntimeDetector); ("RestEntryPoints", deps_RestEntryPoints);
    ("DefaultHostUpdateJobStatusPollingFactory", deps_DefaultHostUpdateJobStatusPollingFactory);
    ("AuthConnectivity", deps_AuthConnectivity);
    ("DefaultConnectivityAnalyzer", deps_DefaultConnectivityAnalyzer);
    ("ReadlinePlatform", deps_ReadlinePlatform); ("WsRequestExecutor", deps_WsRequestExecutor);
    ("HttpRequestExecutor", deps_HttpRequestExecutor);
    ("DefaultCertificatesResolver", deps_DefaultCertificatesResolver);
    ("RestDiscoveries", deps_RestDiscoveries);
    ("DefaultDiscoveryPollingFactory", deps_DefaultDiscoveryPollingFactory);
    ("DefaultRepeaterTools", deps_DefaultRepeaterTools); ("BrightMcpServer", deps_BrightMcpServer) ].
Definition class_deps (class : string) : list dependency := OMap.get class classes ?? [].

(** ** Commands *)

(** For each command: the values its middleware registers, and what its handler resolves (a
    token, or the class itself). *)
Record wiring : Type := mk_wiring { wi_command : string; wi_registers : list string; wi_resolves : list dependency; wi_class : option string }.

Definition resolves (command : string) (registers tokens : list string) : wiring :=
  mk_wiring command registers (Inject <$> tokens) None.

Definition wirings : list wiring :=
  [ resolves "repeater [options]" ["RequestExecutorOptions"; "DefaultRepeaterServerOptions"] ["RepeaterLauncher"];
    resolves "version" [] [];
    resolves "scan:polling [options] <scanId>" ["RestScansOptions"] ["PollingFactory"];
    resolves "scan:run [options]" ["RestScansOptions"] ["Scans"];
    resolves "scan:retest [options] <scanId>" ["RestScansOptions"] ["Scans"];
    resolves "scan:stop [options] <scanId>" ["RestScansOptions"] ["Scans"];
    resolves "discovery:run [options]" ["RestDiscoveryOptions"] ["Discoveries"];
    resolves "discovery:stop [options] <discoveryId>" ["RestDiscoveryOptions"] ["Discoveries"];
    resolves "discovery:rerun [options] <discoveryId>" ["RestDiscoveryOptions"] ["Discoveries"];
    resolves "discovery:polling [options] <discoveryId>" ["RestDiscoveryOptions"] ["DiscoveryPollingFactory"];
    resolves "entrypoints:update-host-polling [options] <jobId>" ["RestProjectsOptions"]
      ["HostUpdateJobStatusPollingFactory"];
    resolves "archive:upload [options] <file>" ["RestArchivesOptions"] ["ParserFactory"; "Archives"];
    resolves "configure [options]" ["Options"; "ConnectivityUrls"] ["Platform"];
    resolves "entrypoints:list [options]" ["RestProjectsOptions"] ["EntryPoints"];
    resolves "entrypoints:update-host [options]" ["RestProjectsOptions"] ["EntryPoints"];
    mk_wiring "mcp [options]" [] [] (Some "BrightMcpServer") ].

(** The container when the handler of a command runs. *)
Definition container_of (w : wiring) : list registration :=
  container ++ ((fun t => mk_reg t UseValue false) <$> wi_registers w).

(** ** What can be constructed *)

Definition providers (R : list registration) (token : string) : list provider :=
  rg_provider <$> List.filter (fun r => rg_token r === token) R.

Definition provider_deps (p : provider) : list dependency :=
  match p with
  | UseValue => []
  | UseClass c => class_deps c
  | UseFactory tokens => Inject <$> tokens
  end.

(** Asking for a token succeeds after finitely many steps: it is registered, for one instance
    without ambiguity, and so is all that its providers ask for. *)
Inductive constructible (R : list registration) : dependency -> Prop :=
| constructible_intro d :
    providers R (asked d) <> [] ->
    (forall t, d = Inject t -> length (providers R t) = 1) ->
    (forall p d', p ∈ providers R (asked d) -> d' ∈ provider_deps p -> constructible R d') ->
    constructible R d.

Fixpoint check_deps (fuel : nat) (R : list registration) (d : dependency) : bool :=
  match fuel with
  | O => false
  | S fuel =>
      let ps := providers R (asked d) in
      negb (bool_decide (length ps = 0)) &&
      (match d with Inject _ => bool_decide (length ps = 1) | _ => true end) &&
      forallb (fun p => forallb (check_deps fuel R) (provider_deps p)) ps
  end.

Lemma check_deps_sound fuel R d : check_deps fuel R d = true -> constructible R d.
Proof.
  revert d. induction fuel as [|fuel IH]; intros d; simpl; [done|].
  rewrite !andb_true_iff, negb_true_iff, bool_decide_eq_false, forallb_forall.
  intros [[Hne H1] Hall]. constructor.
  - intros Hnil. by rewrite Hnil in Hne.
  - intros t ->. by rewrite bool_decide_eq_true in H1.
  - intros p d' Hp%list_elem_of_In Hd. specialize (Hall p Hp). rewrite forallb_forall in Hall.
    apply IH, Hall. by apply list_elem_of_In.
Qed.

(** Everything a command asks of the container. *)
Definition wiring_deps (w : wiring) : list dependency :=
  wi_resolves w ++ (match wi_class w with Some c => class_deps c | None => [] end).

(** The composition root is complete: for every command of the program, in order, all that
    its handler resolves can be constructed from the registrations and those of its own
    middleware: each token asked for has a provider, exactly one where one instance is asked
    for, and following dependencies ends. Before any command the builder itself can be. *)
Theorem wiring_complete NO_PROXY :
  wi_command <$> wirings = cd_command <$> Options.commands NO_PROXY /\
  constructible container (Inject "CliBuilder") /\
  forall w d, w ∈ wirings -> d ∈ wiring_deps w -> constructible (container_of w) d.
Proof.
  split_and!.
  - reflexivity.
  - apply (check_deps_sound 5). reflexivity.
  - intros w d Hw Hd. apply (check_deps_sound 6).
    assert (forallb (fun w => forallb (check_deps 6 (container_of w)) (wiring_deps w)) wirings = true) as Hall
      by reflexivity.
    rewrite forallb_forall in Hall. apply list_elem_of_In in Hw, Hd. specialize (Hall w Hw).
    rewrite forallb_forall in Hall. by apply Hall.
Qed.

Lemma wiring_complete_witness :
  constructible (container_of (resolves "configure [options]" ["Options"; "ConnectivityUrls"] ["Platform"])) (Inject "Platform").
Proof.
  destruct (wiring_complete None) as (_ & _ & H).
  apply (H (resolves "configure [options]" ["Options"; "ConnectivityUrls"] ["Platform"]));
    apply list_elem_of_In; simpl; tauto.
Defined.

(** The middleware is needed: without it no API client can be built. *)
Example options_come_from_middleware : ~ constructible container (Inject "Scans").
Proof.
  intros H. inversion H as [d Hp _ Hall]; subst.
  assert (constructible container (Inject "RestScansOptions")) as Ho.
  { apply (Hall (UseClass "RestScans")); apply list_elem_of_In; vm_compute; tauto. }
  inversion Ho as [d Hp' _ _]; subst. by apply Hp'.
Qed.
